(* ===== verification/_CoqProject ===== *)
-Q . S2P
Prelude.v
IdLocker.v
GoStrings.v
VolId.v
GoFloat.v
Os.v
SimOs.v
Util.v
FileSystem.v
Beside.v
Allocator.v
QuotaProvider.v
QuotaManager.v
HeldVolumes.v
Recovery.v
Tidy.v
Restart.v
Csi.v
CsiCommon.v
Log.v
GrpcServer.v
Locked.v
MetaStore.v
ControllerServer.v
HostPathApi.v
Base64.v
Json.v
Annotations.v
HostPathClient.v
NodeServer.v
SyncWorker.v
SyncLoop.v
LifeCycle.v
Survival.v
Driver.v
Deployment.v
Liveness.v
HostPathController.v
Objects.v
Informers.v
Predicate.v
Prioritize.v
Bind.v
Scheduling.v
Fleet.v
Admission.v
Extender.v
Scheduler.v
Pprof.v
Display.v
KubectlPlugin.v
