(* ===== verification/Prelude.v ===== *)
(** * hostpathpv-plugin: a verification development

    The program is a Kubernetes storage plugin that hands out directories of local
    XFS disks as volumes, with a project quota on each.  It has four processes.

    - The controller server of the CSI driver records the ids of existing volumes in
      a config map ([MetaStore], [ControllerServer]).
    - On every node the node server ([NodeServer]) places a volume on a disk on its
      first use, through the quota manager ([QuotaManager]) and the quota provider
      ([QuotaProvider]) with its project ids ([Allocator]), and bind-mounts it; the
      sync worker ([SyncWorker], [SyncLoop]) releases the directories of deleted
      volumes and reports usage to the cluster, in annotations ([Annotations],
      [HostPathClient]).  Both roles are started by one program ([Driver]) behind one
      gRPC server ([GrpcServer]).
    - The scheduler extender ([Scheduler]) filters and scores nodes by these
      annotations and binds volumes to nodes ([HostPathController], [Predicate],
      [Prioritize], [Bind], [Extender]).
    - The kubectl plugin prints nodes and volumes as tables ([KubectlPlugin],
      [Display]).

    ** Files

    - [Prelude]: Go's machine integers (a [Z] in range, with the wrap-around written
      out), errors, outcomes (a value, an error or a panic), the state and error
      monad [M] with [defer] and [recover], Hoare triples and invariants over it,
      sorting, reachability, sums over maps.
    - [GoStrings], [GoFloat], [Base64], [Json]: the standard library of Go as far as
      the program uses it: hex, decimal and path functions, float64 as rounded
      rationals, base64, and JSON with a parser for the full syntax.
    - [Os], [SimOs]: the operating system as a class of calls on an abstract world,
      its documented laws, and a small instance in memory on which the witnesses run;
      [FileSystem] has the laws of what the calls leave alone, on which restarts rely,
      and [Beside] those of a machine whose world also has a cluster beside its disks.
    - [IdLocker] (pkg/util/idlocker.go), [VolId] (volid.go), [Util] (util.go),
      [Log] (log.go).
    - [Allocator], [QuotaProvider], [QuotaManager]
      (pkg/csi-plugin/hostpath/quota-manager): the Go interfaces AllocatorInterface,
      LinuxVolumeQuotaProvider and QuotaManagerInterface are classes; each client is
      proved against the laws of the layer below, and each layer is an instance.
      [HeldVolumes] states what any quota manager promises its clients about the set
      of volumes it holds, proves it of the XFS manager, and types that manager.
    - [Recovery] (a start against what is on the disks), [Tidy] (what calls do to disks
      that hold volumes only), [Restart] (calls and starts of the manager, interleaved).
    - [Csi], [CsiCommon] (csi-common, util/validate.go), [Locked] (the lock pattern
      of the handlers), [MetaStore], [ControllerServer], [NodeServer], [SyncWorker],
      [SyncLoop] (the timer and the select loop of syncworker.go), all of
      pkg/csi-plugin/hostpath.
    - [GrpcServer] (csi-common/server.go and the default servers: the services as
      types of calls, what a server registers, its wait group), [Driver] (driver.go,
      identityserver.go, util/config.go, cmd/csi-plugin), [Liveness]
      (pkg/csi-plugin/liveness).
    - [LifeCycle]: controller, node server and worker as one system of interleaved
      calls; [Deployment]: the processes that [Driver.Run] starts are such a system;
      [Survival]: that system over the XFS manager, with new starts of its processes.
    - [HostPathApi], [Annotations], [HostPathClient], [HostPathController]
      (pkg/hostpathclient), with an API server that applies JSON patches; [Objects]
      (object.go and the interface metav1.Object of the cached types), [Informers]
      (informer.go, the informers of controller.go and the vendored queue between them
      and the server).
    - [Predicate], [Prioritize], [Bind], [Extender] (pkg/extender-scheduler),
      [Scheduler] (cmd/extender-scheduler with the plugins it registers), [Pprof]
      (pkg/extender-scheduler/routes, which no process uses), [Scheduling]
      (binds, watch updates and reports of the nodes as one system).
    - [Fleet] puts [Scheduling] and one [Survival] system per node together, under one
      controller; [Admission] follows the room of a node's disks from the sync worker's
      report through the extender to the placement on the node.
    - [Display] (pkg/kubectl-plugin/display.go), [KubectlPlugin] (hostpathpv_get.go,
      the helpers and the options of the get command).

    A component's state is a record with the source's fields, its methods are
    computations in [M] with the source's names (a prefix such as [xfs_] or [hp_]
    tells an implementation from the class method), a Go error is [Fail], a panic
    [Panic].  Calls of the logger inside the components are left out, and so is the
    mutex of a structure whose methods hold it from begin to end: such a method is one
    step, and what several clients do is an interleaving of steps.

    ** What is proved

    - The life of a volume: the servers and the worker, interleaved call by call,
      refine a machine of five kinds of steps on the sets of existing, placed and
      deleted volumes ([lifecycle_refines]); a durable volume that exists keeps its
      directory whatever the worker read when ([live_volume_kept]); the worker's program
      is one of its runs ([worker_steps_complete]); the processes that [Run] starts are a
      start of that system, also after a restart and with either manager
      ([deployment_keeps_volumes]).
    - One system: with the extender, the watch, the controller and all nodes as one
      machine, the data of a durable volume is on one node, the one that its pods are
      bound to, and the next pod is given the very directory ([data_has_one_home]).
    - Restarts: a start finds exactly the volumes on the disks ([restart_finds_volumes]);
      calls, failing ones included, and starts keep memory and disks in step
      ([volumes_survive_restart]); so, in the whole system with restarts of both
      processes, a recorded durable volume stays in its directory
      ([durable_data_survives]), and the worker can always clean up and come to rest
      ([garbage_collectable]).  The whole program [Run] starts again on the disks of any
      state of this system, with every volume where it was ([Run_restarts_node]).  A directory that is no volume's keeps the manager from
      starting ([stray_directory_disables]).
    - Quotas: no operation overbooks a disk or loses track of an allocation
      ([quota_books_balance]); the manager keeps its type from any start on
      ([manager_stays_typed]); placing picks the enabled disk with the most room and
      releasing restores the books; the provider's ids are exactly the allocated
      ones, and are read back after a restart; what a failed call rolls back.
    - The CSI handlers: what each success and each error means, that locks are given
      back also on panics, that the served call never panics, and that the meta
      store loses no concurrent update.
    - The driver: what [Run] starts from the flags and why it may exit ([Run_spec]),
      that the methods it claims are those it implements, what the calls of an absent
      role are answered, that the first [CreateVolume] of a started controller is
      served, and that nothing lets the gRPC server's [Wait] return.
    - Identifiers, names of quota directories and annotations: round trips, the last
      through JSON, base64 and the text of the patch as the server parses it, and for a
      node's usage on to the row that the kubectl plugin prints; bounds of the
      encodings and of size rounding over float64.
    - The sync worker: what is released, what is retried, what is reported; that rounds
      converge to the recorded volumes ([rounds_converge]); that its timer loop ends
      exactly when its channel is closed ([JitterUntil_spec]).
    - The scheduler: the extender serves once its caches have synced, the caches mirror
      what lists and watch have reported of every key that is settled, and it is said which
      are not ([caches_mirror_watch], [volume_turn_cut_short], [list_overlooks_waiting]), pods stay with their volumes
      when binds see current caches ([pods_follow_volumes]) and may not otherwise
      ([stale_bind_moves]), filtering is sound and its match of requests and disks is next-fit
      packing and terminates, scores are in range and monotone, binding binds every
      durable volume first.  For one new volume the extender's answer from a current
      report is the answer of the node ([admitted_volume_has_room]); for two it is not,
      since the extender and the node pack in different orders ([admitted_pod_strands]).
    - The kubectl plugin: tables are aligned and complete, sizes fit their columns, the
      get command decides every case.  The logger writes one line per call; the
      liveness gauge follows the last probe.
    - What does not hold is proved as such where the source falls short: an expanded
      volume keeps its kernel limit, a restart forgets allocations, a released volume
      stays in the scheduler's cache, the disable switch is inverted, a failed bind
      is not undone, nil servers are registered, and others.

    ** Bounds and fuel

    The loop of [canNodeMatch] and the JSON parser take fuel: [match_fuel] is proved
    enough ([match_loop_total]), the parser consumes a byte per step and is proved on
    every printed text ([parse_print]).  The loops that run for the life of a process
    (the worker's, the liveness probe's) are functions of the list of events that they
    receive, and statements about them hold for every list.  The search for columns in
    [SyncDisplayersColumeLen] is bounded by 100 in the source.  Every other function is
    structural.

    ** Not modelled

    The gRPC and HTTP servers and the clients of client-go are libraries: what they do
    with the arguments they get (registered services, interceptors, routes, list and
    watch calls) is an argument with documented behaviour as laws, and so are the kernel,
    the API server and the JSON of vendored types.  Of the informers' machinery the queue
    and its processing are modelled from the vendored sources, as far as the informers
    here use them; resync and the reflector's own retries are not, since the period is 0
    and a retry is another list.  The event handlers of the informers only log.  The
    parsing of flags and the command tree (flag, cobra) are left out: a process starts
    from its [Config] or its options.  The entry point of the kubectl plugin only
    builds its command.  The
    laws of the file system are for paths without dots and for a pool without symbolic
    links, and assume that nothing else writes below the pool's root.  Three assumptions
    on the outside are simpler than the outside: an update of the config map that fails
    was not applied ([ConfigMapsLaws]; patches of volumes and nodes may have been, see
    [KubeApiLaws]); a loop over a map visits equal maps in the same order while pods are
    bound ([HostPathControl_laws]), which matters for two cached volumes with one claim
    only; and JSON texts hold the bytes of a string as they are ([Json]), where Go replaces
    what is not UTF-8.

    ** Plan

    What could be joined further: the worker's reports and the informers as steps of
    [Fleet], where the scheduler's caches now change by the watch of [Scheduling] and the
    reports of [Admission] are one at a time; several volumes of a pod in [Admission] for
    disks on which every packing succeeds. *)

From stdpp Require Export base gmap strings list fin_maps numbers sorting.
From Stdlib Require Export ZArith Lia Ascii.

#[export] Set Default Goal Selector "!".
Open Scope Z_scope.

(** ** Machine integers

    A Go integer is a [Z] kept in the range of its type; the conversions of
    the language are the wrap-around functions below ([int] is 64 bits wide
    on the platforms the plugin is built for). *)

Definition u16 (z : Z) : Z := z mod 2 ^ 16.
Definition u32 (z : Z) : Z := z mod 2 ^ 32.
Definition u64 (z : Z) : Z := z mod 2 ^ 64.
Definition i64 (z : Z) : Z := (z + 2 ^ 63) mod 2 ^ 64 - 2 ^ 63.

Definition in_u16 (z : Z) : Prop := 0 <= z < 2 ^ 16.
Definition in_u32 (z : Z) : Prop := 0 <= z < 2 ^ 32.
Definition in_u64 (z : Z) : Prop := 0 <= z < 2 ^ 64.
Definition in_i64 (z : Z) : Prop := - 2 ^ 63 <= z < 2 ^ 63.

Create HintDb go_int.

Lemma u16_range z : in_u16 (u16 z).
Proof. apply Z.mod_pos_bound; lia. Qed.

Lemma u32_range z : in_u32 (u32 z).
Proof. apply Z.mod_pos_bound; lia. Qed.

Lemma u64_range z : in_u64 (u64 z).
Proof. apply Z.mod_pos_bound; lia. Qed.

Lemma i64_range z : in_i64 (i64 z).
Proof.
  unfold in_i64, i64.
  pose proof (Z.mod_pos_bound (z + 2 ^ 63) (2 ^ 64)). lia.
Qed.

#[export] Hint Resolve u16_range u32_range u64_range i64_range : go_int.

Lemma u16_small z : in_u16 z -> u16 z = z.
Proof. intros H. by apply Z.mod_small. Qed.

Lemma u32_small z : in_u32 z -> u32 z = z.
Proof. intros H. by apply Z.mod_small. Qed.

Lemma u64_small z : in_u64 z -> u64 z = z.
Proof. intros H. by apply Z.mod_small. Qed.

Lemma i64_u64 z : i64 (u64 z) = i64 z.
Proof. unfold i64, u64. by rewrite Z.add_mod_idemp_l. Qed.

Lemma i64_small z : in_i64 z -> i64 z = z.
Proof. unfold in_i64, i64. intros H. rewrite Z.mod_small; lia. Qed.

(** ** Errors

    [Errorf] stands for [errors.New] and [fmt.Errorf], [StatusError] for the
    [status.Error] of gRPC, [SysErr] for an error that a call outside the
    program returns: of such an error the program inspects only whether it
    reports a missing file or object ([os.IsNotExist], [apierrs.IsNotFound])
    and its text. *)

Inductive code : Set :=
  | Canceled | Unknown | InvalidArgument | DeadlineExceeded | NotFound
  | AlreadyExists | PermissionDenied | ResourceExhausted
  | FailedPrecondition | Aborted | OutOfRange | Unimplemented | Internal
  | Unavailable | DataLoss | Unauthenticated.

Inductive error : Set :=
  | Errorf (msg : string)
  | StatusError (c : code) (msg : string)
  | ErrNotInRange (ValidPrjID : string)
  | SysErr (not_exist : bool) (text : string).

#[global] Instance code_eq_dec : EqDecision code.
Proof. solve_decision. Defined.

#[global] Instance error_eq_dec : EqDecision error.
Proof. solve_decision. Defined.

Definition IsNotExist (e : error) : bool :=
  match e with SysErr b _ => b | _ => false end.

Definition code_text (c : code) : string :=
  match c with
  | Canceled => "Canceled" | Unknown => "Unknown" | InvalidArgument => "InvalidArgument"
  | DeadlineExceeded => "DeadlineExceeded" | NotFound => "NotFound"
  | AlreadyExists => "AlreadyExists" | PermissionDenied => "PermissionDenied"
  | ResourceExhausted => "ResourceExhausted" | FailedPrecondition => "FailedPrecondition"
  | Aborted => "Aborted" | OutOfRange => "OutOfRange" | Unimplemented => "Unimplemented"
  | Internal => "Internal" | Unavailable => "Unavailable" | DataLoss => "DataLoss"
  | Unauthenticated => "Unauthenticated"
  end.

(** [err.Error()] *)
Definition error_text (e : error) : string :=
  match e with
  | Errorf msg => msg
  | StatusError c msg => "rpc error: code = " +:+ code_text c +:+ " desc = " +:+ msg
  | ErrNotInRange v =>
      "provided projectID is not in the valid range. The range of valid ports is " +:+ v
  | SysErr _ text => text
  end.

(** ** Outcomes and stateful code

    A call returns, fails with an error value, or panics.  Stateful code is a
    function from the state to an outcome and the state it leaves, so that
    what a failing call already changed stays changed, as it does in Go. *)

Inductive outcome (A : Type) : Type :=
  | Ok (a : A)
  | Fail (e : error)
  | Panic (why : string).
Arguments Ok {A} a.
Arguments Fail {A} e.
Arguments Panic {A} why.

Definition M (S A : Type) : Type := S -> outcome A * S.

Definition ret {S A} (a : A) : M S A := fun s => (Ok a, s).
Definition fail {S A} (e : error) : M S A := fun s => (Fail e, s).
Definition panic {S A} (why : string) : M S A := fun s => (Panic why, s).
Definition bind {S A B} (m : M S A) (f : A -> M S B) : M S B := fun s =>
  match m s with
  | (Ok a, s') => f a s'
  | (Fail e, s') => (Fail e, s')
  | (Panic w, s') => (Panic w, s')
  end.
Definition gets {S A} (f : S -> A) : M S A := fun s => (Ok (f s), s).
Definition modify {S} (f : S -> S) : M S unit := fun s => (Ok tt, f s).

(** [x, err := m()] followed by code that looks at [err] itself. *)
Definition attempt {S A} (m : M S A) : M S (A + error) := fun s =>
  match m s with
  | (Ok a, s') => (Ok (inl a), s')
  | (Fail e, s') => (Ok (inr e), s')
  | (Panic w, s') => (Panic w, s')
  end.

(** [if err != nil { return f(err) }] *)
Definition map_error {S A} (f : error -> error) (m : M S A) : M S A := fun s =>
  match m s with (Fail e, s') => (Fail (f e), s') | r => r end.

(** [defer f()]: [f] runs on every way out of [m], panics included. *)
Definition deferring {S A} (f : S -> S) (m : M S A) : M S A := fun s =>
  let '(r, s') := m s in (r, f s').

(** A call on a part of the state. *)
Definition zoom {S T A} (get : S -> T) (put : T -> S -> S) (m : M T A) : M S A :=
  fun s => let '(r, t) := m (get s) in (r, put t s).

(** A pure fallible computation inside stateful code. *)
Definition lift {S A} (o : outcome A) : M S A := fun s => (o, s).

Declare Scope go_scope.
Delimit Scope go_scope with go.
Notation "'let!' x := m 'in' k" := (bind m (fun x => k))
  (at level 10, x name, m at level 200, k at level 200) : go_scope.
Notation "'let!' ' p := m 'in' k" := (bind m (fun x => match x with p => k end))
  (at level 10, p pattern, m at level 200, k at level 200) : go_scope.
Notation "m ;; k" := (bind m (fun _ => k))
  (at level 100, k at level 200, right associativity) : go_scope.
Open Scope go_scope.

(** [for _, x := range xs { f(x) }], the body stopping the loop when it fails. *)
Fixpoint for_each {S A} (xs : list A) (f : A -> M S unit) : M S unit :=
  match xs with
  | [] => ret tt
  | x :: xs' => f x ;; for_each xs' f
  end.

(** The loop that appends one result per element. *)
Fixpoint collect {S A B} (xs : list A) (f : A -> M S B) : M S (list B) :=
  match xs with
  | [] => ret []
  | x :: xs' => let! y := f x in let! ys := collect xs' f in ret (y :: ys)
  end.

Section monad_lemmas.
Context {S A B : Type}.

Lemma bind_Ok (m : M S A) (f : A -> M S B) s b s' :
  bind m f s = (Ok b, s') ->
  exists a s1, m s = (Ok a, s1) /\ f a s1 = (Ok b, s').
Proof.
  unfold bind. destruct (m s) as [[a | e | w] s1]; intros H;
    [eauto | discriminate..].
Qed.

Lemma map_error_Ok (f : error -> error) (m : M S A) s a s' :
  map_error f m s = (Ok a, s') -> m s = (Ok a, s').
Proof. unfold map_error. by destruct (m s) as [[] ?]. Qed.

Lemma deferring_state (f : S -> S) (m : M S A) s :
  (deferring f m s).2 = f (m s).2.
Proof. unfold deferring. by destruct (m s). Qed.

Lemma deferring_outcome (f : S -> S) (m : M S A) s :
  (deferring f m s).1 = (m s).1.
Proof. unfold deferring. by destruct (m s). Qed.
End monad_lemmas.

(** [preserves I m]: whatever way [m] ends, [I] still holds. *)
Definition preserves {S A} (I : S -> Prop) (m : M S A) : Prop :=
  forall s, I s -> I (m s).2.

Create HintDb go_inv.

Section preserves_lemmas.
Context {S : Type} (I : S -> Prop).

Lemma preserves_ret {A} (a : A) : preserves I (ret a).
Proof. by intros s Hs. Qed.
Lemma preserves_fail {A} e : preserves I (@fail S A e).
Proof. by intros s Hs. Qed.
Lemma preserves_panic {A} w : preserves I (@panic S A w).
Proof. by intros s Hs. Qed.
Lemma preserves_gets {A} (f : S -> A) : preserves I (gets f).
Proof. by intros s Hs. Qed.
Lemma preserves_lift {A} (o : outcome A) : preserves I (lift o).
Proof. by intros s Hs. Qed.
Lemma preserves_modify f : (forall s, I s -> I (f s)) -> preserves I (modify f).
Proof. intros H s Hs. by apply H. Qed.

Lemma preserves_bind {A B} (m : M S A) (f : A -> M S B) :
  preserves I m -> (forall a, preserves I (f a)) -> preserves I (bind m f).
Proof.
  intros Hm Hf s Hs. specialize (Hm s Hs). unfold bind.
  destruct (m s) as [[a | e | w] s1]; [by apply Hf | done..].
Qed.

Lemma preserves_attempt {A} (m : M S A) : preserves I m -> preserves I (attempt m).
Proof.
  intros Hm s Hs. specialize (Hm s Hs). unfold attempt.
  by destruct (m s) as [[a | e | w] s1].
Qed.

Lemma preserves_deferring {A} f (m : M S A) :
  preserves I m -> (forall s, I s -> I (f s)) -> preserves I (deferring f m).
Proof. intros Hm Hf s Hs. rewrite deferring_state. by apply Hf, Hm. Qed.

Lemma preserves_for_each {A} (xs : list A) (f : A -> M S unit) :
  (forall x, x ∈ xs -> preserves I (f x)) -> preserves I (for_each xs f).
Proof.
  induction xs as [|x xs IH]; simpl; intros H; [apply preserves_ret |].
  apply preserves_bind.
  - apply H. by left.
  - intros _. apply IH. intros y Hy. apply H. by right.
Qed.
End preserves_lemmas.

#[export] Hint Resolve preserves_ret preserves_fail preserves_panic
  preserves_gets preserves_lift preserves_modify preserves_bind
  preserves_attempt preserves_deferring preserves_for_each : go_inv.

(** [hoare I m Q E]: from a state in [I], [m] returns [a] in a state of [Q a], or
    ends in a state of [E]: of [E (Some e)] when it fails with [e], of [E None]
    when it panics. *)
Definition hoare {S A} (I : S -> Prop) (m : M S A) (Q : A -> S -> Prop)
    (E : option error -> S -> Prop) : Prop :=
  forall s, I s ->
    match m s with
    | (Ok a, s') => Q a s'
    | (Fail e, s') => E (Some e) s'
    | (Panic _, s') => E None s'
    end.

(** The part of the state that [B] speaks of is as before, however [m] ends. *)
Definition frames {S A} (B : S -> Prop) (m : M S A) : Prop :=
  hoare B m (fun _ => B) (fun _ => B).

Section hoare_lemmas.
Context {S : Type}.
Implicit Types (I B : S -> Prop) (E : option error -> S -> Prop).

Lemma hoare_preserves {A} I (m : M S A) : preserves I m <-> frames I m.
Proof.
  split; intros Hm s Hs; specialize (Hm s Hs); by destruct (m s) as [[a | e | w] s'].
Qed.

Lemma hoare_ret {A} I (a : A) (Q : A -> S -> Prop) E : (forall s, I s -> Q a s) -> hoare I (ret a) Q E.
Proof. intros HQ s Hs. by apply HQ. Qed.

Lemma hoare_fail {A} I e (Q : A -> S -> Prop) E : (forall s, I s -> E (Some e) s) -> hoare I (fail e) Q E.
Proof. intros HE s Hs. by apply HE. Qed.

Lemma hoare_panic {A} I w (Q : A -> S -> Prop) E : (forall s, I s -> E None s) -> hoare I (panic w) Q E.
Proof. intros HE s Hs. by apply HE. Qed.

Lemma hoare_gets {A} I (f : S -> A) Q E : (forall s, I s -> Q (f s) s) -> hoare I (gets f) Q E.
Proof. intros HQ s Hs. by apply HQ. Qed.

Lemma hoare_modify I f (Q : unit -> S -> Prop) E : (forall s, I s -> Q tt (f s)) -> hoare I (modify f) Q E.
Proof. intros HQ s Hs. by apply HQ. Qed.

Lemma hoare_bind {A C} I (m : M S A) (f : A -> M S C) R Q E :
  hoare I m R E -> (forall a, hoare (R a) (f a) Q E) -> hoare I (bind m f) Q E.
Proof.
  intros Hm Hf s Hs. specialize (Hm s Hs). unfold bind.
  destruct (m s) as [[a | e | w] s']; [by apply Hf | done..].
Qed.

(** A read of the state, and what follows knows what it saw. *)
Lemma hoare_gets_bind {A C} I (f : S -> A) (k : A -> M S C) Q E :
  (forall a, hoare (fun s => I s /\ f s = a) (k a) Q E) -> hoare I (bind (gets f) k) Q E.
Proof. intros Hk s Hs. by apply (Hk (f s) s). Qed.

Lemma hoare_attempt {A} I (m : M S A) Q E :
  hoare I m (fun a => Q (inl a)) (fun o => match o with Some e => Q (inr e) | None => E None end) ->
  hoare I (attempt m) Q E.
Proof.
  intros Hm s Hs. specialize (Hm s Hs). unfold attempt. by destruct (m s) as [[a | e | w] s'].
Qed.

Lemma hoare_lift {A} I (o : outcome A) (Q : A -> S -> Prop) E :
  (forall s, I s -> match o with Ok a => Q a s | Fail e => E (Some e) s | Panic _ => E None s end) ->
  hoare I (lift o) Q E.
Proof. intros HQ s Hs. specialize (HQ s Hs). by destruct o. Qed.

Lemma hoare_weaken {A} (I I' : S -> Prop) (m : M S A) Q Q' E E' :
  hoare I m Q E -> (forall s, I' s -> I s) -> (forall a s, Q a s -> Q' a s) ->
  (forall o s, E o s -> E' o s) -> hoare I' m Q' E'.
Proof.
  intros Hm HI HQ HE s Hs. specialize (Hm s (HI s Hs)).
  destruct (m s) as [[a | e | w] s']; auto.
Qed.

(** What [m] frames, whatever it returns. *)
Lemma hoare_frames {A} B (m : M S A) I Q E :
  frames B m -> (forall s, I s -> B s) -> (forall a s, B s -> Q a s) ->
  (forall o s, B s -> E o s) -> hoare I m Q E.
Proof. intros. by eapply hoare_weaken. Qed.

Lemma hoare_collect {A C} I (xs : list A) (f : A -> M S C) :
  (forall x, frames I (f x)) -> frames I (collect xs f).
Proof.
  intros Hf. induction xs as [|x xs IH]; simpl; [by apply hoare_ret |].
  eapply hoare_bind; [apply Hf |]. intros y. eapply hoare_bind; [apply IH |].
  intros ys. by apply hoare_ret.
Qed.

Lemma hoare_map_error {A} I f (m : M S A) Q E :
  hoare I m Q (fun o s => E (match o with Some e => Some (f e) | None => None end) s) ->
  hoare I (map_error f m) Q E.
Proof.
  intros Hm s Hs. specialize (Hm s Hs). unfold map_error. by destruct (m s) as [[a | e | y] s'].
Qed.

Lemma preserves_map_error {A} I f (m : M S A) : preserves I m -> preserves I (map_error f m).
Proof. intros Hm s Hs. specialize (Hm s Hs). unfold map_error. by destruct (m s) as [[] ?]. Qed.

Lemma hoare_modify_bind {C} I f (k : M S C) J Q E :
  (forall s, I s -> J (f s)) -> hoare J k Q E -> hoare I (modify f ;; k) Q E.
Proof. intros Hf Hk s Hs. apply (Hk (f s) (Hf s Hs)). Qed.

Lemma hoare_pure {A} I (phi : Prop) (m : M S A) Q E :
  (phi -> hoare I m Q E) -> hoare (fun s => I s /\ phi) m Q E.
Proof. intros Hm s [Hs Hp]. by apply Hm. Qed.

Lemma hoare_run {A} I (m : M S A) Q E s r s' :
  hoare I m Q E -> m s = (r, s') -> I s ->
  match r with Ok a => Q a s' | Fail e => E (Some e) s' | Panic _ => E None s' end.
Proof. intros Hm Em Hs. specialize (Hm s Hs). rewrite Em in Hm. by destruct r. Qed.
End hoare_lemmas.

(** ** Loops *)

(** [m] does not fail. *)
Definition total {S A} (I : S -> Prop) (m : M S A) (Q : A -> S -> Prop) : Prop := hoare I m Q (fun _ _ => False).

(** [m] keeps [I] when it succeeds. *)
Definition ok_keeps {S A} (I : S -> Prop) (m : M S A) : Prop := forall s a s', I s -> m s = (Ok a, s') -> I s'.

Section loop_lemmas.
Context {S A : Type}.

Lemma total_for_each (I : list A -> S -> Prop) (f : A -> M S unit) xs :
  (forall pre x post, xs = pre ++ x :: post -> total (I pre) (f x) (fun _ => I (pre ++ [x]))) ->
  total (I []) (for_each xs f) (fun _ => I xs).
Proof.
  intros Hf. enough (Hg : forall post pre, xs = pre ++ post -> total (I pre) (for_each post f) (fun _ => I xs)) by by apply Hg.
  induction post as [|x post IH]; intros pre E; cbn [for_each].
  - apply hoare_ret. by rewrite E, app_nil_r.
  - eapply hoare_bind; [by apply (Hf pre x post) |]. intros u. apply IH. by rewrite E, <- app_assoc.
Qed.

Lemma for_each_map {B} (g : A -> B) (f : B -> M S unit) xs : for_each (map g xs) f = for_each xs (fun x => f (g x)).
Proof. induction xs as [|x xs IH]; [done |]. cbn. by rewrite IH. Qed.

Lemma total_frames {B} I (m : M S B) : total I m (fun _ => I) -> frames I m.
Proof. intros Hm. by eapply hoare_weaken. Qed.

Lemma total_collect {B} I (xs : list A) (f : A -> M S B) :
  (forall x, total I (f x) (fun _ => I)) -> total I (collect xs f) (fun _ => I).
Proof.
  intros Hf. induction xs as [|x xs IH]; cbn [collect]; [by apply hoare_ret |].
  eapply hoare_bind; [apply Hf |]. intros y. eapply hoare_bind; [apply IH |]. intros ys. by apply hoare_ret.
Qed.

(** An element of a loop that has succeeded: what its round has established still
    holds, if the others keep it. *)
Lemma for_each_at (I J : S -> Prop) (f : A -> M S unit) xs x s s' :
  (forall y, y ∈ xs -> ok_keeps I (f y)) -> (forall y, y ∈ xs -> ok_keeps (fun s => I s /\ J s) (f y)) ->
  (forall s1 s2, I s1 -> f x s1 = (Ok tt, s2) -> J s2) -> x ∈ xs -> I s -> for_each xs f s = (Ok tt, s') -> I s' /\ J s'.
Proof.
  intros HI HJ Hx. revert s. induction xs as [|y xs IH]; intros s Hin Hs E; [by apply not_elem_of_nil in Hin |].
  cbn [for_each] in E. apply bind_Ok in E as ([] & s1 & Ey & E).
  assert (Hs1 : I s1) by (eapply (HI y); [by left | exact Hs | exact Ey]).
  apply elem_of_cons in Hin as [-> | Hxs].
  2: { apply (IH ltac:(intros; apply HI; by right) ltac:(intros; apply HJ; by right) s1); done. }
  pose proof (Hx _ _ Hs Ey) as Hj.
  assert (Hrest : ok_keeps (fun s => I s /\ J s) (for_each xs f)).
  { clear -HJ. induction xs as [|z xs IH]; intros t [] t' Ht E; cbn [for_each] in E; [by injection E as <- |].
    apply bind_Ok in E as ([] & t1 & Ez & E). eapply IH; [| | exact E].
    - intros z' Hz'. apply HJ. apply elem_of_cons in Hz' as [-> | Hz']; [by left | by right; right].
    - eapply (HJ z); [by right; left | exact Ht | exact Ez]. }
  by apply (Hrest s1 tt s').
Qed.
End loop_lemmas.

(** [safe m Q]: [m] does not panic, and what it returns satisfies [Q]. *)
Definition safe {S A} (m : M S A) (Q : A -> Prop) : Prop :=
  forall s, match (m s).1 with Ok a => Q a | Fail _ => True | Panic _ => False end.

Section safe_lemmas.
Context {S A B : Type}.

Lemma safe_ret (a : A) (Q : A -> Prop) : Q a -> safe (S := S) (ret a) Q.
Proof. by intros H s. Qed.

Lemma safe_fail e (Q : A -> Prop) : safe (S := S) (fail e) Q.
Proof. done. Qed.

Lemma safe_modify (f : S -> S) (Q : unit -> Prop) : Q tt -> safe (modify f) Q.
Proof. by intros H s. Qed.

Lemma safe_lift (o : outcome A) (Q : A -> Prop) :
  (forall w, o <> Panic w) -> (forall a, o = Ok a -> Q a) -> safe (S := S) (lift o) Q.
Proof. intros Hp Ho s. simpl. destruct o; eauto. by eapply Hp. Qed.

Lemma map_error_safe f (m : M S A) (Q : A -> Prop) : safe m Q -> safe (map_error f m) Q.
Proof. intros Hm s. specialize (Hm s). unfold map_error. by destruct (m s) as [[] ?]. Qed.

Lemma safe_bind (m : M S A) (f : A -> M S B) (Q : A -> Prop) (R : B -> Prop) :
  safe m Q -> (forall a, Q a -> safe (f a) R) -> safe (bind m f) R.
Proof.
  intros Hm Hf s. specialize (Hm s). unfold bind.
  destruct (m s) as [[a | e | w] s1]; simpl in *; [by apply Hf | done..].
Qed.

Lemma safe_weaken (m : M S A) (Q R : A -> Prop) :
  safe m Q -> (forall a, Q a -> R a) -> safe m R.
Proof. intros Hm HQ s. specialize (Hm s). destruct (m s).1; simpl in *; auto. Qed.

Lemma safe_no_panic (m : M S A) (Q : A -> Prop) s w : safe m Q -> (m s).1 <> Panic w.
Proof. intros Hm E. specialize (Hm s). by rewrite E in Hm. Qed.
End safe_lemmas.

(** Splits the outcome of the first stateful call of a hypothesis or goal. *)
Ltac go_step :=
  match goal with
  | H : context [match ?m ?s with (_, _) => _ end] |- _ =>
      let r := fresh "r" in let s' := fresh "s" in let E := fresh "E" in
      destruct (m s) as [r s'] eqn:E
  | |- context [match ?m ?s with (_, _) => _ end] =>
      let r := fresh "r" in let s' := fresh "s" in let E := fresh "E" in
      destruct (m s) as [r s'] eqn:E
  end.

(** Unfolds the monad's operations. *)
Ltac go_unfold :=
  unfold bind, ret, fail, panic, gets, modify, lift, attempt, deferring, zoom in *.

(** ** Steps and traces *)

Section steps.
Context {St : Type} (step : St -> St -> Prop).

(** The states a system reaches from [s0], one step after the other. *)
Inductive reachable (s0 : St) : St -> Prop :=
  | reachable_init : reachable s0 s0
  | reachable_next s s' : reachable s0 s -> step s s' -> reachable s0 s'.

Lemma reachable_invariant (I : St -> Prop) s0 s :
  I s0 -> (forall s s', I s -> step s s' -> I s') -> reachable s0 s -> I s.
Proof. intros H0 Hs. induction 1; eauto. Qed.

Lemma reachable_one a b : step a b -> reachable a b.
Proof. intros Hs. eapply reachable_next; [constructor | done]. Qed.

Lemma reachable_trans a b c : reachable a b -> reachable b c -> reachable a c.
Proof. intros Hab. induction 1; [done |]. by eapply reachable_next. Qed.
End steps.

(** ** sort.Sort

    The sort keeps the order of equal elements; the program only sorts slices
    that it fills in an unspecified order. *)

Section sorting.
Context {A : Type} (less : A -> A -> bool).

Fixpoint sort_insert (x : A) (l : list A) : list A :=
  match l with
  | [] => [x]
  | y :: l' => if less x y then x :: y :: l' else y :: sort_insert x l'
  end.

Definition sort_by (l : list A) : list A := foldl (fun acc x => sort_insert x acc) [] l.

Lemma sort_insert_perm x l : sort_insert x l ≡ₚ x :: l.
Proof.
  induction l as [|y l IH]; simpl; [done |]. destruct (less x y); [done |].
  rewrite IH. constructor.
Qed.

Lemma sort_by_perm l : sort_by l ≡ₚ l.
Proof.
  assert (Hgen : forall acc, foldl (fun acc x => sort_insert x acc) acc l ≡ₚ acc ++ l).
  { induction l as [|x l IH]; intros acc; simpl; [by rewrite app_nil_r |].
    rewrite IH, sort_insert_perm. by apply Permutation_middle. }
  apply Hgen.
Qed.

(** The first element is below no other, when [less] is a strict weak order. *)
Definition head_min (l : list A) : Prop :=
  match l with [] => True | x :: l' => forall y, y ∈ l' -> less y x = false end.

Lemma sort_by_head l :
  (forall x y, less x y = true -> less y x = false) ->
  (forall x y z, less y x = false -> less z y = false -> less z x = false) ->
  head_min (sort_by l).
Proof.
  intros Hasym Htrans. unfold sort_by.
  assert (Hgen : forall acc, head_min acc -> head_min (foldl (fun acc x => sort_insert x acc) acc l));
    [| by apply Hgen].
  induction l as [|x l IH]; intros acc Hacc; simpl; [done |]. apply IH. clear IH.
  destruct acc as [|y acc]; simpl.
  - intros z Hz. by apply not_elem_of_nil in Hz.
  - destruct (less x y) eqn:E; simpl.
    + intros z Hz. apply elem_of_cons in Hz as [-> | Hz]; [by apply Hasym |].
      apply (Htrans x y z); [by apply Hasym | by apply Hacc].
    + intros z Hz. rewrite sort_insert_perm in Hz. apply elem_of_cons in Hz as [-> | Hz]; [done |].
      by apply Hacc.
Qed.
End sorting.

(** ** Strings as byte sequences *)

Definition go_len (s : string) : Z := Z.of_nat (String.length s).

(** [s[a:b]]: panics out of range. *)
Definition go_slice (s : string) (a b : Z) : outcome string :=
  if decide (0 <= a /\ a <= b /\ b <= go_len s)
  then Ok (String.substring (Z.to_nat a) (Z.to_nat (b - a)) s)
  else Panic "slice bounds out of range".

(** ** Sums over finite maps *)

Section map_sum.
Context {K : Type} `{Countable K} {V : Type} (f : V -> Z).

(** The sum of [f] over the values of a map. *)
Definition map_sum (m : gmap K V) : Z := map_fold (fun _ v acc => f v + acc) 0 m.

Lemma map_sum_empty : map_sum ∅ = 0.
Proof. apply map_fold_empty. Qed.

Lemma map_sum_insert m k v : m !! k = None -> map_sum (<[k := v]> m) = f v + map_sum m.
Proof. intros Hk. unfold map_sum.
  rewrite (map_fold_insert_L (fun _ v acc => f v + acc)); [done | intros; lia | done]. Qed.

Lemma map_sum_delete m k v : m !! k = Some v -> map_sum m = f v + map_sum (delete k m).
Proof.
  intros Hk. rewrite <- (insert_delete_id m k v Hk) at 1.
  apply map_sum_insert, lookup_delete_eq.
Qed.

Lemma map_sum_update m k v v' :
  m !! k = Some v -> map_sum (<[k := v']> m) = map_sum m - f v + f v'.
Proof.
  intros Hk. rewrite (map_sum_delete m k v Hk), <- insert_delete_eq.
  rewrite map_sum_insert by apply lookup_delete_eq. lia.
Qed.

Lemma map_sum_nonneg m :
  (forall k v, m !! k = Some v -> 0 <= f v) -> 0 <= map_sum m.
Proof.
  induction m as [|k v m Hk IH] using map_ind; intros Hf.
  - by rewrite map_sum_empty.
  - rewrite map_sum_insert by done.
    assert (0 <= f v) by (apply (Hf k); apply lookup_insert_eq).
    assert (0 <= map_sum m); [|lia].
    apply IH. intros k' v' Hk'. apply (Hf k').
    rewrite lookup_insert_ne; [done | congruence].
Qed.
End map_sum.
