(* ===== verification/IdLocker.v ===== *)
(** * Locks on volume ids: pkg/util/idlocker.go

    [VolumeLocks] is the set of ids with an operation under way, taken by the
    CSI handlers; [OperationLock] counts the operations of each kind on an id.
    The methods of the source run under the structure's mutex, so that each is
    one atomic step here; the last sections interleave such steps of several
    clients. *)

From S2P Require Import Prelude.

(** ** VolumeLocks *)

Record VolumeLocks := mkVolumeLocks { vl_locks : gset string }.

Definition NewVolumeLocks : VolumeLocks := mkVolumeLocks ∅.

Definition TryAcquire (volumeID : string) : M VolumeLocks bool := fun vl =>
  if decide (volumeID ∈ vl_locks vl) then (Ok false, vl)
  else (Ok true, mkVolumeLocks ({[volumeID]} ∪ vl_locks vl)).

Definition Release (volumeID : string) (vl : VolumeLocks) : VolumeLocks :=
  mkVolumeLocks (vl_locks vl ∖ {[volumeID]}).

(** ** OperationLock *)

Abbreviation operation := string (only parsing).

Definition createOp : operation := "create".
Definition deleteOp : operation := "delete".
Definition cloneOpt : operation := "clone".
Definition restoreOp : operation := "restore".
Definition expandOp : operation := "expand".

Record OperationLock := mkOperationLock { ol_locks : gmap operation (gmap string Z) }.

Definition NewOperationLock : OperationLock :=
  mkOperationLock
    (<[createOp := ∅]> (<[deleteOp := ∅]> (<[cloneOpt := ∅]>
      (<[restoreOp := ∅]> (<[expandOp := ∅]> ∅))))).

(** [ol.locks[op][volumeID]] with its presence flag; a missing inner map reads
    as empty. *)
Definition count (op : operation) (volumeID : string) (ol : OperationLock) : option Z :=
  ol_locks ol !! op ≫= fun ids => ids !! volumeID.

(** [ol.locks[op][volumeID] = n]: assigning into a missing map panics. *)
Definition set_count (op : operation) (volumeID : string) (n : Z) : M OperationLock unit :=
  fun ol =>
    match ol_locks ol !! op with
    | Some ids => (Ok tt, mkOperationLock (<[op := <[volumeID := n]> ids]> (ol_locks ol)))
    | None => (Panic "assignment to entry in nil map", ol)
    end.

(** [delete(ol.locks[op], volumeID)] *)
Definition drop_count (op : operation) (volumeID : string) : M OperationLock unit :=
  modify (fun ol => mkOperationLock (alter (delete volumeID) op (ol_locks ol))).

Definition already_exists (article_op volumeID : string) : error :=
  Errorf (article_op +:+ " operation with given id " +:+ volumeID +:+ " already exists").

(** [if _, ok := ol.locks[op][volumeID]; ok { return fmt.Errorf(...) }] *)
Definition refuse_if (op : operation) (article_op volumeID : string) : M OperationLock unit :=
  let! n := gets (count op volumeID) in
  match n with
  | Some _ => fail (already_exists article_op volumeID)
  | None => ret tt
  end.

(** [val := ol.locks[op][volumeID]; ol.locks[op][volumeID] = val + 1] *)
Definition increment (op : operation) (volumeID : string) : M OperationLock unit :=
  let! n := gets (count op volumeID) in
  set_count op volumeID (i64 (default 0 n + 1)).

Definition tryAcquire (op : operation) (volumeID : string) : M OperationLock unit :=
  if decide (op = createOp) then
    refuse_if deleteOp "a Delete" volumeID ;;
    increment createOp volumeID
  else if decide (op = cloneOpt) then
    refuse_if deleteOp "a Delete" volumeID ;;
    refuse_if expandOp "an Expand" volumeID ;;
    increment cloneOpt volumeID
  else if decide (op = deleteOp) then
    refuse_if expandOp "an Expand" volumeID ;;
    refuse_if cloneOpt "a Clone" volumeID ;;
    refuse_if createOp "a Create" volumeID ;;
    refuse_if restoreOp "a Restore" volumeID ;;
    set_count deleteOp volumeID 1
  else if decide (op = restoreOp) then
    refuse_if deleteOp "a Delete" volumeID ;;
    increment restoreOp volumeID
  else if decide (op = expandOp) then
    refuse_if deleteOp "a Delete" volumeID ;;
    refuse_if cloneOpt "a Clone" volumeID ;;
    refuse_if createOp "a Create" volumeID ;;
    set_count expandOp volumeID 1
  else fail (Errorf (op +:+ " operation not supported")).

Definition release (op : operation) (volumeID : string) : M OperationLock unit :=
  if decide (op ∈ [cloneOpt; createOp; expandOp; restoreOp; deleteOp]) then
    let! n := gets (count op volumeID) in
    match n with
    | Some val =>
        set_count op volumeID (i64 (val - 1)) ;;
        (let! n' := gets (count op volumeID) in
         if decide (default 0 n' = 0) then drop_count op volumeID else ret tt)
    | None => ret tt
    end
  else ret tt.

Definition GetSnapshotCreateLock (volumeID : string) := tryAcquire createOp volumeID.
Definition GetCloneLock (volumeID : string) := tryAcquire cloneOpt volumeID.
Definition GetDeleteLock (volumeID : string) := tryAcquire deleteOp volumeID.
Definition GetRestoreLock (volumeID : string) := tryAcquire restoreOp volumeID.
Definition GetExpandLock (volumeID : string) := tryAcquire expandOp volumeID.
Definition ReleaseSnapshotCreateLock (volumeID : string) := release createOp volumeID.
Definition ReleaseCloneLock (volumeID : string) := release cloneOpt volumeID.
Definition ReleaseDeleteLock (volumeID : string) := release deleteOp volumeID.
Definition ReleaseRestoreLock (volumeID : string) := release restoreOp volumeID.
Definition ReleaseExpandLock (volumeID : string) := release expandOp volumeID.

(** ** Concurrent handlers on a VolumeLocks

    A handler takes the lock of its volume, runs, and releases it on the way
    out ([defer cs.VolumeLocks.Release(...)]); a handler that is refused
    returns at once.  [running] maps each running handler to its volume. *)

Module Handlers.
Record state := mkState { locks : VolumeLocks; running : gmap nat string }.

Definition init : state := mkState NewVolumeLocks ∅.

Inductive step : state -> state -> Prop :=
  | enter t v locks' s :
      running s !! t = None ->
      TryAcquire v (locks s) = (Ok true, locks') ->
      step s (mkState locks' (<[t := v]> (running s)))
  | refused t v locks' s :
      running s !! t = None ->
      TryAcquire v (locks s) = (Ok false, locks') ->
      step s (mkState locks' (running s))
  | leave t v s :
      running s !! t = Some v ->
      step s (mkState (Release v (locks s)) (delete t (running s))).

(** The locked ids are exactly those of the running handlers, and no two
    handlers run on one id. *)
Definition inv (s : state) : Prop :=
  (forall v, v ∈ vl_locks (locks s) <-> exists t, running s !! t = Some v) /\
  (forall t1 t2 v, running s !! t1 = Some v -> running s !! t2 = Some v -> t1 = t2).

Lemma handlers_inv_init : inv init.
Proof.
  split; simpl; [| intros; simplify_map_eq].
  intros v. split; [set_solver | intros [t Ht]; simplify_map_eq].
Qed.

Lemma TryAcquire_cases v vl b vl' :
  TryAcquire v vl = (Ok b, vl') ->
  (b = false /\ v ∈ vl_locks vl /\ vl' = vl) \/
  (b = true /\ v ∉ vl_locks vl /\ vl_locks vl' = {[v]} ∪ vl_locks vl).
Proof. unfold TryAcquire. case_decide; intros [= <- <-]; naive_solver. Qed.

Lemma handlers_inv_step s s' : inv s -> step s s' -> inv s'.
Proof.
  intros [Hset Hinj] Hstep. destruct Hstep as [t v l' s Ht Hacq | t v l' s Ht Hacq | t v s Ht].
  - apply TryAcquire_cases in Hacq as [(? & _) | (_ & Hv & Hl)]; [done |].
    assert (Hfree : forall t', running s !! t' <> Some v).
    { intros t' Ht'. apply Hv, Hset. eauto. }
    split; simpl.
    + intros v'. rewrite Hl, elem_of_union, elem_of_singleton, Hset. split.
      * intros [-> | [t' Ht']]; [exists t; by simplify_map_eq |].
        exists t'. rewrite lookup_insert_ne; [done | congruence].
      * intros [t' Ht']. destruct (decide (t = t')); simplify_map_eq; eauto.
    + intros t1 t2 v' H1 H2.
      destruct (decide (t = t1)), (decide (t = t2)); simplify_map_eq; try done;
        [by destruct (Hfree t2) | by destruct (Hfree t1) | eauto].
  - apply TryAcquire_cases in Hacq as [(_ & _ & ->) | (? & _)]; [by split | done].
  - split; simpl.
    + intros v'. rewrite elem_of_difference, elem_of_singleton, Hset. split.
      * intros [[t' Ht'] Hne]. exists t'.
        rewrite lookup_delete_ne; [done | intros ->; congruence].
      * intros [t' Ht'%lookup_delete_Some]. destruct Ht' as [Hne Ht'].
        split; [eauto |]. intros ->. apply Hne. eauto.
    + intros t1 t2 v' [_ H1]%lookup_delete_Some [_ H2]%lookup_delete_Some. eauto.
Qed.

Lemma handlers_reachable_inv s : reachable step init s -> inv s.
Proof. apply reachable_invariant; eauto using handlers_inv_init, handlers_inv_step. Qed.
End Handlers.

(** ** What the OperationLock methods do to the counters *)

Definition operations : list operation := [createOp; cloneOpt; deleteOp; restoreOp; expandOp].

(** The operations whose presence refuses [op], in the order of the checks. *)
Definition conflicts (op : operation) : list operation :=
  if decide (op = createOp) then [deleteOp]
  else if decide (op = cloneOpt) then [deleteOp; expandOp]
  else if decide (op = deleteOp) then [expandOp; cloneOpt; createOp; restoreOp]
  else if decide (op = restoreOp) then [deleteOp]
  else if decide (op = expandOp) then [deleteOp; cloneOpt; createOp]
  else [].

(** The operations that may run several times at once on one id. *)
Definition counted (op : operation) : bool :=
  bool_decide (op ∈ [createOp; cloneOpt; restoreOp]).

(** The five inner maps exist, so that no assignment panics. *)
Definition allocated (ol : OperationLock) : Prop :=
  forall op, op ∈ operations -> is_Some (ol_locks ol !! op).

Lemma NewOperationLock_allocated : allocated NewOperationLock.
Proof.
  intros op Hop. unfold operations in Hop.
  repeat (apply elem_of_cons in Hop as [-> | Hop]; [by eexists |]).
  by apply elem_of_nil in Hop.
Qed.

Lemma count_New op v : count op v NewOperationLock = None.
Proof.
  unfold count, NewOperationLock; simpl.
  repeat (rewrite lookup_insert; case_decide; [by simplify_map_eq |]).
  by rewrite lookup_empty.
Qed.

(** [ol'] is [ol] with the counter of [op] on [v] replaced by [n]. *)
Definition counter_set (op : operation) (v : string) (n : option Z) (ol ol' : OperationLock) : Prop :=
  allocated ol' /\
  forall op' v', count op' v' ol' =
    if decide (op' = op /\ v' = v) then n else count op' v' ol.

Lemma set_count_spec op v n ol :
  allocated ol -> op ∈ operations ->
  exists ol', set_count op v n ol = (Ok tt, ol') /\ counter_set op v (Some n) ol ol'.
Proof.
  intros Hal Hop. unfold set_count. destruct (Hal op Hop) as [ids Hids]. rewrite Hids.
  eexists. split; [done |]. split.
  - intros op' Hop'. simpl. rewrite lookup_insert. case_decide; [by eexists | by apply Hal].
  - intros op' v'. unfold count; simpl. rewrite lookup_insert. case_decide as Hd.
    + subst op'. rewrite Hids; simpl. rewrite lookup_insert.
      case_decide; case_decide; naive_solver.
    + case_decide; [naive_solver | done].
Qed.

Lemma drop_count_spec op v ol :
  allocated ol -> exists ol', drop_count op v ol = (Ok tt, ol') /\ counter_set op v None ol ol'.
Proof.
  intros Hal. unfold drop_count, modify. eexists. split; [done |]. split.
  - intros op' Hop'. simpl. rewrite lookup_alter. specialize (Hal op' Hop').
    case_decide; [subst; destruct (ol_locks ol !! op'); naive_solver | done].
  - intros op' v'. unfold count; simpl. rewrite lookup_alter. case_decide as Hd.
    + subst op'. destruct (ol_locks ol !! op) as [ids |]; simpl; [| by case_decide].
      rewrite lookup_delete. case_decide; case_decide; naive_solver.
    + case_decide; [naive_solver | done].
Qed.

Lemma counter_set_trans op v n m ol1 ol2 ol3 :
  counter_set op v n ol1 ol2 -> counter_set op v m ol2 ol3 -> counter_set op v m ol1 ol3.
Proof.
  intros [_ H1] [Hal H2]. split; [done |]. intros op' v'. rewrite H2, H1.
  by case_decide.
Qed.

Lemma counter_set_self op v n ol ol' :
  counter_set op v n ol ol' -> count op v ol' = n.
Proof. intros [_ H]. rewrite H. by rewrite decide_True. Qed.

Lemma refuse_if_spec op what v ol :
  refuse_if op what v ol =
    (match count op v ol with Some _ => Fail (already_exists what v) | None => Ok tt end, ol).
Proof. unfold refuse_if, bind, gets. by destruct (count op v ol). Qed.

(** The chain of checks that [tryAcquire] runs before it counts. *)
Fixpoint checks (cs : list (operation * string)) (v : string) (k : M OperationLock unit)
    : M OperationLock unit :=
  match cs with
  | [] => k
  | (op, what) :: cs' => refuse_if op what v ;; checks cs' v k
  end.

Lemma checks_spec cs v k ol :
  (exists op e, op ∈ map fst cs /\ is_Some (count op v ol) /\ checks cs v k ol = (Fail e, ol)) \/
  ((forall op, op ∈ map fst cs -> count op v ol = None) /\ checks cs v k ol = k ol).
Proof.
  induction cs as [|[op what] cs IH]; simpl; [right; set_solver |].
  unfold bind. rewrite refuse_if_spec. destruct (count op v ol) eqn:E.
  - left. exists op, (already_exists what v). rewrite E. set_solver.
  - destruct IH as [(op' & e & Hin & Hs & ->) | [Hall ->]].
    + left. exists op', e. set_solver.
    + right. split; [| done]. intros op' [-> | Hin]%elem_of_cons; eauto.
Qed.

(** The counter that a successful [tryAcquire op] leaves. *)
Definition acquired (op : operation) (v : string) (ol : OperationLock) : Z :=
  if counted op then i64 (default 0 (count op v ol) + 1) else 1.

Lemma increment_spec op v ol :
  allocated ol -> op ∈ operations -> counted op = true ->
  exists ol', increment op v ol = (Ok tt, ol') /\
    counter_set op v (Some (acquired op v ol)) ol ol'.
Proof.
  intros Hal Hop Hc. unfold increment, bind, gets, acquired. rewrite Hc.
  by apply set_count_spec.
Qed.

Lemma operations_case (P : operation -> Prop) :
  P createOp -> P cloneOpt -> P deleteOp -> P restoreOp -> P expandOp ->
  forall op, op ∈ operations -> P op.
Proof.
  intros ? ? ? ? ? op Hop. unfold operations in Hop.
  repeat (apply elem_of_cons in Hop as [-> | Hop]; [done |]).
  by apply elem_of_nil in Hop.
Qed.

Lemma conflicts_irrefl op : op ∈ operations -> op ∉ conflicts op.
Proof. revert op. apply operations_case; unfold conflicts; simpl; set_solver. Qed.

(** ** The two outcomes of tryAcquire, and release *)

(** The name under which each refusal reports the operation in the way. *)
Definition named (op : operation) : operation * string :=
  (op, if decide (op = deleteOp) then "a Delete"
       else if decide (op = expandOp) then "an Expand"
       else if decide (op = cloneOpt) then "a Clone"
       else if decide (op = createOp) then "a Create"
       else "a Restore")%string.

Lemma tryAcquire_checks op v :
  op ∈ operations ->
  tryAcquire op v =
    checks (map named (conflicts op)) v
      (if counted op then increment op v else set_count op v 1).
Proof. revert op. by apply operations_case. Qed.

Lemma map_fst_named ops : map fst (map named ops) = ops.
Proof. induction ops; simpl; congruence. Qed.

Lemma tryAcquire_spec op v ol :
  allocated ol -> op ∈ operations ->
  (exists op' e, op' ∈ conflicts op /\ is_Some (count op' v ol) /\
     tryAcquire op v ol = (Fail e, ol)) \/
  ((forall op', op' ∈ conflicts op -> count op' v ol = None) /\
   exists ol', tryAcquire op v ol = (Ok tt, ol') /\
     counter_set op v (Some (acquired op v ol)) ol ol').
Proof.
  intros Hal Hop. rewrite (tryAcquire_checks op v Hop).
  destruct (checks_spec (map named (conflicts op)) v
    (if counted op then increment op v else set_count op v 1) ol)
    as [H | [Hnone ->]]; rewrite map_fst_named in *; [by left | right].
  split; [done |]. destruct (counted op) eqn:Hc.
  - by apply increment_spec.
  - unfold acquired. rewrite Hc. by apply set_count_spec.
Qed.

(** The counter that [release op] leaves. *)
Definition released (op : operation) (v : string) (ol : OperationLock) : option Z :=
  match count op v ol with
  | Some n => if decide (i64 (n - 1) = 0) then None else Some (i64 (n - 1))
  | None => None
  end.

Lemma release_supported op : op ∈ operations -> op ∈ [cloneOpt; createOp; expandOp; restoreOp; deleteOp].
Proof. unfold operations. set_solver. Qed.

Lemma release_spec op v ol :
  allocated ol -> op ∈ operations ->
  exists ol', release op v ol = (Ok tt, ol') /\ counter_set op v (released op v ol) ol ol'.
Proof.
  intros Hal Hop. unfold release. rewrite decide_True by by apply release_supported.
  unfold bind, gets, released. destruct (count op v ol) as [n |] eqn:E.
  2: { exists ol. split; [done |]. split; [done |]. intros op' v'.
       case_decide as Hd; [destruct Hd; congruence | done]. }
  destruct (set_count_spec op v (i64 (n - 1)) ol Hal Hop) as (ol1 & -> & H1).
  rewrite (counter_set_self _ _ _ _ _ H1). simpl. case_decide.
  - destruct (drop_count_spec op v ol1 ltac:(apply H1)) as (ol2 & -> & H2).
    exists ol2. split; [done |]. by eapply counter_set_trans.
  - by exists ol1.
Qed.

(** ** Concurrent clients of an OperationLock

    [active] lists the operations that were granted and not yet released.  A
    client only releases what it was granted.  With [serial] set, clients do
    not start a delete or an expand on an id that already has one under way. *)

Module Clients.
Record state := mkState { lock : OperationLock; active : list (operation * string) }.

Definition init : state := mkState NewOperationLock [].

Definition started (op : operation) (v : string) (a : list (operation * string)) : nat :=
  length (filter (fun p => p = (op, v)) a).

Inductive step (serial : bool) : state -> state -> Prop :=
  | granted op v lock' s :
      op ∈ operations ->
      (serial = true -> counted op = false -> (op, v) ∉ active s) ->
      Z.of_nat (length (active s)) < 2 ^ 63 - 1 ->
      tryAcquire op v (lock s) = (Ok tt, lock') ->
      step serial s (mkState lock' ((op, v) :: active s))
  | refused op v e lock' s :
      op ∈ operations ->
      tryAcquire op v (lock s) = (Fail e, lock') ->
      step serial s (mkState lock' (active s))
  | finished op v lock' rest s :
      op ∈ operations ->
      active s ≡ₚ (op, v) :: rest ->
      release op v (lock s) = (Ok tt, lock') ->
      step serial s (mkState lock' rest).

(** Operations whose counter is the number of clients that hold them. *)
Definition tracked (serial : bool) (op : operation) : Prop :=
  serial = true \/ counted op = true.

Definition tally (n : nat) : option Z :=
  if decide (n = 0%nat) then None else Some (Z.of_nat n).

(** Two operations each of which refuses the other. *)
Definition excludes (op1 op2 : operation) : Prop :=
  op1 ∈ conflicts op2 /\ op2 ∈ conflicts op1.

Record inv (serial : bool) (s : state) : Prop := {
  inv_allocated : allocated (lock s);
  inv_bound : Z.of_nat (length (active s)) < 2 ^ 63;
  inv_tally op v : op ∈ operations -> tracked serial op ->
    count op v (lock s) = tally (started op v (active s));
  inv_exclusive op1 op2 v : op1 ∈ operations -> op2 ∈ operations -> excludes op1 op2 ->
    is_Some (count op1 v (lock s)) -> is_Some (count op2 v (lock s)) -> False
}.

Lemma clients_inv_init serial : inv serial init.
Proof.
  split; simpl.
  - apply NewOperationLock_allocated.
  - lia.
  - intros op v _ _. apply count_New.
  - intros op1 op2 v _ _ _ [n Hn]. by rewrite count_New in Hn.
Qed.

Lemma started_le op v a : (started op v a <= length a)%nat.
Proof. apply length_filter. Qed.

Lemma started_cons op v op' v' a :
  started op' v' ((op, v) :: a) =
    ((if decide (op' = op /\ v' = v) then 1 else 0) + started op' v' a)%nat.
Proof.
  unfold started; simpl. rewrite filter_cons. case_decide; case_decide; simpl; naive_solver.
Qed.

Lemma started_perm op v a a' : a ≡ₚ a' -> started op v a = started op v a'.
Proof. intros Hp. unfold started. by rewrite Hp. Qed.

Lemma started_active op v a : (op, v) ∈ a <-> started op v a <> 0%nat.
Proof.
  unfold started. rewrite length_zero_iff_nil. split.
  - intros Hin Hnil. by apply (filter_nil_not_elem_of _ _ _ Hnil eq_refl).
  - intros Hne. destruct (filter _ a) as [|q qs] eqn:Hf; [done |].
    assert (Hq : q ∈ filter (fun p => p = (op, v)) a) by (rewrite Hf; left).
    by apply list_elem_of_filter in Hq as [-> Hq].
Qed.

Lemma tally_acquired op v l n :
  Z.of_nat n < 2 ^ 63 - 1 ->
  count op v l = tally n ->
  (counted op = false -> n = 0%nat) ->
  Some (acquired op v l) = tally (S n).
Proof.
  intros Hb Hc Hser. unfold acquired. destruct (counted op).
  - rewrite Hc. unfold tally. case_decide; case_decide; simpl; try lia.
    + subst. done.
    + rewrite i64_small by (unfold in_i64; lia). f_equal. lia.
  - rewrite Hser by done. done.
Qed.

Lemma inv_granted serial op v lock' s :
  inv serial s -> op ∈ operations ->
  (serial = true -> counted op = false -> (op, v) ∉ active s) ->
  Z.of_nat (length (active s)) < 2 ^ 63 - 1 ->
  tryAcquire op v (lock s) = (Ok tt, lock') ->
  inv serial (mkState lock' ((op, v) :: active s)).
Proof.
  intros [Hal Hb Ht Hex] Hop Hser Hlen Hacq. destruct s as [l a]; simpl in *.
  destruct (tryAcquire_spec op v l Hal Hop) as [(? & ? & _ & _ & E) | [Hfree (l' & E & Hset)]];
    rewrite E in Hacq; [done |]. injection Hacq as <-.
  destruct Hset as [Hal' Hset].
  split; simpl; [done | lia | |].
  - intros op' v' Hop' Htr. rewrite Hset, started_cons.
    case_decide as Hd; [| by rewrite Ht].
    destruct Hd as [-> ->]. simpl. apply tally_acquired; auto.
    + pose proof (started_le op v a). lia.
    + intros Hc. destruct Htr as [Hs | Hs]; [| congruence].
      specialize (Hser Hs Hc). rewrite started_active in Hser. lia.
  - intros op1 op2 v' H1 H2 [He1 He2]. rewrite !Hset.
    case_decide as Hd1; case_decide as Hd2; intros Hs1 Hs2.
    + destruct Hd1 as [-> ->], Hd2 as [-> _]. by apply (conflicts_irrefl op Hop).
    + destruct Hd1 as [-> ->]. rewrite (Hfree op2 He2) in Hs2. by destruct Hs2.
    + destruct Hd2 as [-> ->]. rewrite (Hfree op1 He1) in Hs1. by destruct Hs1.
    + by apply (Hex op1 op2 v').
Qed.

Lemma tally_released op v l n :
  Z.of_nat (S n) < 2 ^ 63 -> count op v l = tally (S n) -> released op v l = tally n.
Proof.
  intros Hb Hc. unfold released. rewrite Hc. unfold tally at 1.
  rewrite decide_False by done. rewrite i64_small by (unfold in_i64; lia).
  unfold tally. case_decide; case_decide; try lia; [done |]. f_equal. lia.
Qed.

Lemma is_Some_released op v l : is_Some (released op v l) -> is_Some (count op v l).
Proof. unfold released. destruct (count op v l); naive_solver. Qed.

Lemma inv_finished serial op v lock' rest s :
  inv serial s -> op ∈ operations -> active s ≡ₚ (op, v) :: rest ->
  release op v (lock s) = (Ok tt, lock') ->
  inv serial (mkState lock' rest).
Proof.
  intros [Hal Hb Ht Hex] Hop Hperm Hrel. destruct s as [l a]; simpl in *.
  destruct (release_spec op v l Hal Hop) as (l' & E & Hal' & Hset).
  rewrite E in Hrel. injection Hrel as <-.
  assert (Hlen : length a = S (length rest)) by by rewrite Hperm.
  split; simpl; [done | lia | |].
  - intros op' v' Hop' Htr. rewrite Hset.
    specialize (Ht op' v' Hop' Htr).
    rewrite (started_perm op' v' a _ Hperm), started_cons in Ht.
    case_decide as Hd; [| exact Ht]. destruct Hd as [-> ->]. simpl in Ht.
    apply tally_released; [| exact Ht].
    pose proof (started_le op v rest). lia.
  - intros op1 op2 v' H1 H2 He. rewrite !Hset.
    assert (Hmono : forall op' v'', is_Some (if decide (op' = op /\ v'' = v) then
        released op v l else count op' v'' l) -> is_Some (count op' v'' l)).
    { intros op' v''. case_decide as Hd; [| done].
      destruct Hd as [-> ->]. apply is_Some_released. }
    intros Hs1 Hs2. by apply (Hex op1 op2 v'); auto.
Qed.

Lemma clients_inv_step serial s s' : inv serial s -> step serial s s' -> inv serial s'.
Proof.
  intros Hi Hs. destruct Hs as [op v l' s Hop Hser Hlen Hacq | op v e l' s Hop Hacq | op v l' rest s Hop Hp Hrel].
  - by eapply inv_granted.
  - destruct (tryAcquire_spec op v (lock s) (inv_allocated _ _ Hi) Hop)
      as [(? & ? & _ & _ & E) | [_ (? & E & _)]]; rewrite E in Hacq; [| done].
    injection Hacq as _ <-. by destruct s.
  - by eapply inv_finished.
Qed.

Lemma clients_reachable_inv serial s : reachable (step serial) init s -> inv serial s.
Proof. apply reachable_invariant; eauto using clients_inv_init, clients_inv_step. Qed.

(** A client that holds a tracked operation is seen by the counters. *)
Lemma active_counted serial op v s :
  inv serial s -> op ∈ operations -> tracked serial op ->
  (op, v) ∈ active s -> is_Some (count op v (lock s)).
Proof.
  intros Hi Hop Htr Hin%started_active. rewrite (inv_tally _ _ Hi op v Hop Htr).
  unfold tally. by rewrite decide_False.
Qed.

Lemma tracked_counted serial op : counted op = true -> tracked serial op.
Proof. by right. Qed.

Lemma conflicts_operations op op' : op' ∈ conflicts op -> op ∈ operations.
Proof.
  unfold conflicts, operations.
  repeat (case_decide; [subst; set_solver |]). by intros ?%elem_of_nil.
Qed.

Lemma excludes_operations op1 op2 :
  excludes op1 op2 -> op1 ∈ operations /\ op2 ∈ operations.
Proof. intros [H1 H2]. eauto using conflicts_operations. Qed.

(** One granted request, from a computed call. *)
Lemma granted_step serial op v s ol :
  op ∈ operations ->
  (serial = true -> counted op = false -> (op, v) ∉ active s) ->
  Z.of_nat (length (active s)) < 2 ^ 63 - 1 ->
  tryAcquire op v (lock s) = (Ok tt, ol) ->
  reachable (step serial) init s ->
  reachable (step serial) init (mkState ol ((op, v) :: active s)).
Proof. intros. eapply reachable_next; [done |]. by apply granted. Qed.

Lemma finished_step serial op v s rest ol :
  op ∈ operations -> active s ≡ₚ (op, v) :: rest ->
  release op v (lock s) = (Ok tt, ol) ->
  reachable (step serial) init s -> reachable (step serial) init (mkState ol rest).
Proof. intros. eapply reachable_next; [done |]. by eapply finished. Qed.
End Clients.

(** ** Properties *)

(** whatever handlers enter, are refused and leave, in whatever order, at
    most one handler runs on a volume id at any time, and [TryAcquire] refuses
    an id exactly when a handler runs on it: no id stays locked without one. *)
Theorem volume_locks_exclusive s :
  reachable Handlers.step Handlers.init s ->
  (forall t1 t2 v, Handlers.running s !! t1 = Some v -> Handlers.running s !! t2 = Some v -> t1 = t2) /\
  (forall v, (TryAcquire v (Handlers.locks s)).1 = Ok false <->
     exists t, Handlers.running s !! t = Some v).
Proof.
  intros [Hset Hinj]%Handlers.handlers_reachable_inv. split; [done |]. intros v.
  rewrite <- Hset. unfold TryAcquire. by case_decide.
Qed.

Lemma volume_locks_exclusive_witness :
  exists s, reachable Handlers.step Handlers.init s /\
    Handlers.running s !! 1%nat = Some "pvc-1"%string /\
    (TryAcquire "pvc-1" (Handlers.locks s)).1 = Ok false.
Proof.
  assert (Hr : reachable Handlers.step Handlers.init
    (Handlers.mkState (mkVolumeLocks {["pvc-1"]}) {[1%nat := "pvc-1"%string]})).
  { eapply reachable_next; [apply reachable_init |].
    by apply (Handlers.enter 1 "pvc-1" _ Handlers.init). }
  eexists. split; [exact Hr |]. split; [done |].
  apply (volume_locks_exclusive _ Hr). by exists 1%nat.
Defined.

(** [tryAcquire] grants an operation on an id exactly when none of the
    operations it checks is recorded for that id; a refusal leaves every
    counter as it was. *)
Theorem tryAcquire_granted_iff op v ol :
  allocated ol -> op ∈ operations ->
  ((tryAcquire op v ol).1 = Ok tt <->
     forall op', op' ∈ conflicts op -> count op' v ol = None) /\
  ((tryAcquire op v ol).1 <> Ok tt -> (tryAcquire op v ol).2 = ol).
Proof.
  intros Hal Hop.
  destruct (tryAcquire_spec op v ol Hal Hop)
    as [(op' & e & Hin & [n Hn] & ->) | [Hnone (ol' & -> & _)]]; simpl.
  - split; [| done]. split; [done |]. intros H. by rewrite (H _ Hin) in Hn.
  - split; [| done]. by split.
Qed.

Lemma tryAcquire_granted_iff_witness :
  (tryAcquire cloneOpt "pvc-1" NewOperationLock).1 = Ok tt.
Proof.
  apply (tryAcquire_granted_iff cloneOpt "pvc-1" NewOperationLock).
  - apply NewOperationLock_allocated.
  - unfold operations. by right; left.
  - intros op' _. apply count_New.
Defined.

(** the counter of a snapshot, clone or restore operation on an id is the
    number of clients that hold it, and the entry is gone when that number is
    zero. *)
Theorem operation_lock_counts serial s op v :
  reachable (Clients.step serial) Clients.init s ->
  op ∈ operations -> counted op = true ->
  count op v (Clients.lock s) = Clients.tally (Clients.started op v (Clients.active s)).
Proof.
  intros Hr Hop Hc. apply (Clients.inv_tally serial); [by apply Clients.clients_reachable_inv | done |].
  by apply Clients.tracked_counted.
Qed.

(** After one granted request from the initial state. *)
Lemma one_granted serial op v :
  op ∈ operations ->
  reachable (Clients.step serial) Clients.init
    (Clients.mkState (tryAcquire op v NewOperationLock).2 [(op, v)]).
Proof.
  intros Hop. apply (Clients.granted_step serial op v Clients.init); try done.
  - intros _ _. apply not_elem_of_nil.
  - simpl. destruct (tryAcquire_spec op v NewOperationLock NewOperationLock_allocated Hop)
      as [(op' & e & _ & [n Hn] & _) | [_ (ol' & -> & _)]]; [| done].
    by rewrite count_New in Hn.
  - apply reachable_init.
Qed.

Lemma operation_lock_counts_witness :
  count cloneOpt "pvc-1" (tryAcquire cloneOpt "pvc-1" NewOperationLock).2 = Some 1.
Proof.
  apply (operation_lock_counts false
    (Clients.mkState (tryAcquire cloneOpt "pvc-1" NewOperationLock).2 [(cloneOpt, "pvc-1"%string)])).
  - apply one_granted. unfold operations. by right; left.
  - unfold operations. by right; left.
  - reflexivity.
Defined.

(** a second delete is granted on an id that is being deleted, and the
    first of the two to finish frees the id: a clone then starts while a delete
    is still under way. *)
Theorem operation_lock_double_delete :
  exists s v, reachable (Clients.step false) Clients.init s /\
    (deleteOp, v) ∈ Clients.active s /\ (cloneOpt, v) ∈ Clients.active s.
Proof.
  set (v := "pvc-1"%string).
  assert (Hd : deleteOp ∈ operations) by (unfold operations; by right; right; left).
  assert (Hc : cloneOpt ∈ operations) by (unfold operations; by right; left).
  eexists _, v. split; [| split].
  - eapply (Clients.granted_step false cloneOpt v (Clients.mkState _ [(deleteOp, v)]));
      [exact Hc | done | done | |].
    2: { eapply (Clients.finished_step false deleteOp v
           (Clients.mkState _ [(deleteOp, v); (deleteOp, v)])); [exact Hd | reflexivity | |].
         2: { eapply (Clients.granted_step false deleteOp v (Clients.mkState _ [(deleteOp, v)]));
                [exact Hd | done | done | | by apply one_granted].
              vm_compute; reflexivity. }
         vm_compute; reflexivity. }
    vm_compute; reflexivity.
  - by right; left.
  - by left.
Qed.

(** C36: Two operations that refuse each other (a delete and anything else, an expand and
    a clone) are never under way on the same id as long as no client starts a delete or an
    expand on an id that has the same operation under way already - and only as long: the
    lock counts neither of these two, so after two deletes, one of them finished, a clone
    runs together with the other. *)
Theorem operation_lock_exclusive :
  (forall s op1 op2 v, reachable (Clients.step true) Clients.init s -> Clients.excludes op1 op2 ->
     (op1, v) ∈ Clients.active s -> (op2, v) ∉ Clients.active s) /\
  (exists s v, reachable (Clients.step false) Clients.init s /\ Clients.excludes deleteOp cloneOpt /\
     (deleteOp, v) ∈ Clients.active s /\ (cloneOpt, v) ∈ Clients.active s).
Proof.
  split.
  - intros s op1 op2 v Hr%Clients.clients_reachable_inv He H1 H2.
    destruct (Clients.excludes_operations _ _ He) as [Ho1 Ho2].
    apply (Clients.inv_exclusive _ _ Hr op1 op2 v Ho1 Ho2 He);
      apply (Clients.active_counted true); auto; by left.
  - destruct operation_lock_double_delete as (s & v & Hr & Hd & Hc). exists s, v. split_and!; [done | | done..].
    split; unfold conflicts; simpl; [by left | by right; left].
Qed.

Lemma operation_lock_exclusive_witness :
  (cloneOpt, "pvc-1"%string) ∉ [(deleteOp, "pvc-1"%string)].
Proof.
  apply (proj1 operation_lock_exclusive
    (Clients.mkState (tryAcquire deleteOp "pvc-1" NewOperationLock).2 [(deleteOp, "pvc-1"%string)])
    deleteOp cloneOpt "pvc-1").
  - apply one_granted. unfold operations. by right; right; left.
  - split; unfold conflicts; simpl; [by left | by right; left].
  - by left.
Defined.

(** a snapshot creation is granted on an id that is being expanded, although
    an expand is refused while a snapshot is being created. *)
Theorem operation_lock_create_during_expand :
  (exists s v, reachable (Clients.step true) Clients.init s /\
    (expandOp, v) ∈ Clients.active s /\ (createOp, v) ∈ Clients.active s) /\
  createOp ∈ conflicts expandOp.
Proof.
  set (v := "pvc-1"%string). split; [| by right; right; left].
  eexists _, v. split; [| split].
  - eapply (Clients.granted_step true createOp v (Clients.mkState _ [(expandOp, v)]));
      [unfold operations; by left | done | done | |
       apply one_granted; unfold operations; by do 4 right; left].
    vm_compute; reflexivity.
  - by right; left.
  - by left.
Qed.
