(* ===== verification/GoStrings.v ===== *)
(** * The string functions of Go's standard library that the plugin calls

    A Go string is a byte sequence: [string], one [ascii] per byte.  This file
    holds encoding/hex and encoding/binary on 16-bit values, strconv's booleans,
    and the functions of packages strings and path, as the
    program uses them. *)

From S2P Require Import Prelude.

(** ** Bytes *)

Definition byte_val (c : ascii) : Z := Z.of_N (N_of_ascii c).
Definition byte_of (z : Z) : ascii := ascii_of_N (Z.to_N (z mod 256)).

Lemma byte_val_range c : 0 <= byte_val c < 256.
Proof. unfold byte_val. pose proof (N_ascii_bounded c). lia. Qed.

Lemma byte_val_of z : 0 <= z < 256 -> byte_val (byte_of z) = z.
Proof.
  intros Hz. unfold byte_val, byte_of. rewrite Z.mod_small by lia.
  rewrite N_ascii_embedding by lia. lia.
Qed.

Lemma byte_val_inj c d : byte_val c = byte_val d -> c = d.
Proof.
  unfold byte_val. intros H. apply N2Z.inj in H.
  rewrite <- (ascii_N_embedding c), <- (ascii_N_embedding d). by f_equal.
Qed.

Lemma byte_of_val c : byte_of (byte_val c) = c.
Proof. apply byte_val_inj, byte_val_of, byte_val_range. Qed.

(** ** encoding/hex *)

Definition hex_digit (d : Z) : ascii :=
  byte_of (if d <? 10 then 48 + d else 87 + d).

(** [fromHexChar] *)
Definition from_hex (c : ascii) : option Z :=
  let v := byte_val c in
  if (48 <=? v) && (v <=? 57) then Some (v - 48)
  else if (97 <=? v) && (v <=? 102) then Some (v - 97 + 10)
  else if (65 <=? v) && (v <=? 70) then Some (v - 65 + 10)
  else None.

(** [hex.EncodeToString] *)
Fixpoint hex_encode (bs : list Z) : string :=
  match bs with
  | [] => ""
  | b :: bs' => String (hex_digit (b / 16)) (String (hex_digit (b mod 16)) (hex_encode bs'))
  end.

(** The texts of [hex.InvalidByteError] and [hex.ErrLength]; which byte was
    wrong is left out of the former. *)
Definition hex_invalid : error := Errorf "encoding/hex: invalid byte".
Definition hex_odd : error := Errorf "encoding/hex: odd length hex string".

(** [hex.DecodeString] *)
Fixpoint hex_decode (s : string) : outcome (list Z) :=
  match s with
  | EmptyString => Ok []
  | String c EmptyString =>
      match from_hex c with Some _ => Fail hex_odd | None => Fail hex_invalid end
  | String c (String d s') =>
      match from_hex c, from_hex d with
      | Some hi, Some lo =>
          match hex_decode s' with Ok bs => Ok (16 * hi + lo :: bs) | e => e end
      | _, _ => Fail hex_invalid
      end
  end.

Lemma from_hex_digit d : 0 <= d < 16 -> from_hex (hex_digit d) = Some d.
Proof.
  intros Hd. unfold from_hex, hex_digit. destruct (Z.ltb_spec d 10); rewrite byte_val_of by lia.
  - rewrite (proj2 (Z.leb_le 48 (48 + d))), (proj2 (Z.leb_le (48 + d) 57)) by lia.
    simpl. f_equal. lia.
  - rewrite (proj2 (Z.leb_gt (87 + d) 57)), andb_false_r by lia.
    rewrite (proj2 (Z.leb_le 97 (87 + d))), (proj2 (Z.leb_le (87 + d) 102)) by lia.
    simpl. f_equal. lia.
Qed.

Definition is_byte (b : Z) : Prop := 0 <= b < 256.

Lemma hex_decode_encode bs : Forall is_byte bs -> hex_decode (hex_encode bs) = Ok bs.
Proof.
  induction 1 as [|b bs Hb _ IH]; [done |]. simpl. unfold is_byte in Hb.
  rewrite !from_hex_digit by (Z.to_euclidean_division_equations; lia).
  rewrite IH. do 2 f_equal. Z.to_euclidean_division_equations; lia.
Qed.

Lemma from_hex_range c d : from_hex c = Some d -> 0 <= d < 16.
Proof.
  unfold from_hex. repeat case_match; intros [= <-];
    repeat match goal with H : (_ && _) = true |- _ => apply andb_prop in H as [?%Z.leb_le ?%Z.leb_le] end; lia.
Qed.

(** Four hexadecimal digits decode to two bytes, or fail. *)
Lemma hex_decode_4 a b c d :
  (exists x y, hex_decode (String a (String b (String c (String d EmptyString)))) = Ok [x; y] /\
     is_byte x /\ is_byte y) \/
  (exists e, hex_decode (String a (String b (String c (String d EmptyString)))) = Fail e).
Proof.
  simpl.
  destruct (from_hex a) as [va|] eqn:Ea; [| eauto].
  destruct (from_hex b) as [vb|] eqn:Eb; [| eauto].
  destruct (from_hex c) as [vc|] eqn:Ec; [| eauto].
  destruct (from_hex d) as [vd|] eqn:Ed; [| eauto].
  apply from_hex_range in Ea, Eb, Ec, Ed.
  left. exists (16 * va + vb), (16 * vc + vd). unfold is_byte. repeat split; lia.
Qed.

(** ** encoding/binary, big endian *)

(** [binary.BigEndian.PutUint16] *)
Definition put_u16 (v : Z) : list Z := [(v / 256) mod 256; v mod 256].

(** [binary.BigEndian.Uint16]: panics on fewer than two bytes. *)
Definition get_u16 (bs : list Z) : outcome Z :=
  match bs with
  | b0 :: b1 :: _ => Ok (Z.lor b1 (Z.shiftl b0 8))
  | _ => Panic "index out of range"
  end.

Lemma put_u16_bytes v : Forall is_byte (put_u16 v).
Proof.
  unfold put_u16, is_byte.
  constructor; [| constructor; [| constructor]]; apply Z.mod_pos_bound; lia.
Qed.

Lemma lor_shiftl_add lo hi : 0 <= lo < 256 -> Z.lor lo (Z.shiftl hi 8) = lo + 256 * hi.
Proof.
  intros Hlo. rewrite Z.lor_comm.
  assert (Hland : Z.land (Z.shiftl hi 8) lo = 0).
  { apply Z.bits_inj_0. intros i. rewrite Z.land_spec.
    destruct (Z.lt_ge_cases i 0); [by rewrite Z.testbit_neg_r |].
    destruct (Z.lt_ge_cases i 8) as [Hi | Hi].
    - by rewrite Z.shiftl_spec_low.
    - rewrite <- (Z.mod_small lo (2 ^ 8)) by lia.
      by rewrite Z.mod_pow2_bits_high, andb_false_r by lia. }
  pose proof (Z.add_lor_land (Z.shiftl hi 8) lo) as Hadd.
  rewrite Hland, Z.shiftl_mul_pow2 in * by lia. change (2 ^ 8) with 256 in *. lia.
Qed.

Lemma get_put_u16 v : in_u16 v -> get_u16 (put_u16 v) = Ok v.
Proof.
  unfold in_u16, get_u16, put_u16. intros Hv.
  rewrite lor_shiftl_add by (apply Z.mod_pos_bound; lia).
  rewrite (Z.mod_small (v / 256)).
  - f_equal. pose proof (Z.div_mod v 256). lia.
  - split; [apply Z.div_pos; lia | apply Z.div_lt_upper_bound; lia].
Qed.

Lemma get_u16_bytes x y :
  is_byte x -> is_byte y -> exists v, get_u16 [x; y] = Ok v /\ in_u16 v.
Proof.
  unfold is_byte. intros Hx Hy. exists (y + 256 * x). unfold get_u16, in_u16.
  rewrite lor_shiftl_add by done. split; [done | lia].
Qed.

(** ** strconv *)

(** [strconv.ParseBool] *)
Definition ParseBool (s : string) : outcome bool :=
  if decide (s ∈ ["1"; "t"; "T"; "TRUE"; "true"; "True"]%string) then Ok true
  else if decide (s ∈ ["0"; "f"; "F"; "FALSE"; "false"; "False"]%string) then Ok false
  else Fail (Errorf ("strconv.ParseBool: parsing " +:+ s +:+ ": invalid syntax")).

(** [strconv.FormatBool] *)
Definition FormatBool (b : bool) : string := if b then "true" else "false".

Lemma ParseBool_FormatBool b : ParseBool (FormatBool b) = Ok b.
Proof. by destruct b. Qed.

(** ** Lengths and slices *)

Lemma go_len_nonneg s : 0 <= go_len s.
Proof. unfold go_len. lia. Qed.

Lemma append_cons c s t : String c s +:+ t = String c (s +:+ t).
Proof. done. Qed.

Lemma length_string_app s t :
  String.length (s +:+ t) = (String.length s + String.length t)%nat.
Proof.
  induction s as [|c s IH]; [done |]. rewrite append_cons. cbn [String.length]. rewrite IH. lia.
Qed.

Lemma go_len_app s t : go_len (s +:+ t) = go_len s + go_len t.
Proof. unfold go_len. rewrite length_string_app. lia. Qed.

Lemma substring_prefix s t : String.substring 0 (String.length s) (s +:+ t) = s.
Proof. induction s as [|c s IH]; [by destruct t | rewrite append_cons; cbn; by f_equal]. Qed.

Lemma substring_all s : String.substring 0 (String.length s) s = s.
Proof. induction s as [|c s IH]; [done | cbn; by f_equal]. Qed.

Lemma app_assoc_string (s t u : string) : (s +:+ t) +:+ u = s +:+ (t +:+ u).
Proof. induction s as [|c s IH]; [done | rewrite !append_cons; by f_equal]. Qed.

Lemma app_empty_r (s : string) : s +:+ "" = s.
Proof. induction s as [|c s IH]; [done | rewrite !append_cons; by f_equal]. Qed.

Lemma substring_drop s t n m :
  String.substring (String.length s + n) m (s +:+ t) = String.substring n m t.
Proof. induction s as [|c s IH]; [done | exact IH]. Qed.

Lemma go_slice_in s a b :
  0 <= a -> a <= b -> b <= go_len s ->
  go_slice s a b = Ok (String.substring (Z.to_nat a) (Z.to_nat (b - a)) s).
Proof. intros. unfold go_slice. by rewrite decide_True. Qed.

(** [s[a:b]] where [s] is [pre ++ mid ++ post] and [a], [b] bound [mid]. *)
Lemma go_slice_app pre mid post a b :
  a = go_len pre -> b = a + go_len mid -> go_slice (pre +:+ mid +:+ post) a b = Ok mid.
Proof.
  intros -> ->. pose proof (go_len_nonneg pre). pose proof (go_len_nonneg mid).
  pose proof (go_len_nonneg post).
  rewrite go_slice_in by (rewrite ?go_len_app; lia). f_equal.
  replace (Z.to_nat (go_len pre)) with (String.length pre + 0)%nat by (unfold go_len; lia).
  rewrite substring_drop.
  replace (Z.to_nat _) with (String.length mid) by (unfold go_len; lia).
  apply substring_prefix.
Qed.

Lemma length_substring n m s :
  String.length (String.substring n m s) = (m `min` (String.length s - n))%nat.
Proof.
  revert n m. induction s as [|c s IH]; intros [|n] [|m]; cbn [String.substring String.length];
    rewrite ?IH; lia.
Qed.

Lemma go_slice_outcome s a b :
  (exists t, go_slice s a b = Ok t /\ go_len t <= b - a) \/
  (go_slice s a b = Panic "slice bounds out of range" /\ ~ (0 <= a /\ a <= b /\ b <= go_len s)).
Proof.
  unfold go_slice. case_decide as Hd; [left | by right]. eexists. split; [done |].
  unfold go_len. rewrite length_substring. unfold go_len in Hd. lia.
Qed.

(** ** strings *)

Definition slash : ascii := "/"%char.

(** [strings.Split(s, string(c))] *)
Fixpoint split_on (c : ascii) (s : string) : list string :=
  match s with
  | EmptyString => [""%string]
  | String d s' =>
      if Ascii.eqb d c then ""%string :: split_on c s'
      else match split_on c s' with
           | t :: ts => String d t :: ts
           | [] => [String d ""]
           end
  end.

(** [strings.Join(elems, sep)] *)
Definition join (sep : string) (elems : list string) : string := String.concat sep elems.

(** [strings.Index(s, sub)]: -1 when [sub] does not occur. *)
Definition Index (s sub : string) : Z :=
  match String.index 0 sub s with Some n => Z.of_nat n | None => -1 end.

(** The white space of [strings.Fields], for ASCII texts. *)
Definition is_space (c : ascii) : bool :=
  bool_decide (byte_val c ∈ [9; 10; 11; 12; 13; 32]).

(** [strings.Fields]; [cur] is the field being read. *)
Fixpoint fields_from (cur : string) (s : string) : list string :=
  match s with
  | EmptyString => if decide (cur = ""%string) then [] else [cur]
  | String c s' =>
      if is_space c
      then (if decide (cur = ""%string) then [] else [cur]) ++ fields_from "" s'
      else fields_from (cur +:+ String c "") s'
  end.
Definition Fields (s : string) : list string := fields_from "" s.

(** [strings.HasPrefix] *)
Definition HasPrefix (s pre : string) : bool := String.prefix pre s.

(** [strings.ToLower], for ASCII texts *)
Definition to_lower (c : ascii) : ascii :=
  let v := byte_val c in if (65 <=? v) && (v <=? 90) then byte_of (v + 32) else c.
Fixpoint ToLower (s : string) : string :=
  match s with EmptyString => EmptyString | String c s' => String (to_lower c) (ToLower s') end.

(** ** path *)

(** One element of a path against the elements kept so far, the last one first. *)
Definition clean_step (rooted : bool) (kept : list string) (elem : string) : list string :=
  if decide (elem = ""%string \/ elem = "."%string) then kept
  else if decide (elem = ".."%string) then
    match kept with
    | top :: rest => if decide (top = ".."%string) then elem :: kept else rest
    | [] => if rooted then [] else [elem]
    end
  else elem :: kept.

(** [path.Clean] *)
Definition Clean (p : string) : string :=
  let rooted := match p with String c _ => Ascii.eqb c slash | EmptyString => false end in
  let elems := rev (foldl (clean_step rooted) [] (split_on slash p)) in
  let body := join "/" elems in
  if rooted then "/" +:+ body
  else if decide (elems = []) then "." else body.

(** [path.Join] *)
Definition Join (elems : list string) : string :=
  match filter (fun e => e <> ""%string) elems with
  | [] => ""
  | es => Clean (join "/" es)
  end.

Example Clean_examples :
  Clean "/xfs/../a//b/./c/.." = "/a/b"%string /\ Clean "a/../../b" = "../b"%string /\
  Clean "" = "."%string /\ Clean "/.." = "/"%string /\ Clean "x/.." = "."%string.
Proof. by vm_compute. Qed.

Example Join_example : Join ["/xfs/disk1/"; "k8squota_v"]%string = "/xfs/disk1/k8squota_v"%string.
Proof. by vm_compute. Qed.

Example Fields_example : Fields " 25  1 8:1 / /xfs/d " = ["25"; "1"; "8:1"; "/"; "/xfs/d"]%string.
Proof. by vm_compute. Qed.

(** *** Absolute paths in normal form *)

Fixpoint no_char (c : ascii) (s : string) : Prop :=
  match s with EmptyString => True | String d s' => d <> c /\ no_char c s' end.

#[export] Instance no_char_dec c s : Decision (no_char c s).
Proof. induction s; simpl; apply _. Defined.

(** A path element that [Clean] keeps as it is. *)
Definition normal_elem (e : string) : Prop :=
  no_char slash e /\ e <> ""%string /\ e <> "."%string /\ e <> ".."%string.

#[export] Instance normal_elem_dec e : Decision (normal_elem e).
Proof. unfold normal_elem. apply _. Defined.

Definition abs_path (elems : list string) : string := "/" +:+ join "/" elems.

Lemma split_on_no_char c s : no_char c s -> split_on c s = [s].
Proof.
  induction s as [|d s IH]; simpl; [done |]. intros [Hd Hs].
  destruct (Ascii.eqb_spec d c); [done |]. by rewrite IH.
Qed.

Lemma split_on_app c s t :
  no_char c s -> split_on c (s +:+ String c t) = s :: split_on c t.
Proof.
  induction s as [|d s IH]; simpl; [by rewrite Ascii.eqb_refl |]. intros [Hd Hs].
  destruct (Ascii.eqb_spec d c); [done |]. by rewrite IH.
Qed.

Lemma split_join es : es <> [] -> Forall normal_elem es -> split_on slash (join "/" es) = es.
Proof.
  intros Hne Hall. induction Hall as [|e es [He _] Hes IH]; [done |].
  destruct es as [|e' es]; [by apply split_on_no_char |].
  change (join "/" (e :: e' :: es)) with (e +:+ String slash (join "/" (e' :: es))).
  rewrite split_on_app by done. by rewrite IH.
Qed.

Lemma clean_normal rooted kept es :
  Forall normal_elem es -> foldl (clean_step rooted) kept es = rev es ++ kept.
Proof.
  intros Hall. revert kept. induction Hall as [|e es (_ & H1 & H2 & H3) _ IH]; intros kept; [done |].
  simpl. unfold clean_step at 2. rewrite decide_False by naive_solver.
  rewrite decide_False by done. by rewrite IH, <- app_assoc.
Qed.

Lemma Clean_abs_path es : Forall normal_elem es -> Clean (abs_path es) = abs_path es.
Proof.
  intros Hall. change (abs_path es) with (String slash (join "/" es)) at 1.
  unfold Clean. rewrite Ascii.eqb_refl. cbn [split_on]. rewrite Ascii.eqb_refl.
  cbn [foldl]. unfold clean_step at 2. rewrite decide_True by by left.
  destruct es as [|e es]; [by vm_compute |].
  rewrite split_join, clean_normal, app_nil_r, rev_involutive by done. done.
Qed.

Lemma join_snoc es e : es <> [] -> join "/" (es ++ [e]) = join "/" es +:+ "/" +:+ e.
Proof.
  induction es as [|e1 [|e2 es] IH]; intros Hne; [done | done |].
  simpl app. change (join "/" (e1 :: e2 :: es ++ [e])) with
    (e1 +:+ "/" +:+ join "/" ((e2 :: es) ++ [e])).
  rewrite IH by done. change (join "/" (e1 :: e2 :: es)) with (e1 +:+ "/" +:+ join "/" (e2 :: es)).
  by rewrite !app_assoc_string.
Qed.

Lemma Join_abs_path es e :
  es <> [] -> Forall normal_elem es -> normal_elem e ->
  Join [abs_path es; e] = abs_path (es ++ [e]).
Proof.
  intros Hne Hall He. unfold Join.
  rewrite !filter_cons_True by (try apply He; done). simpl.
  transitivity (Clean (abs_path (es ++ [e]))).
  - f_equal. unfold abs_path. rewrite join_snoc by done. unfold join; cbn [String.concat].
    by rewrite !app_assoc_string.
  - apply Clean_abs_path. apply Forall_app. split; [done |]. by constructor.
Qed.
