(* ===== verification/VolId.v ===== *)
(** * Volume identifiers: pkg/util/volid.go

    A volume id is the text [vvvv-eeee-llll-name]: the encoding version, the
    ephemeral flag and the length of the name as four hexadecimal digits each,
    then the name of the persistent volume. *)

From S2P Require Import Prelude GoStrings.
From stdpp Require Import pretty.
Open Scope Z_scope.
Open Scope go_scope.

Record CSIIdentifier := mkCSIIdentifier {
  EncodingVersion : Z;   (* uint16 *)
  Ephemeral : bool;
  VolumeName : string
}.

Definition maxVolIDLen : Z := 128.
Definition VolIDVersion : Z := 1.
Definition knownFieldSize : Z := 15.

Definition formatBoolToUint16 (b : bool) : Z := if b then 1 else 0.

Definition parseBoolFromUint16 (v : Z) : outcome bool :=
  if v =? 0 then Ok false
  else if v =? 1 then Ok true
  else Fail (Errorf ("parse bool from uint16 " +:+ pretty v +:+ " err")).

Definition ComposeCSIID (ci : CSIIdentifier) : outcome string :=
  if knownFieldSize + go_len (VolumeName ci) >? maxVolIDLen
  then Fail (Errorf "CSI ID encoding length overflow")
  else
    let versionEncodedHex := hex_encode (put_u16 (EncodingVersion ci)) in
    let isEphemeralEncodedHex := hex_encode (put_u16 (formatBoolToUint16 (Ephemeral ci))) in
    let volumeNameLength := hex_encode (put_u16 (u16 (go_len (VolumeName ci)))) in
    Ok (String.concat "-"
          [versionEncodedHex; isEphemeralEncodedHex; volumeNameLength; VolumeName ci]).

Definition set_version v ci := mkCSIIdentifier v (Ephemeral ci) (VolumeName ci).
Definition set_ephemeral b ci := mkCSIIdentifier (EncodingVersion ci) b (VolumeName ci).
Definition set_name n ci := mkCSIIdentifier (EncodingVersion ci) (Ephemeral ci) n.

(** [hex.DecodeString(composedCSIID[a:b])] then [binary.BigEndian.Uint16] *)
Definition decode_u16 (composedCSIID : string) (a b : Z) : M CSIIdentifier Z :=
  let! field := lift (go_slice composedCSIID a b) in
  let! buf16 := lift (hex_decode field) in
  lift (get_u16 buf16).

(** The receiver is the state: a field stays set when a later one is invalid. *)
Definition DecomposeCSIID (composedCSIID : string) : M CSIIdentifier unit :=
  let bytesToProcess := u16 (go_len composedCSIID) in
  if bytesToProcess <? knownFieldSize
  then fail (Errorf "failed to decode CSI identifier, string underflow")
  else
    let! version := decode_u16 composedCSIID 0 4 in
    modify (set_version version) ;;
    (let bytesToProcess := u16 (bytesToProcess - 5) in
     let! ephemeral := decode_u16 composedCSIID 5 9 in
     let! isEphemeral := lift (parseBoolFromUint16 ephemeral) in
     modify (set_ephemeral isEphemeral) ;;
     (let bytesToProcess := u16 (bytesToProcess - 5) in
      let! volumeNameLength := decode_u16 composedCSIID 10 14 in
      let bytesToProcess := u16 (bytesToProcess - 5) in
      if negb (bytesToProcess =? volumeNameLength)
      then fail (Errorf "failed to decode CSI identifier, string size mismatch")
      else
        let! name := lift (go_slice composedCSIID 15 (u16 (15 + volumeNameLength))) in
        modify (set_name name))).

(** ** Decoding a text laid out as ComposeCSIID does *)

Definition hex16 (v : Z) : string := hex_encode (put_u16 v).

(** The text of an id with arbitrary separators and a tail after the name. *)
Definition layout (version ephemeral len : Z) (s1 s2 s3 name tail : string) : string :=
  hex16 version +:+ s1 +:+ hex16 ephemeral +:+ s2 +:+ hex16 len +:+ s3 +:+ name +:+ tail.

Lemma go_len_hex16 v : go_len (hex16 v) = 4.
Proof. done. Qed.

Lemma decode_u16_app text pre v post a b ci :
  text = pre +:+ hex16 v +:+ post -> in_u16 v -> a = go_len pre -> b = a + 4 ->
  decode_u16 text a b ci = (Ok v, ci).
Proof.
  intros -> Hv Ha Hb. unfold decode_u16, bind, lift. rewrite go_slice_app by done.
  unfold hex16. rewrite hex_decode_encode by apply put_u16_bytes.
  by rewrite get_put_u16.
Qed.

Lemma parse_format_bool b : parseBoolFromUint16 (formatBoolToUint16 b) = Ok b.
Proof. by destruct b. Qed.

Lemma formatBool_u16 b : in_u16 (formatBoolToUint16 b).
Proof. unfold in_u16. destruct b; simpl; lia. Qed.

Section decompose_layout.
Context (version : Z) (b : bool) (s1 s2 s3 name tail : string) (ci0 : CSIIdentifier).
Context (Hv : in_u16 version) (H1 : go_len s1 = 1) (H2 : go_len s2 = 1) (H3 : go_len s3 = 1).
Context (Hname : go_len name <= 65520) (Htail : go_len tail mod 2 ^ 16 = 0).

Let ephemeral := formatBoolToUint16 b.
Let text := layout version ephemeral (go_len name) s1 s2 s3 name tail.

Lemma layout_len : u16 (go_len text) = 15 + go_len name.
Proof.
  unfold text, layout, u16. rewrite !go_len_app, !go_len_hex16, H1, H2, H3.
  pose proof (go_len_nonneg name).
  replace (4 + (1 + (4 + (1 + (4 + (1 + (go_len name + go_len tail)))))))
    with (15 + go_len name + go_len tail) by lia.
  rewrite Z.add_mod, Htail, Z.add_0_r, Z.mod_mod by lia. apply Z.mod_small. lia.
Qed.

Lemma layout_fields ci :
  decode_u16 text 0 4 ci = (Ok version, ci) /\
  decode_u16 text 5 9 ci = (Ok ephemeral, ci) /\
  decode_u16 text 10 14 ci = (Ok (go_len name), ci) /\
  go_slice text 15 (15 + go_len name) = Ok name.
Proof.
  pose proof (go_len_nonneg name). unfold text, layout. split_and!.
  - by apply (decode_u16_app _ "" version (s1 +:+ hex16 ephemeral +:+ s2 +:+ hex16 (go_len name)
      +:+ s3 +:+ name +:+ tail)).
  - apply (decode_u16_app _ (hex16 version +:+ s1) ephemeral
      (s2 +:+ hex16 (go_len name) +:+ s3 +:+ name +:+ tail));
      rewrite ?app_assoc_string, ?go_len_app, ?go_len_hex16, ?H1; try done; apply formatBool_u16.
  - apply (decode_u16_app _ (hex16 version +:+ s1 +:+ hex16 ephemeral +:+ s2) (go_len name)
      (s3 +:+ name +:+ tail));
      rewrite ?app_assoc_string, ?go_len_app, ?go_len_hex16, ?H1, ?H2; try done; unfold in_u16; lia.
  - rewrite <- (go_slice_app
      (hex16 version +:+ s1 +:+ hex16 ephemeral +:+ s2 +:+ hex16 (go_len name) +:+ s3)
      name tail 15 (15 + go_len name)); [by rewrite !app_assoc_string | | done].
    rewrite !go_len_app, !go_len_hex16, H1, H2, H3. lia.
Qed.

Lemma decompose_layout : DecomposeCSIID text ci0 = (Ok tt, mkCSIIdentifier version b name).
Proof.
  unfold DecomposeCSIID. rewrite layout_len. pose proof (go_len_nonneg name).
  unfold knownFieldSize. rewrite (proj2 (Z.ltb_ge _ _)) by lia.
  unfold bind, modify, lift.
  destruct (layout_fields ci0) as (-> & _).
  destruct (layout_fields (set_version version ci0)) as (_ & -> & _).
  unfold ephemeral. rewrite parse_format_bool.
  destruct (layout_fields (set_ephemeral b (set_version version ci0))) as (_ & _ & -> & Hname').
  rewrite (u16_small (15 + go_len name - 5)) by (unfold in_u16; lia).
  rewrite (u16_small (15 + go_len name - 5 - 5)) by (unfold in_u16; lia).
  rewrite (u16_small (15 + go_len name - 5 - 5 - 5)) by (unfold in_u16; lia).
  rewrite (u16_small (15 + go_len name)) by (unfold in_u16; lia).
  rewrite (proj2 (Z.eqb_eq _ _)) by lia. simpl. rewrite Hname'. done.
Qed.
End decompose_layout.

(** ** Properties *)

Lemma compose_cases ci :
  (go_len (VolumeName ci) <= 113 /\
   ComposeCSIID ci = Ok (layout (EncodingVersion ci) (formatBoolToUint16 (Ephemeral ci))
     (go_len (VolumeName ci)) "-" "-" "-" (VolumeName ci) "")) \/
  (113 < go_len (VolumeName ci) /\
   ComposeCSIID ci = Fail (Errorf "CSI ID encoding length overflow")).
Proof.
  unfold ComposeCSIID, knownFieldSize, maxVolIDLen. pose proof (go_len_nonneg (VolumeName ci)).
  destruct (Z.gtb_spec (15 + go_len (VolumeName ci)) 128); [right; split; [lia | done] | left].
  split; [lia |]. rewrite u16_small by (unfold in_u16; lia).
  unfold layout. by rewrite app_empty_r.
Qed.

(** C37: decoding an encoded identifier gives it back, whatever the receiver held
    before: the encoding loses nothing, so that two volumes never share an id. *)
Theorem decompose_compose ci s ci0 :
  ComposeCSIID ci = Ok s -> in_u16 (EncodingVersion ci) ->
  DecomposeCSIID s ci0 = (Ok tt, ci).
Proof.
  intros Hs Hv. destruct (compose_cases ci) as [[Hlen E] | [_ E]]; rewrite E in Hs; [| done].
  injection Hs as <-. destruct ci as [v b name]; simpl in *.
  apply decompose_layout; try done; lia.
Qed.

Definition pvc_id : CSIIdentifier := mkCSIIdentifier VolIDVersion true "pvc-1".

Lemma decompose_compose_witness :
  ComposeCSIID pvc_id = Ok "0001-0001-0005-pvc-1"%string /\
  DecomposeCSIID "0001-0001-0005-pvc-1" (mkCSIIdentifier 0 false "") = (Ok tt, pvc_id).
Proof.
  split; [reflexivity |].
  apply decompose_compose; [reflexivity | split; [discriminate | reflexivity]].
Defined.

(** an identifier is encoded exactly when its name has at most 113 bytes, and
    the text then has 15 bytes more than the name, at most the 128 of the CSI
    specification. *)
Theorem compose_bounds ci :
  ((exists s, ComposeCSIID ci = Ok s) <-> go_len (VolumeName ci) <= 113) /\
  (forall s, ComposeCSIID ci = Ok s ->
     go_len s = knownFieldSize + go_len (VolumeName ci) /\ go_len s <= maxVolIDLen).
Proof.
  unfold knownFieldSize, maxVolIDLen.
  destruct (compose_cases ci) as [[Hlen E] | [Hlen E]]; rewrite E; split.
  - split; eauto.
  - intros s [= <-]. unfold layout. rewrite !go_len_app, !go_len_hex16.
    change (go_len "-") with 1. change (go_len "") with 0. lia.
  - split; [intros [s [=]] | lia].
  - intros s [=].
Qed.

Lemma decode_u16_safe s a b :
  0 <= a -> b = a + 4 -> b <= go_len s -> safe (decode_u16 s a b) in_u16.
Proof.
  intros Ha -> Hb. unfold decode_u16. rewrite go_slice_in by lia.
  replace (Z.to_nat (a + 4 - a)) with 4%nat by lia.
  assert (Hl : String.length (String.substring (Z.to_nat a) 4 s) = 4%nat).
  { rewrite length_substring. unfold go_len in Hb. lia. }
  intros ci. unfold bind, lift.
  destruct (String.substring (Z.to_nat a) 4 s)
    as [|c1 [|c2 [|c3 [|c4 [|]]]]]; try discriminate Hl.
  destruct (hex_decode_4 c1 c2 c3 c4) as [(x & y & -> & Hx & Hy) | [e ->]]; [| done].
  by destruct (get_u16_bytes x y Hx Hy) as (v & -> & Hv).
Qed.

Lemma parseBool_safe v : safe (S := CSIIdentifier) (lift (parseBoolFromUint16 v)) (fun _ => True).
Proof. apply safe_lift; [| done]. intros w. unfold parseBoolFromUint16. by repeat case_match. Qed.

Lemma decompose_safe s : safe (DecomposeCSIID s) (fun _ => True).
Proof.
  unfold DecomposeCSIID, knownFieldSize.
  destruct (Z.ltb_spec (u16 (go_len s)) 15) as [|Hlen]; [apply safe_fail |].
  assert (Hmod : u16 (go_len s) <= go_len s).
  { pose proof (go_len_nonneg s). unfold u16. apply Z.mod_le; lia. }
  pose proof (u16_range (go_len s)) as Hr. unfold in_u16 in Hr.
  eapply safe_bind; [apply decode_u16_safe; lia | intros version _].
  eapply (safe_bind _ _ (fun _ => True)); [by apply safe_modify | intros _ _].
  eapply safe_bind; [apply decode_u16_safe; lia | intros ephemeral _].
  eapply safe_bind; [apply parseBool_safe | intros isEphemeral _].
  eapply (safe_bind _ _ (fun _ => True)); [by apply safe_modify | intros _ _].
  eapply safe_bind; [apply decode_u16_safe; lia | intros len Hl].
  set (n := u16 (go_len s)) in *.
  rewrite (u16_small (n - 5)) by (unfold in_u16; lia).
  rewrite (u16_small (n - 5 - 5)) by (unfold in_u16; lia).
  rewrite (u16_small (n - 5 - 5 - 5)) by (unfold in_u16; lia).
  destruct (Z.eqb_spec (n - 5 - 5 - 5) len) as [<- |]; [| apply safe_fail].
  rewrite (u16_small (15 + (n - 5 - 5 - 5))) by (unfold in_u16; lia).
  eapply (safe_bind _ _ (fun _ => True)); [| intros name _; by apply safe_modify].
  rewrite go_slice_in by lia. apply safe_lift; done.
Qed.

(** decoding never panics, whatever the text: every slice and every read of
    two bytes is in range, and what is not an id is reported as an error. *)
Theorem decompose_total s ci w : (DecomposeCSIID s ci).1 <> Panic w.
Proof. apply (safe_no_panic _ (fun _ => True)), decompose_safe. Qed.

(** the separators and a multiple of 65536 bytes after the name are not
    looked at (the length is first cut to 16 bits): such a text decodes to the
    same identifier as the id it was made from. *)
Theorem decompose_ignores ci s1 s2 s3 tail ci0 :
  in_u16 (EncodingVersion ci) -> go_len (VolumeName ci) <= 113 ->
  go_len s1 = 1 -> go_len s2 = 1 -> go_len s3 = 1 -> go_len tail mod 2 ^ 16 = 0 ->
  DecomposeCSIID
    (layout (EncodingVersion ci) (formatBoolToUint16 (Ephemeral ci)) (go_len (VolumeName ci))
      s1 s2 s3 (VolumeName ci) tail) ci0 = (Ok tt, ci).
Proof.
  intros. destruct ci as [v b name]; simpl in *. apply decompose_layout; try done; lia.
Qed.

Lemma decompose_ignores_witness :
  DecomposeCSIID "0001x0001y0005zpvc-1" (mkCSIIdentifier 0 false "") = (Ok tt, pvc_id).
Proof.
  apply (decompose_ignores pvc_id "x" "y" "z" "" (mkCSIIdentifier 0 false ""));
    try reflexivity; first [split; [discriminate | reflexivity] | discriminate].
Defined.
