(* ===== verification/GoFloat.v ===== *)
(** * Go's float64 arithmetic

    The float64 values of the program are finite and far from the ends of the
    exponent range (sizes in bytes, their quotients, scores), so that a float64
    is the rational number it stands for, and an operation is the exact result
    rounded to 53 significant bits, ties to even (IEEE 754). *)

From S2P Require Import Prelude.
From Stdlib Require Export QArith Qround Qpower Qabs Lqa.
From stdpp Require Import pretty.
Open Scope Z_scope.

Abbreviation float64 := Q (only parsing).

Definition pow2 (e : Z) : Q := Qpower 2 e.

(** The integer nearest to [q], the even one of two. *)
Definition round_even (q : Q) : Z :=
  let f := Qfloor q in
  match Qcompare (q - inject_Z f) (1 # 2) with
  | Lt => f
  | Gt => f + 1
  | Eq => if Z.even f then f else f + 1
  end.

(** [floor (log2 q)] for a positive [q]. *)
Definition log2Q (q : Q) : Z :=
  let k := Z.log2 (Qnum q) - Z.log2 (QDen q) in
  if Qle_bool (pow2 k) q then k else k - 1.

(** The exponent of the last of the 53 bits of [q]. *)
Definition ulp_exp (q : Q) : Z := log2Q (Qabs q) - 52.

(** The float64 nearest to [q]. *)
Definition rnd (q : Q) : float64 :=
  if Qeq_bool q 0 then 0%Q
  else let e := ulp_exp q in Qred (inject_Z (round_even (q / pow2 e)) * pow2 e).

Definition f64_of_int (z : Z) : float64 := rnd (inject_Z z).
Definition f64_add (x y : float64) : float64 := rnd (x + y).
Definition f64_mul (x y : float64) : float64 := rnd (x * y).
Definition f64_div (x y : float64) : float64 := rnd (x / y).
Definition f64_lt (x y : float64) : bool := negb (Qle_bool y x).

(** [math.Ceil] *)
Definition f64_ceil (x : float64) : float64 := inject_Z (Qceiling x).

(** [int64(x)]: truncation towards zero; the program only converts values in
    the range of int64. *)
Definition int64_of_f64 (x : float64) : Z := if Qle_bool 0 x then Qfloor x else Qceiling x.

(** [Sprintf] with the verb [%.2f]: the two decimals nearest to the value, the even
    one of two. *)
Definition hundredths (x : float64) : Z := round_even (Qabs x * 100).
Definition fixed2_text (h : Z) : string :=
  pretty (h / 100) +:+ "." +:+ pretty (h mod 100 / 10) +:+ pretty (h mod 10).
Definition fixed2 (x : float64) : string :=
  (if Qle_bool 0 x then "" else "-") +:+ fixed2_text (hundredths x).

Lemma Qdiv_mul_cancel a u : (0 < u)%Q -> (a / u * u == a)%Q.
Proof. intros Hu. field. lra. Qed.

(** ** Powers of two *)

Lemma pow2_pos e : (0 < pow2 e)%Q.
Proof. apply (Qpower_0_lt 2). lra. Qed.

Lemma pow2_nonzero e : ~ (pow2 e == 0)%Q.
Proof. pose proof (pow2_pos e). lra. Qed.

Lemma pow2_add a b : (pow2 (a + b) == pow2 a * pow2 b)%Q.
Proof. apply (Qpower_plus 2). lra. Qed.

Lemma pow2_Z e : 0 <= e -> (pow2 e == inject_Z (2 ^ e))%Q.
Proof. intros He. symmetry. by apply (Zpower_Qpower 2 e). Qed.

Lemma pow2_le a b : a <= b -> (pow2 a <= pow2 b)%Q.
Proof. intros. apply (Qpower_le_compat_l 2); [done | lra]. Qed.

Lemma pow2_lt_inv a b : (pow2 a < pow2 b)%Q -> a < b.
Proof. intros H. apply (Qpower_lt_compat_l_inv 2); [exact H | lra]. Qed.

(** ** Rounding to an integer *)

Lemma round_even_bounds q :
  (inject_Z (round_even q) - (1 # 2) <= q <= inject_Z (round_even q) + (1 # 2))%Q.
Proof.
  unfold round_even. pose proof (Qfloor_le q) as H1. pose proof (Qlt_floor q) as H2.
  rewrite inject_Z_plus in H2. change (inject_Z 1) with 1%Q in H2.
  destruct (Qcompare_spec (q - inject_Z (Qfloor q)) (1 # 2)) as [E | E | E];
    [destruct (Z.even (Qfloor q)) | |];
    rewrite ?inject_Z_plus; change (inject_Z 1) with 1%Q; lra.
Qed.

Lemma round_even_Z z q : (q == inject_Z z)%Q -> round_even q = z.
Proof.
  intros Hq. unfold round_even. rewrite (Qfloor_comp _ _ Hq), Qfloor_Z.
  destruct (Qcompare_spec (q - inject_Z z) (1 # 2)); [lra | done | lra].
Qed.

Lemma round_even_mono p q : (p <= q)%Q -> round_even p <= round_even q.
Proof.
  intros Hpq. pose proof (Qfloor_resp_le p q Hpq) as Hf.
  unfold round_even.
  pose proof (Qfloor_le p). pose proof (Qlt_floor p).
  pose proof (Qfloor_le q). pose proof (Qlt_floor q).
  destruct (Z.eq_dec (Qfloor p) (Qfloor q)) as [E | E].
  - rewrite E. destruct (Qcompare_spec (p - inject_Z (Qfloor q)) (1 # 2)),
      (Qcompare_spec (q - inject_Z (Qfloor q)) (1 # 2));
      repeat case_match; try lia; lra.
  - repeat case_match; lia.
Qed.

(** ** The exponent *)

Lemma log2Q_spec q : (0 < q)%Q -> (pow2 (log2Q q) <= q < pow2 (log2Q q + 1))%Q.
Proof.
  intros Hq. assert (Hn : 0 < Qnum q) by (destruct q as [n d]; unfold Qlt in Hq; simpl in *; lia).
  set (ln := Z.log2 (Qnum q)). set (ld := Z.log2 (QDen q)).
  pose proof (Z.log2_spec (Qnum q) Hn) as Hsn. pose proof (Z.log2_spec (QDen q) eq_refl) as Hsd.
  fold ln in Hsn. fold ld in Hsd.
  pose proof (Z.log2_nonneg (Qnum q)). pose proof (Z.log2_nonneg (QDen q)).
  assert (Hqe : (q * inject_Z (QDen q) == inject_Z (Qnum q))%Q).
  { destruct q as [n d]. unfold Qeq; simpl. lia. }
  assert (Hd : (pow2 ld <= inject_Z (QDen q) < pow2 (ld + 1))%Q).
  { rewrite !pow2_Z by lia. rewrite <- Zle_Qle, <- Zlt_Qlt. by rewrite Z.add_1_r. }
  assert (Hn' : (pow2 ln <= inject_Z (Qnum q) < pow2 (ln + 1))%Q).
  { rewrite !pow2_Z by lia. rewrite <- Zle_Qle, <- Zlt_Qlt. by rewrite Z.add_1_r. }
  assert (Hlow : (pow2 (ln - ld - 1) < q)%Q).
  { assert (E : (pow2 (ln - ld - 1) * pow2 (ld + 1) == pow2 ln)%Q)
      by (rewrite <- pow2_add; by replace (ln - ld - 1 + (ld + 1)) with ln by lia).
    pose proof (pow2_pos (ln - ld - 1)) as HA. pose proof (pow2_pos ld) as HP.
    apply Qnot_le_lt. intros Hle.
    assert (q * inject_Z (QDen q) <= pow2 (ln - ld - 1) * inject_Z (QDen q))%Q
      by (apply Qmult_le_compat_r; lra).
    assert (pow2 (ln - ld - 1) * inject_Z (QDen q) < pow2 (ln - ld - 1) * pow2 (ld + 1))%Q
      by (apply Qmult_lt_l; lra).
    lra. }
  assert (Hhigh : (q < pow2 (ln - ld + 1))%Q).
  { assert (E : (pow2 (ln - ld + 1) * pow2 ld == pow2 (ln + 1))%Q)
      by (rewrite <- pow2_add; by replace (ln - ld + 1 + ld) with (ln + 1) by lia).
    pose proof (pow2_pos (ln - ld + 1)) as HA. pose proof (pow2_pos ld) as HP.
    apply Qnot_le_lt. intros Hle.
    assert (pow2 (ln - ld + 1) * inject_Z (QDen q) <= q * inject_Z (QDen q))%Q
      by (apply Qmult_le_compat_r; lra).
    assert (pow2 (ln - ld + 1) * pow2 ld <= pow2 (ln - ld + 1) * inject_Z (QDen q))%Q
      by (apply Qmult_le_l; lra).
    lra. }
  unfold log2Q. fold ln ld. destruct (Qle_bool (pow2 (ln - ld)) q) eqn:E.
  - apply Qle_bool_iff in E. split; [done | exact Hhigh].
  - assert (~ (pow2 (ln - ld) <= q)%Q) by (rewrite <- Qle_bool_iff; congruence).
    replace (ln - ld - 1 + 1) with (ln - ld) by lia. split; lra.
Qed.

Lemma log2Q_mono p q : (0 < p)%Q -> (p <= q)%Q -> log2Q p <= log2Q q.
Proof.
  intros Hp Hpq. pose proof (log2Q_spec p Hp). pose proof (log2Q_spec q).
  assert (log2Q p < log2Q q + 1); [| lia]. apply pow2_lt_inv. lra.
Qed.

(** ** Rounding to 53 bits *)

Lemma Qabs_id q : (0 <= q)%Q -> Qabs q = q.
Proof.
  destruct q as [n d]. unfold Qle; simpl. intros H. rewrite Z.abs_eq by lia. done.
Qed.

Lemma Qabs_opp_id q : (q <= 0)%Q -> Qabs q = (- q)%Q.
Proof.
  destruct q as [n d]. unfold Qle, Qopp; simpl. intros H. rewrite Z.abs_neq by lia. done.
Qed.

Lemma rnd_zero q : (q == 0)%Q -> rnd q = 0%Q.
Proof. intros Hq. unfold rnd. by rewrite (proj2 (Qeq_bool_iff q 0) Hq). Qed.

Lemma rnd_nonzero q :
  ~ (q == 0)%Q ->
  (rnd q == inject_Z (round_even (q / pow2 (ulp_exp q))) * pow2 (ulp_exp q))%Q.
Proof.
  intros Hq. unfold rnd. destruct (Qeq_bool q 0) eqn:E; [by apply Qeq_bool_iff in E |].
  apply Qred_correct.
Qed.

(** The significand of a positive number, before rounding. *)
Lemma significand q :
  (0 < q)%Q -> (pow2 52 <= q / pow2 (ulp_exp q) < pow2 53)%Q.
Proof.
  intros Hq. unfold ulp_exp. rewrite Qabs_id by lra.
  pose proof (log2Q_spec q Hq) as [Hlo Hhi]. set (k := log2Q q) in *.
  pose proof (pow2_pos (k - 52)) as Hu.
  split.
  - apply Qle_shift_div_l; [done |]. rewrite <- pow2_add.
    by replace (52 + (k - 52)) with k by lia.
  - apply Qlt_shift_div_r; [done |]. rewrite <- pow2_add.
    by replace (53 + (k - 52)) with (k + 1) by lia.
Qed.

(** An integer multiple of [2^e] of at most 53 bits is a float64. *)
Lemma rnd_exact m e q :
  (q == inject_Z m * pow2 e)%Q -> 0 <= m < 2 ^ 53 -> (rnd q == q)%Q.
Proof.
  intros Hq Hm. destruct (Z.eq_dec m 0) as [-> | Hm0].
  { assert (E : (q == 0)%Q) by (rewrite Hq; apply Qmult_0_l). rewrite (rnd_zero q E). by rewrite E. }
  assert (Hpos : (0 < q)%Q).
  { rewrite Hq. pose proof (pow2_pos e). assert (0 < inject_Z m)%Q.
    { change 0%Q with (inject_Z 0). rewrite <- Zlt_Qlt. lia. } nra. }
  rewrite rnd_nonzero by lra. pose proof (significand q Hpos) as [Hs _].
  set (u := ulp_exp q) in *. pose proof (pow2_pos u) as Hu.
  assert (Hue : u <= e).
  { assert (u + 52 < e + 53); [| lia]. apply pow2_lt_inv.
    rewrite !pow2_add. 
    assert (H1 : (pow2 52 * pow2 u <= q)%Q).
    { apply (Qmult_le_compat_r _ _ (pow2 u)) in Hs; [| lra].
      by rewrite (Qdiv_mul_cancel q (pow2 u) Hu) in Hs. }
    assert (H2 : (inject_Z m < pow2 53)%Q).
    { rewrite pow2_Z by lia. rewrite <- Zlt_Qlt. lia. }
    pose proof (pow2_pos e). nra. }
  assert (Hint : (q / pow2 u == inject_Z (m * 2 ^ (e - u)))%Q).
  { rewrite inject_Z_mult, <- pow2_Z by lia. rewrite Hq.
    replace e with (e - u + u) at 1 by lia. rewrite pow2_add. field. lra. }
  rewrite (round_even_Z _ _ Hint), <- Hint. field. lra.
Qed.

Lemma rnd_int z : 0 <= z < 2 ^ 53 -> (f64_of_int z == inject_Z z)%Q.
Proof.
  intros Hz. apply (rnd_exact z 0); [| done]. change (pow2 0) with 1%Q. lra.
Qed.

Lemma round_even_ge z q : (inject_Z z <= q)%Q -> z <= round_even q.
Proof. intros H. rewrite <- (round_even_Z z (inject_Z z)) by lra. by apply round_even_mono. Qed.

Lemma round_even_le z q : (q <= inject_Z z)%Q -> round_even q <= z.
Proof. intros H. rewrite <- (round_even_Z z (inject_Z z)) by lra. by apply round_even_mono. Qed.

(** A rounded positive number keeps its binade. *)
Lemma rnd_binade q :
  (0 < q)%Q -> (pow2 (log2Q q) <= rnd q <= pow2 (log2Q q + 1))%Q.
Proof.
  intros Hq. rewrite rnd_nonzero by lra. pose proof (significand q Hq) as [Hlo Hhi].
  pose proof (pow2_pos (ulp_exp q)) as Hu.
  assert (E : ulp_exp q = log2Q q - 52) by (unfold ulp_exp; by rewrite Qabs_id by lra).
  rewrite (pow2_Z 52) in Hlo by lia. rewrite (pow2_Z 53) in Hhi by lia.
  assert (H1 : 2 ^ 52 <= round_even (q / pow2 (ulp_exp q))) by (apply round_even_ge; lra).
  assert (H2 : round_even (q / pow2 (ulp_exp q)) <= 2 ^ 53) by (apply round_even_le; lra).
  rewrite Zle_Qle in H1, H2. rewrite <- (pow2_Z 52) in H1 by lia. rewrite <- (pow2_Z 53) in H2 by lia.
  replace (log2Q q) with (52 + ulp_exp q) at 1 by lia.
  replace (log2Q q + 1) with (53 + ulp_exp q) by lia. rewrite !pow2_add.
  split; apply Qmult_le_compat_r; lra.
Qed.

Lemma rnd_nonneg q : (0 <= q)%Q -> (0 <= rnd q)%Q.
Proof.
  intros Hq. destruct (Qeq_dec q 0) as [E | E]; [by rewrite rnd_zero |].
  pose proof (rnd_binade q). pose proof (pow2_pos (log2Q q)). lra.
Qed.

Lemma rnd_mono p q : (0 <= p)%Q -> (p <= q)%Q -> (rnd p <= rnd q)%Q.
Proof.
  intros Hp Hpq. destruct (Qeq_dec p 0) as [E | E].
  { rewrite (rnd_zero p E). apply rnd_nonneg. lra. }
  pose proof (log2Q_mono p q ltac:(lra) Hpq) as Hlog.
  destruct (Z.eq_dec (log2Q p) (log2Q q)) as [El | El].
  - rewrite !rnd_nonzero by lra.
    assert (Eu : ulp_exp p = ulp_exp q) by (unfold ulp_exp; rewrite !Qabs_id by lra; lia).
    rewrite Eu. pose proof (pow2_pos (ulp_exp q)). apply Qmult_le_compat_r; [| lra].
    rewrite <- Zle_Qle. apply round_even_mono.
    apply Qle_shift_div_l; [done |].
    by rewrite Qdiv_mul_cancel.
  - pose proof (rnd_binade p ltac:(lra)). pose proof (rnd_binade q ltac:(lra)).
    pose proof (pow2_le (log2Q p + 1) (log2Q q) ltac:(lia)). lra.
Qed.

(** Rounding moves a positive number by at most one part in 2^52. *)
Lemma rnd_error q :
  (0 <= q)%Q -> (q - q * pow2 (-52) <= rnd q <= q + q * pow2 (-52))%Q.
Proof.
  intros Hq. destruct (Qeq_dec q 0) as [E | E].
  { rewrite (rnd_zero q E), E. lra. }
  rewrite rnd_nonzero by lra. assert (Hpos : (0 < q)%Q) by lra.
  pose proof (significand q Hpos) as [Hlo _]. pose proof (round_even_bounds (q / pow2 (ulp_exp q))) as Hr.
  set (u := ulp_exp q) in *. pose proof (pow2_pos u) as Hu.
  set (s := (q / pow2 u)%Q) in *. set (r := inject_Z (round_even s)) in *.
  assert (Es : (q == s * pow2 u)%Q) by (unfold s; field; lra).
  assert (Hulp : (pow2 u <= q * pow2 (-52))%Q).
  { assert (H52 : (pow2 52 * pow2 (-52) == 1)%Q) by reflexivity.
    pose proof (pow2_pos (-52)) as Hp.
    assert (H1 : (pow2 52 * pow2 (-52) <= s * pow2 (-52))%Q) by (apply Qmult_le_compat_r; lra).
    rewrite H52 in H1. rewrite Es.
    assert (H2 : (1 * pow2 u <= s * pow2 (-52) * pow2 u)%Q) by (apply Qmult_le_compat_r; lra).
    lra. }
  assert ((r - (1 # 2)) * pow2 u <= s * pow2 u)%Q by (apply Qmult_le_compat_r; lra).
  assert (s * pow2 u <= (r + (1 # 2)) * pow2 u)%Q by (apply Qmult_le_compat_r; lra).
  lra.
Qed.

#[export] Instance rnd_proper : Proper (Qeq ==> Qeq) rnd.
Proof.
  intros p q E. destruct (Qeq_dec p 0) as [Ep | Ep].
  { rewrite (rnd_zero p Ep), (rnd_zero q); [done | by rewrite <- E]. }
  destruct (Qlt_le_dec 0 p).
  - apply Qle_antisym; apply rnd_mono; lra.
  - rewrite !rnd_nonzero by (rewrite <- ?E; done).
    assert (El : log2Q (Qabs p) = log2Q (Qabs q)).
    { assert (0 < Qabs p)%Q by (rewrite Qabs_opp_id by lra; lra).
      apply Z.le_antisymm; apply log2Q_mono; rewrite ?E in *; lra. }
    assert (Eu : ulp_exp p = ulp_exp q) by (unfold ulp_exp; by rewrite El).
    rewrite Eu.
    assert (Er : round_even (p / pow2 (ulp_exp q)) = round_even (q / pow2 (ulp_exp q))).
    { apply Z.le_antisymm; apply round_even_mono; rewrite E; lra. }
    by rewrite Er.
Qed.

(** Dividing by a power of two is exact. *)
Lemma f64_div_pow2 b k :
  0 <= k -> 0 <= b < 2 ^ 53 ->
  (f64_div (f64_of_int b) (inject_Z (2 ^ k)) == inject_Z b / inject_Z (2 ^ k))%Q.
Proof.
  intros Hk Hb. unfold f64_div. rewrite (rnd_int b Hb).
  apply (rnd_exact b (- k)); [| done].
  unfold pow2. rewrite Qpower_opp. unfold Qdiv. by rewrite <- (pow2_Z k Hk).
Qed.

Lemma rnd_pow2 e : (rnd (pow2 e) == pow2 e)%Q.
Proof. apply (rnd_exact 1 e); [change (inject_Z 1) with 1%Q; lra | lia]. Qed.

Lemma rnd_le_pow2 q e : (0 <= q)%Q -> (q <= pow2 e)%Q -> (rnd q <= pow2 e)%Q.
Proof. intros H0 Hq. rewrite <- (rnd_pow2 e). by apply rnd_mono. Qed.

(** ** Two decimals *)

(** The two decimals of [b / 2^k] are the nearest ones. *)
Lemma hundredths_div b k :
  0 <= k -> 0 <= b < 2 ^ 53 ->
  2 * Z.abs (hundredths (f64_div (f64_of_int b) (inject_Z (2 ^ k))) * 2 ^ k - 100 * b) <= 2 ^ k.
Proof.
  intros Hk Hb. unfold hundredths. pose proof (f64_div_pow2 b k Hk Hb) as E.
  assert (Hpos : 0 < 2 ^ k) by by apply Z.pow_pos_nonneg.
  assert (Hu : (0 < inject_Z (2 ^ k))%Q) by by rewrite <- (Zlt_Qlt 0).
  set (x := f64_div _ _) in *.
  assert (Hx : (x * inject_Z (2 ^ k) == inject_Z b)%Q) by (rewrite E; by apply Qdiv_mul_cancel).
  assert (H0 : (0 <= x)%Q).
  { rewrite E. apply Qle_shift_div_l; [done |]. rewrite Qmult_0_l. rewrite <- (Zle_Qle 0); lia. }
  rewrite Qabs_id by done. pose proof (round_even_bounds (x * 100)) as [H1 H2].
  set (h := round_even _) in *. set (u := 2 ^ k) in *.
  apply (Qmult_le_compat_r _ _ (inject_Z u)) in H1, H2; [| lra..].
  assert (E2 : (x * 100 * inject_Z u == inject_Z (100 * b))%Q).
  { rewrite inject_Z_mult. change (inject_Z 100) with 100%Q. rewrite <- Hx. ring. }
  rewrite E2 in H1, H2.
  assert (H1' : (inject_Z (2 * (h * u)) <= inject_Z (2 * (100 * b) + u))%Q).
  { rewrite inject_Z_plus, !(inject_Z_mult 2), (inject_Z_mult h). change (inject_Z 2) with 2%Q. lra. }
  assert (H2' : (inject_Z (2 * (100 * b)) <= inject_Z (2 * (h * u) + u))%Q).
  { rewrite inject_Z_plus, !(inject_Z_mult 2), (inject_Z_mult h). change (inject_Z 2) with 2%Q. lra. }
  rewrite <- Zle_Qle in H1', H2'. lia.
Qed.

(** A quotient of at most [2^j] has at most [100 * 2^j] hundredths, and none is negative. *)
Lemma hundredths_range b k j :
  0 <= k -> 0 <= j -> 0 <= b <= 2 ^ (j + k) ->
  (0 <= f64_div (f64_of_int b) (inject_Z (2 ^ k)))%Q /\
  0 <= hundredths (f64_div (f64_of_int b) (inject_Z (2 ^ k))) <= 100 * 2 ^ j.
Proof.
  intros Hk Hj Hb. unfold hundredths, f64_div, f64_of_int.
  assert (Hpos : 0 < 2 ^ k) by by apply Z.pow_pos_nonneg.
  assert (Hu : (0 < inject_Z (2 ^ k))%Q) by by rewrite <- (Zlt_Qlt 0).
  assert (Hb0 : (0 <= inject_Z b)%Q) by (rewrite <- (Zle_Qle 0); lia).
  assert (Hb1 : (rnd (inject_Z b) <= pow2 (j + k))%Q).
  { apply rnd_le_pow2; [done |]. rewrite pow2_Z by lia. rewrite <- Zle_Qle. lia. }
  pose proof (rnd_nonneg _ Hb0) as Hr0. set (r := rnd (inject_Z b)) in *.
  assert (Hd0 : (0 <= r / inject_Z (2 ^ k))%Q).
  { apply Qle_shift_div_l; [done |]. by rewrite Qmult_0_l. }
  assert (Hd1 : (r / inject_Z (2 ^ k) <= pow2 j)%Q).
  { apply Qle_shift_div_r; [done |]. rewrite <- pow2_Z by lia. by rewrite <- pow2_add. }
  pose proof (rnd_nonneg _ Hd0) as Hx0. pose proof (rnd_le_pow2 _ _ Hd0 Hd1) as Hx1.
  set (x := rnd (r / _)) in *. split; [done |]. rewrite Qabs_id by done. split.
  - apply round_even_ge. change (inject_Z 0) with 0%Q. lra.
  - apply round_even_le. rewrite inject_Z_mult, <- pow2_Z by lia. change (inject_Z 100) with 100%Q. lra.
Qed.
