(* ===== verification/Os.v ===== *)
(** * What lies outside the program: the operating system

    The kernel's file system, mount table, quota and extended-attribute calls,
    the clock and the runtime's choice of map iteration orders are operations on
    a world [W] that the development never looks into: an [OS W] is an argument
    of every definition that uses them.  A read returns a value or an error, a
    write returns a possible error with the new world. *)

From S2P Require Import Prelude.

Record Statfs_t := mkStatfs { fs_Type : Z; fs_Blocks : Z; fs_Bfree : Z; fs_Bsize : Z }.

Record FileInfo := mkFileInfo { fi_Name : string; fi_IsDir : bool }.

(** The fields of [struct fs_disk_quota] that the program reads, in basic
    blocks. *)
Record fs_disk_quota := mkDiskQuota {
  d_blk_hardlimit : Z;
  d_blk_softlimit : Z;
  d_bcount : Z
}.

Class OS (W : Type) := {
  (** [os.Stat]: the error, if any *)
  os_Stat : string -> W -> option error;
  os_MkdirAll : string -> Z -> W -> option error * W;
  os_RemoveAll : string -> W -> option error * W;
  (** [ioutil.ReadDir], the entries sorted by name *)
  ioutil_ReadDir : string -> W -> list FileInfo + error;
  (** [unix.Lstat]: the device number *)
  unix_Lstat : string -> W -> Z + error;
  (** the lines a [bufio.Scanner] reads from /proc/self/mountinfo *)
  mountinfo_lines : W -> list string + error;
  unix_Getxattr : string -> string -> W -> string + error;
  unix_Setxattr : string -> string -> string -> W -> option error * W;
  syscall_Statfs : string -> W -> Statfs_t + error;
  (** [mount.Interface] of k8s.io/utils/mount *)
  IsLikelyNotMountPoint : string -> W -> bool + error;
  IsNotMountPoint : string -> W -> bool + error;
  mount_Mount : string -> string -> string -> list string -> W -> option error * W;
  mount_Unmount : string -> W -> option error * W;
  (** quotactl(Q_XGETQSTAT): [qs_flags] *)
  quotactl_getqstat : string -> W -> Z + error;
  (** quotactl(Q_XGETQUOTA) and quotactl(Q_XSETQLIM) of a project: device, id,
      and the hard and soft limits in basic blocks *)
  quotactl_getquota : string -> Z -> W -> fs_disk_quota + error;
  quotactl_setqlim : string -> Z -> Z -> Z -> W -> option error * W;
  (** ioctl(FS_IOC_FSGETXATTR) and ioctl(FS_IOC_FSSETXATTR) on an opened
      directory: the project id *)
  opendir : string -> W -> option error;
  ioctl_getprojid : string -> W -> Z + error;
  ioctl_setprojid : string -> Z -> W -> option error * W;
  (** [time.Now], in nanoseconds *)
  time_Now : W -> Z * W;
  (** the order in which [range] visits the keys of a map *)
  range_order : gset string -> W -> list string * W
}.

(** What the program relies on: every key of a map is visited once; and the
    kernel keeps the project id of a directory and the limits of a project. *)
Class OSLaws (W : Type) `{OS W} := {
  range_order_perm ks w : (range_order ks w).1 ≡ₚ elements ks;
  getprojid_setprojid p id w w' :
    opendir p w = None -> ioctl_setprojid p id w = (None, w') ->
    opendir p w' = None /\ ioctl_getprojid p w' = inl id;
  getquota_setqlim dev id h s w w' :
    quotactl_setqlim dev id h s w = (None, w') ->
    (exists n, quotactl_getquota dev id w' = inl (mkDiskQuota h s n)) /\
    (forall p, opendir p w' = opendir p w /\ ioctl_getprojid p w' = ioctl_getprojid p w)
}.

Section calls.
Context {W : Type}.

Definition sys_read {A} (r : W -> A + error) : M W A := fun w =>
  match r w with inl a => (Ok a, w) | inr e => (Fail e, w) end.

Definition sys_write (f : W -> option error * W) : M W unit := fun w =>
  match f w with (None, w') => (Ok tt, w') | (Some e, w') => (Fail e, w') end.

(** A call that always returns a value. *)
Definition sys_value {A} (f : W -> A * W) : M W A := fun w =>
  let '(a, w') := f w in (Ok a, w').

Lemma sys_read_safe {A} (r : W -> A + error) : safe (sys_read r) (fun _ => True).
Proof. intros w. unfold sys_read. by destruct (r w). Qed.

Lemma sys_write_safe f : safe (sys_write f) (fun _ => True).
Proof. intros w. unfold sys_write. by destruct (f w) as [[e |] w']. Qed.

Lemma sys_value_safe {A} (f : W -> A * W) : safe (sys_value f) (fun _ => True).
Proof. intros w. unfold sys_value. by destruct (f w). Qed.
Lemma sys_write_Ok (f : W -> option error * W) w w' : sys_write f w = (Ok tt, w') -> f w = (None, w').
Proof. unfold sys_write. destruct (f w) as [[e|] u]; [done |]. by intros [= ->]. Qed.
End calls.

#[export] Hint Resolve sys_read_safe sys_write_safe sys_value_safe : go_inv.
