(* ===== verification/SimOs.v ===== *)
(** * A small operating system for concrete runs

    An in-memory instance of [OS] that obeys [OSLaws]: directories with their
    project ids, the limits of the projects, mount points and extended
    attributes.  The witnesses of the development run the program on it. *)

From S2P Require Import Prelude GoStrings Os.
Open Scope Z_scope.

Record sim := mkSim {
  sim_dirs : list string;               (* the directories that exist *)
  sim_projid : gmap string Z;           (* directory -> project id *)
  sim_limit : gmap (string * Z) (Z * Z); (* device, project -> limits in blocks *)
  sim_mounts : list (string * string);  (* mount point, source *)
  sim_mountinfo : list string;
  sim_fs : gmap string Statfs_t;        (* mount point -> its statfs *)
  sim_xattr : gmap (string * string) string;
  sim_clock : Z;
  sim_broken : list string              (* paths no operation works on *)
}.

Definition no_such_file (path : string) : error := SysErr true "no such file or directory".
Definition io_error : error := SysErr false "input/output error".

(** The name of [path] in directory [dir]. *)
Definition child (dir path : string) : option string :=
  let p := dir +:+ "/" in
  if HasPrefix path p
  then let n := String.substring (String.length p) (String.length path - String.length p) path in
       if decide (Index n "/" = -1 /\ n <> "") then Some n else None
  else None.

Definition broken (p : string) (w : sim) : bool := bool_decide (p ∈ sim_broken w).
Definition is_dir (p : string) (w : sim) : bool := bool_decide (p ∈ sim_dirs w).

Definition with_dirs (f : list string -> list string) (w : sim) : sim :=
  mkSim (f (sim_dirs w)) (sim_projid w) (sim_limit w) (sim_mounts w) (sim_mountinfo w) (sim_fs w)
    (sim_xattr w) (sim_clock w) (sim_broken w).
Definition with_projid (f : gmap string Z -> gmap string Z) (w : sim) : sim :=
  mkSim (sim_dirs w) (f (sim_projid w)) (sim_limit w) (sim_mounts w) (sim_mountinfo w) (sim_fs w)
    (sim_xattr w) (sim_clock w) (sim_broken w).
Definition with_limit (f : gmap (string * Z) (Z * Z) -> gmap (string * Z) (Z * Z)) (w : sim) : sim :=
  mkSim (sim_dirs w) (sim_projid w) (f (sim_limit w)) (sim_mounts w) (sim_mountinfo w) (sim_fs w)
    (sim_xattr w) (sim_clock w) (sim_broken w).
Definition with_mounts (f : list (string * string) -> list (string * string)) (w : sim) : sim :=
  mkSim (sim_dirs w) (sim_projid w) (sim_limit w) (f (sim_mounts w)) (sim_mountinfo w) (sim_fs w)
    (sim_xattr w) (sim_clock w) (sim_broken w).
Definition with_xattr (f : gmap (string * string) string -> gmap (string * string) string) (w : sim) : sim :=
  mkSim (sim_dirs w) (sim_projid w) (sim_limit w) (sim_mounts w) (sim_mountinfo w) (sim_fs w)
    (f (sim_xattr w)) (sim_clock w) (sim_broken w).
Definition tick (w : sim) : sim :=
  mkSim (sim_dirs w) (sim_projid w) (sim_limit w) (sim_mounts w) (sim_mountinfo w) (sim_fs w)
    (sim_xattr w) (sim_clock w + 1) (sim_broken w).

Definition is_mounted (p : string) (w : sim) : bool :=
  existsb (fun m => String.eqb m.1 p) (sim_mounts w).

Definition on_path {A} (p : string) (w : sim) (r : A) : A + error :=
  if broken p w then inr io_error else if is_dir p w then inl r else inr (no_such_file p).

Definition upd_path (p : string) (w w' : sim) : option error * sim :=
  if broken p w then (Some io_error, w) else (None, w').

(** The names in a directory, each once *)
Definition entries (p : string) (w : sim) : list string := remove_dups (filter normal_elem (omap (child p) (sim_dirs w))).

#[export] Instance sim_os : OS sim := {
  os_Stat p w := match on_path p w tt with inl _ => None | inr e => Some e end;
  os_MkdirAll p _ w := upd_path p w (if is_dir p w then w else with_dirs (fun d => d ++ [p]) w);
  os_RemoveAll p w := upd_path p w
    (with_projid (delete p) (with_dirs (filter (fun q => ~ (q = p \/ HasPrefix q (p +:+ "/") = true))) w));
  ioutil_ReadDir p w := on_path p w ((fun n => mkFileInfo n true) <$> entries p w);
  unix_Lstat p w := on_path p w (if is_mounted p w then 1 else 0);
  mountinfo_lines w := inl (sim_mountinfo w);
  unix_Getxattr p a w :=
    match sim_xattr w !! (p, a) with Some v => inl v | None => inr (SysErr false "no data available") end;
  unix_Setxattr p a v w := upd_path p w (with_xattr <[(p, a) := v]> w);
  syscall_Statfs p w :=
    match sim_fs w !! p with Some f => inl f | None => inr (no_such_file p) end;
  IsLikelyNotMountPoint p w := on_path p w (negb (is_mounted p w));
  IsNotMountPoint p w := on_path p w (negb (is_mounted p w));
  mount_Mount source target _ _ w := upd_path target w (with_mounts (cons (target, source)) w);
  mount_Unmount target w := upd_path target w (with_mounts (filter (fun m => m.1 <> target)) w);
  quotactl_getqstat _ w := inl 48;
  quotactl_getquota dev id w :=
    match sim_limit w !! (dev, id) with
    | Some (h, s) => inl (mkDiskQuota h s 0)
    | None => inr (SysErr false "no such process")
    end;
  quotactl_setqlim dev id h s w := upd_path dev w (with_limit <[(dev, id) := (h, s)]> w);
  opendir p w := match on_path p w tt with inl _ => None | inr e => Some e end;
  ioctl_getprojid p w := on_path p w (default 0 (sim_projid w !! p));
  ioctl_setprojid p id w := upd_path p w (with_projid <[p := id]> w);
  time_Now w := (sim_clock w, tick w);
  range_order ks w := (elements ks, w)
}.

#[export] Instance sim_os_laws : OSLaws sim.
Proof.
  split; unfold ioctl_setprojid, ioctl_getprojid, quotactl_setqlim, quotactl_getquota, opendir;
    simpl; unfold upd_path, on_path, broken, is_dir.
  - done.
  - intros p id w w' Hopen Hset.
    destruct (bool_decide (p ∈ sim_broken w)) eqn:Eb; [discriminate |]. injection Hset as <-. simpl.
    rewrite Eb in *. destruct (bool_decide (p ∈ sim_dirs w)); [| discriminate].
    by rewrite lookup_insert_eq.
  - intros dev id h s w w' Hset.
    destruct (bool_decide (dev ∈ sim_broken w)); [discriminate |]. injection Hset as <-. simpl.
    rewrite lookup_insert_eq. eauto.
Qed.
