(* ===== verification/Util.v ===== *)
(** * Helpers: pkg/util/util.go

    The rounding of volume sizes, and the helpers over the file system, the
    mount table and extended attributes. *)

From S2P Require Import Prelude GoStrings GoFloat Os.
From stdpp Require Import pretty.
Open Scope Z_scope.

(** ** Sizes *)

Definition MiB : Z := 1024 * 1024.
Definition GiB : Z := MiB * 1024.

Definition RoundOffBytes (bytes : Z) : Z :=
  let floatBytes := f64_of_int bytes in
  if f64_lt floatBytes (inject_Z GiB) then
    let num := int64_of_f64 (f64_ceil (f64_div floatBytes (inject_Z MiB))) in
    i64 (num * MiB)
  else
    let num := int64_of_f64 (f64_ceil (f64_div floatBytes (inject_Z GiB))) in
    i64 (num * GiB).

(** ** The file system *)

Definition LINUX_MOUNTS_FILE : string := "/proc/self/mountinfo".

(** [unix.Major] and [unix.Minor] of golang.org/x/sys/unix *)
Definition Major (dev : Z) : Z :=
  u32 (Z.lor (Z.shiftr (Z.land dev 0x00000000000fff00) 8)
             (Z.shiftr (Z.land dev 0xfffff00000000000) 32)).
Definition Minor (dev : Z) : Z :=
  u32 (Z.lor (Z.land dev 0x00000000000000ff)
             (Z.shiftr (Z.land dev 0x00000ffffff00000) 12)).

Section Util.
Context {W : Type} `{OS W}.

Definition GetSubDirs (parentDir : string) (w : W) : list string :=
  let parentDir := Clean parentDir in
  match ioutil_ReadDir parentDir w with
  | inr _ => []
  | inl dir =>
      map (fun fi => Clean (parentDir +:+ "/" +:+ fi_Name fi)) (filter (fun fi => fi_IsDir fi = true) dir)
  end.

Definition SetFilesystemXattr (path attrKey attrValue : string) : M W unit :=
  sys_write (unix_Setxattr path attrKey attrValue).

(** The first call asks for the size of the value, the second reads it. *)
Definition GetFilesystemXattr (path attrKey : string) : M W string :=
  let! data := sys_read (unix_Getxattr path attrKey) in
  if go_len data <=? 0 then ret "" else sys_read (unix_Getxattr path attrKey).

Definition CreateNewDir (mountPath : string) : M W unit :=
  sys_write (os_MkdirAll mountPath 488). (* mode 0750 *)

Definition IsPathExist (dir : string) (w : W) : bool :=
  match os_Stat dir w with Some e => negb (IsNotExist e) | None => true end.

Definition CheckDirExists (p : string) (w : W) : bool :=
  match os_Stat p w with Some e => negb (IsNotExist e) | None => true end.

Definition DeleteFile (path : string) : M W unit :=
  let! exist := gets (IsPathExist path) in
  if exist then sys_write (os_RemoveAll path) else ret tt.

Definition MkDir (dir : string) : M W unit :=
  let! exist := gets (IsPathExist dir) in
  if exist then ret tt
  else
    let! r := attempt (sys_write (os_MkdirAll dir 493 (* mode 0755 *))) in
    match r with
    | inl _ => ret tt
    | inr mkdirErr => fail (Errorf ("mkdir " +:+ dir +:+ " err:" +:+ error_text mkdirErr))
    end.

Definition IsMountPoint (p : string) : M W bool :=
  let! r := attempt (sys_read (IsLikelyNotMountPoint p)) in
  match r with
  | inl notMnt => ret (negb notMnt)
  | inr err => fail (StatusError Internal (error_text err))
  end.

Definition Mount (source target fstype : string) (options : list string) : M W unit :=
  sys_write (mount_Mount source target fstype options).

(** The backing device that one line of mountinfo gives for a mount point. *)
Definition mountinfo_device (dev mountPoint line : string) : option string :=
  let tokens := Fields line in
  if (length tokens <? 5)%nat then None
  else if decide (nth 2 tokens "" = dev /\ nth 4 tokens "" = mountPoint)%string
  then Some (nth (length tokens - 2) tokens ""%string)
  else None.

Fixpoint scan_mountinfo (dev mountPoint : string) (lines : list string) : option string :=
  match lines with
  | [] => None
  | line :: lines' =>
      match mountinfo_device dev mountPoint line with
      | Some d => Some d
      | None => scan_mountinfo dev mountPoint lines'
      end
  end.

Definition GetDevForPath (mountPoint : string) : M W string :=
  let mountPoint := Clean mountPoint in
  let! dev := sys_read (unix_Lstat mountPoint) in
  let! lines := sys_read mountinfo_lines in
  match scan_mountinfo (pretty (Major dev) +:+ ":" +:+ pretty (Minor dev)) mountPoint lines with
  | Some device => ret device
  | None => fail (Errorf "couldn't find backing device for mountpoint")
  end.
End Util.

Example mountinfo_example :
  scan_mountinfo "8:16" "/xfs/disk1"
    ["22 1 8:1 / / rw - ext4 /dev/sda1 rw";
     "40 22 8:16 / /xfs/disk1 rw shared:1 - xfs /dev/sdb rw,prjquota"]%string
  = Some "/dev/sdb"%string.
Proof. by vm_compute. Qed.

(** ** Rounding volume sizes *)

(** The unit a size is rounded to. *)
Definition round_unit (bytes : Z) : Z := if bytes <? GiB then MiB else GiB.

Lemma f64_lt_int b z : 0 <= b < 2 ^ 53 -> f64_lt (f64_of_int b) (inject_Z z) = (b <? z).
Proof.
  intros Hb. unfold f64_lt. pose proof (rnd_int b Hb) as E.
  destruct (Qle_bool (inject_Z z) (f64_of_int b)) eqn:Ele; simpl.
  - apply Qle_bool_iff in Ele. rewrite E, <- Zle_Qle in Ele. symmetry. by apply Z.ltb_ge.
  - symmetry. apply Z.ltb_lt, Z.nle_gt. rewrite Zle_Qle, <- E, <- Qle_bool_iff. congruence.
Qed.

Lemma int64_of_ceil q : int64_of_f64 (f64_ceil q) = Qceiling q.
Proof.
  unfold int64_of_f64, f64_ceil. by destruct (Qle_bool _ _); rewrite ?Qfloor_Z, ?Qceiling_Z.
Qed.

Lemma ceil_div_bounds b k :
  0 <= k -> 0 <= b < 2 ^ 53 ->
  let c := Qceiling (f64_div (f64_of_int b) (inject_Z (2 ^ k))) in
  (c - 1) * 2 ^ k < b <= c * 2 ^ k.
Proof.
  intros Hk Hb c. assert (Hpos : 0 < 2 ^ k) by by apply Z.pow_pos_nonneg.
  assert (Ec : c = Qceiling (inject_Z b / inject_Z (2 ^ k))).
  { unfold c. apply Qceiling_comp. by apply f64_div_pow2. }
  assert (Hq : (0 < inject_Z (2 ^ k))%Q) by by rewrite <- (Zlt_Qlt 0).
  pose proof (Qle_ceiling (inject_Z b / inject_Z (2 ^ k))) as H1.
  pose proof (Qceiling_lt (inject_Z b / inject_Z (2 ^ k))) as H2.
  rewrite <- Ec in H1, H2. rewrite !Zlt_Qlt, Zle_Qle, !inject_Z_mult.
  rewrite <- (Qdiv_mul_cancel (inject_Z b) _ Hq). split.
  - by apply Qmult_lt_compat_r.
  - apply Qmult_le_compat_r; [done |]. by apply Qlt_le_weak.
Qed.

Lemma RoundOffBytes_cases b :
  0 <= b < 2 ^ 53 ->
  exists c, RoundOffBytes b = c * round_unit b /\ 0 <= c /\
    (c - 1) * round_unit b < b <= c * round_unit b.
Proof.
  intros Hb. unfold RoundOffBytes, round_unit. rewrite f64_lt_int by done.
  rewrite !int64_of_ceil.
  destruct (Z.ltb_spec b GiB) as [Hlt | Hge].
  - change MiB with (2 ^ 20). pose proof (ceil_div_bounds b 20 ltac:(lia) Hb) as Hc.
    cbv zeta in Hc. set (c := Qceiling _) in *. exists c.
    change (2 ^ 20) with 1048576 in *. split; [| lia]. apply i64_small. unfold in_i64. lia.
  - change GiB with (2 ^ 30). pose proof (ceil_div_bounds b 30 ltac:(lia) Hb) as Hc.
    cbv zeta in Hc. set (c := Qceiling _) in *. exists c.
    change (2 ^ 30) with 1073741824 in *. split; [| lia]. apply i64_small. unfold in_i64. lia.
Qed.

Lemma RoundOffBytes_top : RoundOffBytes (2 ^ 53) = 2 ^ 53.
Proof. by vm_compute. Qed.

(** A multiple of its unit stays. *)
Lemma round_again c u :
  0 <= c -> c * u <= 2 ^ 53 -> u = MiB /\ c * u <= GiB \/ u = GiB /\ GiB <= c * u -> RoundOffBytes (c * u) = c * u.
Proof.
  intros Hc0 Hle Hu. destruct (decide (c * u = 2 ^ 53)) as [-> | Hne]; [apply RoundOffBytes_top |].
  assert (Hpos : 0 <= c * u) by (destruct Hu as [[-> _] | [-> _]]; unfold GiB, MiB; lia).
  destruct (RoundOffBytes_cases (c * u) ltac:(lia)) as (c' & -> & _ & Hc').
  revert Hc'. unfold round_unit. destruct (Z.ltb_spec (c * u) GiB); intros Hc'; destruct Hu as [[-> ?] | [-> ?]]; unfold GiB, MiB in *; lia.
Qed.

(** ** Properties *)

(** C38: a size up to 2^53 bytes (8 PiB) is rounded up to the next multiple of 1 MiB when
    it is below 1 GiB and of 1 GiB from there on: the result is never less than the size,
    exceeds it by less than the unit, is a multiple of the unit, and stays the same when it
    is rounded again.  Sizes up to 1 MiB become 1 MiB - except 0, which stays 0. *)
Theorem RoundOffBytes_spec b :
  0 <= b <= 2 ^ 53 ->
  b <= RoundOffBytes b < b + round_unit b /\
  (round_unit b | RoundOffBytes b) /\
  RoundOffBytes (RoundOffBytes b) = RoundOffBytes b /\
  (0 < b <= MiB -> RoundOffBytes b = MiB) /\
  (RoundOffBytes b = 0 <-> b = 0).
Proof.
  intros Hb. destruct (decide (b = 2 ^ 53)) as [-> | Hne].
  { rewrite RoundOffBytes_top. split; [by vm_compute |]. split; [by exists (2 ^ 23) |].
    split; [apply RoundOffBytes_top |]. unfold MiB. split; [lia | done]. }
  destruct (RoundOffBytes_cases b ltac:(lia)) as (c & E & Hc0 & Hc).
  assert (Hu : (round_unit b = MiB /\ b < GiB) \/ (round_unit b = GiB /\ GiB <= b)).
  { unfold round_unit. destruct (Z.ltb_spec b GiB); auto. }
  split; [lia |]. split; [exists c; lia |]. split; [| split].
  - rewrite E. apply round_again; [lia | |]; destruct Hu as [[Hr ?] | [Hr ?]]; rewrite Hr in *; unfold GiB, MiB in *; lia.
  - intros Hm. destruct Hu as [[Hr _] | [_ Hg]]; [| unfold GiB, MiB in *; lia]. rewrite Hr in *. unfold MiB in *. nia.
  - destruct Hu as [[Hr _] | [Hr _]]; rewrite Hr in *; unfold GiB, MiB in *; lia.
Qed.

Lemma RoundOffBytes_spec_witness :
  RoundOffBytes 1500000 = 2 * MiB /\
  1500000 <= RoundOffBytes 1500000 < 1500000 + round_unit 1500000.
Proof.
  split; [by vm_compute |]. apply (RoundOffBytes_spec 1500000).
  split; discriminate.
Defined.

(** beyond 2^53 the conversion to float64 loses the low bits and the result
    can be smaller than the size; the largest int64 size rounds to a negative
    one; and a size of zero, which is below 1 MiB, stays zero. *)
Theorem RoundOffBytes_edges :
  RoundOffBytes (2 ^ 53 + 1) < 2 ^ 53 + 1 /\
  RoundOffBytes (2 ^ 63 - 1) = - 2 ^ 63 /\
  RoundOffBytes 0 = 0.
Proof. split_and!; by vm_compute. Qed.
