(* ===== verification/FileSystem.v ===== *)
(** * What the program relies on of the file system

    [OSLaws] has what one call promises for one directory; a restart reads everything
    that earlier calls have left on the disks, so it relies on what the calls leave
    alone: the clock and extended attributes change no file, a directory that is made
    appears in its parent and nowhere else, a removed one disappears with what is below
    it, project ids and limits are kept per directory and per project. *)

From S2P Require Import Prelude GoStrings Os SimOs Util.
Open Scope Z_scope.
Open Scope go_scope.

(** ** Paths *)

Lemma split_on_ne c s : split_on c s <> [].
Proof. destruct s as [|d s]; cbn; [done |]. destruct (Ascii.eqb d c); [done |]. by destruct (split_on c s). Qed.

Lemma split_on_snoc c s t : split_on c (s +:+ String c t) = split_on c s ++ split_on c t.
Proof.
  induction s as [|d s IH]; [change ("" +:+ String c t) with (String c t); cbn [split_on]; by rewrite Ascii.eqb_refl |].
  rewrite append_cons. cbn [split_on]. destruct (Ascii.eqb d c); rewrite IH; [done |].
  pose proof (split_on_ne c s). by destruct (split_on c s).
Qed.

Lemma append_inj (s t u : string) : s +:+ t = s +:+ u -> t = u.
Proof. induction s as [|c s IH]; [done |]. rewrite !append_cons. intros [= E]. auto. Qed.

Lemma append_inj_l (s t u : string) : s +:+ u = t +:+ u -> s = t.
Proof.
  intros E. assert (Hl : String.length s = String.length t)
    by (apply (f_equal String.length) in E; rewrite !length_string_app in E; lia).
  revert t E Hl. induction s as [|c s IH]; intros [|d t] E Hl; try done.
  rewrite !append_cons in E. injection E as -> E. f_equal. apply IH; [done |]. by injection Hl.
Qed.

Lemma abs_path_inj es es' :
  es <> [] -> es' <> [] -> Forall normal_elem es -> Forall normal_elem es' -> abs_path es = abs_path es' -> es = es'.
Proof.
  intros Hne Hne' Hes Hes' E. apply append_inj in E.
  by rewrite <- (split_join es), <- (split_join es'), E.
Qed.

Lemma abs_path_snoc es e : es <> [] -> abs_path (es ++ [e]) = abs_path es +:+ "/" +:+ e.
Proof. intros Hne. unfold abs_path. rewrite join_snoc by done. by rewrite !app_assoc_string. Qed.

(** The path is somewhere below the directory [p]. *)
Definition below (p q : string) : Prop := exists t, q = p +:+ "/" +:+ t.

(** An absolute path without empty elements, dots and double dots, so that two different
    ones are different files: the laws below are about such paths and a file system
    without symbolic links. *)
Definition normal_path (p : string) : Prop := exists es, es <> [] /\ Forall normal_elem es /\ p = abs_path es.

Lemma normal_abs_path es : es <> [] -> Forall normal_elem es -> normal_path (abs_path es).
Proof. by exists es. Qed.

(** The other paths, and those that are not below the path either *)
Definition other (p q : string) : Prop := normal_path q /\ q <> p.
Definition beside (p q : string) : Prop := other p q /\ ~ below p q.

Lemma below_abs_path es es' :
  es <> [] -> es' <> [] -> Forall normal_elem es -> Forall normal_elem es' -> below (abs_path es) (abs_path es') ->
  exists l, l <> [] /\ es' = es ++ l.
Proof.
  intros Hne Hne' Hes Hes' [t E]. unfold abs_path in E. rewrite app_assoc_string in E. apply append_inj in E.
  change ("/" +:+ t) with (String slash t) in E.
  exists (split_on slash t). split; [apply split_on_ne |].
  rewrite <- (split_join es' Hne' Hes'), E, split_on_snoc. by rewrite split_join.
Qed.

(** Two directories of one path are comparable. *)
Lemma below_comparable p r u t : p +:+ "/" +:+ u = r +:+ "/" +:+ t -> p = r \/ below p r \/ below r p.
Proof.
  revert r. induction p as [|c p IH]; intros [|d r] E; [by left | | |].
  - injection E as <- E. right. left. by exists r.
  - injection E as -> E. right. right. by exists p.
  - rewrite !append_cons in E. injection E as -> E. destruct (IH r E) as [-> | [[x ->] | [x ->]]]; [by left | right..].
    + left. by exists x.
    + right. by exists x.
Qed.

(** ** The kernel's answers *)

Section view.
Context {W : Type} `{OS W}.
Implicit Types (w : W) (p q dev : string).

(** The limits of a project, in blocks *)
Definition limit_of dev (id : Z) w : option (Z * Z) :=
  match quotactl_getquota dev id w with inl d => Some (d_blk_hardlimit d, d_blk_softlimit d) | inr _ => None end.

(** What the kernel says of one path, its entries apart *)
Record same_path q w w' : Prop := {
  sp_stat : os_Stat q w' = os_Stat q w;
  sp_open : opendir q w' = opendir q w;
  sp_id : ioctl_getprojid q w' = ioctl_getprojid q w;
  sp_lstat : unix_Lstat q w' = unix_Lstat q w;
  sp_mount : IsLikelyNotMountPoint q w' = IsLikelyNotMountPoint q w;
  sp_statfs : (exists fs, syscall_Statfs q w' = inl fs) <-> (exists fs, syscall_Statfs q w = inl fs)
}.

(** Whether [os.RemoveAll] of the path would succeed *)
Definition removable q w : Prop := (os_RemoveAll q w).1 = None.

(** The world changes at most for paths not in [keep], in the entries of directories not
    in [listing], and in the limits not in [lim]. *)
Record same_except (keep listing : string -> Prop) (lim : string -> Z -> Prop) w w' : Prop := {
  se_path q : keep q -> same_path q w w';
  se_readdir q : keep q -> listing q -> ioutil_ReadDir q w' = ioutil_ReadDir q w;
  se_mountinfo : mountinfo_lines w' = mountinfo_lines w;
  se_limit dev id : lim dev id -> limit_of dev id w' = limit_of dev id w;
  se_removable q : removable q w' <-> removable q w
}.

Definition all_paths : string -> Prop := fun _ => True.
Definition all_limits : string -> Z -> Prop := fun _ _ => True.
Definition quiet : W -> W -> Prop := same_except all_paths all_paths all_limits.

#[export] Instance quiet_refl : Reflexive quiet.
Proof. intros w. by split. Qed.

#[export] Instance quiet_trans : Transitive quiet.
Proof.
  intros w1 w2 w3 [P1 R1 M1 L1 F1] [P2 R2 M2 L2 F2]. split.
  - intros q Hq. destruct (P1 q Hq) as [A1 B1 C1 D1 E1 G1], (P2 q Hq) as [A2 B2 C2 D2 E2 G2]. split; [congruence.. | tauto].
  - intros q Hq Hl. by rewrite R2, R1.
  - by rewrite M2.
  - intros dev id Hl. by rewrite L2, L1.
  - intros q. by rewrite F2, F1.
Qed.

Lemma same_except_sym keep listing lim w w' : same_except keep listing lim w w' -> same_except keep listing lim w' w.
Proof.
  intros [P R M L F]. split; [| intros; symmetry; auto..].
  intros q Hq. destruct (P q Hq) as [A B C D E G]. by split.
Qed.

(** Neither path is the other one or below it. *)
Definition apart (p q : string) : Prop := q <> p /\ ~ below p q /\ ~ below q p.

Lemma apart_below p r q : apart p r -> below r q -> apart p q.
Proof.
  intros (Hne & Hpr & Hrp) [t ->]. split_and!.
  - intros <-. apply Hrp. by exists t.
  - intros [u E]. symmetry in E. destruct (below_comparable p r u t E) as [-> | [Hb | Hb]]; [done | by apply Hpr | by apply Hrp].
  - intros [u ->]. apply Hrp. exists (t +:+ "/" +:+ u). by rewrite !app_assoc_string.
Qed.

(** What a call for the path [p] changes, whether it succeeds or not: only what is at, below
    or above [p].  A mount adds and removes lines of mountinfo that are for [p]. *)
Record elsewhere p w w' : Prop := {
  ew_path q : normal_path q -> apart p q -> same_path q w w';
  ew_readdir q : normal_path q -> apart p q -> ioutil_ReadDir q w' = ioutil_ReadDir q w;
  ew_mountinfo dev q : normal_path q -> q <> p ->
    match mountinfo_lines w, mountinfo_lines w' with
    | inl lines, inl lines' => scan_mountinfo dev q lines' = scan_mountinfo dev q lines
    | inr e, inr e' => e = e'
    | _, _ => False
    end;
  ew_limit dev id : limit_of dev id w' = limit_of dev id w;
  ew_removable q : normal_path q -> apart p q -> removable q w' <-> removable q w
}.

Lemma elsewhere_sym p w w' : elsewhere p w w' -> elsewhere p w' w.
Proof.
  intros [P R M L F]. split.
  - intros q Hn Hq. destruct (P q Hn Hq) as [A B C D E G]. by split.
  - intros q Hn Hq. by rewrite R.
  - intros dev q Hn Hq. specialize (M dev q Hn Hq). by destruct (mountinfo_lines w), (mountinfo_lines w').
  - intros dev id. by rewrite L.
  - intros q Hn Hq. by rewrite F.
Qed.

(** The names of the directories in a directory *)
Definition names_in (es : list string) w : list string :=
  match ioutil_ReadDir (abs_path es) w with
  | inl dir => map fi_Name (filter (fun fi => fi_IsDir fi = true) dir)
  | inr _ => []
  end.
End view.

Class FileLaws (W : Type) `{OSLaws W} := {
  clock_quiet (w : W) : quiet w (time_Now w).2;
  range_quiet ks (w : W) : quiet w (range_order ks w).2;
  xattr_quiet p a v (w : W) : quiet w (unix_Setxattr p a v w).2;
  (** the names in a directory are path elements, each once *)
  readdir_names p (w : W) dir :
    ioutil_ReadDir p w = inl dir -> Forall (fun fi => normal_elem (fi_Name fi)) dir /\ NoDup (map fi_Name dir);
  (** a directory that can be opened exists and is listed, and what is listed exists *)
  open_exists p (w : W) : opendir p w = None -> match os_Stat p w with Some e => IsNotExist e = false | None => True end;
  open_listed es n (w : W) dir :
    es <> [] -> Forall normal_elem es -> normal_elem n ->
    opendir (abs_path (es ++ [n])) w = None -> ioutil_ReadDir (abs_path es) w = inl dir -> n ∈ map fi_Name dir;
  listed_exists es n (w : W) dir :
    es <> [] -> Forall normal_elem es -> normal_elem n ->
    ioutil_ReadDir (abs_path es) w = inl dir -> n ∈ map fi_Name dir -> IsPathExist (abs_path (es ++ [n])) w = true;
  setprojid_only p id (w : W) : normal_path p -> same_except (other p) all_paths all_limits w (ioctl_setprojid p id w).2;
  setqlim_only dev id h s (w : W) :
    same_except all_paths all_paths (fun dev' id' => (dev', id') <> (dev, id)) w (quotactl_setqlim dev id h s w).2;
  mkdir_only es n mode (w w' : W) e dir :
    es <> [] -> Forall normal_elem es -> normal_elem n ->
    os_Stat (abs_path (es ++ [n])) w = Some e -> IsNotExist e = true -> ioutil_ReadDir (abs_path es) w = inl dir ->
    os_MkdirAll (abs_path (es ++ [n])) mode w = (None, w') ->
    same_except (other (abs_path (es ++ [n]))) (fun q => q <> abs_path es) all_limits w w' /\
    exists dir', ioutil_ReadDir (abs_path es) w' = inl dir' /\ dir' ≡ₚ mkFileInfo n true :: dir;
  (** a directory that cannot be made in one that is there leaves nothing behind *)
  mkdir_fails es n mode (w w' : W) e e' dir :
    es <> [] -> Forall normal_elem es -> normal_elem n ->
    os_Stat (abs_path (es ++ [n])) w = Some e -> IsNotExist e = true -> ioutil_ReadDir (abs_path es) w = inl dir ->
    os_MkdirAll (abs_path (es ++ [n])) mode w = (Some e', w') -> quiet w w';
  removeall_only es n (w w' : W) dir :
    es <> [] -> Forall normal_elem es -> normal_elem n -> ioutil_ReadDir (abs_path es) w = inl dir ->
    os_RemoveAll (abs_path (es ++ [n])) w = (None, w') ->
    same_except (beside (abs_path (es ++ [n]))) (fun q => q <> abs_path es) all_limits w w' /\
    exists dir', ioutil_ReadDir (abs_path es) w' = inl dir' /\ dir' ≡ₚ filter (fun fi => fi_Name fi <> n) dir;
  mkdir_elsewhere p mode (w : W) : normal_path p -> elsewhere p w (os_MkdirAll p mode w).2;
  removeall_elsewhere p (w : W) : normal_path p -> elsewhere p w (os_RemoveAll p w).2;
  mount_elsewhere src p fstype options (w : W) : normal_path p -> elsewhere p w (mount_Mount src p fstype options w).2;
  unmount_elsewhere p (w : W) : normal_path p -> elsewhere p w (mount_Unmount p w).2
}.

(** ** What [GetSubDirs] reads *)

Section subdirs.
Context {W : Type} `{FileLaws W}.

Lemma GetSubDirs_names es (w : W) :
  es <> [] -> Forall normal_elem es -> GetSubDirs (abs_path es) w = map (fun n => abs_path (es ++ [n])) (names_in es w).
Proof.
  intros Hne Hes. unfold GetSubDirs, names_in. rewrite Clean_abs_path by done.
  destruct (ioutil_ReadDir (abs_path es) w) as [dir | e] eqn:E; [| done].
  apply readdir_names in E as [Hn _]. rewrite map_map. apply map_ext_in. intros fi Hfi.
  apply list_elem_of_In, list_elem_of_filter in Hfi as [_ Hfi]. rewrite Forall_forall in Hn. specialize (Hn fi Hfi).
  change (abs_path es +:+ "/" +:+ fi_Name fi) with (abs_path es +:+ "/" +:+ fi_Name fi).
  rewrite <- abs_path_snoc by done. apply Clean_abs_path. apply Forall_app. split; [done |]. by apply Forall_singleton.
Qed.

Lemma names_in_normal es (w : W) : Forall normal_elem (names_in es w).
Proof.
  unfold names_in. destruct (ioutil_ReadDir _ w) as [dir | e] eqn:E; [| constructor].
  apply readdir_names in E as [Hn _]. rewrite Forall_map. apply Forall_forall. intros fi [_ Hfi]%list_elem_of_filter. rewrite Forall_forall in Hn. by apply Hn.
Qed.

Lemma names_in_NoDup es (w : W) : NoDup (names_in es w).
Proof.
  unfold names_in. destruct (ioutil_ReadDir _ w) as [dir | e] eqn:E; [| constructor].
  apply readdir_names in E as [_ Hn]. induction dir as [|fi dir IH]; [constructor |].
  cbn [map] in Hn. apply NoDup_cons in Hn as [Hfi Hn]. rewrite filter_cons. case_decide; [| by apply IH].
  cbn [map]. constructor; [| by apply IH]. intros Hin. apply Hfi.
  apply list_elem_of_In, in_map_iff in Hin as (fi' & <- & Hin). apply list_elem_of_In, list_elem_of_filter in Hin as [_ Hin].
  apply list_elem_of_In, in_map. by apply list_elem_of_In.
Qed.
End subdirs.

(** ** The file system in memory obeys the laws *)

Lemma prefix_Some s t : String.prefix s t = true <-> exists u, t = s +:+ u.
Proof.
  revert t. induction s as [|c s IH]; intros t.
  - destruct t; (split; [intros _; by eexists | done]).
  - destruct t as [|d t]; cbn [String.prefix].
    + split; [done |]. intros [u E]. by rewrite append_cons in E.
    + destruct (ascii_dec c d) as [-> | Hne].
      * rewrite IH. split; intros [u E]; exists u; [by rewrite append_cons, E |].
        rewrite append_cons in E. by injection E.
      * split; [done |]. intros [u E]. rewrite append_cons in E. by injection E as -> _.
Qed.

Lemma HasPrefix_below p q : HasPrefix q (p +:+ "/") = true <-> below p q.
Proof.
  unfold HasPrefix. rewrite prefix_Some. split; intros [t E]; exists t; by rewrite E, app_assoc_string.
Qed.

Lemma Index_slash n : Index n "/" = -1 <-> no_char slash n.
Proof.
  unfold Index. induction n as [|c n IH]; [done |]. cbn [String.index String.prefix no_char].
  destruct (ascii_dec "/" c) as [<- | Hne].
  - destruct n; (split; [done | tauto]).
  - destruct (String.index 0 "/" n) as [k|].
    + split; [lia |]. intros [_ Hn]. apply IH in Hn. lia.
    + split; [intros _ | done]. split; [done |]. by apply IH.
Qed.

Lemma substring_after s t :
  String.substring (String.length s) (String.length (s +:+ t) - String.length s) (s +:+ t) = t.
Proof.
  rewrite <- (Nat.add_0_r (String.length s)) at 1. rewrite substring_drop.
  replace (_ - _)%nat with (String.length t) by (rewrite length_string_app; lia). apply substring_all.
Qed.

Lemma child_Some dir path n : child dir path = Some n <-> path = dir +:+ "/" +:+ n /\ no_char slash n /\ n <> "".
Proof.
  unfold child. split.
  - destruct (HasPrefix path (dir +:+ "/")) eqn:Hp; [| done].
    apply prefix_Some in Hp as [u ->]. cbv zeta. rewrite substring_after.
    case_decide as Hn; [| done]. intros [= <-]. rewrite Index_slash in Hn. by rewrite app_assoc_string.
  - intros (-> & Hn & Hne). replace (HasPrefix _ _) with true by (symmetry; apply HasPrefix_below; by exists n).
    cbv zeta. rewrite <- app_assoc_string, substring_after. rewrite decide_True; [done |]. by rewrite Index_slash.
Qed.

Lemma elem_of_entries p (w : sim) n : n ∈ entries p w <-> p +:+ "/" +:+ n ∈ sim_dirs w /\ normal_elem n.
Proof.
  unfold entries. rewrite elem_of_remove_dups, list_elem_of_filter, list_elem_of_omap. split.
  - intros [Hn (path & Hin & (-> & _)%child_Some)]. done.
  - intros [Hin Hn]. split; [done |]. eexists. split; [exact Hin |]. apply child_Some. by destruct Hn as (? & ? & _).
Qed.

(** A path is cut at its last slash in one way. *)
Lemma cut_inj p q m n : no_char slash m -> no_char slash n -> p +:+ "/" +:+ m = q +:+ "/" +:+ n -> p = q /\ m = n.
Proof.
  intros Hm Hn E.
  assert (Hs : split_on slash (p +:+ String slash m) = split_on slash (q +:+ String slash n)) by (by f_equal).
  rewrite !split_on_snoc, (split_on_no_char slash m), (split_on_no_char slash n) in Hs by done.
  apply app_inj_tail in Hs as [_ ->]. split; [by apply append_inj_l in E | done].
Qed.

Lemma last_slash t : no_char slash t \/ exists t1 t2, t = t1 +:+ "/" +:+ t2 /\ no_char slash t2.
Proof.
  induction t as [|c t [IH | (t1 & t2 & -> & Ht)]]; [by left | |].
  - destruct (decide (c = slash)) as [-> | Hc]; [right; by exists "", t | by left].
  - right. by exists (String c t1), t2.
Qed.

Lemma child_below p q m : no_char slash m -> below p (q +:+ "/" +:+ m) -> q = p \/ below p q.
Proof.
  intros Hm [t E]. destruct (last_slash t) as [Ht | (t1 & t2 & -> & Ht)].
  - apply cut_inj in E as [-> _]; [by left | done..].
  - assert (E' : q +:+ "/" +:+ m = (p +:+ "/" +:+ t1) +:+ "/" +:+ t2) by (by rewrite E, !app_assoc_string).
    apply cut_inj in E' as [-> _]; [| done..]. right. by exists t1.
Qed.

Lemma child_other es n q : es <> [] -> normal_elem n -> q <> abs_path es -> child q (abs_path (es ++ [n])) = None.
Proof.
  intros Hne [Hn _] Hq. destruct (child q _) as [m|] eqn:E; [| done]. apply child_Some in E as (E & Hm & _).
  rewrite abs_path_snoc in E by done. apply cut_inj in E as [<- _]; done.
Qed.

Lemma omap_filter_None {A B} (f : A -> option B) (P : A -> Prop) `{!forall x, Decision (P x)} (l : list A) :
  (forall x, x ∈ l -> ~ P x -> f x = None) -> omap f (filter P l) = omap f l.
Proof.
  induction l as [|x l IH]; intros Hf; [done |]. rewrite filter_cons. case_decide as Hx; cbn.
  - rewrite IH; [done |]. intros y Hy. apply Hf. by right.
  - rewrite (Hf x) by (done || by left). apply IH. intros y Hy. apply Hf. by right.
Qed.

Lemma abs_path_ne es n : es <> [] -> abs_path es <> abs_path (es ++ [n]).
Proof.
  intros Hne E. rewrite abs_path_snoc in E by done. apply (f_equal String.length) in E.
  rewrite !length_string_app in E. cbn in E. lia.
Qed.

Lemma list_fmap_filter_name n (l : list string) :
  filter (fun fi => fi_Name fi <> n) ((fun m => mkFileInfo m true) <$> l) = (fun m => mkFileInfo m true) <$> filter (fun m => m <> n) l.
Proof. induction l as [|m l IH]; [done |]. rewrite fmap_cons, !filter_cons, IH. cbn [fi_Name]. by case_decide. Qed.

Lemma is_dir_filter p q (w : sim) : q <> p -> ~ below p q ->
  bool_decide (q ∈ filter (fun q => ~ (q = p \/ HasPrefix q (p +:+ "/") = true)) (sim_dirs w)) = bool_decide (q ∈ sim_dirs w).
Proof.
  intros Hq Hb. apply bool_decide_ext. rewrite list_elem_of_filter. split; [tauto |]. intros Hin. split; [| done].
  rewrite HasPrefix_below. tauto.
Qed.

Lemma upd_path_None p (w w1 w' : sim) : upd_path p w w1 = (None, w') -> broken p w = false /\ w' = w1.
Proof. unfold upd_path. destruct (broken p w); [done |]. by intros [= <-]. Qed.

Lemma upd_path_snd p (w w1 : sim) (P : sim -> Prop) : P w -> P w1 -> P (upd_path p w w1).2.
Proof. unfold upd_path. by destruct (broken p w). Qed.

Lemma same_path_sim q (w w' : sim) :
  sim_broken w' = sim_broken w -> sim_mounts w' = sim_mounts w -> sim_fs w' = sim_fs w -> sim_projid w' !! q = sim_projid w !! q ->
  is_dir q w' = is_dir q w -> same_path q w w'.
Proof.
  intros Hb Hm Hf Hp Hd. unfold is_dir in Hd. split; cbn; unfold on_path, broken, is_dir, is_mounted; rewrite ?Hb, ?Hd, ?Hp, ?Hm, ?Hf; done.
Qed.

Lemma removable_sim q (w : sim) : removable q w <-> broken q w = false.
Proof. unfold removable. cbn. unfold upd_path. by destruct (broken q w). Qed.

Lemma quiet_sim (w w' : sim) :
  sim_dirs w' = sim_dirs w -> sim_broken w' = sim_broken w -> sim_mounts w' = sim_mounts w -> sim_fs w' = sim_fs w ->
  sim_projid w' = sim_projid w -> sim_limit w' = sim_limit w -> sim_mountinfo w' = sim_mountinfo w -> quiet w w'.
Proof.
  intros Hd Hb Hm Hf Hp Hl Hi. split.
  - intros q _. apply same_path_sim; try done; [by rewrite Hp | unfold is_dir; by rewrite Hd].
  - intros q _ _. cbn. unfold on_path, broken, is_dir, entries. by rewrite Hb, Hd.
  - cbn. by rewrite Hi.
  - intros dev id _. unfold limit_of. cbn. by rewrite Hl.
  - intros q. rewrite !removable_sim. unfold broken. by rewrite Hb.
Qed.

#[export] Instance same_except_refl keep listing lim : Reflexive (same_except (W := sim) keep listing lim).
Proof. intros w. by split. Qed.

(** Calls for one path *)
Lemma elsewhere_upd p (w w1 : sim) :
  sim_broken w1 = sim_broken w -> sim_fs w1 = sim_fs w -> sim_mountinfo w1 = sim_mountinfo w -> sim_limit w1 = sim_limit w ->
  (forall q, apart p q -> sim_projid w1 !! q = sim_projid w !! q /\ is_dir q w1 = is_dir q w /\
     is_mounted q w1 = is_mounted q w /\ entries q w1 = entries q w) ->
  elsewhere p w (upd_path p w w1).2.
Proof.
  intros Hb Hf Hi Hl Hq. apply (upd_path_snd p w w1 (fun u => elsewhere p w u)); split; try done.
  - intros q _ (Hp & Hd & Hm & He)%Hq. unfold is_dir in Hd.
    split; cbn; unfold on_path, broken, is_dir; rewrite ?Hb, ?Hd, ?Hp, ?Hm, ?Hf; done.
  - intros q _ (Hp & Hd & Hm & He)%Hq. unfold is_dir in Hd. cbn. unfold on_path, broken, is_dir. by rewrite Hb, Hd, He.
  - intros dev q _ _. cbn. by rewrite Hi.
  - intros dev id. unfold limit_of. cbn. by rewrite Hl.
  - intros q _ _. rewrite !removable_sim. unfold broken. by rewrite Hb.
Qed.

Lemma mkdir_apart p q (w : sim) : apart p q ->
  is_dir q (with_dirs (fun d => d ++ [p]) w) = is_dir q w /\ entries q (with_dirs (fun d => d ++ [p]) w) = entries q w.
Proof.
  intros (Hq & Hb & Ha). split.
  - unfold is_dir. apply bool_decide_ext. cbn. rewrite elem_of_app, list_elem_of_singleton. tauto.
  - unfold entries. cbn. rewrite omap_app. cbn. destruct (child q p) as [m|] eqn:E; [| by rewrite app_nil_r].
    apply child_Some in E as (-> & _). destruct Ha. by exists m.
Qed.

Lemma removeall_apart p q (w : sim) : apart p q ->
  let w1 := with_dirs (filter (fun q => ~ (q = p \/ HasPrefix q (p +:+ "/") = true))) w in
  is_dir q w1 = is_dir q w /\ entries q w1 = entries q w.
Proof.
  intros (Hq & Hb & Ha) w1. split; [by apply is_dir_filter |]. unfold entries, w1. cbn. do 2 f_equal.
  apply omap_filter_None. intros x _ Hx. apply dec_stable in Hx. rewrite HasPrefix_below in Hx.
  destruct (child q x) as [m|] eqn:Ex; [| done]. apply child_Some in Ex as (-> & Hm & _). destruct Hx as [<- | Hx].
  - destruct Ha. by exists m.
  - apply child_below in Hx as [-> | Hx]; done.
Qed.

#[export] Program Instance sim_file_laws : FileLaws sim.
Next Obligation. intros w. by apply quiet_sim. Qed.
Next Obligation. intros ks w. by apply quiet_sim. Qed.
Next Obligation. intros p a v w. cbn. unfold upd_path. by destruct (broken p w); apply quiet_sim. Qed.
Next Obligation.
  intros p w dir. cbn. unfold on_path. destruct (broken p w); [done |]. destruct (is_dir p w); [| done]. intros [= <-]. split.
  - rewrite Forall_fmap. apply Forall_forall. intros n [_ Hn]%elem_of_entries. done.
  - rewrite map_map. cbn. rewrite map_id. apply NoDup_remove_dups.
Qed.
Next Obligation. intros p w. cbn. unfold on_path. by destruct (broken p w), (is_dir p w). Qed.
Next Obligation.
  intros es n w dir Hne Hes Hn. cbn. unfold on_path.
  destruct (broken (abs_path (es ++ [n])) w); [done |]. destruct (is_dir (abs_path (es ++ [n])) w) eqn:Hd; [| done]. intros _.
  destruct (broken (abs_path es) w); [done |]. destruct (is_dir (abs_path es) w); [| done]. intros [= <-].
  apply list_elem_of_In, in_map_iff. exists (mkFileInfo n true). split; [done |].
  apply (in_map (fun m => mkFileInfo m true)), list_elem_of_In, elem_of_entries. split; [| done].
  rewrite <- abs_path_snoc by done. by apply bool_decide_eq_true in Hd.
Qed.
Next Obligation.
  intros es n w dir Hne Hes Hn. cbn. unfold on_path. destruct (broken (abs_path es) w); [done |].
  destruct (is_dir (abs_path es) w); [| done]. intros [= <-] Hin. rewrite map_map in Hin. cbn in Hin. rewrite map_id in Hin.
  apply elem_of_entries in Hin as [Hin _]. rewrite <- abs_path_snoc in Hin by done. unfold IsPathExist. cbn. unfold on_path, is_dir.
  rewrite bool_decide_true by done. by destruct (broken _ w).
Qed.
Next Obligation.
  intros p id w _. apply (upd_path_snd p w _ (fun u => same_except _ _ _ w u)); [done |]. split; [| done | done | done |].
  - intros q [_ Hq]. apply same_path_sim; try done. cbn. by rewrite lookup_insert_ne.
  - intros q. by rewrite !removable_sim.
Qed.
Next Obligation.
  intros dev id h s w. apply (upd_path_snd dev w _ (fun u => same_except _ _ _ w u)); [done |].
  split; [intros q _; by apply same_path_sim | done | done | | intros q; by rewrite !removable_sim].
  intros dev' id' Hne. unfold limit_of. cbn. by rewrite lookup_insert_ne.
Qed.
Next Obligation.
  intros es n mode w w' e dir Hne Hes Hn Hstat Hnot Hdir [Hb ->]%upd_path_None. cbn in Hstat, Hdir.
  unfold on_path in Hstat, Hdir. rewrite Hb in Hstat. destruct (is_dir (abs_path (es ++ [n])) w) eqn:Hd; [done |].
  destruct (broken (abs_path es) w) eqn:Hbe; [done |]. destruct (is_dir (abs_path es) w) eqn:Hde; [| done]. injection Hdir as <-.
  assert (Hdirs : forall q, q <> abs_path (es ++ [n]) -> is_dir q (with_dirs (fun d => d ++ [abs_path (es ++ [n])]) w) = is_dir q w).
  { intros q Hq. unfold is_dir. apply bool_decide_ext. cbn. rewrite elem_of_app, list_elem_of_singleton. tauto. }
  split.
  - split; [intros q [_ Hq]; apply same_path_sim; try done; by apply Hdirs | | done | done | intros q; by rewrite !removable_sim].
    intros q [_ Hq] Hl. cbn. unfold on_path. change (broken q (with_dirs _ w)) with (broken q w). rewrite Hdirs by done.
    destruct (broken q w); [done |]. destruct (is_dir q w); [| done]. do 2 f_equal. unfold entries. cbn.
    rewrite omap_app. cbn. by rewrite child_other, app_nil_r by done.
  - cbn. unfold on_path. change (broken (abs_path es) (with_dirs _ w)) with (broken (abs_path es) w).
    rewrite Hdirs by (by apply abs_path_ne). rewrite Hbe, Hde. eexists. split; [done |].
    assert (Hent : entries (abs_path es) (with_dirs (fun d => d ++ [abs_path (es ++ [n])]) w) ≡ₚ n :: entries (abs_path es) w).
    { apply NoDup_Permutation; [apply NoDup_remove_dups | | ].
      - constructor; [| apply NoDup_remove_dups]. rewrite elem_of_entries, <- abs_path_snoc by done.
        intros [Hin _]. apply bool_decide_eq_false in Hd. done.
      - intros m. rewrite elem_of_cons, !elem_of_entries. cbn. rewrite elem_of_app, list_elem_of_singleton.
        rewrite <- !abs_path_snoc by done. split.
        + intros [[Hin | E] Hm]; [by right | left]. rewrite !abs_path_snoc in E by done.
          apply cut_inj in E as [_ E]; [done | apply Hm | apply Hn].
        + intros [-> | [Hin Hm]]; [| tauto]. split; [by right | done]. }
    change (mkFileInfo n true :: ((fun n => mkFileInfo n true) <$> entries (abs_path es) w)) with
      ((fun n => mkFileInfo n true) <$> (n :: entries (abs_path es) w)). by rewrite Hent.
Qed.
Next Obligation.
  intros es n mode w w' e e' dir _ _ _ _ _ _. cbn. unfold upd_path. destruct (broken _ w); [by intros [= _ <-] | done].
Qed.
Next Obligation.
  intros es n w w' dir Hne Hes Hn Hdir [Hb ->]%upd_path_None. cbn in Hdir. unfold on_path in Hdir.
  destruct (broken (abs_path es) w) eqn:Hbe; [done |]. destruct (is_dir (abs_path es) w) eqn:Hde; [| done]. injection Hdir as <-.
  set (p := abs_path (es ++ [n])).
  assert (Hp : forall q, q <> p -> ~ below p q -> is_dir q (with_dirs (filter (fun q => ~ (q = p \/ HasPrefix q (p +:+ "/") = true))) w) = is_dir q w)
    by (intros q; apply is_dir_filter).
  split.
  - split; [intros q [[_ Hq] Hbq]; apply same_path_sim; try done; [by cbn; rewrite lookup_delete_ne | by apply Hp] | | done | done | intros q; by rewrite !removable_sim].
    intros q [[_ Hq] Hbq] Hl. cbn. unfold on_path. fold p. change (broken q (with_projid _ (with_dirs _ w))) with (broken q w).
    change (is_dir q (with_projid (delete p) ?w)) with (is_dir q w). rewrite Hp by done.
    destruct (broken q w); [done |]. destruct (is_dir q w); [| done]. do 2 f_equal. unfold entries. cbn.
    f_equal. f_equal. apply omap_filter_None. intros x _ Hx. apply dec_stable in Hx. rewrite HasPrefix_below in Hx.
    destruct (child q x) as [m|] eqn:Ex; [| done]. destruct Hx as [-> | Hx].
    + unfold p in Ex. by rewrite child_other in Ex.
    + apply child_Some in Ex as (-> & Hm & _). apply child_below in Hx as [-> | Hx]; done.
  - assert (Hpar : ~ below p (abs_path es)).
    { intros (l & _ & E)%below_abs_path; [| by destruct es | done | apply Forall_app; split; [done | by apply Forall_singleton] | done].
      apply (f_equal length) in E. rewrite !length_app in E. cbn in E. lia. }
    cbn. unfold on_path. fold p. change (broken (abs_path es) (with_projid _ (with_dirs _ w))) with (broken (abs_path es) w).
    change (is_dir (abs_path es) (with_projid (delete p) ?w)) with (is_dir (abs_path es) w).
    rewrite Hp by (done || by apply abs_path_ne). rewrite Hbe, Hde. eexists. split; [done |].
    rewrite list_fmap_filter_name. apply fmap_Permutation.
    set (w1 := with_dirs (filter (fun q => ~ (q = p \/ HasPrefix q (p +:+ "/") = true))) w).
    change (entries (abs_path es) w1 ≡ₚ filter (fun m => m <> n) (entries (abs_path es) w)).
    apply NoDup_Permutation; [apply NoDup_remove_dups | apply NoDup_filter, NoDup_remove_dups |].
    intros m. rewrite list_elem_of_filter, !elem_of_entries. cbn [sim_dirs with_dirs w1].
    rewrite list_elem_of_filter, HasPrefix_below. split.
    + intros [[Hx Hin] Hm]. split; [| done]. intros ->. apply Hx. left. unfold p. by rewrite abs_path_snoc.
    + intros (Hmn & Hin & Hm). split; [| done]. split; [| done]. intros [E | E].
      * unfold p in E. rewrite abs_path_snoc in E by done. apply cut_inj in E as [_ E]; [done | apply Hm | apply Hn].
      * apply child_below in E as [E | E]; [| done | apply Hm]. by apply (abs_path_ne es n).
Qed.
Next Obligation.
  intros p mode w _. destruct (is_dir p w) eqn:Hd; cbn; rewrite Hd; apply elsewhere_upd; try done.
  intros q Hq. destruct (mkdir_apart p q w Hq) as [-> ->]. done.
Qed.
Next Obligation.
  intros p w _. apply elsewhere_upd; try done. intros q Hq. destruct (removeall_apart p q w Hq) as [H1 H2].
  cbn. rewrite lookup_delete_ne by (by destruct Hq). by split_and!.
Qed.
Next Obligation.
  intros src p fstype options w _. apply elsewhere_upd; try done. intros q [Hq _]. split_and!; try done.
  unfold is_mounted. cbn. by rewrite (proj2 (String.eqb_neq p q)).
Qed.
Next Obligation.
  intros p w _. apply elsewhere_upd; try done. intros q [Hq _]. split_and!; try done.
  unfold is_mounted. cbn. induction (sim_mounts w) as [|[x y] l IH]; [done |]. rewrite filter_cons. cbn. case_decide as Hx; cbn.
  - by rewrite IH.
  - cbn in Hx. subst x. by rewrite (proj2 (String.eqb_neq p q)).
Qed.
