(* ===== verification/Beside.v ===== *)
(** * A machine and what is beside it

    A process on a node sees its machine and the API server.  The machine's part of such
    a world obeys the laws of the operating system and of the file system whatever is
    beside it, and what happens beside it leaves the files alone. *)

From S2P Require Import Prelude GoStrings Os Util FileSystem.
Open Scope Z_scope.
Open Scope go_scope.

Section beside.
Context {W E : Type}.

Definition on_machine {A} (f : W -> A) : W * E -> A := fun w => f w.1.
Definition upd_machine {A} (f : W -> A * W) : W * E -> A * (W * E) := fun w => let '(a, s) := f w.1 in (a, (s, w.2)).

Lemma upd_machine_eq {A} (f : W -> A * W) w a w' : upd_machine f w = (a, w') -> f w.1 = (a, w'.1) /\ w'.2 = w.2.
Proof. unfold upd_machine. destruct (f w.1). by intros [= <- <-]. Qed.

Lemma upd_machine_fst {A} (f : W -> A * W) w : (upd_machine f w).1 = (f w.1).1.
Proof. unfold upd_machine. by destruct (f w.1). Qed.
Lemma upd_machine_snd {A} (f : W -> A * W) w : (upd_machine f w).2.1 = (f w.1).2.
Proof. unfold upd_machine. by destruct (f w.1). Qed.

Context `{OS W}.

Definition os_beside : OS (W * E) := {|
  os_Stat p := on_machine (os_Stat p);
  os_MkdirAll p m := upd_machine (os_MkdirAll p m);
  os_RemoveAll p := upd_machine (os_RemoveAll p);
  ioutil_ReadDir p := on_machine (ioutil_ReadDir p);
  unix_Lstat p := on_machine (unix_Lstat p);
  mountinfo_lines := on_machine mountinfo_lines;
  unix_Getxattr p a := on_machine (unix_Getxattr p a);
  unix_Setxattr p a v := upd_machine (unix_Setxattr p a v);
  syscall_Statfs p := on_machine (syscall_Statfs p);
  IsLikelyNotMountPoint p := on_machine (IsLikelyNotMountPoint p);
  IsNotMountPoint p := on_machine (IsNotMountPoint p);
  mount_Mount a b t o := upd_machine (mount_Mount a b t o);
  mount_Unmount p := upd_machine (mount_Unmount p);
  quotactl_getqstat d := on_machine (quotactl_getqstat d);
  quotactl_getquota d i := on_machine (quotactl_getquota d i);
  quotactl_setqlim d i h s := upd_machine (quotactl_setqlim d i h s);
  opendir p := on_machine (opendir p);
  ioctl_getprojid p := on_machine (ioctl_getprojid p);
  ioctl_setprojid p i := upd_machine (ioctl_setprojid p i);
  time_Now := upd_machine time_Now;
  range_order ks := upd_machine (range_order ks)
|}.
#[local] Existing Instance os_beside.

(** The relations between worlds look at the machine only. *)
Lemma same_path_beside q (w w' : W * E) : same_path q w.1 w'.1 -> same_path q w w'.
Proof. intros [A B C D G F]. by split. Qed.

Lemma removable_beside q (w : W * E) : removable q w <-> removable q w.1.
Proof. unfold removable. cbn. by rewrite upd_machine_fst. Qed.

Lemma same_except_beside keep listing lim (w w' : W * E) : same_except keep listing lim w.1 w'.1 -> same_except keep listing lim w w'.
Proof.
  intros [P R M L F]. split.
  - intros q Hq. by apply same_path_beside, P.
  - intros q Hq Hl. exact (R q Hq Hl).
  - exact M.
  - intros dev id Hl. exact (L dev id Hl).
  - intros q. by rewrite !removable_beside.
Qed.

Lemma quiet_beside (w w' : W * E) : w'.1 = w.1 -> quiet w w'.
Proof. intros Hw. apply same_except_beside. by rewrite Hw. Qed.

Lemma elsewhere_beside p (w w' : W * E) : elsewhere p w.1 w'.1 -> elsewhere p w w'.
Proof.
  intros [P R M L F]. split.
  - intros q Hn Hq. by apply same_path_beside, P.
  - intros q Hn Hq. exact (R q Hn Hq).
  - intros dev q Hn Hq. exact (M dev q Hn Hq).
  - intros dev id. exact (L dev id).
  - intros q Hn Hq. rewrite !removable_beside. by apply F.
Qed.
End beside.

(** ** The laws carry over *)

Section laws.
Context {W E : Type} `{FileLaws W}.
#[local] Instance world_machine : OS (W * E) := os_beside.

#[local] Program Instance os_laws_beside : OSLaws (W * E).
Next Obligation. intros ks w. cbn. rewrite upd_machine_fst. apply range_order_perm. Qed.
Next Obligation. intros p id w w' Ho E1. apply upd_machine_eq in E1 as [E1 _]. exact (getprojid_setprojid p id w.1 w'.1 Ho E1). Qed.
Next Obligation. intros dev id h s w w' E1. apply upd_machine_eq in E1 as [E1 _]. exact (getquota_setqlim dev id h s w.1 w'.1 E1). Qed.

#[local] Program Instance file_laws_beside : FileLaws (W * E).
Next Obligation. intros w. apply same_except_beside. cbn. rewrite upd_machine_snd. apply clock_quiet. Qed.
Next Obligation. intros ks w. apply same_except_beside. cbn. rewrite upd_machine_snd. apply range_quiet. Qed.
Next Obligation. intros p a v w. apply same_except_beside. cbn. rewrite upd_machine_snd. apply xattr_quiet. Qed.
Next Obligation. intros p w dir. apply (readdir_names p w.1). Qed.
Next Obligation. intros p w. apply (open_exists p w.1). Qed.
Next Obligation. intros es n w dir. apply (open_listed es n w.1). Qed.
Next Obligation. intros es n w dir. apply (listed_exists es n w.1). Qed.
Next Obligation. intros p id w Hp. apply same_except_beside. cbn. rewrite upd_machine_snd. by apply setprojid_only. Qed.
Next Obligation. intros dev id h s w. apply same_except_beside. cbn. rewrite upd_machine_snd. apply setqlim_only. Qed.
Next Obligation.
  intros es n mode w w' e dir Hne Hes Hn Hs He Hd E1. apply upd_machine_eq in E1 as [E1 _].
  destruct (mkdir_only es n mode w.1 w'.1 e dir Hne Hes Hn Hs He Hd E1) as [Hw Hdir]. split; [by apply same_except_beside | exact Hdir].
Qed.
Next Obligation.
  intros es n mode w w' e e' dir Hne Hes Hn Hs He Hd E1. apply upd_machine_eq in E1 as [E1 _].
  apply same_except_beside. exact (mkdir_fails es n mode w.1 w'.1 e e' dir Hne Hes Hn Hs He Hd E1).
Qed.
Next Obligation.
  intros es n w w' dir Hne Hes Hn Hd E1. apply upd_machine_eq in E1 as [E1 _].
  destruct (removeall_only es n w.1 w'.1 dir Hne Hes Hn Hd E1) as [Hw Hdir]. split; [by apply same_except_beside | exact Hdir].
Qed.
Next Obligation. intros p mode w Hp. apply elsewhere_beside. cbn. rewrite upd_machine_snd. by apply mkdir_elsewhere. Qed.
Next Obligation. intros p w Hp. apply elsewhere_beside. cbn. rewrite upd_machine_snd. by apply removeall_elsewhere. Qed.
Next Obligation. intros src p fstype options w Hp. apply elsewhere_beside. cbn. rewrite upd_machine_snd. by apply mount_elsewhere. Qed.
Next Obligation. intros p w Hp. apply elsewhere_beside. cbn. rewrite upd_machine_snd. by apply unmount_elsewhere. Qed.
End laws.
