(* ===== verification/Allocator.v ===== *)
(** * Project id allocation

    [AllocationBitmap] is the bitmap allocator of
    k8s.io/kubernetes/pkg/registry/core/service/allocator that the plugin links
    (bitmap.go), with its random scan; [ProjectIDAllocator] of projidallocator.go
    maps XFS project ids to its offsets.  The class [AllocatorInterface] is the Go
    interface of that name, [AllocatorLaws] what it promises to the quota
    provider. *)

From S2P Require Import Prelude GoStrings.
From stdpp Require Import pretty.
Open Scope Z_scope.

(** ** The bitmap *)

(** [rand.Intn(max)] of math/rand, on the generator's state. *)
Class Rand (R : Type) := { Intn : Z -> R -> Z * R }.
Class RandLaws (R : Type) `{Rand R} := {
  Intn_range max r : 0 < max -> 0 <= (Intn max r).1 < max
}.

Section bitmap.
Context {R : Type} `{Rand R}.

Record AllocationBitmap := mkBitmap {
  rand : R;           (* strategy: randomScanStrategy *)
  max : Z;
  rangeSpec : string;
  bm_count : Z;
  allocated : Z       (* big.Int *)
}.

Definition NewAllocationMap (seed : R) (max : Z) (rangeSpec : string) : AllocationBitmap :=
  mkBitmap seed max rangeSpec 0 0.

Definition Bit (x i : Z) : bool := Z.testbit x i.

Definition bm_Allocate (offset : Z) : M AllocationBitmap bool := fun r =>
  if Bit (allocated r) offset then (Ok false, r)
  else (Ok true, mkBitmap (rand r) (max r) (rangeSpec r) (bm_count r + 1)
                   (Z.setbit (allocated r) offset)).

(** [for i := 0; i < max; i++ { at := (offset + i) % max; ... }], from the
    [max - n]-th round on. *)
Fixpoint scan (allocated max offset : Z) (n : nat) : option Z :=
  match n with
  | O => None
  | S n' =>
      let at_ := Z.rem (offset + (max - Z.of_nat n)) max in
      if Bit allocated at_ then scan allocated max offset n' else Some at_
  end.

(** [randomScanStrategy.AllocateBit] *)
Definition AllocateBit (rd : R) (allocated max count : Z) : option Z * R :=
  if count >=? max then (None, rd)
  else
    let '(offset, rd') := Intn max rd in
    (scan allocated max offset (Z.to_nat max), rd').

Definition bm_AllocateNext : M AllocationBitmap (Z * bool) := fun r =>
  let '(next, rd) := AllocateBit (rand r) (allocated r) (max r) (bm_count r) in
  match next with
  | None => (Ok (0, false), mkBitmap rd (max r) (rangeSpec r) (bm_count r) (allocated r))
  | Some next =>
      (Ok (next, true), mkBitmap rd (max r) (rangeSpec r) (bm_count r + 1)
                          (Z.setbit (allocated r) next))
  end.

Definition bm_Release (offset : Z) : M AllocationBitmap unit := fun r =>
  if Bit (allocated r) offset
  then (Ok tt, mkBitmap (rand r) (max r) (rangeSpec r) (bm_count r - 1)
                 (Z.clearbit (allocated r) offset))
  else (Ok tt, r).

Definition bm_Has (offset : Z) (r : AllocationBitmap) : bool := Bit (allocated r) offset.

Definition Free (r : AllocationBitmap) : Z := max r - bm_count r.
End bitmap.
Arguments AllocationBitmap : clear implicits.

(** ** Project ids *)

(** The Go interface [AllocatorInterface]. *)
Class AllocatorInterface (A : Type) := {
  Allocate : Z -> M A unit;
  AllocateNext : M A Z;
  alloc_Release : Z -> M A unit;
  Has : Z -> A -> bool
}.

Definition ErrFull : error := Errorf "range is full".
Definition ErrAllocated : error := Errorf "provided projectId is already allocated".

Section projid.
Context {R : Type} `{Rand R}.

Record ProjectIDAllocator := mkProjectIDAllocator {
  PrjIdStart : Z;
  MaxPrjIdNum : Z;
  alloc : AllocationBitmap R
}.

Definition NewAllocator (seed : R) (ProjectIdStart ProjectIdMaxNum : Z) : ProjectIDAllocator :=
  let rangeSpec := pretty ProjectIdStart +:+ "-" +:+ pretty (i64 (ProjectIdMaxNum - 1)) in
  mkProjectIDAllocator ProjectIdStart ProjectIdMaxNum
    (NewAllocationMap seed ProjectIdMaxNum rangeSpec).

Definition set_alloc (a : AllocationBitmap R) (r : ProjectIDAllocator) : ProjectIDAllocator :=
  mkProjectIDAllocator (PrjIdStart r) (MaxPrjIdNum r) a.

Definition contains (r : ProjectIDAllocator) (prjID : Z) : option Z :=
  if (prjID >=? PrjIdStart r) && (prjID <? i64 (PrjIdStart r + MaxPrjIdNum r))
  then Some (prjID - PrjIdStart r)
  else None.

Definition prj_Allocate (prjId : Z) : M ProjectIDAllocator unit :=
  let! r := gets id in
  match contains r prjId with
  | None =>
      fail (ErrNotInRange (pretty (PrjIdStart r) +:+ "-" +:+ pretty (i64 (MaxPrjIdNum r - 1))))
  | Some offset =>
      let! allocated := zoom alloc set_alloc (bm_Allocate offset) in
      if negb allocated then fail ErrAllocated else ret tt
  end.

Definition prj_AllocateNext : M ProjectIDAllocator Z :=
  let! res := zoom alloc set_alloc bm_AllocateNext in
  let '(offset, ok) := res in
  if negb ok then fail ErrFull
  else let! r := gets id in ret (u32 (PrjIdStart r + offset)).

Definition prj_Release (prjId : Z) : M ProjectIDAllocator unit :=
  let! r := gets id in
  match contains r prjId with
  | None => ret tt
  | Some offset => zoom alloc set_alloc (bm_Release offset)
  end.

Definition prj_Has (prjId : Z) (r : ProjectIDAllocator) : bool :=
  match contains r prjId with
  | None => false
  | Some offset => bm_Has offset (alloc r)
  end.

#[export] Instance ProjectIDAllocator_interface : AllocatorInterface ProjectIDAllocator := {
  Allocate := prj_Allocate;
  AllocateNext := prj_AllocateNext;
  alloc_Release := prj_Release;
  Has := prj_Has
}.
End projid.
Arguments ProjectIDAllocator : clear implicits.

(** What an allocator promises: the ids it holds, as seen by [Has], change by
    exactly the id that a call grants or releases, and a failing call changes
    none. *)
Class AllocatorLaws (A : Type) `{AllocatorInterface A} := {
  alloc_wf : A -> Prop;
  Allocate_law a id r a' :
    alloc_wf a -> Allocate id a = (r, a') ->
    alloc_wf a' /\
    match r with
    | Ok _ => Has id a = false /\ in_u32 id /\ forall j, Has j a' = bool_decide (j = id) || Has j a
    | Fail _ => forall j, Has j a' = Has j a
    | Panic _ => False
    end;
  AllocateNext_law a r a' :
    alloc_wf a -> AllocateNext a = (r, a') ->
    alloc_wf a' /\
    match r with
    | Ok id => Has id a = false /\ in_u32 id /\ forall j, Has j a' = bool_decide (j = id) || Has j a
    | Fail _ => forall j, Has j a' = Has j a
    | Panic _ => False
    end;
  Release_law a id :
    alloc_wf a ->
    exists a', alloc_Release id a = (Ok tt, a') /\ alloc_wf a' /\
      forall j, Has j a' = negb (bool_decide (j = id)) && Has j a
}.

(** ** The bitmap counts its bits *)

Section bitmap_proofs.
Context {R : Type} `{RandLaws R}.
Implicit Types r : AllocationBitmap R.

Definition used (allocated max : Z) : list Z :=
  filter (fun i => Bit allocated i = true) (seqZ 0 max).

Record bm_wf (r : AllocationBitmap R) : Prop := {
  bm_wf_max : 0 < max r;
  bm_wf_count : bm_count r = Z.of_nat (length (used (allocated r) (max r)))
}.

Lemma elem_of_used a m i : i ∈ used a m <-> Bit a i = true /\ 0 <= i < m.
Proof.
  unfold used. rewrite list_elem_of_filter, elem_of_seqZ. split; intros [? ?]; (split; [done | lia]).
Qed.

Lemma NoDup_used a m : NoDup (used a m).
Proof. apply NoDup_filter, NoDup_seqZ. Qed.

Lemma used_empty m : used 0 m = [].
Proof.
  destruct (used 0 m) as [|i l] eqn:E; [done |].
  assert (Hi : i ∈ used 0 m) by (rewrite E; left).
  apply elem_of_used in Hi as [Hi _]. unfold Bit in Hi. by rewrite Z.testbit_0_l in Hi.
Qed.

Lemma used_setbit a m i :
  0 <= i < m -> Bit a i = false -> used (Z.setbit a i) m ≡ₚ i :: used a m.
Proof.
  intros Hi Hb. apply NoDup_Permutation.
  - apply NoDup_used.
  - apply NoDup_cons. split; [| apply NoDup_used]. rewrite elem_of_used. intros [? _]. congruence.
  - intros j. rewrite elem_of_cons, !elem_of_used. unfold Bit in *.
    destruct (decide (0 <= j)); [| lia].
    rewrite Z.setbit_eqb by lia. destruct (Z.eqb_spec i j); simpl; intuition (subst; lia || congruence).
Qed.

Lemma used_clearbit a m i :
  0 <= i < m -> Bit a i = true -> used a m ≡ₚ i :: used (Z.clearbit a i) m.
Proof.
  intros Hi Hb. apply NoDup_Permutation.
  - apply NoDup_used.
  - apply NoDup_cons. split; [| apply NoDup_used]. rewrite elem_of_used. unfold Bit.
    rewrite Z.clearbit_eqb, Z.eqb_refl, andb_false_r. by intros [? _].
  - intros j. rewrite elem_of_cons, !elem_of_used. unfold Bit in *.
    rewrite Z.clearbit_eqb. destruct (Z.eqb_spec i j); simpl;
      rewrite ?andb_true_r, ?andb_false_r; intuition (subst; lia || congruence).
Qed.

Lemma length_used_le a m : 0 <= m -> Z.of_nat (length (used a m)) <= m.
Proof.
  intros Hm. unfold used. pose proof (length_filter (fun i => Bit a i = true) (seqZ 0 m)) as Hl.
  rewrite length_seqZ in Hl. lia.
Qed.

(** A scan that finds nothing has seen every offset. *)
Lemma scan_None a m offset n :
  0 < m -> 0 <= offset -> Z.of_nat n <= m -> scan a m offset n = None ->
  forall k, m - Z.of_nat n <= k < m -> Bit a ((offset + k) mod m) = true.
Proof.
  intros Hm Ho. induction n as [|n IH]; intros Hn Hs k Hk; [lia |]. simpl in Hs.
  rewrite Z.rem_mod_nonneg in Hs by lia.
  destruct (Bit a ((offset + (m - Z.of_nat (S n))) mod m)) eqn:E; [| done].
  destruct (decide (k = m - Z.of_nat (S n))) as [-> | Hne]; [done |].
  apply IH; [lia | done | lia].
Qed.

Lemma scan_Some a m offset n i :
  0 < m -> 0 <= offset -> Z.of_nat n <= m -> scan a m offset n = Some i ->
  Bit a i = false /\ 0 <= i < m.
Proof.
  intros Hm Ho. induction n as [|n IH]; intros Hn Hs; [done |]. simpl in Hs.
  rewrite Z.rem_mod_nonneg in Hs by lia.
  destruct (Bit a ((offset + (m - Z.of_nat (S n))) mod m)) eqn:E; [apply IH; [lia | done] |].
  injection Hs as <-. split; [done | by apply Z.mod_pos_bound].
Qed.

Lemma scan_complete a m offset :
  0 < m -> 0 <= offset -> scan a m offset (Z.to_nat m) = None ->
  length (used a m) = Z.to_nat m.
Proof.
  intros Hm Ho Hs. transitivity (length (seqZ 0 m)); [| apply length_seqZ].
  apply Permutation_length, NoDup_Permutation; [apply NoDup_used | apply NoDup_seqZ |].
  intros i. rewrite elem_of_used, elem_of_seqZ. split; [lia |]. intros Hi. split; [| lia].
  pose proof (scan_None a m offset (Z.to_nat m) Hm Ho ltac:(lia) Hs ((i - offset) mod m)) as Hk.
  pose proof (Z.mod_pos_bound (i - offset) m Hm).
  rewrite Z.add_mod_idemp_r in Hk by lia. replace (offset + (i - offset)) with i in Hk by lia.
  rewrite (Z.mod_small i) in Hk by lia. apply Hk. lia.
Qed.

(** A free offset is found exactly when there is one. *)
Lemma AllocateBit_spec rd a m c :
  0 < m -> c = Z.of_nat (length (used a m)) ->
  match (AllocateBit rd a m c).1 with
  | Some i => Bit a i = false /\ 0 <= i < m
  | None => c = m
  end.
Proof.
  intros Hm Hc. pose proof (length_used_le a m ltac:(lia)). unfold AllocateBit.
  destruct (Z.geb_spec c m) as [Hge | Hlt]; simpl; [lia |].
  pose proof (Intn_range m rd Hm) as Ho. destruct (Intn m rd) as [offset rd']; simpl in *.
  destruct (scan a m offset (Z.to_nat m)) as [i |] eqn:E.
  - eapply scan_Some; [done | | | exact E]; lia.
  - apply scan_complete in E; lia.
Qed.

Lemma bm_wf_set r rd i :
  bm_wf r -> 0 <= i < max r -> Bit (allocated r) i = false ->
  bm_wf (mkBitmap rd (max r) (rangeSpec r) (bm_count r + 1) (Z.setbit (allocated r) i)).
Proof.
  intros [Hm Hc] Hi Hb. split; simpl; [done |]. rewrite used_setbit by done. simpl. lia.
Qed.

Lemma bm_wf_clear r i :
  bm_wf r -> 0 <= i < max r -> Bit (allocated r) i = true ->
  bm_wf (mkBitmap (rand r) (max r) (rangeSpec r) (bm_count r - 1) (Z.clearbit (allocated r) i)).
Proof.
  intros [Hm Hc] Hi Hb. split; simpl; [done |].
  rewrite (used_clearbit (allocated r) (max r) i) in Hc by done. simpl in Hc. lia.
Qed.

(** The state of the generator is the only change of a failed allocation. *)
Lemma bm_AllocateNext_spec r :
  bm_wf r ->
  (exists i rd, bm_AllocateNext r = (Ok (i, true),
     mkBitmap rd (max r) (rangeSpec r) (bm_count r + 1) (Z.setbit (allocated r) i)) /\
     0 <= i < max r /\ Bit (allocated r) i = false) \/
  (exists rd, bm_AllocateNext r = (Ok (0, false),
     mkBitmap rd (max r) (rangeSpec r) (bm_count r) (allocated r)) /\ bm_count r = max r).
Proof.
  intros [Hm Hc]. pose proof (AllocateBit_spec (rand r) (allocated r) (max r) (bm_count r) Hm Hc) as Hs.
  unfold bm_AllocateNext. destruct (AllocateBit _ _ _ _) as [[i |] rd]; simpl in Hs;
    [left | right]; naive_solver.
Qed.
End bitmap_proofs.

(** ** Project ids are granted once *)

Section projid_proofs.
Context {R : Type} `{RandLaws R}.
Implicit Types r : ProjectIDAllocator R.

Record prj_wf (r : ProjectIDAllocator R) : Prop := {
  prj_wf_start : 0 <= PrjIdStart r;
  prj_wf_end : PrjIdStart r + MaxPrjIdNum r <= 2 ^ 32;
  prj_wf_max : max (alloc r) = MaxPrjIdNum r;
  prj_wf_alloc : bm_wf (alloc r)
}.

Lemma NewAllocator_wf seed start num :
  0 <= start -> 0 < num -> start + num <= 2 ^ 32 -> prj_wf (NewAllocator seed start num).
Proof.
  intros. split; simpl; try done. split; simpl; [done |]. by rewrite used_empty.
Qed.

Lemma contains_Some r id off :
  prj_wf r -> contains r id = Some off <-> id = PrjIdStart r + off /\ 0 <= off < MaxPrjIdNum r.
Proof.
  intros [Hs He Hm Hw]. pose proof (bm_wf_max _ Hw). unfold contains.
  rewrite i64_small by (unfold in_i64; lia).
  destruct (Z.geb_spec id (PrjIdStart r)), (Z.ltb_spec id (PrjIdStart r + MaxPrjIdNum r)); simpl;
    split; intros Heq; try discriminate Heq; try lia; [injection Heq; lia | f_equal; lia].
Qed.

Lemma contains_in_u32 r id off : prj_wf r -> contains r id = Some off -> in_u32 id.
Proof. intros Hw Hc. apply contains_Some in Hc; [| done]. destruct Hw. unfold in_u32. lia. Qed.

(** [Has] after the bitmap changed at one offset. *)
Lemma prj_Has_update r a off b :
  prj_wf r -> 0 <= off < MaxPrjIdNum r ->
  (forall i, 0 <= i -> Bit (allocated a) i = if decide (i = off) then b else Bit (allocated (alloc r)) i) ->
  forall j, prj_Has j (set_alloc a r) =
    if decide (j = PrjIdStart r + off) then b else prj_Has j r.
Proof.
  intros Hw Hoff Hbits j. unfold prj_Has.
  change (contains (set_alloc a r) j) with (contains r j).
  destruct (contains r j) as [i |] eqn:E.
  - apply contains_Some in E as [-> Hi]; [| done]. unfold bm_Has, set_alloc; simpl.
    rewrite Hbits by lia. case_decide; case_decide; try done; lia.
  - case_decide as Hd; [| done]. exfalso.
    rewrite (proj2 (contains_Some r j off Hw)) in E; [done |]. lia.
Qed.

Lemma prj_grant r rd off :
  prj_wf r -> 0 <= off < MaxPrjIdNum r -> Bit (allocated (alloc r)) off = false ->
  let a := mkBitmap rd (max (alloc r)) (rangeSpec (alloc r)) (bm_count (alloc r) + 1)
             (Z.setbit (allocated (alloc r)) off) in
  prj_wf (set_alloc a r) /\ prj_Has (PrjIdStart r + off) r = false /\
  forall j, prj_Has j (set_alloc a r) = bool_decide (j = PrjIdStart r + off) || prj_Has j r.
Proof.
  intros Hw Hoff Hfree a. pose proof Hw as [Hs He Hm Hbm]. split; [| split].
  - split; simpl; try done. apply bm_wf_set; [done | by rewrite Hm | done].
  - unfold prj_Has. rewrite (proj2 (contains_Some r _ off Hw)) by done. exact Hfree.
  - intros j. rewrite (prj_Has_update r a off true Hw Hoff).
    + by case_decide; case_bool_decide.
    + intros i Hi. unfold a, Bit; simpl. rewrite Z.setbit_eqb by lia.
      case_decide; destruct (Z.eqb_spec off i); simpl; congruence.
Qed.

Lemma prj_Allocate_spec r id res r' :
  prj_wf r -> prj_Allocate id r = (res, r') ->
  prj_wf r' /\
  match res with
  | Ok _ => prj_Has id r = false /\ in_u32 id /\ forall j, prj_Has j r' = bool_decide (j = id) || prj_Has j r
  | Fail _ => forall j, prj_Has j r' = prj_Has j r
  | Panic _ => False
  end.
Proof.
  intros Hw. unfold prj_Allocate, bind, gets, zoom; simpl.
  destruct (contains r id) as [off |] eqn:E; [| by intros [= <- <-]].
  pose proof (contains_in_u32 r id off Hw E). apply contains_Some in E as [-> Hoff]; [| done].
  unfold bm_Allocate. destruct (Bit (allocated (alloc r)) off) eqn:Eb; simpl; intros [= <- <-].
  - destruct r. done.
  - destruct (prj_grant r (rand (alloc r)) off Hw Hoff Eb) as (G1 & G2 & G3). done.
Qed.

Lemma prj_AllocateNext_spec r res r' :
  prj_wf r -> prj_AllocateNext r = (res, r') ->
  prj_wf r' /\
  match res with
  | Ok id => prj_Has id r = false /\ in_u32 id /\
      PrjIdStart r <= id < PrjIdStart r + MaxPrjIdNum r /\
      forall j, prj_Has j r' = bool_decide (j = id) || prj_Has j r
  | Fail e => e = ErrFull /\ bm_count (alloc r) = MaxPrjIdNum r /\
      forall j, prj_Has j r' = prj_Has j r
  | Panic _ => False
  end.
Proof.
  intros Hw. pose proof Hw as [Hs He Hm Hbm]. unfold prj_AllocateNext, bind, zoom.
  destruct (bm_AllocateNext_spec (alloc r) Hbm) as [(i & rd & -> & Hi & Hb) | (rd & -> & Hc)];
    simpl; intros [= <- <-].
  - rewrite Hm in Hi. rewrite u32_small by (unfold in_u32; lia).
    destruct (prj_grant r rd i Hw Hi Hb) as (G1 & G2 & G3).
    split_and!; try done; unfold in_u32; lia.
  - split; [split; simpl; try done; by destruct Hbm; split |]. by rewrite <- Hm.
Qed.

Lemma prj_Release_spec r id :
  prj_wf r ->
  exists r', prj_Release id r = (Ok tt, r') /\ prj_wf r' /\
    forall j, prj_Has j r' = negb (bool_decide (j = id)) && prj_Has j r.
Proof.
  intros Hw. pose proof Hw as [Hs He Hm Hbm]. unfold prj_Release, bind, gets, zoom; simpl.
  destruct (contains r id) as [off |] eqn:E.
  - apply contains_Some in E as [-> Hoff]; [| done].
    unfold bm_Release. destruct (Bit (allocated (alloc r)) off) eqn:Eb; simpl.
    + eexists. split; [done |]. split.
      * split; simpl; try done. apply bm_wf_clear; [done | by rewrite Hm | done].
      * intros j. rewrite (prj_Has_update r _ off false Hw Hoff); [by case_decide; case_bool_decide |].
        intros i Hi. unfold Bit; simpl. rewrite Z.clearbit_eqb.
        case_decide; destruct (Z.eqb_spec off i); simpl; try congruence;
          by rewrite ?andb_true_r, ?andb_false_r.
    + eexists. split; [done |]. split; [by destruct r |]. intros j.
      case_bool_decide as Hd; [| by destruct r]. subst j. destruct r. simpl.
      unfold prj_Has. rewrite (proj2 (contains_Some _ _ off Hw)) by done. exact Eb.
  - eexists. split; [done |]. split; [done |]. intros j. case_bool_decide as Hd; [| done].
    subst j. unfold prj_Has. by rewrite E.
Qed.

#[export] Program Instance ProjectIDAllocator_laws : AllocatorLaws (ProjectIDAllocator R) := {|
  alloc_wf := prj_wf
|}.
Next Obligation. intros a id r a' Hw E. exact (prj_Allocate_spec a id r a' Hw E). Qed.
Next Obligation.
  intros a r a' Hw E. pose proof (prj_AllocateNext_spec a r a' Hw E) as Hs.
  destruct r; naive_solver.
Qed.
Next Obligation. intros a id Hw. exact (prj_Release_spec a id Hw). Qed.
End projid_proofs.

(** ** Properties *)

(** A generator for concrete runs: it counts. *)
#[export] Instance counter_rand : Rand Z := { Intn max r := (r mod max, r + 1) }.
#[export] Instance counter_rand_laws : RandLaws Z.
Proof. split. intros m r Hm. by apply Z.mod_pos_bound. Qed.

Section properties.
Context {R : Type} `{RandLaws R}.

Lemma full_iff (r : ProjectIDAllocator R) :
  prj_wf r ->
  (bm_count (alloc r) = MaxPrjIdNum r <->
   forall id, PrjIdStart r <= id < PrjIdStart r + MaxPrjIdNum r -> prj_Has id r = true).
Proof.
  intros Hw. pose proof Hw as [Hs He Hm [Hpos Hc]]. rewrite Hc, Hm. split.
  - intros Hfull id Hid. unfold prj_Has.
    rewrite (proj2 (contains_Some r id (id - PrjIdStart r) Hw)) by lia. unfold bm_Has.
    assert (Hin : id - PrjIdStart r ∈ used (allocated (alloc r)) (MaxPrjIdNum r)).
    { assert (Hperm : used (allocated (alloc r)) (MaxPrjIdNum r) ≡ₚ seqZ 0 (MaxPrjIdNum r)).
      { apply submseteq_length_Permutation; [| rewrite length_seqZ; lia].
        apply NoDup_submseteq; [apply NoDup_used |].
        intros i. rewrite elem_of_used, elem_of_seqZ. lia. }
      rewrite Hperm, elem_of_seqZ. lia. }
    by apply elem_of_used in Hin as [? _].
  - intros Hall. rewrite <- (Z2Nat.id (MaxPrjIdNum r)) at 2 by lia. f_equal.
    rewrite <- (length_seqZ 0 (MaxPrjIdNum r)).
    apply Permutation_length, NoDup_Permutation; [apply NoDup_used | apply NoDup_seqZ |].
    intros i. rewrite elem_of_used, elem_of_seqZ. split; [lia |]. intros Hi. split; [| lia].
    specialize (Hall (PrjIdStart r + i) ltac:(lia)). unfold prj_Has in Hall.
    by rewrite (proj2 (contains_Some r _ i Hw)) in Hall by lia.
Qed.

(** [AllocateNext] grants an id of the range that was not held, and from then
    on it is held while every other id is as before; it fails with [ErrFull]
    exactly when every id of the range is held, whatever the random scan. *)
Theorem AllocateNext_spec (r : ProjectIDAllocator R) :
  prj_wf r ->
  (forall id r', prj_AllocateNext r = (Ok id, r') ->
     prj_Has id r = false /\
     PrjIdStart r <= id < PrjIdStart r + MaxPrjIdNum r /\
     forall j, prj_Has j r' = bool_decide (j = id) || prj_Has j r) /\
  ((exists r', prj_AllocateNext r = (Fail ErrFull, r')) <->
     forall id, PrjIdStart r <= id < PrjIdStart r + MaxPrjIdNum r -> prj_Has id r = true).
Proof.
  intros Hw. split.
  - intros id r' E. apply prj_AllocateNext_spec in E as (_ & ? & _ & ? & ?); done.
  - rewrite <- full_iff by done. split.
    + intros [r' E]. by apply prj_AllocateNext_spec in E as (_ & _ & ? & _).
    + intros Hfull. destruct (prj_AllocateNext r) as [res r'] eqn:E. exists r'. f_equal.
      apply prj_AllocateNext_spec in E as [_ Hres]; [| done].
      destruct res as [id | e | w]; [| by destruct Hres as [-> _] | done].
      destruct Hres as (Hno & _ & Hrange & _).
      rewrite (proj1 (full_iff r Hw) Hfull) in Hno by done. done.
Qed.
End properties.

Lemma AllocateNext_spec_witness :
  prj_Has 1000007 (prj_AllocateNext (NewAllocator 7 1000000 5000)).2 = true.
Proof.
  destruct (AllocateNext_spec (NewAllocator 7 1000000 5000)
    (NewAllocator_wf 7 1000000 5000 ltac:(discriminate) ltac:(reflexivity) ltac:(discriminate)))
    as [Hgrant _].
  destruct (Hgrant 1000007 (prj_AllocateNext (NewAllocator 7 1000000 5000)).2) as (_ & _ & Hhas).
  - vm_compute; reflexivity.
  - rewrite Hhas. reflexivity.
Defined.

(** the error for an id outside the range names "start-(number - 1)" as the
    valid range: with the plugin's 5000 ids from 1000000 on it reads
    1000000-4999, which holds no id at all. *)
Theorem Allocate_range_text (seed : Z) :
  (prj_Allocate 0 (NewAllocator seed 1000000 5000)).1 = Fail (ErrNotInRange "1000000-4999").
Proof. reflexivity. Qed.
