(* ===== verification/QuotaProvider.v ===== *)
(** * The XFS quota provider: quotaProvider/quota_common_linux.go, quota_xfs.go

    [QuotaVolumeProvider] gives each quota directory a project id of its own and
    sets the limits of that project in the kernel.  Its state is the allocator
    and the cache of directories and ids; the kernel is the world of [OS].  The
    class [LinuxVolumeQuotaProvider] is the Go interface of that name. *)

From S2P Require Import Prelude GoStrings Os SimOs Util Allocator.
From stdpp Require Import pretty.
Open Scope Z_scope.
Open Scope go_scope.

Record Quota := mkQuota { HardQuota : Z; SoftQuota : Z; Used : Z }.

(** The Go interface [LinuxVolumeQuotaProvider], over a provider state [P]. *)
Class LinuxVolumeQuotaProvider (P W : Type) := {
  Supported : string -> string -> M (P * W) bool;
  GetProjectQuota : string -> string -> M (P * W) Quota;
  SetProjectQuota : string -> string -> Z -> Z -> M (P * W) unit;
  DeleteProjectQuota : string -> M (P * W) unit;
  GetQuotaDiskInfo : string -> M (P * W) Quota
}.

(** ** The system calls *)

Definition BASIC_BLOCK_SIZE : Z := 512.
Definition LinuxXfsMagic : Z := 0x58465342.
Definition FS_QUOTA_PDQ_ACCT : Z := 16.  (* linux/dqblk_xfs.h *)
Definition FS_QUOTA_PDQ_ENFD : Z := 32.

(** A deferred function that looks at the error to be returned. *)
Definition on_fail {S A} (m : M S A) (cleanup : M S unit) : M S A := fun s =>
  match m s with (Fail e, s') => (Fail e, (cleanup s').2) | r => r end.

Section syscalls.
Context {W : Type} `{OS W}.

Definition supported (mountPoint devicePath : string) (magic : Z) : M W bool :=
  let! buf := attempt (sys_read (syscall_Statfs mountPoint)) in
  match buf with
  | inr _ => ret false
  | inl buf =>
      if negb (fs_Type buf =? magic) then ret false
      else
        let! qstat := attempt (sys_read (quotactl_getqstat devicePath)) in
        match qstat with
        | inr _ => ret false
        | inl qs_flags =>
            ret ((Z.land qs_flags FS_QUOTA_PDQ_ENFD >? 0) && (Z.land qs_flags FS_QUOTA_PDQ_ACCT >? 0))
        end
  end.

(** The format has one argument less than verbs. *)
Definition quota_error (what : string) (projectId : Z) (devicePath : string) (errno : error) : error :=
  Errorf ("failed " +:+ what +:+ " project quotaProvider - prjId=" +:+ pretty projectId +:+
    " dev=" +:+ devicePath +:+ " quotaPath=" +:+ error_text errno +:+
    "; error code: %!d(MISSING) ").

Definition getProjectQuota (devicePath : string) (projectId : Z) : M W Quota :=
  let! disk_quota := map_error (quota_error "get" projectId devicePath)
                       (sys_read (quotactl_getquota devicePath projectId)) in
  ret (mkQuota (u64 (d_blk_hardlimit disk_quota * BASIC_BLOCK_SIZE))
               (u64 (d_blk_softlimit disk_quota * BASIC_BLOCK_SIZE))
               (u64 (d_bcount disk_quota * BASIC_BLOCK_SIZE))).

Definition setProjectQuota (devicePath : string) (projectId hardQuota softQuota : Z) : M W unit :=
  map_error (quota_error "set" projectId devicePath)
    (sys_write (quotactl_setqlim devicePath projectId
      (hardQuota / BASIC_BLOCK_SIZE) (softQuota / BASIC_BLOCK_SIZE))).

Definition openDir (path : string) : M W unit := fun w =>
  match opendir path w with
  | Some _ => (Fail (Errorf "Can't open dir"), w)
  | None => (Ok tt, w)
  end.

Definition getProjectId (quotaPath : string) : M W Z :=
  openDir quotaPath ;;
  map_error (fun errno => Errorf ("failed to get quotaProvider ID for " +:+ quotaPath +:+ ": "
                                  +:+ error_text errno))
    (sys_read (ioctl_getprojid quotaPath)).

Definition setProjectId (quotaPath : string) (projectId : Z) : M W unit :=
  openDir quotaPath ;;
  map_error (fun errno => Errorf ("Failed to set quotaProvider ID for " +:+ quotaPath +:+ ": "
                                  +:+ error_text errno))
    (sys_write (ioctl_setprojid quotaPath projectId)).
End syscalls.

(** ** The provider *)

Section provider.
Context {A W : Type} `{AllocatorInterface A} `{OS W}.

Record QuotaVolumeProvider := mkQuotaVolumeProvider {
  projectIdAllocator : A;
  quotaPathAndId : gmap string Z
}.

Abbreviation St := (QuotaVolumeProvider * W)%type.

Definition on_world {B} (m : M W B) : M St B := zoom snd (fun w s => (s.1, w)) m.
Definition on_alloc {B} (m : M A B) : M St B :=
  zoom (fun s : St => projectIdAllocator s.1)
    (fun a s => (mkQuotaVolumeProvider a (quotaPathAndId s.1), s.2)) m.
Definition set_cache (f : gmap string Z -> gmap string Z) : M St unit :=
  modify (fun s : St => (mkQuotaVolumeProvider (projectIdAllocator s.1) (f (quotaPathAndId s.1)), s.2)).
Definition cached (quotaPath : string) : M St (option Z) :=
  gets (fun s : St => quotaPathAndId s.1 !! quotaPath).

Definition xfs_Supported (mountPoint devicePath : string) : M St bool :=
  on_world (supported (Clean mountPoint) devicePath LinuxXfsMagic).

Definition xfs_GetProjectQuota (quotaPath devicePath : string) : M St Quota :=
  let! c := cached quotaPath in
  match c with
  | Some projectId => on_world (getProjectQuota devicePath projectId)
  | None =>
      let! projectId := on_world (getProjectId quotaPath) in
      on_alloc (Allocate projectId) ;;
      set_cache <[quotaPath := projectId]> ;;
      on_world (getProjectQuota devicePath projectId)
  end.

(** The deferred function of [SetProjectQuota]. *)
Definition rollback (quotaPath : string) (projectId : Z) : M St unit :=
  attempt (on_alloc (alloc_Release projectId)) ;; set_cache (delete quotaPath).

Definition xfs_SetProjectQuota (quotaPath devicePath : string) (hardQuota softQuota : Z) : M St unit :=
  let! c := cached quotaPath in
  match c with
  | Some _ => ret tt
  | None =>
      let! projectId := on_alloc AllocateNext in
      on_fail
        (on_world (setProjectId quotaPath projectId) ;;
         on_world (setProjectQuota devicePath projectId hardQuota softQuota) ;;
         set_cache <[quotaPath := projectId]>)
        (rollback quotaPath projectId)
  end.

Definition xfs_DeleteProjectQuota (quotaPath : string) : M St unit :=
  let! c := cached quotaPath in
  (match c with
   | Some projectId => on_alloc (alloc_Release projectId) ;; set_cache (delete quotaPath)
   | None => ret tt
   end) ;;
  (let! err := on_world (gets (os_Stat quotaPath)) in
   if match err with Some e => IsNotExist e | None => false end then ret tt
   else on_world (sys_write (os_RemoveAll quotaPath))).

Definition xfs_GetQuotaDiskInfo (mountPoint : string) : M St Quota :=
  let! fs := map_error (fun err => Errorf ("failed to get quotaProvider for mountPoint: " +:+
                          mountPoint +:+ " . err: " +:+ error_text err))
               (on_world (sys_read (syscall_Statfs mountPoint))) in
  ret (mkQuota (u64 (fs_Blocks fs * u64 (fs_Bsize fs)))
               (u64 (fs_Blocks fs * u64 (fs_Bsize fs)))
               (u64 (u64 (fs_Blocks fs - fs_Bfree fs) * u64 (fs_Bsize fs)))).

#[export] Instance QuotaVolumeProvider_interface : LinuxVolumeQuotaProvider QuotaVolumeProvider W := {
  Supported := xfs_Supported;
  GetProjectQuota := xfs_GetProjectQuota;
  SetProjectQuota := xfs_SetProjectQuota;
  DeleteProjectQuota := xfs_DeleteProjectQuota;
  GetQuotaDiskInfo := xfs_GetQuotaDiskInfo
}.
End provider.
Arguments QuotaVolumeProvider : clear implicits.

(** [NewXFSVolumeQuotaProvider] *)
Definition NewXFSVolumeQuotaProvider {R} `{Rand R} (seed : R) (startId idNumber : Z) :
    QuotaVolumeProvider (ProjectIDAllocator R) :=
  mkQuotaVolumeProvider (NewAllocator seed startId idNumber) ∅.

(** ** The provider neither leaks nor shares project ids *)

Section provider_proofs.
Context {A W : Type} `{AllocatorLaws A} `{OS W}.
Implicit Types (s : QuotaVolumeProvider A * W) (w : W) (p dev : string).

(** The allocator holds exactly the ids of the cached directories, and no two
    directories share one. *)
Record provider_inv (pr : QuotaVolumeProvider A) : Prop := {
  pi_alloc : alloc_wf (projectIdAllocator pr);
  pi_held id : Has id (projectIdAllocator pr) = true <-> exists p, quotaPathAndId pr !! p = Some id;
  pi_inj p q id : quotaPathAndId pr !! p = Some id -> quotaPathAndId pr !! q = Some id -> p = q;
  pi_range p id : quotaPathAndId pr !! p = Some id -> in_u32 id
}.

Lemma provider_inv_grant pr a p id :
  provider_inv pr -> alloc_wf a -> Has id (projectIdAllocator pr) = false -> in_u32 id ->
  (forall j, Has j a = bool_decide (j = id) || Has j (projectIdAllocator pr)) ->
  quotaPathAndId pr !! p = None ->
  provider_inv (mkQuotaVolumeProvider a (<[p := id]> (quotaPathAndId pr))).
Proof.
  intros [Ha Hh Hi Hr] Hwf Hfree Hid Hhas Hp.
  assert (Hnew : forall q, quotaPathAndId pr !! q <> Some id).
  { intros q Hq. assert (Has id (projectIdAllocator pr) = true) by (apply Hh; eauto). congruence. }
  split; simpl.
  - done.
  - intros j. rewrite Hhas, orb_true_iff, bool_decide_eq_true, Hh. split.
    + intros [-> | [q Hq]]; [exists p; apply lookup_insert_eq |].
      exists q. rewrite lookup_insert_ne; [done | congruence].
    + intros [q Hq]. apply lookup_insert_Some in Hq as [[<- <-] | [? Hq]]; eauto.
  - intros q1 q2 j. rewrite !lookup_insert_Some. naive_solver.
  - intros q j. rewrite lookup_insert_Some. naive_solver.
Qed.

Lemma provider_inv_release pr a p id :
  provider_inv pr -> alloc_wf a -> quotaPathAndId pr !! p = Some id ->
  (forall j, Has j a = negb (bool_decide (j = id)) && Has j (projectIdAllocator pr)) ->
  provider_inv (mkQuotaVolumeProvider a (delete p (quotaPathAndId pr))).
Proof.
  intros [Ha Hh Hi Hr] Hwf Hp Hhas. split; simpl.
  - done.
  - intros j. rewrite Hhas, andb_true_iff, negb_true_iff, bool_decide_eq_false, Hh. split.
    + intros [Hj [q Hq]]. exists q. rewrite lookup_delete_ne; [done | congruence].
    + intros [q Hq]. apply lookup_delete_Some in Hq as [Hne Hq]. split; [| eauto].
      intros ->. apply Hne. eauto.
  - intros q1 q2 j. rewrite !lookup_delete_Some. naive_solver.
  - intros q j. rewrite lookup_delete_Some. naive_solver.
Qed.

(** Only the ids matter: a failed allocation may advance the generator. *)
Lemma provider_inv_same pr a :
  provider_inv pr -> alloc_wf a -> (forall j, Has j a = Has j (projectIdAllocator pr)) ->
  provider_inv (mkQuotaVolumeProvider a (quotaPathAndId pr)).
Proof. intros [Ha Hh Hi Hr] Hwf Hhas. split; simpl; [done | | done | done]. intros j. by rewrite Hhas. Qed.

Lemma provider_inv_held pr p id :
  provider_inv pr -> quotaPathAndId pr !! p = Some id -> Has id (projectIdAllocator pr) = true.
Proof. intros Hi Hp. apply (pi_held _ Hi). eauto. Qed.

Lemma rollback_spec pr a w p id :
  quotaPathAndId pr !! p = None -> alloc_wf a -> Has id (projectIdAllocator pr) = false ->
  (forall j, Has j a = bool_decide (j = id) || Has j (projectIdAllocator pr)) ->
  exists a', alloc_wf a' /\ (forall j, Has j a' = Has j (projectIdAllocator pr)) /\
    rollback p id (mkQuotaVolumeProvider a (quotaPathAndId pr), w) =
      (Ok tt, (mkQuotaVolumeProvider a' (quotaPathAndId pr), w)).
Proof.
  intros Hp Hwf Hfree Hhas. destruct (Release_law a id Hwf) as (a' & Er & Hwf' & Hh').
  exists a'. split_and!.
  - done.
  - intros j. rewrite Hh', Hhas. case_bool_decide as Hj; [subst j; by rewrite Hfree | done].
  - unfold rollback, bind, attempt, on_alloc, zoom, set_cache, modify. simpl. rewrite Er. simpl.
    by rewrite delete_id.
Qed.

Lemma openDir_safe p : safe (S := W) (openDir p) (fun _ => True).
Proof. intros w. unfold openDir. by destruct (opendir p w). Qed.

Lemma setProjectId_safe p id : safe (S := W) (setProjectId p id) (fun _ => True).
Proof.
  eapply safe_bind; [apply openDir_safe |]. intros _ _. apply map_error_safe, sys_write_safe.
Qed.

(** [SetProjectQuota] on a directory that is not cached: it takes an id nobody
    holds, or changes nothing the provider can see. *)
Lemma SetProjectQuota_fresh pr w p dev hard soft r s' :
  provider_inv pr -> quotaPathAndId pr !! p = None ->
  xfs_SetProjectQuota p dev hard soft (pr, w) = (r, s') ->
  match r with
  | Ok _ => exists id a w1, Has id (projectIdAllocator pr) = false /\ in_u32 id /\ alloc_wf a /\
      (forall j, Has j a = bool_decide (j = id) || Has j (projectIdAllocator pr)) /\
      setProjectId p id w = (Ok tt, w1) /\ setProjectQuota dev id hard soft w1 = (Ok tt, s'.2) /\
      s'.1 = mkQuotaVolumeProvider a (<[p := id]> (quotaPathAndId pr))
  | Fail _ => exists a, alloc_wf a /\ (forall j, Has j a = Has j (projectIdAllocator pr)) /\
      s'.1 = mkQuotaVolumeProvider a (quotaPathAndId pr)
  | Panic _ => False
  end.
Proof.
  intros Hi Hp. pose proof Hi as [Ha _ _ _].
  unfold xfs_SetProjectQuota, cached, bind at 1, gets; simpl. rewrite Hp.
  unfold bind at 1, on_alloc at 1, zoom. simpl.
  destruct (AllocateNext (projectIdAllocator pr)) as [ra a] eqn:Ea.
  apply AllocateNext_law in Ea as [Hwf Hra]; [| done].
  destruct ra as [id | e | wy]; [| intros [= <- <-]; by exists a | done].
  destruct Hra as (Hfree & Hid & Hhas).
  unfold on_fail, bind at 1, on_world at 1, zoom. simpl.
  destruct (setProjectId p id w) as [r1 w1] eqn:E1. destruct r1 as [[] | e1 | wy].
  - unfold bind at 1, on_world at 1, zoom. simpl.
    destruct (setProjectQuota dev id hard soft w1) as [r2 w2] eqn:E2.
    destruct r2 as [[] | e2 | wy].
    + intros [= <- <-]. simpl. by exists id, a, w1.
    + destruct (rollback_spec pr a w2 p id) as (a' & ? & ? & ->); [done.. |].
      intros [= <- <-]. by exists a'.
    + exfalso. eapply (safe_no_panic (setProjectQuota dev id hard soft) (fun _ => True) w1 wy);
        [apply map_error_safe, sys_write_safe | by rewrite E2].
  - destruct (rollback_spec pr a w1 p id) as (a' & ? & ? & ->); [done.. |].
    intros [= <- <-]. by exists a'.
  - exfalso. eapply (safe_no_panic (setProjectId p id) (fun _ => True) w wy);
      [apply setProjectId_safe | by rewrite E1].
Qed.

Lemma SetProjectQuota_cached pr w p dev hard soft id :
  quotaPathAndId pr !! p = Some id ->
  xfs_SetProjectQuota p dev hard soft (pr, w) = (Ok tt, (pr, w)).
Proof. intros Hp. unfold xfs_SetProjectQuota, cached, bind, gets. simpl. by rewrite Hp. Qed.

(** A call that only touches the world. *)
Lemma on_world_provider {B} (m : M W B) pr w : (on_world (A := A) m (pr, w)).2.1 = pr.
Proof. unfold on_world, zoom. simpl. by destruct (m w). Qed.

Definition inv_St (s : QuotaVolumeProvider A * W) : Prop := provider_inv s.1.

Lemma preserves_on_world {B} (m : M W B) : preserves inv_St (on_world m).
Proof. intros [pr w] Hs. unfold inv_St. by rewrite on_world_provider. Qed.

Lemma xfs_SetProjectQuota_inv p dev hard soft : preserves inv_St (xfs_SetProjectQuota p dev hard soft).
Proof.
  intros [pr w] Hs. destruct (quotaPathAndId pr !! p) as [id |] eqn:Hp.
  - by rewrite (SetProjectQuota_cached pr w p dev hard soft id Hp).
  - destruct (xfs_SetProjectQuota p dev hard soft (pr, w)) as [r s'] eqn:E.
    apply SetProjectQuota_fresh in E; [| done..]. unfold inv_St in *; simpl. destruct r as [u | e | y].
    + destruct E as (id & al & w1 & ? & ? & ? & ? & _ & _ & ->). by apply provider_inv_grant.
    + destruct E as (a & ? & ? & ->). by apply provider_inv_same.
    + done.
Qed.

Lemma xfs_GetProjectQuota_inv p dev : preserves inv_St (xfs_GetProjectQuota p dev).
Proof.
  intros [pr w] Hs. unfold xfs_GetProjectQuota, cached. unfold bind at 1, gets. simpl.
  destruct (quotaPathAndId pr !! p) as [id |] eqn:Hp; [by apply preserves_on_world |].
  unfold bind at 1, on_world at 1, zoom. simpl.
  destruct (getProjectId p w) as [[id | e | y] w1]; [| done..].
  unfold bind at 1, on_alloc, zoom. simpl.
  destruct (Allocate id (projectIdAllocator pr)) as [ra a] eqn:Ea.
  apply Allocate_law in Ea as [Hwf Hra]; [| apply (pi_alloc _ Hs)].
  destruct ra as [[] | e | y]; [| by apply provider_inv_same | done].
  destruct Hra as (Hfree & Hid & Hhas). unfold bind, set_cache, modify. simpl.
  apply preserves_on_world. by apply provider_inv_grant.
Qed.

Lemma xfs_DeleteProjectQuota_inv p : preserves inv_St (xfs_DeleteProjectQuota p).
Proof.
  intros [pr w] Hs. unfold xfs_DeleteProjectQuota, cached. unfold bind at 1, gets. simpl.
  assert (Htail : preserves inv_St
    (let! err := on_world (gets (os_Stat p)) in
     if match err with Some e => IsNotExist e | None => false end then ret tt
     else on_world (sys_write (os_RemoveAll p)))).
  { apply preserves_bind; [apply preserves_on_world |]. intros err.
    destruct (match err with Some e => IsNotExist e | None => false end);
      [apply preserves_ret | apply preserves_on_world]. }
  destruct (quotaPathAndId pr !! p) as [id |] eqn:Hp; [| by apply Htail].
  destruct (Release_law (projectIdAllocator pr) id (pi_alloc _ Hs)) as (a & Er & Hwf & Hhas).
  unfold bind at 1, bind at 1, on_alloc, zoom. simpl. rewrite Er. unfold set_cache, modify. simpl.
  apply Htail. by eapply provider_inv_release.
Qed.

(** C15: the ids the allocator holds are at every moment exactly the ids of the
    directories in the provider's cache, one directory each: no operation leaks an
    id or gives one to two directories, whatever the kernel answers and however
    the operation ends. *)
Theorem provider_no_leak s :
  provider_inv s.1 ->
  (forall mp dev, provider_inv (xfs_Supported mp dev s).2.1) /\
  (forall p dev, provider_inv (xfs_GetProjectQuota p dev s).2.1) /\
  (forall p dev hard soft, provider_inv (xfs_SetProjectQuota p dev hard soft s).2.1) /\
  (forall p, provider_inv (xfs_DeleteProjectQuota p s).2.1) /\
  (forall mp, provider_inv (xfs_GetQuotaDiskInfo mp s).2.1).
Proof.
  intros Hs. split_and!; intros.
  - by apply preserves_on_world.
  - by apply xfs_GetProjectQuota_inv.
  - by apply xfs_SetProjectQuota_inv.
  - by apply xfs_DeleteProjectQuota_inv.
  - apply (preserves_bind inv_St); [| intros; apply preserves_ret | done].
    apply preserves_map_error, preserves_on_world.
Qed.

End provider_proofs.

(** ** What the kernel was told, and what a restart reads back *)

Section kernel_proofs.
Context {A W : Type} `{AllocatorLaws A} `{OSLaws W}.
Implicit Types (w : W) (p dev : string).

Lemma setProjectId_inv p id w w' :
  setProjectId p id w = (Ok tt, w') -> opendir p w' = None /\ ioctl_getprojid p w' = inl id.
Proof.
  unfold setProjectId, bind, openDir. destruct (opendir p w) eqn:Ho; [done |].
  unfold map_error, sys_write. destruct (ioctl_setprojid p id w) as [[e |] w1] eqn:Es; [done |].
  intros [= <-]. by eapply getprojid_setprojid.
Qed.

Lemma setProjectQuota_inv dev id hard soft w w' :
  setProjectQuota dev id hard soft w = (Ok tt, w') ->
  (exists n, quotactl_getquota dev id w' = inl (mkDiskQuota (hard / 512) (soft / 512) n)) /\
  (forall p, opendir p w' = opendir p w /\ ioctl_getprojid p w' = ioctl_getprojid p w).
Proof.
  unfold setProjectQuota, map_error, sys_write.
  destruct (quotactl_setqlim _ _ _ _ w) as [[e |] w1] eqn:Es; [done |].
  intros [= <-]. by eapply getquota_setqlim.
Qed.

Lemma block_round_trip x : in_u64 x -> u64 (x / 512 * 512) = x - x mod 512.
Proof.
  intros Hx. pose proof (Z.div_mod x 512). pose proof (Z.mod_pos_bound x 512).
  rewrite u64_small; unfold in_u64 in *; lia.
Qed.

(** after a successful [SetProjectQuota] of a new directory, a provider that
    starts afresh (its allocator does not hold the id) reads from the kernel the
    same project id and the same limits, rounded down to the 512-byte block, and
    its allocator then holds that id: a restart recovers the limits. *)
Theorem restart_recovers_quota (pr pr' : QuotaVolumeProvider A) w p dev hard soft s1 :
  provider_inv pr -> quotaPathAndId pr !! p = None -> in_u64 hard -> in_u64 soft ->
  xfs_SetProjectQuota p dev hard soft (pr, w) = (Ok tt, s1) ->
  provider_inv pr' -> quotaPathAndId pr' = ∅ ->
  exists id, quotaPathAndId s1.1 !! p = Some id /\
    ((Allocate id (projectIdAllocator pr')).1 = Ok tt ->
     exists n pr2, xfs_GetProjectQuota p dev (pr', s1.2) =
       (Ok (mkQuota (hard - hard mod 512) (soft - soft mod 512) n), (pr2, s1.2)) /\
       quotaPathAndId pr2 = {[ p := id ]} /\ Has id (projectIdAllocator pr2) = true).
Proof.
  intros Hi Hp Hhard Hsoft Eset Hi' Hempty.
  apply SetProjectQuota_fresh in Eset; [| done..].
  destruct Eset as (id & a & w1 & _ & Hid & _ & _ & E1 & E2 & Es). exists id.
  split; [rewrite Es; simpl; apply lookup_insert_eq |]. intros Hal.
  apply setProjectId_inv in E1 as [Ho Hg]. apply setProjectQuota_inv in E2 as [[n Hq] Hsame].
  destruct (Hsame p) as [Ho' Hg'].
  unfold xfs_GetProjectQuota, cached, bind at 1, gets. simpl. rewrite Hempty, lookup_empty.
  unfold bind at 1, on_world at 1, zoom. simpl.
  assert (Eid : getProjectId p s1.2 = (Ok id, s1.2)).
  { unfold getProjectId, bind, openDir, map_error, sys_read. by rewrite Ho', Ho, Hg', Hg. }
  rewrite Eid. unfold bind at 1, on_alloc, zoom. simpl.
  destruct (Allocate id (projectIdAllocator pr')) as [ra a'] eqn:Ea. simpl in Hal. subst ra.
  apply Allocate_law in Ea as [_ (_ & _ & Hhas)]; [| apply (pi_alloc _ Hi')].
  unfold bind, set_cache, modify, on_world, zoom. simpl.
  unfold getProjectQuota, bind, map_error, sys_read, ret. rewrite Hq. simpl.
  change BASIC_BLOCK_SIZE with 512. rewrite !block_round_trip by done.
  eexists _, _. split_and!; [done | by rewrite Hempty |].
  simpl. rewrite Hhas. by rewrite bool_decide_true.
Qed.

(** C14: a [SetProjectQuota] call, case by case.  A cached directory: success, and
    neither provider nor kernel changes, whatever limits were asked for.  A new
    one: on success the kernel holds, for the directory, an id that nobody held
    and, for that id, the limits in blocks; on failure the cache and the held ids
    are those of before the call.  It never panics. *)
Theorem SetProjectQuota_spec (pr : QuotaVolumeProvider A) w p dev hard soft r pr' w' :
  provider_inv pr ->
  xfs_SetProjectQuota p dev hard soft (pr, w) = (r, (pr', w')) ->
  match quotaPathAndId pr !! p, r with
  | Some _, _ => r = Ok tt /\ pr' = pr /\ w' = w
  | None, Ok _ => exists id n, Has id (projectIdAllocator pr) = false /\
      quotaPathAndId pr' = <[p := id]> (quotaPathAndId pr) /\
      ioctl_getprojid p w' = inl id /\
      quotactl_getquota dev id w' = inl (mkDiskQuota (hard / 512) (soft / 512) n)
  | None, Fail _ => quotaPathAndId pr' = quotaPathAndId pr /\
      forall j, Has j (projectIdAllocator pr') = Has j (projectIdAllocator pr)
  | None, Panic _ => False
  end.
Proof.
  intros Hi E. destruct (quotaPathAndId pr !! p) as [id |] eqn:Hp.
  - rewrite (SetProjectQuota_cached pr w p dev hard soft id Hp) in E. by injection E as <- <- <-.
  - apply SetProjectQuota_fresh in E; [| done..]. simpl in E. destruct r as [u | e | y]; [| | done].
    + destruct E as (id & al & w1 & Hfree & _ & _ & _ & E1 & E2 & ->).
      apply setProjectId_inv in E1 as [_ Hg]. apply setProjectQuota_inv in E2 as [[n Hq] Hsame].
      destruct (Hsame p) as [_ Hg']. exists id, n. by rewrite Hg', Hg.
    + by destruct E as (al & _ & Hhas & ->).
Qed.
End kernel_proofs.

(** ** Runs *)

(** A disk with a formatted XFS mounted on /pool/d1. *)
Definition sim_pool : sim :=
  mkSim ["/dev/vdb"; "/pool"; "/pool/d1"; "/pool/d1/k8squota_v1"] ∅ ∅ [("/pool/d1", "/dev/vdb")]
    ["36 35 0:1 / /pool/d1 rw - xfs /dev/vdb rw"]
    {[ "/pool/d1" := mkStatfs LinuxXfsMagic 1000 900 4096 ]} ∅ 0 [].

Definition new_provider : QuotaVolumeProvider (ProjectIDAllocator Z) :=
  NewXFSVolumeQuotaProvider 7 1000000 5000.

Lemma new_provider_inv : provider_inv new_provider.
Proof.
  split; simpl.
  - apply NewAllocator_wf; lia.
  - intros id. split; [| by intros [p Hp]]. unfold prj_Has. destruct (contains _ id); [| done].
    unfold bm_Has, Bit. simpl. by rewrite Z.testbit_0_l.
  - done.
  - done.
Qed.

Definition after_set : QuotaVolumeProvider (ProjectIDAllocator Z) * sim :=
  (xfs_SetProjectQuota "/pool/d1/k8squota_v1" "/dev/vdb" 1048600 1048600 (new_provider, sim_pool)).2.

Lemma provider_no_leak_witness : provider_inv after_set.1.
Proof. exact (proj1 (proj2 (proj2 (provider_no_leak (new_provider, sim_pool) new_provider_inv))) _ _ _ _). Defined.

Lemma after_set_eq :
  xfs_SetProjectQuota "/pool/d1/k8squota_v1" "/dev/vdb" 1048600 1048600 (new_provider, sim_pool) =
  (Ok tt, (after_set.1, after_set.2)).
Proof. vm_compute; reflexivity. Qed.

Lemma SetProjectQuota_spec_witness :
  exists id n, Has id (projectIdAllocator new_provider) = false /\
    quotactl_getquota "/dev/vdb" id after_set.2 = inl (mkDiskQuota 2048 2048 n).
Proof.
  pose proof (SetProjectQuota_spec new_provider sim_pool "/pool/d1/k8squota_v1" "/dev/vdb" 1048600 1048600
    (Ok tt) after_set.1 after_set.2 new_provider_inv after_set_eq) as Hs.
  change (quotaPathAndId new_provider !! "/pool/d1/k8squota_v1") with (@None Z) in Hs.
  destruct Hs as (id & n & Hfree & _ & _ & Hq). exists id, n. exact (conj Hfree Hq).
Defined.

Lemma restart_recovers_quota_witness :
  (xfs_GetProjectQuota "/pool/d1/k8squota_v1" "/dev/vdb" (new_provider, after_set.2)).1 =
  Ok (mkQuota 1048576 1048576 0).
Proof.
  destruct (restart_recovers_quota new_provider new_provider sim_pool "/pool/d1/k8squota_v1" "/dev/vdb"
    1048600 1048600 (after_set.1, after_set.2) new_provider_inv) as (id & Hid & Hread).
  - reflexivity.
  - vm_compute; split; [discriminate | reflexivity].
  - vm_compute; split; [discriminate | reflexivity].
  - exact after_set_eq.
  - exact new_provider_inv.
  - reflexivity.
  - assert (Hid' : id = 1000007) by (vm_compute in Hid; congruence). rewrite Hid' in Hread.
    destruct Hread as (n & pr2 & E & _); [vm_compute; reflexivity |]. simpl in E.
    assert (Hn : (xfs_GetProjectQuota "/pool/d1/k8squota_v1" "/dev/vdb" (new_provider, after_set.2)).1 =
      Ok (mkQuota 1048576 1048576 n)) by (rewrite E; reflexivity).
    rewrite Hn. vm_compute in Hn. congruence.
Defined.
