(* ===== verification/QuotaManager.v ===== *)
(** * The quota manager: pkg/csi-plugin/hostpath/quota-manager

    [XFSQuotaManager] places the volumes of a node on its XFS disks: it keeps, per
    disk, what is allocated and what is left, and, per volume, its directory and
    quota.  Its methods hold the manager's mutex from begin to end, so each is one
    step on the state.  It is written against the interface
    [LinuxVolumeQuotaProvider]; the class [QuotaManagerInterface] is the Go
    interface that the node server and the sync worker use. *)

From S2P Require Import Prelude GoStrings Os SimOs Util Allocator QuotaProvider.
From stdpp Require Import pretty.
Open Scope Z_scope.
Open Scope go_scope.

(** ** common.go *)

Definition ProjectIdStart : Z := 1000000.
Definition ProjectIdNum : Z := 5000.
Definition XfsQuotaDirPrefix : string := "k8squota".
Definition DiskQuotaEnableFattr : string := "user.storage.hostpathpv.xfsquota/disable".

Definition getQuotaPathName (volumeId : string) : string := XfsQuotaDirPrefix +:+ "_" +:+ volumeId.

(** The error returned for a path without the prefix is the nil one. *)
Definition parseQuotaPathInfoFromDirName (filepath : string) : outcome string :=
  let filepath := Clean filepath in
  let pos := Index filepath XfsQuotaDirPrefix in
  if pos <=? 0 then Ok ""
  else go_slice filepath (pos + 9) (go_len filepath).

Section common.
Context {W : Type} `{OS W}.

Definition setQuotaDiskDisableState (mountPoint : string) (disabled : bool) : M W unit :=
  SetFilesystemXattr mountPoint DiskQuotaEnableFattr (FormatBool disabled).

Definition getDiskQuotaDisableState (mountPoint : string) : M W bool :=
  let! attrString := attempt (GetFilesystemXattr mountPoint DiskQuotaEnableFattr) in
  match attrString with
  | inr err =>
      if decide (error_text err = "no data available")
      then attempt (setQuotaDiskDisableState mountPoint false) ;; ret false
      else ret false
  | inl attrString =>
      match ParseBool attrString with Ok disable => ret disable | _ => ret false end
  end.
End common.

(** ** quotamanager.go *)

(** The zero [time.Time], in nanoseconds since 1970. *)
Definition zero_time : Z := -62135596800 * 10 ^ 9.

Record DiskQuotaInfo := mkDiskQuotaInfo {
  disk_DeviceName : string;
  disk_MountPoint : string;
  disk_Capacity : Z;
  disk_Used : Z;
  disk_QuotaSize : Z;
  disk_AllocatableSize : Z;
  disk_Disabled : bool;
  disk_lastSync : Z
}.

Record DiskQuotaInfoSortItem := mkSortItem {
  item_DeviceName : string;
  item_MountPoint : string;
  item_AvailableSize : Z
}.

(** [DiskQuotaInfoList.Less]: reversed, the largest first *)
Definition Less (x y : DiskQuotaInfoSortItem) : bool := item_AvailableSize x >? item_AvailableSize y.

Record PathQuotaInfo := mkPathQuotaInfo {
  path_Path : string;
  path_DeviceName : string;
  path_Quota : Quota;
  path_lastSync : Z;
  path_VolumeId : string
}.

(** The Go interface [QuotaManagerInterface], over a manager state [Q]. *)
Class QuotaManagerInterface (Q W : Type) := {
  ListQuotaDiskInfos : M (Q * W) (list DiskQuotaInfo);
  ListPathQuotaInfos : M (Q * W) (list PathQuotaInfo);
  SetQuotaDiskDisabledState : string -> bool -> M (Q * W) unit;
  GetVolumeQuotaPath : string -> Z -> M (Q * W) string;
  ExpandVolume : string -> Z -> M (Q * W) unit;
  ReleaseVolumePath : string -> M (Q * W) unit
}.

(** Field updates. *)
Definition disk_set_used (used now : Z) (d : DiskQuotaInfo) : DiskQuotaInfo :=
  mkDiskQuotaInfo (disk_DeviceName d) (disk_MountPoint d) (disk_Capacity d) used
    (disk_QuotaSize d) (disk_AllocatableSize d) (disk_Disabled d) now.
Definition disk_set_disabled (b : bool) (d : DiskQuotaInfo) : DiskQuotaInfo :=
  mkDiskQuotaInfo (disk_DeviceName d) (disk_MountPoint d) (disk_Capacity d) (disk_Used d)
    (disk_QuotaSize d) (disk_AllocatableSize d) b (disk_lastSync d).
Definition disk_set_lastSync (now : Z) (d : DiskQuotaInfo) : DiskQuotaInfo :=
  mkDiskQuotaInfo (disk_DeviceName d) (disk_MountPoint d) (disk_Capacity d) (disk_Used d)
    (disk_QuotaSize d) (disk_AllocatableSize d) (disk_Disabled d) now.
(** [QuotaSize = size]: the restart writes this field alone. *)
Definition disk_set_quota (size : Z) (d : DiskQuotaInfo) : DiskQuotaInfo :=
  mkDiskQuotaInfo (disk_DeviceName d) (disk_MountPoint d) (disk_Capacity d) (disk_Used d)
    size (disk_AllocatableSize d) (disk_Disabled d) (disk_lastSync d).
(** [QuotaSize = size; AllocatableSize = Capacity - QuotaSize] *)
Definition disk_account (size : Z) (d : DiskQuotaInfo) : DiskQuotaInfo :=
  mkDiskQuotaInfo (disk_DeviceName d) (disk_MountPoint d) (disk_Capacity d) (disk_Used d)
    size (u64 (disk_Capacity d - size)) (disk_Disabled d) (disk_lastSync d).
Definition path_set_used (used now : Z) (q : PathQuotaInfo) : PathQuotaInfo :=
  mkPathQuotaInfo (path_Path q) (path_DeviceName q)
    (mkQuota (HardQuota (path_Quota q)) (SoftQuota (path_Quota q)) used) now (path_VolumeId q).
Definition path_set_limits (size : Z) (q : PathQuotaInfo) : PathQuotaInfo :=
  mkPathQuotaInfo (path_Path q) (path_DeviceName q)
    (mkQuota size size (Used (path_Quota q))) (path_lastSync q) (path_VolumeId q).

(** ** quotamanager_xfs.go *)

Record XFSQuotaManager (P : Type) := mkXFSQuotaManager {
  quotaRootPath : string;
  diskQuotaInfos : gmap string DiskQuotaInfo;
  quotas : gmap string PathQuotaInfo;
  maxCacheTime : Z;
  quotaProvider : P
}.
Arguments mkXFSQuotaManager {P}.
Arguments quotaRootPath {P}.
Arguments diskQuotaInfos {P}.
Arguments quotas {P}.
Arguments maxCacheTime {P}.
Arguments quotaProvider {P}.

Section manager.
Context {P W : Type} `{LinuxVolumeQuotaProvider P W} `{OS W}.

Abbreviation Q := (XFSQuotaManager P).
Abbreviation St := (XFSQuotaManager P * W)%type.

Definition set_disks (f : gmap string DiskQuotaInfo -> gmap string DiskQuotaInfo) (m : Q) : Q :=
  mkXFSQuotaManager (quotaRootPath m) (f (diskQuotaInfos m)) (quotas m) (maxCacheTime m) (quotaProvider m).
Definition set_quotas (f : gmap string PathQuotaInfo -> gmap string PathQuotaInfo) (m : Q) : Q :=
  mkXFSQuotaManager (quotaRootPath m) (diskQuotaInfos m) (f (quotas m)) (maxCacheTime m) (quotaProvider m).
Definition set_provider (p : P) (m : Q) : Q :=
  mkXFSQuotaManager (quotaRootPath m) (diskQuotaInfos m) (quotas m) (maxCacheTime m) p.

(** Calls of the operating system and of the provider. *)
Definition on_os {B} (c : M W B) : M St B := zoom snd (fun w s => (s.1, w)) c.
Definition on_provider {B} (c : M (P * W) B) : M St B :=
  zoom (fun s : St => (quotaProvider s.1, s.2)) (fun t s => (set_provider t.1 s.1, t.2)) c.
Definition with_disks f : M St unit := modify (fun s : St => (set_disks f s.1, s.2)).
Definition with_quotas f : M St unit := modify (fun s : St => (set_quotas f s.1, s.2)).

(** The pointers a [range] over the map visits, with their keys. *)
Definition range_disks : M St (list string) :=
  let! disks := gets (fun s : St => diskQuotaInfos s.1) in
  on_os (sys_value (range_order (dom disks))).
Definition range_quotas : M St (list string) :=
  let! qs := gets (fun s : St => quotas s.1) in
  on_os (sys_value (range_order (dom qs))).

(** One round of the loop of [ListQuotaDiskInfos]. *)
Definition list_disk (name : string) : M St (list DiskQuotaInfo) :=
  let! disk := gets (fun s : St => diskQuotaInfos s.1 !! name) in
  match disk with
  | None => ret []
  | Some disk =>
      let! now := on_os (sys_value time_Now) in
      let! max := gets (fun s : St => maxCacheTime s.1) in
      if now - disk_lastSync disk >? max then
        let! quota := on_provider (GetQuotaDiskInfo (disk_MountPoint disk)) in
        let! now := on_os (sys_value time_Now) in
        let disk := disk_set_used (Used quota) now disk in
        with_disks <[name := disk]> ;; ret [disk]
      else ret [disk]
  end.

Definition xfs_ListQuotaDiskInfos : M St (list DiskQuotaInfo) :=
  let! names := range_disks in
  let! infos := collect names list_disk in
  ret (concat infos).

Definition list_path (volId : string) : M St (list PathQuotaInfo) :=
  let! quotaInfo := gets (fun s : St => quotas s.1 !! volId) in
  match quotaInfo with
  | None => ret []
  | Some quotaInfo =>
      let! now := on_os (sys_value time_Now) in
      let! max := gets (fun s : St => maxCacheTime s.1) in
      if now - path_lastSync quotaInfo >? max then
        let! quota := on_provider (GetProjectQuota (path_Path quotaInfo) (path_DeviceName quotaInfo)) in
        let! now := on_os (sys_value time_Now) in
        let quotaInfo := path_set_used (Used quota) now quotaInfo in
        with_quotas <[volId := quotaInfo]> ;; ret [quotaInfo]
      else ret [quotaInfo]
  end.

Definition xfs_ListPathQuotaInfos : M St (list PathQuotaInfo) :=
  let! ids := range_quotas in
  let! infos := collect ids list_path in
  ret (concat infos).

Definition disabled_error (mountPoint : string) (disabled : bool) (err : error) : error :=
  Errorf ("failed to set device: " +:+ mountPoint +:+ " disabled state to " +:+ FormatBool disabled +:+
          ". err: " +:+ error_text err).

(** The loop of [SetQuotaDiskDisabledState]: the first disk mounted there. *)
Fixpoint find_mountPoint (mountPoint : string) (disks : gmap string DiskQuotaInfo)
    (names : list string) : option (string * DiskQuotaInfo) :=
  match names with
  | [] => None
  | name :: names' =>
      match disks !! name with
      | Some diskInfo =>
          if decide (disk_MountPoint diskInfo = mountPoint) then Some (name, diskInfo)
          else find_mountPoint mountPoint disks names'
      | None => find_mountPoint mountPoint disks names'
      end
  end.

Definition xfs_SetQuotaDiskDisabledState (mountPoint : string) (disabled : bool) : M St unit :=
  let! names := range_disks in
  let! disks := gets (fun s : St => diskQuotaInfos s.1) in
  match find_mountPoint mountPoint disks names with
  | Some (name, diskInfo) =>
      map_error (disabled_error mountPoint disabled)
        (on_os (setQuotaDiskDisableState (disk_MountPoint diskInfo) disabled)) ;;
      with_disks <[name := disk_set_disabled disabled diskInfo]>
  | None => fail (Errorf ("disk of mountPoint " +:+ mountPoint +:+ " not found in local cache"))
  end.

(** The loop of [allocateNewQuotaDir] over the disks. *)
Definition available_disk (hardQuota : Z) (disks : gmap string DiskQuotaInfo) (name : string) :
    option DiskQuotaInfoSortItem :=
  match disks !! name with
  | None => None
  | Some disk =>
      if disk_Disabled disk then None
      else if disk_AllocatableSize disk <? hardQuota then None
      else Some (mkSortItem (disk_DeviceName disk) (disk_MountPoint disk) (disk_AllocatableSize disk))
  end.

Definition no_disk_error (hardQuota : Z) : error :=
  Errorf ("has no disk can match the hardquota " +:+ pretty hardQuota).

Definition allocateNewQuotaDir (volId : string) (hardQuota : Z) : M St (string * string) :=
  let dirName := getQuotaPathName volId in
  let! names := range_disks in
  let! disks := gets (fun s : St => diskQuotaInfos s.1) in
  match sort_by Less (omap (available_disk hardQuota disks) names) with
  | [] => fail (no_disk_error hardQuota)
  | disk :: _ =>
      let quotaPath := GoStrings.Join [item_MountPoint disk; dirName] in
      let! exist := on_os (gets (IsPathExist quotaPath)) in
      (if exist then ret tt
       else map_error (fun err => Errorf ("failed allocate quotaPath: " +:+ quotaPath +:+
                         " , err: " +:+ error_text err)) (on_os (MkDir quotaPath))) ;;
      ret (item_DeviceName disk, quotaPath)
  end.

Definition xfs_GetVolumeQuotaPath (volId : string) (capacity : Z) : M St string :=
  let! known := gets (fun s : St => quotas s.1 !! volId) in
  match known with
  | Some quotaInfo => ret (path_Path quotaInfo)
  | None =>
      let quotaSize := u64 capacity in
      let! ' (deviceName, quotaPath) :=
        map_error (fun err => Errorf ("failed allocate quotaPath, err " +:+ error_text err))
          (allocateNewQuotaDir volId quotaSize) in
      let! diskInfo := gets (fun s : St => diskQuotaInfos s.1 !! deviceName) in
      match diskInfo with
      | None => fail (Errorf ("disk " +:+ deviceName +:+ " not found in local cache"))
      | Some diskInfo =>
          let! r := attempt (on_provider (SetProjectQuota quotaPath deviceName quotaSize quotaSize)) in
          match r with
          | inr err =>
              attempt (on_os (DeleteFile quotaPath)) ;;
              fail (Errorf ("set project quotaProvider with deviceName: " +:+ deviceName +:+
                      " for path: " +:+ quotaPath +:+ "  err: " +:+ error_text err))
          | inl _ =>
              let! now := on_os (sys_value time_Now) in
              with_quotas <[volId := mkPathQuotaInfo quotaPath deviceName
                                       (mkQuota quotaSize quotaSize 0) now volId]> ;;
              with_disks <[deviceName := disk_account (u64 (disk_QuotaSize diskInfo + quotaSize)) diskInfo]> ;;
              ret quotaPath
          end
      end
  end.

Definition xfs_ExpandVolume (volID : string) (capacity : Z) : M St unit :=
  let! known := gets (fun s : St => quotas s.1 !! volID) in
  match known with
  | None => fail (Errorf ("volume " +:+ volID +:+ " not found in local cache"))
  | Some quotaInfo =>
      let! diskInfo := gets (fun s : St => diskQuotaInfos s.1 !! path_DeviceName quotaInfo) in
      match diskInfo with
      | None => fail (Errorf ("disk " +:+ path_DeviceName quotaInfo +:+ " not found in local cache"))
      | Some diskInfo =>
          let oldSize := HardQuota (path_Quota quotaInfo) in
          let quotaSize := u64 capacity in
          if oldSize >? quotaSize then
            fail (Errorf ("reduce path: " +:+ path_Path quotaInfo +:+ " quota from " +:+ pretty oldSize +:+
                    " to " +:+ pretty quotaSize +:+ " is not support "))
          else if disk_AllocatableSize diskInfo <? u64 (quotaSize - oldSize) then
            fail (Errorf ("disk " +:+ path_DeviceName quotaInfo +:+ " has not enough quotaProvider to set"))
          else
            map_error (fun err => Errorf ("faild to setProjectQuota " +:+ pretty quotaSize +:+ " for path " +:+
                         path_Path quotaInfo +:+ " err:" +:+ error_text err))
              (on_provider (SetProjectQuota (path_Path quotaInfo) (path_DeviceName quotaInfo) quotaSize quotaSize)) ;;
            with_disks <[path_DeviceName quotaInfo :=
              disk_account (u64 (disk_QuotaSize diskInfo + quotaSize - oldSize)) diskInfo]> ;;
            with_quotas <[volID := path_set_limits quotaSize quotaInfo]>
      end
  end.

Definition xfs_ReleaseVolumePath (volId : string) : M St unit :=
  let! known := gets (fun s : St => quotas s.1 !! volId) in
  match known with
  | None => ret tt
  | Some quotaPath =>
      let! diskInfo := gets (fun s : St => diskQuotaInfos s.1 !! path_DeviceName quotaPath) in
      match diskInfo with
      | None => fail (Errorf ("disk " +:+ path_DeviceName quotaPath +:+ " for path: " +:+
                        path_Path quotaPath +:+ " not found in local cache"))
      | Some diskInfo =>
          on_provider (DeleteProjectQuota (path_Path quotaPath)) ;;
          with_quotas (delete volId) ;;
          with_disks <[path_DeviceName quotaPath :=
            disk_account (u64 (disk_QuotaSize diskInfo - HardQuota (path_Quota quotaPath))) diskInfo]>
      end
  end.

(** The first loop of [restoreQuotaInfo]: a mount point that does not support
    project quotas is used all the same. *)
Definition restore_disk (mountPoint : string) : M St unit :=
  let! isMnt := attempt (on_os (IsMountPoint mountPoint)) in
  match isMnt with
  | inl true =>
      let! deviceName := on_os (GetDevForPath mountPoint) in
      on_provider (Supported mountPoint deviceName) ;;
      (let! quota := on_provider (GetQuotaDiskInfo mountPoint) in
       let! disabled := on_os (getDiskQuotaDisableState mountPoint) in
       with_disks <[deviceName := mkDiskQuotaInfo deviceName mountPoint (HardQuota quota) (Used quota)
                                    0 (HardQuota quota) disabled zero_time]>)
  | _ => ret tt
  end.

Definition restore_path (deviceName quotaPath : string) : M St unit :=
  let! volID := lift (parseQuotaPathInfoFromDirName quotaPath) in
  let! quota := on_provider (GetProjectQuota quotaPath deviceName) in
  with_disks (alter (fun d => disk_set_quota (u64 (disk_QuotaSize d + HardQuota quota)) d) deviceName) ;;
  (let! now := on_os (sys_value time_Now) in
   with_quotas <[volID := mkPathQuotaInfo quotaPath deviceName quota now volID]>).

Definition restore_paths (deviceName : string) : M St unit :=
  let! disk := gets (fun s : St => diskQuotaInfos s.1 !! deviceName) in
  match disk with
  | None => ret tt
  | Some diskInfo =>
      let! dirs := on_os (gets (GetSubDirs (disk_MountPoint diskInfo))) in
      for_each dirs (restore_path deviceName) ;;
      (let! now := on_os (sys_value time_Now) in
       with_disks (alter (disk_set_lastSync now) deviceName))
  end.

Definition restoreQuotaInfo : M St unit :=
  let! root := gets (fun s : St => quotaRootPath s.1) in
  let! dirs := on_os (gets (GetSubDirs root)) in
  for_each dirs restore_disk ;;
  (let! names := range_disks in for_each names restore_paths).

#[export] Instance XFSQuotaManager_interface : QuotaManagerInterface Q W := {
  ListQuotaDiskInfos := xfs_ListQuotaDiskInfos;
  ListPathQuotaInfos := xfs_ListPathQuotaInfos;
  SetQuotaDiskDisabledState := xfs_SetQuotaDiskDisabledState;
  GetVolumeQuotaPath := xfs_GetVolumeQuotaPath;
  ExpandVolume := xfs_ExpandVolume;
  ReleaseVolumePath := xfs_ReleaseVolumePath
}.
End manager.

(** ** quotamanager_fake.go *)

Record FakeQuotaManager := mkFakeQuotaManager {}.

Definition errUnimplemented : error := Errorf "function is not implemented".

#[export] Instance FakeQuotaManager_interface {W} : QuotaManagerInterface FakeQuotaManager W := {
  ListQuotaDiskInfos := fail errUnimplemented;
  ListPathQuotaInfos := fail errUnimplemented;
  SetQuotaDiskDisabledState _ _ := fail errUnimplemented;
  GetVolumeQuotaPath _ _ := fail errUnimplemented;
  ExpandVolume _ _ := fail errUnimplemented;
  ReleaseVolumePath _ := fail errUnimplemented
}.

(** [NewXfsQuotaManager]: the manager, or the fake one when the start fails. *)
Definition NewXfsQuotaManager {R W} `{Rand R} `{OS W} (seed : R) (quotaRootPath : string) :
    M W (XFSQuotaManager (QuotaVolumeProvider (ProjectIDAllocator R)) + FakeQuotaManager) := fun w =>
  let ret := mkXFSQuotaManager (Clean quotaRootPath) ∅ ∅ (60 * 10 ^ 9)
               (NewXFSVolumeQuotaProvider seed ProjectIdStart ProjectIdNum) in
  if negb (CheckDirExists quotaRootPath w) then (Ok (inr mkFakeQuotaManager), w)
  else
    match restoreQuotaInfo (ret, w) with
    | (Ok _, (m, w')) => (Ok (inl m), w')
    | (Fail _, (_, w')) => (Ok (inr mkFakeQuotaManager), w')
    | (Panic y, (_, w')) => (Panic y, w')
    end.

(** ** The books of the manager *)

(** What the volumes on disk [name] are allowed to use. *)
Definition on_disk (name : string) (q : PathQuotaInfo) : Z :=
  if decide (path_DeviceName q = name) then HardQuota (path_Quota q) else 0.
Definition allocated_on (name : string) (qs : gmap string PathQuotaInfo) : Z := map_sum (on_disk name) qs.

(** The books balance: a disk's allocated size is the sum of the quotas of its
    volumes, exactly, what is left is the rest of the capacity, and the quotas fit
    on the disk. *)
Record books (ds : gmap string DiskQuotaInfo) (qs : gmap string PathQuotaInfo) : Prop := {
  books_disk n d : ds !! n = Some d -> disk_DeviceName d = n /\ in_u64 (disk_Capacity d);
  books_volume v q : qs !! v = Some q -> in_u64 (HardQuota (path_Quota q)) /\
                       is_Some (ds !! path_DeviceName q) /\ path_VolumeId q = v;
  books_sum n d : ds !! n = Some d -> disk_QuotaSize d = allocated_on n qs;
  books_fit n d : ds !! n = Some d -> allocated_on n qs <= disk_Capacity d;
  books_rest n d : ds !! n = Some d -> disk_AllocatableSize d = disk_Capacity d - allocated_on n qs
}.

Lemma on_disk_self q : on_disk (path_DeviceName q) q = HardQuota (path_Quota q).
Proof. unfold on_disk. by rewrite decide_True. Qed.

Lemma on_disk_other q n : path_DeviceName q <> n -> on_disk n q = 0.
Proof. intros. unfold on_disk. by rewrite decide_False. Qed.

Lemma allocated_nonneg n ds qs : books ds qs -> 0 <= allocated_on n qs.
Proof.
  intros Hb. apply map_sum_nonneg. intros v q Hv. apply (books_volume _ _ Hb) in Hv as ([] & _).
  unfold on_disk. case_decide; lia.
Qed.

Lemma allocated_insert n qs v q :
  qs !! v = None -> allocated_on n (<[v := q]> qs) = on_disk n q + allocated_on n qs.
Proof. apply map_sum_insert. Qed.

Lemma allocated_update n qs v q q' :
  qs !! v = Some q -> allocated_on n (<[v := q']> qs) = allocated_on n qs - on_disk n q + on_disk n q'.
Proof. intros. by apply map_sum_update. Qed.

Lemma allocated_delete n qs v q :
  qs !! v = Some q -> allocated_on n (delete v qs) = allocated_on n qs - on_disk n q.
Proof. intros Hv. unfold allocated_on. rewrite (map_sum_delete (on_disk n) qs v q Hv). lia. Qed.

(** What is left to prove when volumes and the accounts of one disk change
    together: the other disks keep their sums, the disk's new sum fits. *)
Lemma books_account ds qs qs' name d size :
  books ds qs -> ds !! name = Some d ->
  (forall v q, qs' !! v = Some q -> in_u64 (HardQuota (path_Quota q)) /\
     is_Some (ds !! path_DeviceName q) /\ path_VolumeId q = v) ->
  (forall n, n <> name -> allocated_on n qs' = allocated_on n qs) ->
  u64 size = allocated_on name qs' ->
  0 <= allocated_on name qs' <= disk_Capacity d ->
  books (<[name := disk_account (u64 size) d]> ds) qs'.
Proof.
  intros Hb Hd Hv Hother Hsize Hfit. destruct (books_disk _ _ Hb _ _ Hd) as [Hname Hcap].
  split.
  - intros n d'. rewrite lookup_insert_Some. intros [[<- <-] | [Hne Hn]]; [done |].
    by apply (books_disk _ _ Hb).
  - intros v q Hq. destruct (Hv v q Hq) as (? & Hs & ?). split_and!; [done | | done].
    destruct (decide (path_DeviceName q = name)) as [-> |];
      [rewrite lookup_insert_eq; eauto | by rewrite lookup_insert_ne].
  - intros n d'. rewrite lookup_insert_Some. intros [[<- <-] | [Hne Hn]]; [done |].
    rewrite Hother by done. by apply (books_sum _ _ Hb).
  - intros n d'. rewrite lookup_insert_Some. intros [[<- <-] | [Hne Hn]]; [simpl; lia |].
    rewrite Hother by done. by apply (books_fit _ _ Hb).
  - intros n d'. rewrite lookup_insert_Some. intros [[<- <-] | [Hne Hn]].
    + simpl. rewrite Hsize. apply u64_small. unfold in_u64 in *. lia.
    + rewrite Hother by done. by apply (books_rest _ _ Hb).
Qed.


Lemma books_place ds qs name d v q size :
  books ds qs -> ds !! name = Some d -> qs !! v = None ->
  path_DeviceName q = name -> path_VolumeId q = v -> HardQuota (path_Quota q) = size ->
  in_u64 size -> size <= disk_AllocatableSize d ->
  books (<[name := disk_account (u64 (disk_QuotaSize d + size)) d]> ds) (<[v := q]> qs).
Proof.
  intros Hb Hd Hv Hdev Hid Hq Hsize Hroom.
  destruct (books_disk _ _ Hb _ _ Hd) as [_ Hcap].
  pose proof (books_sum _ _ Hb _ _ Hd) as Hsum. pose proof (books_rest _ _ Hb _ _ Hd) as Hrest.
  pose proof (allocated_nonneg name ds qs Hb).
  assert (Hnew : allocated_on name (<[v := q]> qs) = size + allocated_on name qs).
  { rewrite allocated_insert by done. subst name. by rewrite on_disk_self, Hq. }
  unfold in_u64 in *. apply (books_account ds qs); try done.
  - intros v' q'. rewrite lookup_insert_Some. intros [[<- <-] | [? Hq']].
    + rewrite Hq, Hdev. eauto.
    + by apply (books_volume _ _ Hb).
  - intros n Hn. rewrite allocated_insert by done. rewrite on_disk_other by congruence. lia.
  - rewrite Hnew, u64_small; unfold in_u64; lia.
  - lia.
Qed.

Lemma books_resize ds qs name d v q q' size :
  books ds qs -> ds !! name = Some d -> qs !! v = Some q -> path_DeviceName q = name ->
  path_DeviceName q' = name -> path_VolumeId q' = v -> HardQuota (path_Quota q') = size ->
  in_u64 size -> HardQuota (path_Quota q) <= size ->
  size - HardQuota (path_Quota q) <= disk_AllocatableSize d ->
  books (<[name := disk_account (u64 (disk_QuotaSize d + size - HardQuota (path_Quota q))) d]> ds)
        (<[v := q']> qs).
Proof.
  intros Hb Hd Hv Hdev Hdev' Hid Hq Hsize Hgrow Hroom.
  destruct (books_disk _ _ Hb _ _ Hd) as [_ Hcap].
  pose proof (books_sum _ _ Hb _ _ Hd) as Hsum. pose proof (books_rest _ _ Hb _ _ Hd) as Hrest.
  pose proof (allocated_nonneg name ds qs Hb). destruct (books_volume _ _ Hb _ _ Hv) as (Hold & _ & _).
  assert (Hnew : allocated_on name (<[v := q']> qs) = allocated_on name qs - HardQuota (path_Quota q) + size).
  { rewrite (allocated_update name qs v q q' Hv), <- Hdev, on_disk_self, Hdev, <- Hdev', on_disk_self. lia. }
  unfold in_u64 in *. apply (books_account ds qs); try done.
  - intros v' q''. rewrite lookup_insert_Some. intros [[<- <-] | [? Hq']].
    + rewrite Hq, Hdev'. eauto.
    + by apply (books_volume _ _ Hb).
  - intros n Hn. rewrite (allocated_update n qs v q q' Hv), !on_disk_other by congruence. lia.
  - rewrite Hnew, u64_small; unfold in_u64; lia.
  - lia.
Qed.

Lemma books_release ds qs name d v q :
  books ds qs -> ds !! name = Some d -> qs !! v = Some q -> path_DeviceName q = name ->
  books (<[name := disk_account (u64 (disk_QuotaSize d - HardQuota (path_Quota q))) d]> ds) (delete v qs).
Proof.
  intros Hb Hd Hv Hdev.
  destruct (books_disk _ _ Hb _ _ Hd) as [_ Hcap].
  pose proof (books_sum _ _ Hb _ _ Hd) as Hsum. pose proof (books_fit _ _ Hb _ _ Hd) as Hfit.
  destruct (books_volume _ _ Hb _ _ Hv) as (Hold & _ & _).
  assert (Hnew : allocated_on name (delete v qs) = allocated_on name qs - HardQuota (path_Quota q)).
  { by rewrite (allocated_delete name qs v q Hv), <- Hdev, on_disk_self. }
  assert (Hpos : 0 <= allocated_on name (delete v qs)).
  { apply map_sum_nonneg. intros v' q' Hq'. apply lookup_delete_Some in Hq' as [_ Hq'].
    apply (books_volume _ _ Hb) in Hq' as ([] & _). unfold on_disk. case_decide; lia. }
  unfold in_u64 in *. apply (books_account ds qs); try done.
  - intros v' q'. rewrite lookup_delete_Some. intros [_ Hq']. by apply (books_volume _ _ Hb).
  - intros n Hn. rewrite (allocated_delete n qs v q Hv), on_disk_other by congruence. lia.
  - rewrite Hnew, u64_small; unfold in_u64; lia.
  - lia.
Qed.

(** Only what is used, the switch or the time of the last reading has changed. *)
Definition same_accounts (d d' : DiskQuotaInfo) : Prop :=
  disk_DeviceName d' = disk_DeviceName d /\ disk_Capacity d' = disk_Capacity d /\
  disk_QuotaSize d' = disk_QuotaSize d /\ disk_AllocatableSize d' = disk_AllocatableSize d.

Lemma books_same_disk ds qs n d d' :
  books ds qs -> ds !! n = Some d -> same_accounts d d' -> books (<[n := d']> ds) qs.
Proof.
  intros [H1 H2 H3 H4 H5] Hn (E1 & E2 & E3 & E4). split.
  - intros k dk. rewrite lookup_insert_Some. intros [[<- <-] | [? Hk]]; [| by apply H1].
    rewrite E1, E2. by apply H1.
  - intros v q Hv. destruct (H2 v q Hv) as (? & ? & ?). split_and!; [done | | done].
    destruct (decide (path_DeviceName q = n)) as [-> |];
      [rewrite lookup_insert_eq; eauto | by rewrite lookup_insert_ne].
  - intros k dk. rewrite lookup_insert_Some. intros [[<- <-] | [? Hk]]; [rewrite E3 |]; by apply H3.
  - intros k dk. rewrite lookup_insert_Some. intros [[<- <-] | [? Hk]]; [rewrite E2 |]; by apply H4.
  - intros k dk. rewrite lookup_insert_Some. intros [[<- <-] | [? Hk]]; [rewrite E4, E2 |]; by apply H5.
Qed.

Lemma books_same_volume ds qs v q used now :
  books ds qs -> qs !! v = Some q -> books ds (<[v := path_set_used used now q]> qs).
Proof.
  intros Hb Hv.
  assert (Hs : forall n, allocated_on n (<[v := path_set_used used now q]> qs) = allocated_on n qs).
  { intros n. rewrite (allocated_update n qs v q _ Hv). unfold on_disk. simpl. lia. }
  destruct Hb as [H1 H2 H3 H4 H5]. split; try done.
  - intros v' q'. rewrite lookup_insert_Some. intros [[<- <-] | [? Hq]]; [| by apply H2].
    simpl. by apply H2.
  - intros n d Hn. rewrite Hs. by apply H3.
  - intros n d Hn. rewrite Hs. by apply H4.
  - intros n d Hn. rewrite Hs. by apply H5.
Qed.

Section manager_proofs.
Context {P W : Type} `{LinuxVolumeQuotaProvider P W} `{OS W}.
Implicit Types s : XFSQuotaManager P * W.

(** A predicate of the manager's books only. *)
Definition booked (B : gmap string DiskQuotaInfo -> gmap string PathQuotaInfo -> Prop) s : Prop :=
  B (diskQuotaInfos s.1) (quotas s.1).

Lemma frames_on_os {A} B (c : M W A) : frames (booked B) (on_os c).
Proof. intros [m w] Hs. unfold on_os, zoom. simpl. by destruct (c w) as [[] ?]. Qed.

Lemma frames_on_provider {A} B (c : M (P * W) A) : frames (booked B) (on_provider c).
Proof. intros [m w] Hs. unfold on_provider, zoom. simpl. by destruct (c (quotaProvider m, w)) as [[] ?]. Qed.

Lemma frames_range_disks B : frames (booked B) (range_disks (P := P) (W := W)).
Proof.
  apply hoare_gets_bind. intros ds. eapply hoare_frames; [apply (frames_on_os B) | by intros s [] | done | done].
Qed.

Lemma frames_range_quotas B : frames (booked B) (range_quotas (P := P) (W := W)).
Proof.
  apply hoare_gets_bind. intros ds. eapply hoare_frames; [apply (frames_on_os B) | by intros s [] | done | done].
Qed.

(** Calls that leave the books alone, one after the other. *)
Lemma hoare_on_os {A C} B (c : M W A) (k : A -> M (XFSQuotaManager P * W) C) Q E :
  (forall a, hoare (booked B) (k a) Q E) -> (forall o s, booked B s -> E o s) ->
  hoare (booked B) (bind (on_os c) k) Q E.
Proof.
  intros Hk HE. eapply hoare_bind; [| exact Hk].
  eapply hoare_frames; [apply (frames_on_os B) | done | done | done].
Qed.

Lemma hoare_on_provider {A C} B (c : M (P * W) A) (k : A -> M (XFSQuotaManager P * W) C) Q E :
  (forall a, hoare (booked B) (k a) Q E) -> (forall o s, booked B s -> E o s) ->
  hoare (booked B) (bind (on_provider c) k) Q E.
Proof.
  intros Hk HE. eapply hoare_bind; [| exact Hk].
  eapply hoare_frames; [apply (frames_on_provider B) | done | done | done].
Qed.

(** A property of the books that does not look at what is used, nor at the switch. *)
Definition ignores_disk_usage (B : gmap string DiskQuotaInfo -> gmap string PathQuotaInfo -> Prop) : Prop :=
  forall ds qs n d d', B ds qs -> ds !! n = Some d -> same_accounts d d' -> B (<[n := d']> ds) qs.
Definition ignores_path_usage (B : gmap string DiskQuotaInfo -> gmap string PathQuotaInfo -> Prop) : Prop :=
  forall ds qs v q used now, B ds qs -> qs !! v = Some q -> B ds (<[v := path_set_used used now q]> qs).

Section frames_lists.
Context (B : gmap string DiskQuotaInfo -> gmap string PathQuotaInfo -> Prop).

(** What a round of the loop of a list does to an entry that was found: nothing, or
    the clock, the provider and the clock are asked and the entry is written. *)
Lemma frames_refresh {A} (B' : gmap string DiskQuotaInfo -> gmap string PathQuotaInfo -> Prop) (last : Z)
    (ask : M (P * W) Quota) (write : Quota -> Z -> M (XFSQuotaManager P * W) (list A)) (xs : list A) :
  (forall ds qs, B' ds qs -> B ds qs) ->
  (forall quota now, hoare (booked B') (write quota now) (fun _ => booked B) (fun _ => booked B)) ->
  hoare (booked B')
    (let! now := on_os (sys_value time_Now) in
     let! max := gets (fun s : XFSQuotaManager P * W => maxCacheTime s.1) in
     if now - last >? max
     then let! quota := on_provider ask in let! now := on_os (sys_value time_Now) in write quota now
     else ret xs)
    (fun _ => booked B) (fun _ => booked B).
Proof.
  intros HB Hw. assert (Hweak : forall (o : option error) s, booked B' s -> booked B s) by (intros o s; apply HB).
  apply hoare_on_os; [intros now | exact Hweak]. apply hoare_gets_bind. intros max.
  eapply hoare_weaken with (I := booked B'); [| by intros s [? _] | by intros ? ? Hs; exact Hs | by intros ? ? Hs; exact Hs].
  destruct (_ >? _); [| apply hoare_ret; intros s; apply HB].
  apply hoare_on_provider; [intros quota | exact Hweak]. by apply hoare_on_os; [intros now' | exact Hweak].
Qed.

Lemma frames_list_disk name : ignores_disk_usage B -> frames (booked B) (list_disk (P := P) (W := W) name).
Proof.
  intros HB. apply hoare_gets_bind. intros [d |]; [| apply hoare_ret; by intros s [? _]].
  eapply hoare_weaken with (I := booked (fun ds qs => B ds qs /\ ds !! name = Some d))
    (E := fun _ => booked B); [| by intros s [? ?] | by intros ? ? Hs; exact Hs | done].
  apply frames_refresh; [by intros ds qs [] |]. intros quota now.
  apply (hoare_bind _ _ _ (fun _ => booked B)); [| intros []; by apply hoare_ret].
  apply hoare_modify. intros s [Hb Hd]. by eapply HB.
Qed.

Lemma frames_list_path v : ignores_path_usage B -> frames (booked B) (list_path (P := P) (W := W) v).
Proof.
  intros HB. apply hoare_gets_bind. intros [q |]; [| apply hoare_ret; by intros s [? _]].
  eapply hoare_weaken with (I := booked (fun ds qs => B ds qs /\ qs !! v = Some q))
    (E := fun _ => booked B); [| by intros s [? ?] | by intros ? ? Hs; exact Hs | done].
  apply frames_refresh; [by intros ds qs [] |]. intros quota now.
  apply (hoare_bind _ _ _ (fun _ => booked B)); [| intros []; by apply hoare_ret].
  apply hoare_modify. intros s [Hb Hd]. by eapply HB.
Qed.

Lemma frames_ListQuotaDiskInfos :
  ignores_disk_usage B -> frames (booked B) (xfs_ListQuotaDiskInfos (P := P) (W := W)).
Proof.
  intros HB. eapply hoare_bind; [apply frames_range_disks |]. intros names.
  apply (hoare_bind _ _ _ (fun _ => booked B)); [| intros; by apply hoare_ret].
  apply hoare_collect. intros name. by apply frames_list_disk.
Qed.

Lemma frames_ListPathQuotaInfos :
  ignores_path_usage B -> frames (booked B) (xfs_ListPathQuotaInfos (P := P) (W := W)).
Proof.
  intros HB. eapply hoare_bind; [apply frames_range_quotas |]. intros ids.
  apply (hoare_bind _ _ _ (fun _ => booked B)); [| intros; by apply hoare_ret].
  apply hoare_collect. intros v. by apply frames_list_path.
Qed.

Lemma find_mountPoint_Some mp (ds : gmap string DiskQuotaInfo) names n d :
  find_mountPoint mp ds names = Some (n, d) -> ds !! n = Some d /\ disk_MountPoint d = mp.
Proof.
  induction names as [|name names IH]; simpl; [done |].
  destruct (ds !! name) as [d' |] eqn:E; [| done]. case_decide; [| done]. by intros [= <- <-].
Qed.

Lemma frames_SetDisabled mp b :
  ignores_disk_usage B -> frames (booked B) (xfs_SetQuotaDiskDisabledState (P := P) (W := W) mp b).
Proof.
  intros HB. eapply hoare_bind; [apply frames_range_disks |]. intros names.
  apply hoare_gets_bind. intros ds. destruct (find_mountPoint mp ds names) as [[n d] |] eqn:E;
    [| apply hoare_fail; by intros s []].
  apply find_mountPoint_Some in E as [Hd _].
  apply (hoare_bind _ _ _ (fun _ => booked (fun ds' qs => B ds' qs /\ ds' !! n = Some d))).
  - apply hoare_map_error. eapply hoare_frames;
      [apply (frames_on_os (fun ds' qs => B ds' qs /\ ds' !! n = Some d)) | | done | by intros o s []].
    intros s [Hs Hds]. split; [done |]. by rewrite Hds.
  - intros _. apply hoare_modify. intros s [Hb Hn]. by eapply HB.
Qed.
End frames_lists.

(** The manager's disks and volumes are these. *)
Definition books_are ds0 qs0 s : Prop := diskQuotaInfos s.1 = ds0 /\ quotas s.1 = qs0.

Lemma books_are_booked ds0 qs0 s :
  books_are ds0 qs0 s <-> booked (fun ds qs => ds = ds0 /\ qs = qs0) s.
Proof. done. Qed.

Lemma hoare_range_disks ds0 qs0 :
  hoare (books_are ds0 qs0) (range_disks (P := P) (W := W))
    (fun names s => books_are ds0 qs0 s /\ (OSLaws W -> names ≡ₚ elements (dom ds0)))
    (fun _ => books_are ds0 qs0).
Proof.
  intros [m w] [Hd Hq]. unfold range_disks, bind, gets, on_os, zoom, sys_value. simpl in *.
  destruct (range_order (dom (diskQuotaInfos m)) w) as [names w'] eqn:E. simpl.
  split; [done |]. intros HL. rewrite <- Hd.
  pose proof (range_order_perm (dom (diskQuotaInfos m)) w) as Hp. by rewrite E in Hp.
Qed.

(** A disk on which a volume of [size] may be placed. *)
Definition eligible (size : Z) (d : DiskQuotaInfo) : Prop :=
  disk_Disabled d = false /\ size <= disk_AllocatableSize d.

Lemma elem_of_available size ds (names : list string) it :
  it ∈ omap (available_disk size ds) names <->
  exists n d, n ∈ names /\ ds !! n = Some d /\ eligible size d /\
    it = mkSortItem (disk_DeviceName d) (disk_MountPoint d) (disk_AllocatableSize d).
Proof.
  rewrite list_elem_of_omap. unfold available_disk, eligible. split.
  - intros (n & Hn & Hit). destruct (ds !! n) as [d |] eqn:E; [| done].
    destruct (disk_Disabled d) eqn:Ed; [done |].
    destruct (Z.ltb_spec (disk_AllocatableSize d) size); [done |]. injection Hit as <-. by exists n, d.
  - intros (n & d & Hn & Hd & [Hdis Hsize] & ->). exists n. split; [done |].
    rewrite Hd, Hdis. destruct (Z.ltb_spec (disk_AllocatableSize d) size); [lia | done].
Qed.

(** The directory of a new volume on disk [d]. *)
Definition quota_dir (d : DiskQuotaInfo) (volId : string) : string :=
  GoStrings.Join [disk_MountPoint d; getQuotaPathName volId].

(** Where a new volume goes: to an eligible disk with the most room. *)
Definition placement (size : Z) (ds : gmap string DiskQuotaInfo) (volId dev path : string) : Prop :=
  exists n d, ds !! n = Some d /\ dev = disk_DeviceName d /\ eligible size d /\
    path = quota_dir d volId /\
    (OSLaws W -> forall n' d', ds !! n' = Some d' -> eligible size d' ->
       disk_AllocatableSize d' <= disk_AllocatableSize d).

Lemma available_head size ds (names : list string) it its :
  sort_by Less (omap (available_disk size ds) names) = it :: its ->
  it ∈ omap (available_disk size ds) names /\
  forall it', it' ∈ omap (available_disk size ds) names -> item_AvailableSize it' <= item_AvailableSize it.
Proof.
  intros E. pose proof (sort_by_perm Less (omap (available_disk size ds) names)) as Hp.
  pose proof (sort_by_head Less (omap (available_disk size ds) names)) as Hh. rewrite E in Hp, Hh.
  split; [rewrite <- Hp; left |]. intros it' Hin. rewrite <- Hp in Hin.
  apply elem_of_cons in Hin as [-> | Hin]; [lia |].
  assert (Hl : Less it' it = false).
  { apply Hh; unfold Less; intros; [| | done]; repeat match goal with
      | H : (_ >? _) = _ |- _ => revert H end; rewrite !Z.gtb_ltb;
      repeat match goal with |- context [?a <? ?b] => destruct (Z.ltb_spec a b) end; done || lia. }
  unfold Less in Hl. rewrite Z.gtb_ltb in Hl. by apply Z.ltb_ge in Hl.
Qed.

(** A call of the operating system that cannot panic. *)
Lemma hoare_on_os_safe {A} B (c : M W A) (R : A -> Prop) :
  safe c R ->
  hoare (booked B) (on_os c) (fun a s => booked B s /\ R a) (fun o s => booked B s /\ is_Some o).
Proof.
  intros Hc [m w] Hs. specialize (Hc w). unfold on_os, zoom. simpl.
  destruct (c w) as [[a | e | y] w']; simpl in *; [done | | done]. split; [done | eauto].
Qed.

Definition mkdir_error (path : string) (err : error) : error :=
  Errorf ("failed allocate quotaPath: " +:+ path +:+ " , err: " +:+ error_text err).

Lemma MkDir_safe dir : safe (S := W) (MkDir dir) (fun _ => True).
Proof.
  intros w. unfold MkDir, bind, gets. simpl. destruct (IsPathExist dir w); simpl; [done |].
  unfold attempt, sys_write. by destruct (os_MkdirAll dir 493 w) as [[e |] w'].
Qed.

(** Why no directory was made: no disk is eligible, or the disk chosen refused. *)
Definition alloc_error (size : Z) (ds : gmap string DiskQuotaInfo) (volId : string) (e : error) : Prop :=
  (e = no_disk_error size /\
   (OSLaws W -> forall n d, ds !! n = Some d -> ~ eligible size d)) \/
  (exists dev path cause, placement size ds volId dev path /\ e = mkdir_error path cause).

Lemma hoare_allocateNewQuotaDir ds0 qs0 volId size :
  hoare (books_are ds0 qs0) (allocateNewQuotaDir (P := P) (W := W) volId size)
    (fun r s => books_are ds0 qs0 s /\ placement size ds0 volId r.1 r.2)
    (fun o s => books_are ds0 qs0 s /\ exists e, o = Some e /\ alloc_error size ds0 volId e).
Proof.
  intros [m w] [Hd Hq]. simpl in *. unfold allocateNewQuotaDir.
  unfold bind at 1. pose proof (hoare_range_disks ds0 qs0 (m, w) (conj Hd Hq)) as Hr.
  unfold range_disks, bind, gets, on_os, zoom, sys_value in Hr |- *. simpl in Hr |- *.
  destruct (range_order (dom (diskQuotaInfos m)) w) as [names w1]. simpl in *.
  destruct Hr as [_ Hperm]. rewrite Hd.
  assert (Hall : OSLaws W -> forall n d, ds0 !! n = Some d -> eligible size d ->
    mkSortItem (disk_DeviceName d) (disk_MountPoint d) (disk_AllocatableSize d) ∈
      omap (available_disk size ds0) names).
  { intros HL n d Hn Hel. apply elem_of_available. exists n, d. split_and!; try done.
    rewrite (Hperm HL), elem_of_elements. by eapply elem_of_dom_2. }
  destruct (sort_by Less (omap (available_disk size ds0) names)) as [| it its] eqn:Es.
  - simpl. split; [done |]. eexists. split; [done |]. left. split; [done |].
    intros HL n d Hn Hel. specialize (Hall HL n d Hn Hel).
    rewrite <- (sort_by_perm Less), Es in Hall. by apply not_elem_of_nil in Hall.
  - apply available_head in Es as [Hin Hmax].
    apply elem_of_available in Hin as (n & d & _ & Hn & Hel & ->). simpl in *.
    assert (Hplace : placement size ds0 volId (disk_DeviceName d) (quota_dir d volId)).
    { exists n, d. split_and!; try done. intros HL n' d' Hn' Hel'. by apply (Hmax _ (Hall HL n' d' Hn' Hel')). }
    destruct (IsPathExist _ w1); simpl; [done |]. unfold map_error. simpl.
    pose proof (MkDir_safe (quota_dir d volId) w1) as Hs. fold (quota_dir d volId).
    destruct (MkDir (quota_dir d volId) w1) as [[[] | e | y] w2]; simpl in *; [done | | done].
    split; [done |]. eexists. split; [done |]. right. by eexists _, _, e.
Qed.

(** Reads of the books return what they are. *)
Lemma hoare_books_gets {A C} ds0 qs0 (f : XFSQuotaManager P * W -> A)
    (g : gmap string DiskQuotaInfo -> gmap string PathQuotaInfo -> A)
    (k : A -> M (XFSQuotaManager P * W) C) Q E :
  (forall s, f s = g (diskQuotaInfos s.1) (quotas s.1)) ->
  hoare (books_are ds0 qs0) (k (g ds0 qs0)) Q E -> hoare (books_are ds0 qs0) (bind (gets f) k) Q E.
Proof.
  intros Hf Hk s Hs. specialize (Hk s Hs). destruct Hs as [Hd Hq].
  unfold bind, gets. by rewrite Hf, Hd, Hq.
Qed.

(** The books once a new volume is entered. *)
Definition entered ds0 qs0 volId size dev d path now s : Prop :=
  books_are (<[dev := disk_account (u64 (disk_QuotaSize d + size)) d]> ds0)
            (<[volId := mkPathQuotaInfo path dev (mkQuota size size 0) now volId]> qs0) s.

Lemma hoare_GetVolumeQuotaPath ds0 qs0 volId capacity :
  qs0 !! volId = None ->
  hoare (books_are ds0 qs0) (xfs_GetVolumeQuotaPath (P := P) (W := W) volId capacity)
    (fun path s => exists dev d now, placement (u64 capacity) ds0 volId dev path /\
       ds0 !! dev = Some d /\ entered ds0 qs0 volId (u64 capacity) dev d path now s)
    (fun _ => books_are ds0 qs0).
Proof.
  intros Hv. apply (hoare_books_gets ds0 qs0 _ (fun _ qs => qs !! volId)); [done |]. rewrite Hv.
  eapply hoare_bind.
  { apply hoare_map_error. eapply hoare_weaken;
      [apply (hoare_allocateNewQuotaDir ds0 qs0) | done | intros r s Hs; exact Hs | by intros o s []]. }
  intros [dev path]. simpl.
  apply hoare_pure. intros Hplace.
  apply (hoare_books_gets ds0 qs0 _ (fun ds _ => ds !! dev)); [done |].
  destruct (ds0 !! dev) as [d |] eqn:Hd; [| by apply hoare_fail].
  apply (hoare_bind _ _ _ (fun _ => books_are ds0 qs0)).
  { apply hoare_attempt. eapply hoare_frames; [apply (frames_on_provider (fun ds qs => ds = ds0 /\ qs = qs0)) | done.. |].
    by intros [] s Hs. }
  intros [u | err].
  - apply (hoare_on_os (fun ds qs => ds = ds0 /\ qs = qs0)); [intros now | done].
    eapply hoare_modify_bind with (J := books_are ds0 _); [intros s [Hds Hqs]; split; simpl; [done | by rewrite Hqs] |].
    eapply hoare_modify_bind with (J := entered ds0 qs0 volId (u64 capacity) dev d path now);
      [intros s [Hds Hqs]; split; simpl; [by rewrite Hds | done] |].
    apply hoare_ret. intros s Hs. by exists dev, d, now.
  - apply (hoare_bind _ _ _ (fun _ => books_are ds0 qs0)); [| intros; by apply hoare_fail].
    apply hoare_attempt. eapply hoare_frames; [apply (frames_on_os (fun ds qs => ds = ds0 /\ qs = qs0)) | done.. |].
    by intros [] s Hs.
Qed.

(** The books after [ExpandVolume] of volume [q] on disk [d]. *)
Definition resized ds0 qs0 volId size (q : PathQuotaInfo) (d : DiskQuotaInfo) s : Prop :=
  books_are (<[path_DeviceName q :=
               disk_account (u64 (disk_QuotaSize d + size - HardQuota (path_Quota q))) d]> ds0)
            (<[volId := path_set_limits size q]> qs0) s.

Lemma hoare_ExpandVolume ds0 qs0 volId capacity :
  hoare (books_are ds0 qs0) (xfs_ExpandVolume (P := P) (W := W) volId capacity)
    (fun _ s => exists q d, qs0 !! volId = Some q /\ ds0 !! path_DeviceName q = Some d /\
       HardQuota (path_Quota q) <= u64 capacity /\
       u64 (u64 capacity - HardQuota (path_Quota q)) <= disk_AllocatableSize d /\
       resized ds0 qs0 volId (u64 capacity) q d s)
    (fun _ => books_are ds0 qs0).
Proof.
  apply (hoare_books_gets ds0 qs0 _ (fun _ qs => qs !! volId)); [done |].
  destruct (qs0 !! volId) as [q |] eqn:Hq; [| by apply hoare_fail].
  apply (hoare_books_gets ds0 qs0 _ (fun ds _ => ds !! path_DeviceName q)); [done |].
  destruct (ds0 !! path_DeviceName q) as [d |] eqn:Hd; [| by apply hoare_fail].
  cbv zeta. rewrite Z.gtb_ltb. destruct (Z.ltb_spec (u64 capacity) (HardQuota (path_Quota q)));
    [by apply hoare_fail |].
  destruct (Z.ltb_spec (disk_AllocatableSize d) (u64 (u64 capacity - HardQuota (path_Quota q))));
    [by apply hoare_fail |].
  apply (hoare_bind _ _ _ (fun _ => books_are ds0 qs0)).
  { apply hoare_map_error. apply (frames_on_provider (fun ds qs => ds = ds0 /\ qs = qs0)). }
  intros _.
  eapply hoare_modify_bind with (J := books_are _ qs0); [intros s [Hds Hqs]; split; simpl; [by rewrite Hds | done] |].
  apply hoare_modify. intros s [Hds Hqs]. exists q, d. split_and!; try done.
  split; simpl; [by rewrite Hds | by rewrite Hqs].
Qed.

(** The books after [ReleaseVolumePath] of volume [q] on disk [d]. *)
Definition released ds0 qs0 volId (q : PathQuotaInfo) (d : DiskQuotaInfo) s : Prop :=
  books_are (<[path_DeviceName q :=
               disk_account (u64 (disk_QuotaSize d - HardQuota (path_Quota q))) d]> ds0)
            (delete volId qs0) s.

Lemma hoare_ReleaseVolumePath ds0 qs0 volId :
  hoare (books_are ds0 qs0) (xfs_ReleaseVolumePath (P := P) (W := W) volId)
    (fun _ s => match qs0 !! volId with
                | None => books_are ds0 qs0 s
                | Some q => exists d, ds0 !! path_DeviceName q = Some d /\ released ds0 qs0 volId q d s
                end)
    (fun _ => books_are ds0 qs0).
Proof.
  apply (hoare_books_gets ds0 qs0 _ (fun _ qs => qs !! volId)); [done |].
  destruct (qs0 !! volId) as [q |] eqn:Hq; [| by apply hoare_ret].
  apply (hoare_books_gets ds0 qs0 _ (fun ds _ => ds !! path_DeviceName q)); [done |].
  destruct (ds0 !! path_DeviceName q) as [d |] eqn:Hd; [| by apply hoare_fail].
  apply (hoare_bind _ _ _ (fun _ => books_are ds0 qs0)).
  { apply (frames_on_provider (fun ds qs => ds = ds0 /\ qs = qs0)). }
  intros _.
  eapply hoare_modify_bind with (J := books_are ds0 _); [intros s [Hds Hqs]; split; simpl; [done | by rewrite Hqs] |].
  apply hoare_modify. intros s [Hds Hqs]. exists d. split; [done |]. split; simpl; [by rewrite Hds | done].
Qed.

(** From the books before a call to the invariant after it. *)
Lemma frames_from B {A} (m : M (XFSQuotaManager P * W) A) :
  (forall ds0 qs0, B ds0 qs0 -> hoare (books_are ds0 qs0) m (fun _ => booked B) (fun _ => booked B)) ->
  frames (booked B) m.
Proof. intros Hm s Hs. by apply (Hm _ _ Hs s). Qed.

Lemma books_are_in (B : gmap string DiskQuotaInfo -> gmap string PathQuotaInfo -> Prop) ds0 qs0 s :
  B ds0 qs0 -> books_are ds0 qs0 s -> booked B s.
Proof. intros Hb [Hd Hq]. unfold booked. by rewrite Hd, Hq. Qed.

Lemma frames_GetVolumeQuotaPath volId capacity :
  frames (booked books) (xfs_GetVolumeQuotaPath (P := P) (W := W) volId capacity).
Proof.
  apply frames_from. intros ds0 qs0 Hb. destruct (qs0 !! volId) as [q |] eqn:Hv.
  - apply (hoare_books_gets ds0 qs0 _ (fun _ qs => qs !! volId)); [done |]. rewrite Hv.
    apply hoare_ret. intros s. by apply books_are_in.
  - eapply hoare_weaken; [apply (hoare_GetVolumeQuotaPath ds0 qs0 volId capacity Hv) | done | |
      intros o s; by apply books_are_in].
    intros path s (dev & d & now & (n & d' & Hn & -> & [_ Hroom] & _) & Hd & Hs).
    assert (n = disk_DeviceName d') as -> by (symmetry; by apply (books_disk _ _ Hb)).
    rewrite Hn in Hd. injection Hd as ->.
    eapply books_are_in; [| exact Hs]. apply books_place; try done. apply u64_range.
Qed.

Lemma frames_ExpandVolume volId capacity :
  frames (booked books) (xfs_ExpandVolume (P := P) (W := W) volId capacity).
Proof.
  apply frames_from. intros ds0 qs0 Hb. eapply hoare_weaken;
    [apply (hoare_ExpandVolume ds0 qs0) | done | | intros o s; by apply books_are_in].
  intros _ s (q & d & Hq & Hd & Hle & Hroom & Hs).
  eapply books_are_in; [| exact Hs].
  destruct (books_volume _ _ Hb _ _ Hq) as (Hh & _ & Hid). pose proof (u64_range capacity).
  rewrite u64_small in Hroom by (unfold in_u64 in *; lia).
  by apply books_resize.
Qed.

Lemma frames_ReleaseVolumePath volId :
  frames (booked books) (xfs_ReleaseVolumePath (P := P) (W := W) volId).
Proof.
  apply frames_from. intros ds0 qs0 Hb. eapply hoare_weaken;
    [apply (hoare_ReleaseVolumePath ds0 qs0) | done | | intros o s; by apply books_are_in].
  intros u s. cbv beta. clear u. destruct (qs0 !! volId) as [q |] eqn:Hq; [| by apply books_are_in].
  intros (d & Hd & Hs). eapply books_are_in; [| exact Hs]. by apply books_release.
Qed.

(** C6: no method of the manager overbooks a disk, succeeding, failing or
    panicking: if the allocated size of every disk is the sum of the quotas of its
    volumes, fits in its capacity and leaves exactly the allocatable size, then it
    is so after the call, whatever the provider and the kernel do. *)
Theorem quota_books_balance s :
  booked books s ->
  booked books (xfs_ListQuotaDiskInfos s).2 /\
  booked books (xfs_ListPathQuotaInfos s).2 /\
  (forall mp b, booked books (xfs_SetQuotaDiskDisabledState mp b s).2) /\
  (forall volId capacity, booked books (xfs_GetVolumeQuotaPath volId capacity s).2) /\
  (forall volId capacity, booked books (xfs_ExpandVolume volId capacity s).2) /\
  (forall volId, booked books (xfs_ReleaseVolumePath volId s).2).
Proof.
  intros Hs. split_and!; intros; (eapply (proj2 (hoare_preserves _ _)); [| exact Hs]).
  - apply frames_ListQuotaDiskInfos. exact books_same_disk.
  - apply frames_ListPathQuotaInfos. exact books_same_volume.
  - apply frames_SetDisabled. exact books_same_disk.
  - apply frames_GetVolumeQuotaPath.
  - apply frames_ExpandVolume.
  - apply frames_ReleaseVolumePath.
Qed.

Lemma GetVolumeQuotaPath_known s volId capacity q :
  quotas s.1 !! volId = Some q ->
  xfs_GetVolumeQuotaPath volId capacity s = (Ok (path_Path q), s).
Proof. intros Hq. unfold xfs_GetVolumeQuotaPath, bind, gets. by rewrite Hq. Qed.

Lemma GetVolumeQuotaPath_enters s volId capacity path s1 :
  quotas s.1 !! volId = None -> xfs_GetVolumeQuotaPath volId capacity s = (Ok path, s1) ->
  exists dev d now, placement (u64 capacity) (diskQuotaInfos s.1) volId dev path /\
    diskQuotaInfos s.1 !! dev = Some d /\
    entered (diskQuotaInfos s.1) (quotas s.1) volId (u64 capacity) dev d path now s1.
Proof.
  intros Hv E.
  exact (hoare_run _ _ _ _ s _ s1 (hoare_GetVolumeQuotaPath _ _ volId capacity Hv) E (conj eq_refl eq_refl)).
Qed.

(** C16: a volume without a directory gets one on a disk that is not disabled,
    has room for it and has the most room of all such disks; its quota is entered,
    the other volumes stay as they are, and every later call for the volume
    returns the same directory and changes nothing, whatever size it asks for. *)
Theorem GetVolumeQuotaPath_places `{!OSLaws W} s volId capacity path s1 :
  (forall n d, diskQuotaInfos s.1 !! n = Some d -> disk_DeviceName d = n) ->
  quotas s.1 !! volId = None ->
  xfs_GetVolumeQuotaPath volId capacity s = (Ok path, s1) ->
  (exists d now, diskQuotaInfos s.1 !! disk_DeviceName d = Some d /\
     disk_Disabled d = false /\ u64 capacity <= disk_AllocatableSize d /\
     (forall n' d', diskQuotaInfos s.1 !! n' = Some d' -> disk_Disabled d' = false ->
        disk_AllocatableSize d' <= disk_AllocatableSize d \/ disk_AllocatableSize d' < u64 capacity) /\
     path = GoStrings.Join [disk_MountPoint d; getQuotaPathName volId] /\
     quotas s1.1 = <[volId := mkPathQuotaInfo path (disk_DeviceName d)
                                (mkQuota (u64 capacity) (u64 capacity) 0) now volId]> (quotas s.1)) /\
  (forall capacity', xfs_GetVolumeQuotaPath volId capacity' s1 = (Ok path, s1)).
Proof.
  intros Hkey Hv E. apply GetVolumeQuotaPath_enters in E; [| done].
  destruct E as (dev & d0 & now & (n & d & Hn & -> & [Hdis Hroom] & Hpath & Hmax) & _ & _ & Hqs).
  pose proof (Hkey n d Hn) as Hname. split.
  - exists d, now. rewrite Hname. split_and!; try done.
    + intros n' d' Hn' Hdis'. destruct (Z.lt_ge_cases (disk_AllocatableSize d') (u64 capacity)); [by right |].
      left. by apply (Hmax _ n' d').
    + by rewrite Hqs, Hname.
  - intros capacity'. erewrite GetVolumeQuotaPath_known; [| rewrite Hqs; apply lookup_insert_eq]. done.
Qed.

(** when the books balance, giving a new volume a directory and releasing it
    brings the books back to exactly what they were. *)
Theorem place_release_restores s volId capacity path s1 s2 :
  booked books s -> quotas s.1 !! volId = None ->
  xfs_GetVolumeQuotaPath volId capacity s = (Ok path, s1) ->
  xfs_ReleaseVolumePath volId s1 = (Ok tt, s2) ->
  diskQuotaInfos s2.1 = diskQuotaInfos s.1 /\ quotas s2.1 = quotas s.1.
Proof.
  intros Hb Hv Eget Erel. apply GetVolumeQuotaPath_enters in Eget; [| done].
  destruct Eget as (dev & d & now & _ & Hd & Hds & Hqs).
  pose proof (hoare_run _ _ _ _ s1 _ s2 (hoare_ReleaseVolumePath _ _ volId) Erel (conj Hds Hqs)) as Hr.
  cbv beta iota in Hr. rewrite lookup_insert_eq in Hr. destruct Hr as (d1 & Hd1 & Hds2 & Hqs2).
  simpl in *. rewrite lookup_insert_eq in Hd1. injection Hd1 as <-.
  rewrite Hds2, Hqs2, insert_insert_eq, delete_insert_id by done. split; [| done].
  apply insert_id. rewrite Hd. f_equal. unfold disk_account. simpl.
  destruct (books_disk _ _ Hb _ _ Hd) as [_ Hcap].
  pose proof (books_sum _ _ Hb _ _ Hd) as Hsum. pose proof (books_rest _ _ Hb _ _ Hd) as Hrest.
  pose proof (books_fit _ _ Hb _ _ Hd). pose proof (allocated_nonneg dev _ _ Hb).
  assert (Hsize : u64 (u64 (disk_QuotaSize d + u64 capacity) - u64 capacity) = disk_QuotaSize d).
  { unfold u64 at 1 2. rewrite Zminus_mod_idemp_l. replace (_ - _) with (disk_QuotaSize d) by lia.
    apply u64_small. unfold in_u64 in *. lia. }
  rewrite Hsize, u64_small by (unfold in_u64 in *; lia).
  destruct d; simpl in *. f_equal. lia.
Qed.

(** C29: [ExpandVolume] decides every case of balanced books.  An unknown volume, a smaller
    size and a disk without room for the difference are refused, each with its error and
    with nothing changed.  Otherwise the provider is called with the volume's directory and
    device and the new size; when it fails, its error is wrapped and the books stay as they
    were; when it succeeds, the new size is both limits of the volume in the books, and the
    difference - which no arithmetic of 64 bits wraps - moves from the room of its disk to
    the allocated size.  Shrinking is refused even when nothing is used. *)
Theorem ExpandVolume_spec s volId capacity :
  booked books s ->
  match quotas s.1 !! volId with
  | None => xfs_ExpandVolume volId capacity s = (Fail (Errorf ("volume " +:+ volId +:+ " not found in local cache")), s)
  | Some q =>
      let dev := path_DeviceName q in
      let old := HardQuota (path_Quota q) in
      let size := u64 capacity in
      exists d, diskQuotaInfos s.1 !! dev = Some d /\
      (size < old -> xfs_ExpandVolume volId capacity s =
         (Fail (Errorf ("reduce path: " +:+ path_Path q +:+ " quota from " +:+ pretty old +:+ " to " +:+ pretty size +:+ " is not support ")), s)) /\
      (old <= size -> disk_AllocatableSize d < size - old -> xfs_ExpandVolume volId capacity s =
         (Fail (Errorf ("disk " +:+ dev +:+ " has not enough quotaProvider to set")), s)) /\
      (old <= size -> size - old <= disk_AllocatableSize d -> exists rp p' w' r s',
         SetProjectQuota (path_Path q) dev size size (quotaProvider s.1, s.2) = (rp, (p', w')) /\
         xfs_ExpandVolume volId capacity s = (r, s') /\ quotaProvider s'.1 = p' /\ s'.2 = w' /\
         match rp with
         | Ok _ =>
             r = Ok tt /\ quotas s'.1 = <[volId := path_set_limits size q]> (quotas s.1) /\
             exists d', diskQuotaInfos s'.1 = <[dev := d']> (diskQuotaInfos s.1) /\
               d' = disk_account (disk_QuotaSize d + (size - old)) d /\
               disk_AllocatableSize d' = disk_AllocatableSize d - (size - old)
         | Fail e =>
             r = Fail (Errorf ("faild to setProjectQuota " +:+ pretty size +:+ " for path " +:+ path_Path q +:+ " err:" +:+ error_text e)) /\
             quotas s'.1 = quotas s.1 /\ diskQuotaInfos s'.1 = diskQuotaInfos s.1
         | Panic y => r = Panic y /\ quotas s'.1 = quotas s.1 /\ diskQuotaInfos s'.1 = diskQuotaInfos s.1
         end)
  end.
Proof.
  intros Hb. destruct (quotas s.1 !! volId) as [q|] eqn:Hq; [| unfold xfs_ExpandVolume, bind, gets; by rewrite Hq].
  destruct (books_volume _ _ Hb _ _ Hq) as (Hh & [d Hd] & _). cbv zeta. exists d. split; [done |].
  set (old := HardQuota (path_Quota q)) in *. pose proof (u64_range capacity) as Hsize. set (size := u64 capacity) in *.
  assert (Hstart : xfs_ExpandVolume volId capacity s = (if old >? size then fail _
    else if disk_AllocatableSize d <? u64 (size - old) then fail _ else _) s) by (unfold xfs_ExpandVolume, bind at 1 2, gets; by rewrite Hq, Hd).
  rewrite Hstart, Z.gtb_ltb. split; [| split].
  - intros Hlt. by rewrite (proj2 (Z.ltb_lt size old)).
  - intros Hle Hroom. rewrite (proj2 (Z.ltb_ge size old)), u64_small by (unfold in_u64 in *; lia).
    by rewrite (proj2 (Z.ltb_lt _ _)).
  - intros Hle Hroom. rewrite (proj2 (Z.ltb_ge size old)), u64_small by (unfold in_u64 in *; lia).
    rewrite (proj2 (Z.ltb_ge _ _)) by done. clear Hstart.
    destruct (SetProjectQuota (path_Path q) (path_DeviceName q) size size (quotaProvider s.1, s.2)) as [rp [p' w']] eqn:Ep.
    unfold bind at 1, map_error, on_provider, zoom. cbv beta. fold size old.
    rewrite Ep.
    pose proof (books_sum _ _ Hb _ _ Hd) as Hsum. pose proof (books_rest _ _ Hb _ _ Hd) as Hrest. pose proof (allocated_nonneg (path_DeviceName q) _ _ Hb).
    destruct (books_disk _ _ Hb _ _ Hd) as [_ Hcap].
    destruct rp as [[] | e | y]; eexists _, _, _, _, _; (split; [done |]); (split; [reflexivity |]); cbn; try by split_and!.
    split_and!; [done.. |]. eexists. split; [reflexivity |]. replace (disk_QuotaSize d + size - old) with (disk_QuotaSize d + (size - old)) by lia.
    rewrite u64_small by (unfold in_u64 in *; lia). split; [done |]. cbn. rewrite u64_small by (unfold in_u64 in *; lia). lia.
Qed.
End manager_proofs.

(** ** The manager over the XFS provider *)

Section expand_kernel.
Context {A W : Type} `{AllocatorLaws A} `{OS W}.
Implicit Types s : XFSQuotaManager (QuotaVolumeProvider A) * W.

Definition cached_path s (path : string) : Prop := is_Some (quotaPathAndId (quotaProvider s.1) !! path).

Lemma SetProjectQuota_caches (pr : QuotaVolumeProvider A) (w : W) p dev hard soft (s' : QuotaVolumeProvider A * W) :
  provider_inv pr -> xfs_SetProjectQuota p dev hard soft (pr, w) = (Ok tt, s') ->
  is_Some (quotaPathAndId s'.1 !! p).
Proof.
  intros Hi E. destruct (quotaPathAndId pr !! p) as [id |] eqn:Hp.
  - rewrite (SetProjectQuota_cached pr w p dev hard soft id Hp) in E. injection E as <-. by exists id.
  - apply SetProjectQuota_fresh in E; [| done..]. destruct E as (id & a & _ & _ & _ & _ & _ & _ & _ & ->).
    exists id. apply lookup_insert_eq.
Qed.

Lemma on_os_provider {B} (I : QuotaVolumeProvider A -> Prop) (c : M W B) :
  frames (fun s => I (quotaProvider s.1)) (on_os c).
Proof. intros [m w] Hs. unfold on_os, zoom. simpl. by destruct (c w) as [[] ?]. Qed.

Lemma allocateNewQuotaDir_provider (I : QuotaVolumeProvider A -> Prop) volId size :
  frames (fun s => I (quotaProvider s.1)) (allocateNewQuotaDir (W := W) volId size).
Proof.
  eapply hoare_bind.
  { apply hoare_gets_bind. intros ds. eapply hoare_frames; [apply (on_os_provider I) | by intros s [] | intros r s Hs; exact Hs | done]. }
  intros names. apply hoare_gets_bind. intros ds.
  destruct (sort_by _ _) as [| it its]; [apply hoare_fail; by intros s [] |].
  eapply hoare_bind.
  { eapply hoare_frames; [apply (on_os_provider I) | by intros s [] | intros r s Hs; exact Hs | done]. }
  intros exist. apply (hoare_bind _ _ _ (fun _ s => I (quotaProvider s.1))); [| intros; by apply hoare_ret].
  destruct exist; [by apply hoare_ret |]. apply hoare_map_error, on_os_provider.
Qed.

Lemma GetVolumeQuotaPath_caches volId capacity :
  hoare (fun s => provider_inv (quotaProvider s.1) /\ quotas s.1 !! volId = None)
    (xfs_GetVolumeQuotaPath (W := W) volId capacity)
    (fun path s => cached_path s path /\ exists q, quotas s.1 !! volId = Some q /\ path_Path q = path)
    (fun _ _ => True).
Proof.
  apply hoare_gets_bind. intros [q |]; [intros s [[_ Hv] Hk]; congruence |].
  eapply hoare_weaken with (I := fun s => provider_inv (quotaProvider s.1));
    [| by intros s [[] _] | by intros r s Hs; exact Hs | by intros o s Hs; exact Hs].
  eapply hoare_bind.
  { apply hoare_map_error. eapply hoare_frames;
      [apply (allocateNewQuotaDir_provider provider_inv) | done | intros r s Hs; exact Hs | done]. }
  intros [dev path]. apply hoare_gets_bind. intros [d |]; [| by apply hoare_fail].
  eapply hoare_bind with (R := fun r s => match r with inl _ => cached_path s path | inr _ => True end).
  { apply hoare_attempt. intros [m w] [Hi _]. unfold on_provider, zoom. simpl in *.
    destruct (xfs_SetProjectQuota path dev (u64 capacity) (u64 capacity) (quotaProvider m, w)) as [r t] eqn:E.
    destruct r as [[] | e | y]; [| done | done]. by apply SetProjectQuota_caches in E. }
  intros [u | err].
  - eapply hoare_bind.
    { eapply hoare_frames; [apply (on_os_provider (fun p => is_Some (quotaPathAndId p !! path))) | done |
        intros r s Hs; exact Hs | done]. }
    intros now.
    eapply hoare_modify_bind with (J := fun s => cached_path s path /\
      exists q, quotas s.1 !! volId = Some q /\ path_Path q = path).
    { intros s Hs. split; [done |]. simpl. rewrite lookup_insert_eq. by eexists. }
    eapply hoare_modify_bind with (J := fun s => cached_path s path /\
      exists q, quotas s.1 !! volId = Some q /\ path_Path q = path); [by intros s Hs |].
    by apply hoare_ret.
  - apply (hoare_bind _ _ _ (fun _ _ => True)); [| intros; by apply hoare_fail].
    intros s Hs. by destruct (attempt _ s) as [[] ?].
Qed.

(** over the XFS provider, expanding a volume never reaches the kernel: after
    a successful [ExpandVolume] of a volume that [GetVolumeQuotaPath] placed, the
    manager reports the new size while the provider and the whole world outside,
    the kernel's limits included, are as before. *)
Theorem ExpandVolume_leaves_kernel s volId capacity path s1 capacity' s2 :
  provider_inv (quotaProvider s.1) -> quotas s.1 !! volId = None ->
  xfs_GetVolumeQuotaPath volId capacity s = (Ok path, s1) ->
  xfs_ExpandVolume volId capacity' s1 = (Ok tt, s2) ->
  s2.2 = s1.2 /\ quotaProvider s2.1 = quotaProvider s1.1 /\
  exists q, quotas s2.1 !! volId = Some q /\ HardQuota (path_Quota q) = u64 capacity'.
Proof.
  intros Hi Hv Eget Eexp.
  destruct (hoare_run _ _ _ _ s _ s1 (GetVolumeQuotaPath_caches volId capacity) Eget (conj Hi Hv))
    as ([id Hid] & q & Hq & Hpath).
  unfold xfs_ExpandVolume, bind at 1, gets in Eexp. simpl in Eexp. rewrite Hq in Eexp.
  unfold bind at 1 in Eexp. destruct (diskQuotaInfos s1.1 !! path_DeviceName q) as [d |]; [| done].
  cbv zeta in Eexp. destruct (_ >? _); [done |]. destruct (_ <? _); [done |].
  unfold bind, map_error, on_provider, zoom, with_disks, with_quotas, modify in Eexp.
  simpl in Eexp. rewrite (SetProjectQuota_cached _ _ _ _ _ _ id) in Eexp by (by rewrite Hpath).
  injection Eexp as <-. simpl. split_and!; [done | by destruct s1 as [[] ?] |].
  eexists. by rewrite lookup_insert_eq.
Qed.
End expand_kernel.

(** ** Restarts *)

Section restart.
Context {P W : Type} `{LinuxVolumeQuotaProvider P W} `{OS W}.

(** Every disk has its whole capacity to give away. *)
Definition all_free (ds : gmap string DiskQuotaInfo) (qs : gmap string PathQuotaInfo) : Prop :=
  forall n d, ds !! n = Some d -> disk_AllocatableSize d = disk_Capacity d.

Lemma all_free_alter ds qs f n :
  (forall d, disk_AllocatableSize (f d) = disk_AllocatableSize d /\ disk_Capacity (f d) = disk_Capacity d) ->
  all_free ds qs -> all_free (alter f n ds) qs.
Proof.
  intros Hf Ha k d. destruct (decide (k = n)) as [-> |].
  - rewrite lookup_alter_eq. intros (d' & Hd & ->)%fmap_Some. destruct (Hf d') as [-> ->]. by apply (Ha n).
  - rewrite lookup_alter_ne by done. apply Ha.
Qed.

Lemma hoare_for_each {S A} (I : S -> Prop) (xs : list A) (f : A -> M S unit) :
  (forall x, frames I (f x)) -> frames I (for_each xs f).
Proof.
  intros Hf. apply hoare_preserves, preserves_for_each. intros x _. by apply hoare_preserves.
Qed.

Lemma frames_restore_disk mp : frames (booked all_free) (restore_disk (P := P) (W := W) mp).
Proof.
  apply (hoare_bind _ _ _ (fun _ => booked all_free)).
  { apply hoare_attempt. eapply hoare_frames; [apply (frames_on_os all_free) | done | done |
      by intros [] s Hs]. }
  intros [[] |]; [| by apply hoare_ret..]. simpl.
  apply (hoare_on_os all_free); [intros dev | done].
  apply (hoare_on_provider all_free); [intros b | done].
  apply (hoare_on_provider all_free); [intros quota | done].
  apply (hoare_on_os all_free); [intros disabled | done].
  apply hoare_modify. intros s Hs n d. simpl. rewrite lookup_insert_Some.
  intros [[<- <-] | [_ Hn]]; [done | by apply (Hs n)].
Qed.

Lemma frames_restore_path dev p : frames (booked all_free) (restore_path (P := P) (W := W) dev p).
Proof.
  eapply hoare_bind with (R := fun _ => booked all_free).
  { apply hoare_lift. intros s Hs. by destruct (parseQuotaPathInfoFromDirName p). }
  intros volID. apply (hoare_on_provider all_free); [intros quota | done].
  eapply hoare_modify_bind with (J := booked all_free); [intros s Hs; by apply all_free_alter |].
  apply (hoare_on_os all_free); [intros now | done]. apply hoare_modify. by intros s Hs.
Qed.

Lemma frames_restore_paths dev : frames (booked all_free) (restore_paths (P := P) (W := W) dev).
Proof.
  apply hoare_gets_bind. intros [d |]; [| apply hoare_ret; by intros s []].
  eapply hoare_weaken with (I := booked all_free); [| by intros s [] | by intros r s Hs; exact Hs |
    by intros o s Hs; exact Hs].
  apply (hoare_on_os all_free); [intros dirs | done].
  apply (hoare_bind _ _ _ (fun _ => booked all_free)); [apply hoare_for_each, frames_restore_path |].
  intros _. apply (hoare_on_os all_free); [intros now | done].
  apply hoare_modify. intros s Hs. by apply all_free_alter.
Qed.

(** a restart forgets what the volumes it finds are allowed to use: after
    [restoreQuotaInfo], however many quotas it read, the allocatable size of every
    disk is its full capacity, so the next volumes may be promised space that is
    promised already. *)
Theorem restart_forgets_allocations (s s' : XFSQuotaManager P * W) n d :
  diskQuotaInfos s.1 = ∅ -> restoreQuotaInfo s = (Ok tt, s') ->
  diskQuotaInfos s'.1 !! n = Some d -> disk_AllocatableSize d = disk_Capacity d.
Proof.
  intros Hempty E. assert (Hf : frames (booked all_free) (restoreQuotaInfo (P := P) (W := W))).
  { apply hoare_gets_bind. intros root.
    eapply hoare_weaken with (I := booked all_free); [| by intros t [] | by intros r t Ht; exact Ht |
      by intros o t Ht; exact Ht].
    apply (hoare_on_os all_free); [intros dirs | done].
    apply (hoare_bind _ _ _ (fun _ => booked all_free)); [apply hoare_for_each, frames_restore_disk |].
    intros _. apply (hoare_bind _ _ _ (fun _ => booked all_free)); [apply frames_range_disks |].
    intros names. apply hoare_for_each, frames_restore_paths. }
  assert (Hs : booked all_free s) by (intros k dk; by rewrite Hempty, lookup_empty).
  apply (hoare_run _ _ _ _ s (Ok tt) s' Hf E Hs).
Qed.
End restart.

(** ** The names of quota directories *)

Lemma prefix_before_slash sub m r :
  no_char slash sub -> String.prefix sub (m +:+ String slash r) = true -> String.prefix sub m = true.
Proof.
  revert m. induction sub as [|c sub IH]; intros m; [by destruct m |]. intros [Hc Hsub].
  destruct m as [|d m].
  - change ("" +:+ String slash r) with (String slash r). simpl. by destruct (ascii_dec c slash).
  - rewrite append_cons. simpl. destruct (ascii_dec c d); [| done]. by apply IH.
Qed.

Lemma index_after_slash sub m r :
  no_char slash sub -> sub <> "" -> String.index 0 sub m = None -> String.prefix sub r = true ->
  String.index 0 sub (m +:+ "/" +:+ r) = Some (String.length m + 1)%nat.
Proof.
  intros Hsub Hne Hm Hr.
  assert (Hhead : String.index 0 sub r = Some 0%nat).
  { destruct r; [by destruct sub |]. cbn [String.index]. by rewrite Hr. }
  induction m as [|c m IH].
  - change ("" +:+ "/" +:+ r) with (String slash r). cbn [String.index].
    rewrite Hhead. destruct sub as [|d sub]; [done |]. simpl. destruct Hsub as [Hd _].
    by destruct (ascii_dec d slash).
  - cbn [String.index] in Hm. destruct (String.prefix sub (String c m)) eqn:Ep; [done |].
    destruct (String.index 0 sub m); [done |].
    rewrite append_cons. cbn [String.index]. rewrite IH by done.
    destruct (String.prefix sub (String c (m +:+ "/" +:+ r))) eqn:Ep'; [| done].
    change (String c (m +:+ "/" +:+ r)) with (String c m +:+ String slash r) in Ep'.
    apply prefix_before_slash in Ep'; [| done]. congruence.
Qed.

Lemma no_char_app c s t : no_char c (s +:+ t) <-> no_char c s /\ no_char c t.
Proof.
  induction s as [|d s IH]; [change ("" +:+ t) with t; simpl; tauto |].
  rewrite append_cons. simpl. rewrite IH. tauto.
Qed.

Lemma quota_name_normal volId : no_char slash volId -> normal_elem (getQuotaPathName volId).
Proof.
  intros Hv. unfold normal_elem, getQuotaPathName. split_and!; try done.
Qed.

Lemma prefix_app s t : String.prefix s (s +:+ t) = true.
Proof.
  induction s as [|c s IH]; [by destruct t |]. rewrite append_cons. simpl.
  by destruct (ascii_dec c c).
Qed.

(** the directory made for a volume tells the volume's id: for a mount point
    that is an absolute path in normal form without "k8squota" in it, and an id
    without a slash, parsing the directory's path gives the id back. *)
Theorem parse_quota_path es volId :
  es <> [] -> Forall normal_elem es -> no_char slash volId ->
  Index (abs_path es) XfsQuotaDirPrefix = -1 ->
  parseQuotaPathInfoFromDirName (GoStrings.Join [abs_path es; getQuotaPathName volId]) = Ok volId.
Proof.
  intros Hne Hes Hv Hidx. pose proof (quota_name_normal volId Hv) as Hname.
  rewrite Join_abs_path by done. unfold parseQuotaPathInfoFromDirName.
  rewrite Clean_abs_path by (apply Forall_app; split; [done | by constructor]).
  set (mount := abs_path es).
  assert (Hpath : abs_path (es ++ [getQuotaPathName volId]) = mount +:+ "/" +:+ getQuotaPathName volId).
  { unfold mount, abs_path. rewrite join_snoc by done. by rewrite !app_assoc_string. }
  rewrite Hpath. unfold Index in *.
  rewrite index_after_slash; [| vm_compute; naive_solver | done | by destruct (String.index _ _ _); [lia |] |
    apply prefix_app].
  destruct (Z.leb_spec (Z.of_nat (String.length mount + 1)) 0); [lia |].
  replace (mount +:+ "/" +:+ getQuotaPathName volId) with
    ((mount +:+ "/" +:+ "k8squota_") +:+ volId +:+ "") by
    (by rewrite app_empty_r, !app_assoc_string).
  apply go_slice_app.
  - rewrite !go_len_app. change (go_len "/") with 1. change (go_len "k8squota_") with 9. unfold go_len. lia.
  - rewrite !go_len_app. change (go_len "/") with 1. change (go_len "k8squota_") with 9.
    change (go_len "") with 0. unfold go_len. lia.
Qed.

Lemma prefix_length sub t : String.prefix sub t = true -> (String.length sub <= String.length t)%nat.
Proof.
  revert t. induction sub as [|d sub IH]; intros t; cbn [String.length]; [lia |].
  destruct t as [|e t]; cbn [String.prefix String.length]; [discriminate |].
  destruct (ascii_dec d e); [| discriminate]. intros Ht%IH. lia.
Qed.

Lemma index_bound sub s n : String.index 0 sub s = Some n -> (n + String.length sub <= String.length s)%nat.
Proof.
  revert n. induction s as [|c s IH]; intros n; cbn [String.index].
  - destruct sub; [| discriminate]. intros [= <-]. simpl. lia.
  - destruct (String.prefix sub (String c s)) eqn:Ep.
    + intros [= <-]. by apply prefix_length in Ep.
    + destruct (String.index 0 sub s) as [m |]; [| discriminate]. intros [= <-].
      specialize (IH m eq_refl). simpl. lia.
Qed.

(** parsing never reports an error: a path without the prefix (past its first
    byte) counts as the directory of the volume with the empty id, so the caller's
    "skip" is dead code; and a path that ends right after the prefix, such as
    /pool/d1/k8squota, panics. *)
Theorem parse_never_fails p :
  let q := Clean p in
  (Index q XfsQuotaDirPrefix <= 0 -> parseQuotaPathInfoFromDirName p = Ok "") /\
  (0 < Index q XfsQuotaDirPrefix -> go_len q = Index q XfsQuotaDirPrefix + 8 ->
     parseQuotaPathInfoFromDirName p = Panic "slice bounds out of range") /\
  (0 < Index q XfsQuotaDirPrefix -> go_len q <> Index q XfsQuotaDirPrefix + 8 ->
     exists volId, parseQuotaPathInfoFromDirName p = Ok volId).
Proof.
  intros q. unfold parseQuotaPathInfoFromDirName. fold q.
  assert (Hb : 0 < Index q XfsQuotaDirPrefix -> Index q XfsQuotaDirPrefix + 8 <= go_len q).
  { unfold Index. destruct (String.index 0 XfsQuotaDirPrefix q) as [n |] eqn:E; [| lia].
    apply index_bound in E. change (String.length XfsQuotaDirPrefix) with 8%nat in E. unfold go_len. lia. }
  destruct (Z.leb_spec (Index q XfsQuotaDirPrefix) 0); split_and!; intros; try lia; try done.
  - unfold go_slice. rewrite decide_False by lia. done.
  - rewrite go_slice_in by lia. eauto.
Qed.

(** ** Runs *)

(** /pool with one empty XFS disk of 1000 blocks of 4096 bytes. *)
Definition sim_empty : sim :=
  mkSim ["/dev/vdb"; "/pool"; "/pool/d1"] ∅ ∅ [("/pool/d1", "/dev/vdb")]
    ["36 35 0:1 / /pool/d1 rw - xfs /dev/vdb rw"]
    {[ "/pool/d1" := mkStatfs LinuxXfsMagic 1000 1000 4096 ]} ∅ 0 [].

Abbreviation manager := (XFSQuotaManager (QuotaVolumeProvider (ProjectIDAllocator Z))).

(** A start on the world: the manager, and the world after it. *)
Definition no_manager : manager := mkXFSQuotaManager "" ∅ ∅ 0 new_provider.
Definition start (w : sim) : manager * sim :=
  match NewXfsQuotaManager 7 "/pool" w with
  | (Ok (inl m), w') => (m, w')
  | (_, w') => (no_manager, w')
  end.

Definition started : manager * sim := start sim_empty.
Definition placed : manager * sim := (xfs_GetVolumeQuotaPath "v1" 3000000 started).2.
Definition restarted : manager * sim := start placed.2.
Definition overbooked : manager * sim := (xfs_GetVolumeQuotaPath "v2" 4000000 restarted).2.

Lemma books_one_disk n d :
  disk_DeviceName d = n -> in_u64 (disk_Capacity d) -> disk_QuotaSize d = 0 ->
  disk_AllocatableSize d = disk_Capacity d -> books {[ n := d ]} ∅.
Proof.
  intros Hname Hcap Hsize Hrest.
  assert (H0 : forall k, allocated_on k ∅ = 0) by (intros k; apply map_sum_empty).
  split.
  - intros k d' [<- <-]%lookup_singleton_Some. done.
  - intros v q Hv. by rewrite lookup_empty in Hv.
  - intros k d' [<- <-]%lookup_singleton_Some. by rewrite H0.
  - intros k d' [<- <-]%lookup_singleton_Some. rewrite H0. by destruct Hcap.
  - intros k d' [<- <-]%lookup_singleton_Some. rewrite H0. lia.
Qed.

Lemma started_books : booked books started.
Proof.
  assert (E : diskQuotaInfos started.1 =
      {[ "/dev/vdb" := mkDiskQuotaInfo "/dev/vdb" "/pool/d1" 4096000 0 0 4096000 false 0 ]} /\
    quotas started.1 = ∅) by (vm_compute; split; reflexivity).
  destruct E as [Hd Hq]. unfold booked. rewrite Hd, Hq. apply books_one_disk; try reflexivity.
  split; [discriminate | reflexivity].
Qed.

Lemma placed_books : booked books placed.
Proof. apply (hoare_preserves _ _), started_books. apply frames_GetVolumeQuotaPath. Qed.

Lemma quota_books_balance_witness : booked books placed.
Proof.
  destruct (quota_books_balance started started_books) as (_ & _ & _ & Hget & _). unfold placed. apply Hget.
Defined.

Lemma placed_eq : xfs_GetVolumeQuotaPath "v1" 3000000 started = (Ok "/pool/d1/k8squota_v1", placed).
Proof. vm_compute; reflexivity. Qed.

Lemma started_empty : quotas started.1 !! "v1" = None.
Proof. vm_compute; reflexivity. Qed.

Lemma GetVolumeQuotaPath_places_witness :
  xfs_GetVolumeQuotaPath "v1" 1 placed = (Ok "/pool/d1/k8squota_v1", placed).
Proof.
  refine (proj2 (GetVolumeQuotaPath_places started "v1" 3000000 "/pool/d1/k8squota_v1" placed
    _ started_empty placed_eq) 1).
  intros n d Hn. exact (proj1 (books_disk _ _ started_books n d Hn)).
Defined.

Definition after_release : manager * sim := (xfs_ReleaseVolumePath "v1" placed).2.

Lemma after_release_eq : xfs_ReleaseVolumePath "v1" placed = (Ok tt, after_release).
Proof. vm_compute; reflexivity. Qed.

Lemma place_release_restores_witness : quotas after_release.1 = quotas started.1.
Proof.
  exact (proj2 (place_release_restores started "v1" 3000000 "/pool/d1/k8squota_v1" placed after_release
    started_books started_empty placed_eq after_release_eq)).
Defined.

Definition expanded : manager * sim := (xfs_ExpandVolume "v1" 4000000 placed).2.

Lemma expanded_eq : xfs_ExpandVolume "v1" 4000000 placed = (Ok tt, expanded).
Proof. vm_compute; reflexivity. Qed.

Lemma placed_v1 : quotas placed.1 !! "v1" = Some (mkPathQuotaInfo "/pool/d1/k8squota_v1" "/dev/vdb" (mkQuota 3000000 3000000 0) 1 "v1").
Proof. vm_compute; reflexivity. Qed.

(** From 3000000 bytes on a disk of 4096000: 2999999 and 4096001 are refused, 4000000 is not. *)
Lemma ExpandVolume_spec_witness :
  (exists e, xfs_ExpandVolume "v1" 2999999 placed = (Fail e, placed)) /\
  xfs_ExpandVolume "v1" 4096001 placed = (Fail (Errorf "disk /dev/vdb has not enough quotaProvider to set"), placed) /\
  HardQuota <$> (path_Quota <$> quotas expanded.1 !! "v1") = Some 4000000.
Proof.
  split; [| split].
  - pose proof (ExpandVolume_spec placed "v1" 2999999 placed_books) as Hs. rewrite placed_v1 in Hs.
    destruct Hs as (d & _ & Hless & _). eexists. apply Hless. vm_compute; reflexivity.
  - pose proof (ExpandVolume_spec placed "v1" 4096001 placed_books) as Hs. rewrite placed_v1 in Hs.
    destruct Hs as (d & Hd & _ & Hroom & _). vm_compute in Hd. injection Hd as <-.
    apply Hroom; [discriminate | vm_compute; reflexivity].
  - pose proof (ExpandVolume_spec placed "v1" 4000000 placed_books) as Hs. rewrite placed_v1 in Hs.
    destruct Hs as (d & Hd & _ & _ & Hfit). vm_compute in Hd. injection Hd as <-.
    destruct Hfit as (rp & p' & w' & r & s' & _ & E & _ & _ & Hr); [discriminate | discriminate |].
    rewrite expanded_eq in E. apply pair_eq in E as [<- <-]. destruct rp as [[] | e | y]; [| by destruct Hr as [[=] _] ..].
    destruct Hr as (_ & -> & _). by rewrite lookup_insert_eq.
Defined.

(** The kernel goes on enforcing 3000000 bytes (5859 blocks) for the volume that
    was expanded to 4000000. *)
Lemma ExpandVolume_leaves_kernel_witness :
  quotactl_getquota "/dev/vdb" 1000007 expanded.2 = inl (mkDiskQuota 5859 5859 0).
Proof.
  assert (Hi : provider_inv (quotaProvider started.1)).
  { assert (E : quotaProvider started.1 = new_provider) by (vm_compute; reflexivity).
    rewrite E. exact new_provider_inv. }
  rewrite (proj1 (ExpandVolume_leaves_kernel started "v1" 3000000 "/pool/d1/k8squota_v1" placed 4000000 expanded
    Hi started_empty placed_eq expanded_eq)).
  vm_compute; reflexivity.
Defined.

(** The run ends with 7000000 bytes promised on a disk of 4096000. *)
Lemma restart_forgets_allocations_witness :
  disk_AllocatableSize (default (mkDiskQuotaInfo "" "" 0 0 0 0 false 0)
    (diskQuotaInfos restarted.1 !! "/dev/vdb")) = 4096000 /\
  (xfs_GetVolumeQuotaPath "v2" 4000000 restarted).1 = Ok "/pool/d1/k8squota_v2" /\
  map_sum (on_disk "/dev/vdb") (quotas overbooked.1) = 6999808.
Proof.
  split; [| split; vm_compute; reflexivity].
  refine (restart_forgets_allocations (mkXFSQuotaManager "/pool" ∅ ∅ (60 * 10 ^ 9) new_provider, placed.2)
    restarted "/dev/vdb" _ eq_refl _ _).
  - vm_compute; reflexivity.
  - vm_compute; reflexivity.
Defined.

Lemma parse_quota_path_witness :
  parseQuotaPathInfoFromDirName "/pool/d1/k8squota_0001-vol" = Ok "0001-vol".
Proof.
  exact (parse_quota_path ["pool"; "d1"] "0001-vol" ltac:(discriminate)
    ltac:(repeat constructor; vm_compute; naive_solver) ltac:(vm_compute; naive_solver) eq_refl).
Defined.

Lemma parse_never_fails_witness :
  parseQuotaPathInfoFromDirName "/pool/d1/lost+found" = Ok "" /\
  parseQuotaPathInfoFromDirName "/pool/d1/k8squota" = Panic "slice bounds out of range".
Proof.
  split.
  - exact (proj1 (parse_never_fails "/pool/d1/lost+found") ltac:(vm_compute; discriminate)).
  - exact (proj1 (proj2 (parse_never_fails "/pool/d1/k8squota")) ltac:(vm_compute; reflexivity)
      ltac:(vm_compute; reflexivity)).
Defined.
