(* ===== verification/HeldVolumes.v ===== *)
(** * What the quota manager promises its clients

    The node server and the sync worker rely on little of the quota manager: it
    holds a directory for a set of volumes, a placement adds one volume to it, a
    release removes one, and nothing else changes it.  [QuotaManagerLaws] says so of
    any manager; the manager over XFS satisfies it.  The last part types that manager:
    what holds of it from any start and after any calls. *)

From S2P Require Import Prelude GoStrings Os SimOs Util Allocator QuotaProvider QuotaManager.
Open Scope Z_scope.
Open Scope go_scope.

(** The set of volumes a manager holds; [ids_ok] is its own consistency. *)
Class QuotaManagerLaws (Q W : Type) `{QuotaManagerInterface Q W} := {
  held : Q -> gset string;
  ids_ok : Q -> Prop;
  place_law v capacity q w r q' w' :
    ids_ok q -> GetVolumeQuotaPath v capacity (q, w) = (r, (q', w')) ->
    ids_ok q' /\ held q' = match r with Ok _ => {[ v ]} ∪ held q | _ => held q end;
  release_law v q w r q' w' :
    ids_ok q -> ReleaseVolumePath v (q, w) = (r, (q', w')) ->
    ids_ok q' /\ held q' = match r with Ok _ => held q ∖ {[ v ]} | _ => held q end;
  expand_law v capacity q w r q' w' :
    ids_ok q -> ExpandVolume v capacity (q, w) = (r, (q', w')) -> ids_ok q' /\ held q' = held q;
  list_law q w r q' w' :
    ids_ok q -> ListPathQuotaInfos (q, w) = (r, (q', w')) ->
    ids_ok q' /\ held q' = held q /\ forall infos info, r = Ok infos -> info ∈ infos -> path_VolumeId info ∈ held q;
  disks_law q w r q' w' :
    ids_ok q -> ListQuotaDiskInfos (q, w) = (r, (q', w')) -> ids_ok q' /\ held q' = held q;
  disable_law mountPoint disabled q w r q' w' :
    ids_ok q -> SetQuotaDiskDisabledState mountPoint disabled (q, w) = (r, (q', w')) -> ids_ok q' /\ held q' = held q
}.

(** ** The manager over XFS *)

Section xfs.
Context {P W : Type} `{LinuxVolumeQuotaProvider P W} `{OS W}.
Implicit Types q : XFSQuotaManager P.

(** Every entry is filed under its own id. *)
Definition keyed (qs : gmap string PathQuotaInfo) : Prop := map_Forall (fun v info => path_VolumeId info = v) qs.
Definition xfs_held q : gset string := dom (quotas q).
Definition xfs_ids_ok q : Prop := keyed (quotas q).

Lemma xfs_place_law v capacity q w r q' w' :
  xfs_ids_ok q -> xfs_GetVolumeQuotaPath v capacity (q, w) = (r, (q', w')) ->
  xfs_ids_ok q' /\ xfs_held q' = match r with Ok _ => {[ v ]} ∪ xfs_held q | _ => xfs_held q end.
Proof.
  intros Hok E. unfold xfs_held, xfs_ids_ok in *. destruct (quotas q !! v) as [info|] eqn:Hv.
  - unfold xfs_GetVolumeQuotaPath, bind, gets, ret in E. simpl in E. rewrite Hv in E. injection E as <- <- _.
    split; [done |]. apply elem_of_dom_2 in Hv. set_solver.
  - pose proof (hoare_run _ _ _ _ (q, w) _ _ (hoare_GetVolumeQuotaPath (diskQuotaInfos q) (quotas q) v capacity Hv) E
      (conj eq_refl eq_refl)) as Hr. simpl in Hr.
    destruct r as [path | e | y]; [| destruct Hr as [_ Hq]; simpl in Hq; by rewrite Hq..].
    destruct Hr as (dev & d & now & _ & _ & [_ Hq]). simpl in Hq. rewrite Hq. split.
    + by apply map_Forall_insert_2.
    + by rewrite dom_insert_L.
Qed.

Lemma xfs_release_law v q w r q' w' :
  xfs_ids_ok q -> xfs_ReleaseVolumePath v (q, w) = (r, (q', w')) ->
  xfs_ids_ok q' /\ xfs_held q' = match r with Ok _ => xfs_held q ∖ {[ v ]} | _ => xfs_held q end.
Proof.
  intros Hok E. unfold xfs_held, xfs_ids_ok in *.
  pose proof (hoare_run _ _ _ _ (q, w) _ _ (hoare_ReleaseVolumePath (diskQuotaInfos q) (quotas q) v) E
    (conj eq_refl eq_refl)) as Hr. simpl in Hr.
  destruct r as [[] | e | y]; [| destruct Hr as [_ Hq]; simpl in Hq; by rewrite Hq..].
  destruct (quotas q !! v) as [info|] eqn:Hv.
  - destruct Hr as (d & _ & _ & Hq). simpl in Hq. rewrite Hq. split; [by apply map_Forall_delete |]. by rewrite dom_delete_L.
  - destruct Hr as [_ Hq]. simpl in Hq. rewrite Hq. split; [done |]. apply not_elem_of_dom in Hv. set_solver.
Qed.

Lemma xfs_expand_law v capacity q w r q' w' :
  xfs_ids_ok q -> xfs_ExpandVolume v capacity (q, w) = (r, (q', w')) -> xfs_ids_ok q' /\ xfs_held q' = xfs_held q.
Proof.
  intros Hok E. unfold xfs_held, xfs_ids_ok in *.
  pose proof (hoare_run _ _ _ _ (q, w) _ _ (hoare_ExpandVolume (diskQuotaInfos q) (quotas q) v capacity) E
    (conj eq_refl eq_refl)) as Hr. simpl in Hr.
  destruct r as [[] | e | y]; [| destruct Hr as [_ Hq]; simpl in Hq; by rewrite Hq..].
  destruct Hr as (info & d & Hv & _ & _ & _ & [_ Hq]). simpl in Hq. rewrite Hq. split.
  - apply map_Forall_insert_2; [| done]. by apply (Hok v info).
  - rewrite dom_insert_L. apply elem_of_dom_2 in Hv. set_solver.
Qed.

(** What listing leaves alone. *)
Definition holds_ids (D : gset string) (ds : gmap string DiskQuotaInfo) (qs : gmap string PathQuotaInfo) : Prop :=
  keyed qs /\ dom qs = D.

Lemma hoare_list_path D v :
  hoare (booked (holds_ids D)) (list_path (P := P) (W := W) v)
    (fun infos s => booked (holds_ids D) s /\ forall info, info ∈ infos -> path_VolumeId info ∈ D)
    (fun _ => booked (holds_ids D)).
Proof.
  apply hoare_gets_bind. intros [info |].
  2:{ apply hoare_ret. intros s [Hs _]. split; [done |]. intros info Hi. by apply not_elem_of_nil in Hi. }
  set (B := fun (ds : gmap string DiskQuotaInfo) qs => holds_ids D ds qs /\ qs !! v = Some info).
  apply hoare_weaken with (I := booked B)
    (Q := fun infos s => booked (holds_ids D) s /\ forall i, i ∈ infos -> path_VolumeId i ∈ D)
    (E := fun _ => booked (holds_ids D)); [| by intros s [? ?] | done | done].
  assert (Hid : forall s : XFSQuotaManager P * W, booked B s -> path_VolumeId info ∈ D).
  { intros s [[Hk Hd] Hv]. rewrite (Hk _ _ Hv), <- Hd. by eapply elem_of_dom_2. }
  assert (Hweak : forall (o : option error) (s : XFSQuotaManager P * W), booked B s -> booked (holds_ids D) s) by by intros o s [? _].
  apply (hoare_on_os B); [intros now | exact Hweak].
  apply hoare_gets_bind. intros max.
  eapply hoare_weaken with (I := booked B); [| by intros s [? _] | by intros ? ? Hs; exact Hs | by intros ? ? Hs; exact Hs].
  destruct (_ >? _).
  - apply (hoare_on_provider B); [intros quota | exact Hweak].
    apply (hoare_on_os B); [intros now' | exact Hweak].
    apply hoare_modify_bind with (J := fun s => booked (holds_ids D) s /\ path_VolumeId info ∈ D).
    + intros s Hs. split; [| by eapply Hid]. destruct Hs as [[Hk Hd] Hv]. split; cbn.
      * apply map_Forall_insert_2; [| done]. by apply (Hk v info).
      * rewrite dom_insert_L, Hd. apply elem_of_dom_2 in Hv. rewrite Hd in Hv. set_solver.
    + apply hoare_ret. intros s [Hs Hin]. split; [done |]. by intros i ->%list_elem_of_singleton.
  - apply hoare_ret. intros s Hs. split; [by apply (Hweak None) |].
    intros i ->%list_elem_of_singleton. by eapply Hid.
Qed.

Lemma hoare_list_paths D ids :
  hoare (booked (holds_ids D)) (collect ids (list_path (P := P) (W := W)))
    (fun infos s => booked (holds_ids D) s /\ forall info, info ∈ concat infos -> path_VolumeId info ∈ D)
    (fun _ => booked (holds_ids D)).
Proof.
  induction ids as [|v ids IH]; cbn [collect].
  - apply hoare_ret. intros s Hs. split; [done |]. intros info Hi. by apply not_elem_of_nil in Hi.
  - eapply hoare_bind; [apply hoare_list_path |]. intros infos. cbv beta.
    apply hoare_pure. intros Hinfos. eapply hoare_bind; [apply IH |]. intros rest. cbv beta.
    apply hoare_ret. intros s [Hs Hrest]. split; [done |]. intros info. cbn [concat].
    rewrite elem_of_app. intros [Hi | Hi]; auto.
Qed.

Lemma xfs_list_law q w r q' w' :
  xfs_ids_ok q -> xfs_ListPathQuotaInfos (q, w) = (r, (q', w')) ->
  xfs_ids_ok q' /\ xfs_held q' = xfs_held q /\ forall infos info, r = Ok infos -> info ∈ infos -> path_VolumeId info ∈ xfs_held q.
Proof.
  intros Hok E.
  assert (Hh : hoare (booked (holds_ids (xfs_held q))) (xfs_ListPathQuotaInfos (P := P) (W := W))
    (fun infos s => booked (holds_ids (xfs_held q)) s /\ forall info, info ∈ infos -> path_VolumeId info ∈ xfs_held q)
    (fun _ => booked (holds_ids (xfs_held q)))).
  { eapply hoare_bind; [apply frames_range_quotas |]. intros ids. eapply hoare_bind; [apply hoare_list_paths |].
    intros infos. by apply hoare_ret. }
  pose proof (hoare_run _ _ _ _ (q, w) _ _ Hh E (conj Hok eq_refl)) as Hr. cbv beta in Hr.
  destruct r as [infos | e | y]; [| destruct Hr as [? ?]; by split_and!..].
  destruct Hr as [[? ?] Hin]. split_and!; [done | done |]. intros infos' info [= <-]. apply Hin.
Qed.

(** The other methods do not touch the volumes. *)
Definition quotas_are (qs0 : gmap string PathQuotaInfo) (ds : gmap string DiskQuotaInfo)
    (qs : gmap string PathQuotaInfo) : Prop := qs = qs0.

Lemma quotas_are_disks qs0 : ignores_disk_usage (quotas_are qs0).
Proof. by intros ds qs n d d' Hq. Qed.

Lemma frames_quotas_law {A} (m : M (XFSQuotaManager P * W) A) q w r q' w' :
  (forall qs0, frames (booked (quotas_are qs0)) m) -> m (q, w) = (r, (q', w')) ->
  xfs_ids_ok q -> xfs_ids_ok q' /\ xfs_held q' = xfs_held q.
Proof.
  intros Hm E Hok. pose proof (hoare_run _ _ _ _ (q, w) _ _ (Hm (quotas q)) E eq_refl) as Hr.
  assert (Hq : quotas q' = quotas q) by by destruct r.
  unfold xfs_ids_ok, xfs_held. by rewrite Hq.
Qed.

Lemma xfs_disks_law q w r q' w' :
  xfs_ids_ok q -> xfs_ListQuotaDiskInfos (q, w) = (r, (q', w')) -> xfs_ids_ok q' /\ xfs_held q' = xfs_held q.
Proof.
  intros Hok E. eapply frames_quotas_law; [| exact E | done]. intros qs0.
  apply frames_ListQuotaDiskInfos, quotas_are_disks.
Qed.

Lemma xfs_disable_law mp b q w r q' w' :
  xfs_ids_ok q -> xfs_SetQuotaDiskDisabledState mp b (q, w) = (r, (q', w')) -> xfs_ids_ok q' /\ xfs_held q' = xfs_held q.
Proof.
  intros Hok E. eapply frames_quotas_law; [| exact E | done]. intros qs0.
  apply frames_SetDisabled, quotas_are_disks.
Qed.

#[export] Instance XFSQuotaManager_laws : QuotaManagerLaws (XFSQuotaManager P) W := {
  held := xfs_held;
  ids_ok := xfs_ids_ok;
  place_law := xfs_place_law;
  release_law := xfs_release_law;
  expand_law := xfs_expand_law;
  list_law := xfs_list_law;
  disks_law := xfs_disks_law;
  disable_law := xfs_disable_law
}.
End xfs.

(** A list that succeeds is complete. *)
Class QuotaManagerLists (Q W : Type) `{QuotaManagerLaws Q W} := {
  list_complete q w infos q' w' v :
    ids_ok q -> ListPathQuotaInfos (q, w) = (Ok infos, (q', w')) -> v ∈ held q ->
    exists info, info ∈ infos /\ path_VolumeId info = v
}.

Section complete.
Context {P W : Type} `{LinuxVolumeQuotaProvider P W} `{OSLaws W}.
Implicit Types q : XFSQuotaManager P.

(** [list_path] of a volume that is there returns its entry. *)
Lemma hoare_list_path_one D v :
  v ∈ D ->
  hoare (booked (holds_ids D)) (list_path (P := P) (W := W) v)
    (fun infos s => booked (holds_ids D) s /\ exists info, info ∈ infos /\ path_VolumeId info = v)
    (fun _ _ => True).
Proof.
  intros Hv s Hs. pose proof (hoare_list_path D v s Hs) as Hb.
  destruct (list_path v s) as [[infos | e | y] s'] eqn:E; [| done..]. destruct Hb as [Hb _]. split; [done |].
  destruct Hs as [Hk Hd]. rewrite <- Hd in Hv. apply elem_of_dom in Hv as [info Hi]. pose proof (Hk _ _ Hi) as Hid.
  cbv beta in Hid. unfold list_path in E. apply bind_Ok in E as (o & s0 & E0 & E). injection E0 as <- <-. rewrite Hi in E.
  apply bind_Ok in E as (now & s1 & _ & E). apply bind_Ok in E as (max & s2 & _ & E).
  destruct (_ >? _).
  - apply bind_Ok in E as (quota & s3 & _ & E). apply bind_Ok in E as (now' & s4 & _ & E).
    apply bind_Ok in E as ([] & s5 & _ & E). injection E as <- _.
    eexists. split; [by apply list_elem_of_singleton | exact Hid].
  - injection E as <- _. eexists. split; [by apply list_elem_of_singleton | exact Hid].
Qed.

Lemma hoare_list_paths_all D ids :
  Forall (fun v => v ∈ D) ids ->
  hoare (booked (holds_ids D)) (collect ids (list_path (P := P) (W := W)))
    (fun infos s => Forall (fun v => exists info, info ∈ concat infos /\ path_VolumeId info = v) ids)
    (fun _ _ => True).
Proof.
  induction 1 as [|v ids Hv Hids IH]; cbn [collect]; [by apply hoare_ret |].
  eapply hoare_bind; [by apply hoare_list_path_one |]. intros infos. cbv beta.
  apply hoare_pure. intros (info & Hin & Hid). eapply hoare_bind; [apply IH |]. intros rest. cbv beta.
  apply hoare_ret. intros s Hrest. cbn [concat]. constructor.
  - exists info. split; [apply elem_of_app; by left | done].
  - eapply Forall_impl; [exact Hrest |]. intros u (i & Hi & Hu). exists i. split; [apply elem_of_app; by right | done].
Qed.

#[export] Program Instance XFSQuotaManager_lists : QuotaManagerLists (XFSQuotaManager P) W.
Next Obligation.
  intros q w infos q' w' v Hok E Hv. change (held q) with (dom (quotas q)) in Hv.
  change (xfs_ListPathQuotaInfos (q, w) = (Ok infos, (q', w'))) in E.
  unfold xfs_ListPathQuotaInfos in E. apply bind_Ok in E as (ids & s1 & E1 & E).
  apply bind_Ok in E as (ll & s2 & E2 & E). injection E as <- ->.
  unfold range_quotas, bind, gets, on_os, zoom, sys_value in E1. cbn in E1.
  destruct (range_order (dom (quotas q)) w) as [ids0 w1] eqn:Er. injection E1 as <- <-.
  pose proof (range_order_perm (dom (quotas q)) w) as Hperm. rewrite Er in Hperm. cbn in Hperm.
  assert (Hids : Forall (fun u => u ∈ dom (quotas q)) ids0).
  { rewrite Hperm. apply Forall_forall. intros u. by rewrite elem_of_elements. }
  pose proof (hoare_run _ _ _ _ (q, w1) _ _ (hoare_list_paths_all (dom (quotas q)) ids0 Hids) E2 (conj Hok eq_refl)) as Hall.
  cbv beta iota in Hall. rewrite Forall_forall in Hall. apply Hall. rewrite Hperm. by apply elem_of_elements.
Qed.
End complete.

(** ** The type of a manager *)

(** What every manager of a running process satisfies, also one that was restored
    after a restart, whose books need not balance ([restart_forgets_allocations]): the
    disks are filed under their devices, the volumes under their ids, every volume is
    on a disk of the manager, and the allocated sizes are 64-bit numbers. *)
Record well_formed (ds : gmap string DiskQuotaInfo) (qs : gmap string PathQuotaInfo) : Prop := {
  wf_disk n d : ds !! n = Some d -> disk_DeviceName d = n /\ in_u64 (disk_QuotaSize d);
  wf_volume v q : qs !! v = Some q -> path_VolumeId q = v /\ is_Some (ds !! path_DeviceName q)
}.

Lemma wf_empty : well_formed ∅ ∅.
Proof. split; intros ? ? Hx; by rewrite lookup_empty in Hx. Qed.

Lemma wf_put_disk ds qs n d :
  well_formed ds qs -> disk_DeviceName d = n -> in_u64 (disk_QuotaSize d) -> well_formed (<[n := d]> ds) qs.
Proof.
  intros [Hd Hv] Hn Hq. split.
  - intros k d'. rewrite lookup_insert_Some. intros [[<- <-] | [_ Hk]]; [by split | by apply Hd].
  - intros v q Hvq. destruct (Hv v q Hvq) as [Hid Hs]. split; [done |]. rewrite lookup_insert_is_Some'. by right.
Qed.

Lemma wf_put_volume ds qs v q :
  well_formed ds qs -> path_VolumeId q = v -> is_Some (ds !! path_DeviceName q) -> well_formed ds (<[v := q]> qs).
Proof.
  intros [Hd Hv] Hid Hs. split; [done |]. intros u q'.
  rewrite lookup_insert_Some. intros [[<- <-] | [_ Hu]]; [by split | by apply Hv].
Qed.

Lemma wf_drop_volume ds qs v : well_formed ds qs -> well_formed ds (delete v qs).
Proof. intros [Hd Hv]. split; [done |]. intros u q [_ Hu]%lookup_delete_Some. by apply Hv. Qed.

Lemma wf_account ds qs n d size :
  well_formed ds qs -> ds !! n = Some d -> well_formed (<[n := disk_account (u64 size) d]> ds) qs.
Proof. intros Hw Hn. apply wf_put_disk; [done | exact (proj1 (wf_disk _ _ Hw _ _ Hn)) | apply u64_range]. Qed.

Lemma wf_same_disk : ignores_disk_usage well_formed.
Proof.
  intros ds qs n d d' Hw Hn (E1 & _ & E3 & _). destruct (wf_disk _ _ Hw _ _ Hn) as [H1 H2].
  apply wf_put_disk; [done | congruence | by rewrite E3].
Qed.

Lemma wf_same_volume : ignores_path_usage well_formed.
Proof. intros ds qs v q used now Hw Hv. by apply wf_put_volume; [| apply (wf_volume _ _ Hw v q Hv)..]. Qed.

(** Changing a disk in place. *)
Lemma wf_alter ds qs f n :
  (forall d, disk_DeviceName (f d) = disk_DeviceName d /\ (in_u64 (disk_QuotaSize d) -> in_u64 (disk_QuotaSize (f d)))) ->
  well_formed ds qs -> well_formed (alter f n ds) qs.
Proof.
  intros Hf [Hd Hv]. split.
  - intros k d. rewrite lookup_alter_Some. intros [(<- & d' & Hk & ->) | [_ Hk]]; [| by apply Hd].
    destruct (Hf d') as [-> Hsize]. split; [by apply Hd | by apply Hsize, (Hd n)].
  - intros v q Hvq. destruct (Hv v q Hvq) as [Hid Hs]. split; [done |]. by rewrite lookup_alter_is_Some.
Qed.

Section typing.
Context {P W : Type} `{LinuxVolumeQuotaProvider P W} `{OS W}.
Implicit Types s : XFSQuotaManager P * W.

Lemma wf_GetVolumeQuotaPath v c : frames (booked well_formed) (xfs_GetVolumeQuotaPath (P := P) (W := W) v c).
Proof.
  apply frames_from. intros ds0 qs0 Hw. destruct (qs0 !! v) as [q |] eqn:Hv.
  - apply (hoare_books_gets ds0 qs0 _ (fun _ qs => qs !! v)); [done |]. rewrite Hv.
    apply hoare_ret. intros s. by apply books_are_in.
  - eapply hoare_weaken; [apply (hoare_GetVolumeQuotaPath ds0 qs0 v c Hv) | done | | intros o s; by apply books_are_in].
    intros path s (dev & d & now & _ & Hd & Hs). eapply books_are_in; [| exact Hs].
    apply wf_put_volume; [by apply wf_account | done |]. cbn. rewrite lookup_insert_eq. eauto.
Qed.

Lemma wf_ExpandVolume v c : frames (booked well_formed) (xfs_ExpandVolume (P := P) (W := W) v c).
Proof.
  apply frames_from. intros ds0 qs0 Hw. eapply hoare_weaken;
    [apply (hoare_ExpandVolume ds0 qs0) | done | | intros o s; by apply books_are_in].
  intros _ s (q & d & Hq & Hd & _ & _ & Hs). eapply books_are_in; [| exact Hs].
  apply wf_put_volume; [by apply wf_account | exact (proj1 (wf_volume _ _ Hw _ _ Hq)) |]. cbn. rewrite lookup_insert_eq. eauto.
Qed.

Lemma wf_ReleaseVolumePath v : frames (booked well_formed) (xfs_ReleaseVolumePath (P := P) (W := W) v).
Proof.
  apply frames_from. intros ds0 qs0 Hw. eapply hoare_weaken;
    [apply (hoare_ReleaseVolumePath ds0 qs0) | done | | intros o s; by apply books_are_in].
  intros u s. cbv beta. clear u. destruct (qs0 !! v) as [q |] eqn:Hq; [| by apply books_are_in].
  intros (d & Hd & Hs). eapply books_are_in; [| exact Hs]. by apply wf_drop_volume, wf_account.
Qed.

(** The recovery at the start. *)
Lemma wf_restore_disk mp : frames (booked well_formed) (restore_disk (P := P) (W := W) mp).
Proof.
  apply (hoare_bind _ _ _ (fun _ => booked well_formed)).
  { apply hoare_attempt. eapply hoare_frames; [apply (frames_on_os well_formed) | done | done | by intros [] s Hs]. }
  intros [[] |]; [| by apply hoare_ret..]. simpl.
  apply (hoare_on_os well_formed); [intros dev | done]. apply (hoare_on_provider well_formed); [intros b | done].
  apply (hoare_on_provider well_formed); [intros quota | done]. apply (hoare_on_os well_formed); [intros disabled | done].
  apply hoare_modify. intros s Hs. by apply wf_put_disk.
Qed.

Definition wf_with (dev : string) (ds : gmap string DiskQuotaInfo) (qs : gmap string PathQuotaInfo) : Prop :=
  well_formed ds qs /\ is_Some (ds !! dev).

Lemma wf_restore_path dev p : frames (booked (wf_with dev)) (restore_path (P := P) (W := W) dev p).
Proof.
  eapply hoare_bind with (R := fun _ => booked (wf_with dev)).
  { apply hoare_lift. intros s Hs. by destruct (parseQuotaPathInfoFromDirName p). }
  intros volID. apply (hoare_on_provider (wf_with dev)); [intros quota | done].
  eapply hoare_modify_bind with (J := booked (wf_with dev)).
  { intros s [Hw Hs]. split; cbn; [| by rewrite lookup_alter_is_Some]. apply wf_alter; [| done].
    intros d. split; [done |]. intros _. apply u64_range. }
  apply (hoare_on_os (wf_with dev)); [intros now | done]. apply hoare_modify. intros s [Hw Hs].
  split; [by apply wf_put_volume | done].
Qed.

Lemma wf_restore_paths dev : frames (booked well_formed) (restore_paths (P := P) (W := W) dev).
Proof.
  apply hoare_gets_bind. intros [d |]; [| apply hoare_ret; by intros s []].
  assert (Hweak : forall (o : option error) s, booked (wf_with dev) s -> booked well_formed s) by by intros o s [].
  eapply hoare_weaken with (I := booked (wf_with dev)) (E := fun _ => booked well_formed);
    [| by intros s [Hw Hd]; split; [| exists d] | by intros r s Hs; exact Hs | done].
  apply (hoare_on_os (wf_with dev)); [intros dirs | exact Hweak].
  apply (hoare_bind _ _ _ (fun _ => booked (wf_with dev))).
  { eapply hoare_weaken; [apply hoare_for_each, (wf_restore_path dev) | done | done | exact Hweak]. }
  intros _. apply (hoare_on_os (wf_with dev)); [intros now | exact Hweak].
  apply hoare_modify. intros s [Hs _]. by apply wf_alter.
Qed.

Lemma wf_restoreQuotaInfo : frames (booked well_formed) (restoreQuotaInfo (P := P) (W := W)).
Proof.
  apply hoare_gets_bind. intros root.
  eapply hoare_weaken with (I := booked well_formed);
    [| by intros t [] | by intros r t Ht; exact Ht | by intros o t Ht; exact Ht].
  apply (hoare_on_os well_formed); [intros dirs | done].
  apply (hoare_bind _ _ _ (fun _ => booked well_formed)); [apply hoare_for_each, wf_restore_disk |].
  intros _. apply (hoare_bind _ _ _ (fun _ => booked well_formed)); [apply frames_range_disks |].
  intros names. apply hoare_for_each, wf_restore_paths.
Qed.
End typing.

(** A call of a manager by its clients, and the world changing meanwhile. *)
Inductive manager_step {Q W : Type} `{QuotaManagerInterface Q W} : Q * W -> Q * W -> Prop :=
  | ms_list_disks s : manager_step s (ListQuotaDiskInfos s).2
  | ms_list_paths s : manager_step s (ListPathQuotaInfos s).2
  | ms_disable mountPoint disabled s : manager_step s (SetQuotaDiskDisabledState mountPoint disabled s).2
  | ms_place v capacity s : manager_step s (GetVolumeQuotaPath v capacity s).2
  | ms_expand v capacity s : manager_step s (ExpandVolume v capacity s).2
  | ms_release v s : manager_step s (ReleaseVolumePath v s).2
  | ms_world q w w' : manager_step (q, w) (q, w').

Lemma place_reachable {P W} `{LinuxVolumeQuotaProvider P W} `{OS W} v capacity (s : XFSQuotaManager P * W) :
  reachable manager_step s (xfs_GetVolumeQuotaPath v capacity s).2.
Proof. apply reachable_one, (ms_place (H := XFSQuotaManager_interface) v capacity s). Qed.

Section typed_runs.
Context {R W : Type} `{Rand R} `{OS W}.
Implicit Types m : XFSQuotaManager (QuotaVolumeProvider (ProjectIDAllocator R)).

(** The manager that a start makes is well formed. *)
Lemma start_well_formed seed root w m w' :
  NewXfsQuotaManager seed root w = (Ok (inl m), w') -> well_formed (diskQuotaInfos m) (quotas m).
Proof.
  unfold NewXfsQuotaManager. destruct (negb _); [done |]. set (m0 := mkXFSQuotaManager _ _ _ _ _).
  pose proof (wf_restoreQuotaInfo (m0, w)) as Hw. destruct (restoreQuotaInfo (m0, w)) as [[[] | e | y] [m1 w1]]; [| done..].
  intros [= <- <-]. apply Hw, wf_empty.
Qed.

(** C11: The quota manager keeps its type: whatever the start found on the disks, and
    after whatever calls, failures and panics included, disks are filed under their
    devices and volumes under their ids, every volume is on a disk that the manager
    has, and the sizes are 64-bit numbers.  So the branches for a disk that is missing
    from the cache are dead: a release fails only with the error that the provider gave
    for deleting the directory of a volume that is known. *)
Theorem manager_stays_typed seed root w m w' s :
  NewXfsQuotaManager seed root w = (Ok (inl m), w') -> reachable manager_step (m, w') s ->
  well_formed (diskQuotaInfos s.1) (quotas s.1) /\
  forall v e s', ReleaseVolumePath v s = (Fail e, s') ->
    exists q t, quotas s.1 !! v = Some q /\ DeleteProjectQuota (path_Path q) (quotaProvider s.1, s.2) = (Fail e, t).
Proof.
  intros Hstart Hr. assert (Hw : booked well_formed s).
  { revert Hr. apply reachable_invariant; [by eapply start_well_formed |]. clear s. intros s s' Hw Hs. revert Hw.
    destruct Hs as [s | s | mp b s | v c s | v c s | v s | q u u']; [.. | done];
      apply (proj2 (hoare_preserves (booked well_formed) _)).
    - apply frames_ListQuotaDiskInfos, wf_same_disk.
    - apply frames_ListPathQuotaInfos, wf_same_volume.
    - apply frames_SetDisabled, wf_same_disk.
    - apply wf_GetVolumeQuotaPath.
    - apply wf_ExpandVolume.
    - apply wf_ReleaseVolumePath. }
  split; [exact Hw |]. intros v e s' E. change (xfs_ReleaseVolumePath v s = (Fail e, s')) in E.
  unfold xfs_ReleaseVolumePath, bind at 1, gets in E.
  destruct (quotas s.1 !! v) as [q |] eqn:Hq; [| discriminate E]. exists q. unfold bind at 1 in E.
  destruct (wf_volume _ _ Hw v q Hq) as [_ [d Hd]]. rewrite Hd in E. unfold bind at 1, on_provider, zoom in E.
  destruct (DeleteProjectQuota _ _) as [[[] | e' | y] t]; [discriminate E | | discriminate E].
  injection E as -> <-. by exists t.
Qed.
End typed_runs.

(** The restart that overbooks the disk still gives a manager of the type. *)
Lemma restarted_eq : NewXfsQuotaManager 7 "/pool" placed.2 = (Ok (inl restarted.1), restarted.2).
Proof. vm_compute; reflexivity. Qed.

Lemma overbooked_step : reachable manager_step (restarted.1, restarted.2) overbooked.
Proof. rewrite <- (surjective_pairing restarted). apply place_reachable. Qed.

Lemma manager_stays_typed_witness :
  quotas overbooked.1 <> ∅ /\ well_formed (diskQuotaInfos overbooked.1) (quotas overbooked.1).
Proof.
  split; [by vm_compute |].
  exact (proj1 (manager_stays_typed 7 "/pool" placed.2 restarted.1 restarted.2 overbooked restarted_eq overbooked_step)).
Defined.
