(* ===== verification/Recovery.v ===== *)
(** * What a restart finds: quota-manager/quotamanager_xfs.go against the disks

    The quota manager keeps its volumes in memory only; when the node's process starts
    again, [restoreQuotaInfo] reads them back from the directories on the disks, their
    project ids and the limits of the projects.  Here the contents of the disks are
    described as a map of volumes, and the start is proved to find exactly them; a
    directory that is no volume's makes the start give up the real manager. *)

From S2P Require Import Prelude GoStrings Os SimOs Util FileSystem Allocator QuotaProvider QuotaManager HeldVolumes.
Open Scope Z_scope.
Open Scope go_scope.

(** ** The contents of the disks *)

(** A volume as the kernel has it: the name of its disk below the root, the device, and
    the project of its directory with the limits, in blocks. *)
Record KernelVolume := mkKernelVolume { kv_disk : string; kv_dev : string; kv_id : Z; kv_limit : Z * Z }.

Lemma getQuotaPathName_inj v v' : getQuotaPathName v = getQuotaPathName v' -> v = v'.
Proof. unfold getQuotaPathName. rewrite <- !app_assoc_string. apply append_inj. Qed.

Section kernel.
Context {W : Type} `{FileLaws W}.
Context (re : list string).
Implicit Types (w : W) (x v dev : string) (vols : gmap string KernelVolume).

Definition disk_path x : string := abs_path (re ++ [x]).
Definition vol_path x v : string := abs_path ((re ++ [x]) ++ [getQuotaPathName v]).

(** A directory of the root that the start takes for a disk *)
Record mounted x dev w : Prop := {
  mt_listed : x ∈ names_in re w;
  mt_mount : IsLikelyNotMountPoint (disk_path x) w = inl false;
  mt_dev : GetDevForPath (disk_path x) w = (Ok dev, w);
  mt_statfs : exists fs, syscall_Statfs (disk_path x) w = inl fs
}.

Record stored v (kv : KernelVolume) w : Prop := {
  st_mounted : mounted (kv_disk kv) (kv_dev kv) w;
  st_open : opendir (vol_path (kv_disk kv) v) w = None;
  st_id : ioctl_getprojid (vol_path (kv_disk kv) v) w = inl (kv_id kv);
  st_limit : limit_of (kv_dev kv) (kv_id kv) w = Some (kv_limit kv);
  st_name : no_char slash v;
  st_range : ProjectIdStart <= kv_id kv < ProjectIdStart + ProjectIdNum
}.

Definition is_volume_dir vols x (fi : FileInfo) : Prop :=
  fi_IsDir fi = true /\ exists v kv, vols !! v = Some kv /\ kv_disk kv = x /\ fi_Name fi = getQuotaPathName v.

(** The disks hold the directories of [vols] and nothing else. *)
Record tidy w vols : Prop := {
  td_disk x : x ∈ names_in re w -> (exists dev, mounted x dev w) \/ IsLikelyNotMountPoint (disk_path x) w <> inl false;
  td_dev x x' dev : mounted x dev w -> mounted x' dev w -> x = x';
  td_plain x dev : mounted x dev w -> Index (disk_path x) XfsQuotaDirPrefix = -1;
  td_entries x dev : mounted x dev w ->
    exists dir, ioutil_ReadDir (disk_path x) w = inl dir /\ Forall (is_volume_dir vols x) dir;
  td_stored v kv : vols !! v = Some kv -> stored v kv w;
  td_ids v v' kv kv' : vols !! v = Some kv -> vols !! v' = Some kv' -> kv_id kv = kv_id kv' -> v = v'
}.

Context (re_ne : re <> []) (re_normal : Forall normal_elem re).

Lemma GetDev_same p dev w w' :
  unix_Lstat (Clean p) w' = unix_Lstat (Clean p) w -> mountinfo_lines w' = mountinfo_lines w ->
  GetDevForPath p w = (Ok dev, w) -> GetDevForPath p w' = (Ok dev, w').
Proof.
  intros Hl Hm. unfold GetDevForPath, bind, sys_read. rewrite Hl.
  destruct (unix_Lstat _ w); [| done]. rewrite Hm. destruct (mountinfo_lines w); [| done].
  destruct (scan_mountinfo _ _ _); [| done]. by intros [= ->].
Qed.

Lemma disk_normal x : normal_elem x -> Forall normal_elem (re ++ [x]).
Proof. intros Hx. apply Forall_app. split; [done |]. by apply Forall_singleton. Qed.

Lemma snoc_ne {A} (l : list A) y : l ++ [y] <> [].
Proof. by destruct l. Qed.

Lemma listed_normal x w : x ∈ names_in re w -> normal_elem x.
Proof. intros Hx. pose proof (names_in_normal re w) as Hn. rewrite Forall_forall in Hn. by apply Hn. Qed.

(** A change that leaves the root's entries and the disk's mount alone *)
Lemma mounted_same keep listing lim x dev w w' :
  same_except keep listing lim w w' -> keep (abs_path re) -> listing (abs_path re) -> keep (disk_path x) ->
  mounted x dev w -> mounted x dev w'.
Proof.
  intros [P R M L] Kr Lr Kx [Hx Hm Hd Hs]. pose proof (P _ Kx) as [_ _ _ Pl Pm Ps]. split.
  - unfold names_in in *. by rewrite R.
  - by rewrite Pm.
  - eapply GetDev_same; [| done | exact Hd]. unfold disk_path.
    rewrite Clean_abs_path; [exact Pl |]. apply disk_normal. by eapply listed_normal.
  - by apply Ps.
Qed.

Lemma quiet_mounted x dev w w' : quiet w w' -> mounted x dev w' <-> mounted x dev w.
Proof.
  intros Hq. split; [apply same_except_sym in Hq; by apply (mounted_same _ _ _ x dev _ _ Hq) | by apply (mounted_same _ _ _ x dev _ _ Hq)].
Qed.

Lemma mounted_dev x dev dev' w : mounted x dev w -> mounted x dev' w -> dev = dev'.
Proof. intros [_ _ E _] [_ _ E' _]. rewrite E in E'. by injection E'. Qed.

Lemma tidy_quiet w w' vols : quiet w w' -> tidy w vols -> tidy w' vols.
Proof.
  intros Hq [T1 T2 T3 T4 T5 T6]. pose proof Hq as [P R M L].
  assert (Hn : forall es, names_in es w' = names_in es w) by (intros es; unfold names_in; by rewrite R).
  split; try done.
  - intros x. rewrite Hn, (sp_mount _ _ _ (P (disk_path x) I)). intros [[dev Hd] | Hd]%T1; [left | by right].
    exists dev. by apply (quiet_mounted x dev w w').
  - intros x x' dev. rewrite !(quiet_mounted _ _ w w' Hq). apply T2.
  - intros x dev. rewrite (quiet_mounted _ _ w w' Hq). apply T3.
  - intros x dev. rewrite (quiet_mounted _ _ w w' Hq). intros (dir & Hdir & Hall)%T4. exists dir. by rewrite R.
  - intros v kv [S1 S2 S3 S4 S5 S6]%T5. pose proof (P (vol_path (kv_disk kv) v) I) as [_ Po Pi _ _ _].
    split; [by apply (quiet_mounted _ _ w w') | congruence.. | by rewrite L | done | done].
Qed.
End kernel.

(** ** The manager against the disks *)

Section restore.
Context {R W : Type} `{RandLaws R} `{FileLaws W}.
Context (re : list string) (re_ne : re <> []) (re_normal : Forall normal_elem re).
Abbreviation Prov := (QuotaVolumeProvider (ProjectIDAllocator R)).
Abbreviation St := (XFSQuotaManager (QuotaVolumeProvider (ProjectIDAllocator R)) * W)%type.
Implicit Types (s : XFSQuotaManager (QuotaVolumeProvider (ProjectIDAllocator R)) * W) (w : W) (vols : gmap string KernelVolume) (D : gset string).

(** The allocator is the one of the manager's provider. *)
Definition in_span (a : ProjectIDAllocator R) : Prop := PrjIdStart a = ProjectIdStart /\ MaxPrjIdNum a = ProjectIdNum.

(** The manager knows, of the volumes on the disks, those of [D]: its entries, the
    provider's cache and the allocated ids are theirs, and its disks are mounted.
    [good]: what the entries say of the limits *)
Record knows (good : KernelVolume -> Quota -> Prop) vols D s : Prop := {
  kn_root : quotaRootPath s.1 = abs_path re;
  kn_tidy : tidy re s.2 vols;
  kn_prov : provider_inv (quotaProvider s.1);
  kn_span : in_span (projectIdAllocator (quotaProvider s.1));
  kn_cache p id : quotaPathAndId (quotaProvider s.1) !! p = Some id <->
    exists v kv, v ∈ D /\ vols !! v = Some kv /\ p = vol_path re (kv_disk kv) v /\ id = kv_id kv;
  kn_entry v q : quotas s.1 !! v = Some q -> v ∈ D /\ exists kv, vols !! v = Some kv /\
    path_Path q = vol_path re (kv_disk kv) v /\ path_DeviceName q = kv_dev kv /\ good kv (path_Quota q);
  kn_all v kv : v ∈ D -> vols !! v = Some kv -> is_Some (quotas s.1 !! v);
  kn_disk dev d : diskQuotaInfos s.1 !! dev = Some d ->
    disk_DeviceName d = dev /\ exists x, mounted re x dev s.2 /\ disk_MountPoint d = disk_path re x;
  kn_exists : CheckDirExists (abs_path re) s.2 = true
}.

Lemma knows_quiet good vols D m w w' : quiet w w' -> knows good vols D (m, w) -> knows good vols D (m, w').
Proof.
  intros Hq [K1 K2 K3 K4 K5 K6 K7 K8 K9]. split; try done; cbn in *; [by eapply tidy_quiet | |].
  - intros dev d (Hd & x & Hx & Hm)%K8. split; [done |]. exists x. split; [| done]. by apply (quiet_mounted re re_normal x dev w w').
  - unfold CheckDirExists in *. by rewrite (sp_stat _ _ _ (se_path _ _ _ _ _ Hq (abs_path re) I)).
Qed.

(** Predicates that quiet changes of the world keep *)
Definition steady (I : XFSQuotaManager Prov * W -> Prop) : Prop := forall m w w', quiet w w' -> I (m, w) -> I (m, w').

Lemma total_on_os {A} I (c : M W A) :
  steady I -> (forall w, exists a w', c w = (Ok a, w') /\ quiet w w') -> total I (on_os (P := Prov) c) (fun _ => I).
Proof.
  intros HI Hc [m w] Hs. unfold on_os, zoom. cbn. destruct (Hc w) as (a & w' & -> & Hq). by eapply HI.
Qed.

Lemma time_quiet w : exists a w', sys_value time_Now w = (Ok a, w') /\ quiet w w'.
Proof. unfold sys_value. pose proof (clock_quiet w). destruct (time_Now w) as [a w']. by exists a, w'. Qed.

Lemma range_order_quiet ks w : exists a w', sys_value (range_order ks) w = (Ok a, w') /\ quiet w w'.
Proof. unfold sys_value. pose proof (range_quiet ks w). destruct (range_order ks w) as [a w']. by exists a, w'. Qed.

Lemma set_disable_quiet mp b w : exists r w', setQuotaDiskDisableState mp b w = (r, w') /\ quiet w w' /\ forall y, r <> Panic y.
Proof.
  unfold setQuotaDiskDisableState, SetFilesystemXattr, sys_write.
  pose proof (xattr_quiet mp DiskQuotaEnableFattr (FormatBool b) w). destruct (unix_Setxattr _ _ _ w) as [[e|] w']; by eexists _, _.
Qed.

Lemma get_disable_quiet mp w : exists b w', getDiskQuotaDisableState mp w = (Ok b, w') /\ quiet w w'.
Proof.
  unfold getDiskQuotaDisableState, GetFilesystemXattr, bind, attempt, sys_read.
  destruct (unix_Getxattr mp DiskQuotaEnableFattr w) as [data | e] eqn:Ex.
  - assert (forall t, exists b w', match ParseBool t with Ok disable => ret disable | _ => ret false end w = (Ok b, w') /\ quiet w w')
      by (intros t; destruct (ParseBool t); by eexists _, _).
    destruct (go_len data <=? 0); cbn; rewrite ?Ex; auto.
  - case_decide; [| by eexists _, _]. destruct (set_disable_quiet mp false w) as (r & w' & -> & Hq & Hp).
    destruct r as [[] | e' | y]; [by eexists _, _ | by eexists _, _ | by destruct (Hp y)].
Qed.

(** The kernel and the provider during a start *)
Lemma Supported_reads mp dev (pr : Prov) w : exists b, xfs_Supported mp dev (pr, w) = (Ok b, (pr, w)).
Proof.
  unfold xfs_Supported, on_world, zoom, supported, bind, attempt, sys_read. cbn.
  destruct (syscall_Statfs _ w) as [buf | e]; [| by eexists]. destruct (negb _); [by eexists |].
  destruct (quotactl_getqstat dev w); by eexists.
Qed.

Lemma DiskInfo_reads mp (pr : Prov) w :
  (exists fs, syscall_Statfs mp w = inl fs) -> exists q, xfs_GetQuotaDiskInfo mp (pr, w) = (Ok q, (pr, w)).
Proof. intros [fs E]. unfold xfs_GetQuotaDiskInfo, map_error, on_world, zoom, bind, sys_read. cbn. rewrite E. by eexists. Qed.

Definition set_disk_limits (kv : KernelVolume) (q : Quota) : Prop :=
  HardQuota q = u64 (fst (kv_limit kv) * BASIC_BLOCK_SIZE) /\ SoftQuota q = u64 (snd (kv_limit kv) * BASIC_BLOCK_SIZE).

(** The first loop, over the directories of the root *)
Definition disks_done vols w0 (done : list string) s : Prop :=
  knows set_disk_limits vols ∅ s /\ quiet w0 s.2 /\
  forall x dev, x ∈ done -> mounted re x dev s.2 -> is_Some (diskQuotaInfos s.1 !! dev).

Lemma restore_disk_total vols w0 done x :
  x ∈ names_in re w0 ->
  total (disks_done vols w0 done) (restore_disk (disk_path re x)) (fun _ => disks_done vols w0 (done ++ [x])).
Proof.
  intros Hx [m w] (Hk & Hq & Hd). cbn [fst snd] in *.
  assert (Hxw : x ∈ names_in re w) by (unfold names_in in *; by rewrite (se_readdir _ _ _ _ _ Hq)).
  unfold restore_disk. unfold bind at 1, attempt, on_os, zoom, IsMountPoint, bind at 1, attempt, sys_read. cbn.
  destruct (td_disk _ _ _ (kn_tidy _ _ _ _ Hk) x Hxw) as [[dev Hm] | Hno]; cbn in *.
  - rewrite (mt_mount _ _ _ _ Hm). cbn. unfold bind at 1, zoom. cbn. rewrite (mt_dev _ _ _ _ Hm).
    unfold bind at 1, on_provider, zoom. cbn. destruct (Supported_reads (disk_path re x) dev (quotaProvider m) w) as [b ->].
    unfold bind at 1. cbn. destruct (DiskInfo_reads (disk_path re x) (quotaProvider m) w (mt_statfs _ _ _ _ Hm)) as [q Hi].
    destruct m as [root ds qs mx pr]. cbn in *. rewrite Hi. unfold bind at 1, zoom. cbn.
    destruct (get_disable_quiet (disk_path re x) w) as (dis & w' & -> & Hq'). cbn.
    assert (Hq0 : quiet w0 w') by by transitivity w.
    pose proof (knows_quiet _ _ _ _ _ _ Hq' Hk) as [K1 K2 K3 K4 K5 K6 K7 K8 K9]. split_and!; [| done |].
    + split; try done. cbn. intros dev' d'. rewrite lookup_insert_Some. intros [[<- <-] | [_ Hd']]; [| by apply K8].
      split; [done |]. exists x. split; [| done]. by apply (quiet_mounted re re_normal x dev w w').
    + cbn. intros x' dev' Hx' Hm'. destruct (decide (dev' = dev)) as [-> | Hne]; [rewrite lookup_insert_eq; by eexists |].
      rewrite lookup_insert_ne by done. apply elem_of_app in Hx' as [Hx' | ->%list_elem_of_singleton].
      * apply (Hd x'); [done |]. by apply (quiet_mounted re re_normal x' dev' w w').
      * apply (quiet_mounted re re_normal x dev' w w') in Hm'; [| done].
        destruct Hne. by eapply mounted_dev.
  - assert (Hsame : disks_done vols w0 (done ++ [x]) (m, w)).
    { split_and!; [done | done |]. cbn. intros x' dev' Hx' Hm'.
      apply elem_of_app in Hx' as [Hx' | ->%list_elem_of_singleton]; [by apply (Hd x') |]. by destruct Hno; apply Hm'. }
    destruct (IsLikelyNotMountPoint (disk_path re x) w) as [[] | e]; cbn; done.
Qed.

Lemma total_restore_disks vols w0 :
  total (fun s => knows set_disk_limits vols ∅ s /\ s.2 = w0) (for_each (GetSubDirs (abs_path re) w0) restore_disk)
    (fun _ s => knows set_disk_limits vols ∅ s /\ forall x dev, mounted re x dev s.2 -> is_Some (diskQuotaInfos s.1 !! dev)).
Proof.
  rewrite GetSubDirs_names by done.
  eapply hoare_weaken with (I := disks_done vols w0 []) (E := fun _ _ => False)
    (Q := fun _ => disks_done vols w0 (names_in re w0)); [| | | done].
  - assert (Hl : forall xs, (forall x, x ∈ xs -> x ∈ names_in re w0) ->
      total (disks_done vols w0 []) (for_each (map (fun n => abs_path (re ++ [n])) xs) restore_disk) (fun _ => disks_done vols w0 xs)).
    { intros xs Hxs. assert (E : for_each (map (fun n => abs_path (re ++ [n])) xs) (restore_disk (W := W) (P := Prov)) =
        for_each xs (fun x => restore_disk (disk_path re x))).
      { clear Hxs. induction xs as [|x xs IH]; [done |]. cbn. by rewrite IH. }
      rewrite E. apply (total_for_each (disks_done vols w0)). intros pre x post ->. apply restore_disk_total, Hxs.
      apply elem_of_app. right. by left. }
    by apply Hl.
  - intros s [Hk <-]. split_and!; [done | reflexivity |]. intros x dev Hx. by apply not_elem_of_nil in Hx.
  - intros _ s (Hk & Hq & Hd). split; [done |]. intros x dev Hm. apply (Hd x); [| done].
    unfold names_in in *. rewrite <- (se_readdir _ _ _ _ _ Hq (abs_path re) I I). apply Hm.
Qed.

(** The second loop, over the directories of the disks *)
Lemma vol_path_inj x x' v v' :
  normal_elem x -> normal_elem x' -> no_char slash v -> no_char slash v' -> vol_path re x v = vol_path re x' v' -> x = x' /\ v = v'.
Proof.
  intros Hx Hx' Hv Hv' E. unfold vol_path in E. apply abs_path_inj in E; [| apply snoc_ne.. | |].
  - apply app_inj_tail in E as [E En]. apply app_inj_tail in E as [_ ->]. split; [done |]. by apply getQuotaPathName_inj.
  - apply Forall_app. split; [by apply disk_normal |]. apply Forall_singleton. by apply quota_name_normal.
  - apply Forall_app. split; [by apply disk_normal |]. apply Forall_singleton. by apply quota_name_normal.
Qed.

Lemma stored_normal v kv w : stored re v kv w -> normal_elem (kv_disk kv) /\ no_char slash v.
Proof. intros [Hm _ _ _ Hn _]. split; [by eapply listed_normal, Hm | done]. Qed.

Lemma stored_path_inj vols w v v' kv kv' :
  tidy re w vols -> vols !! v = Some kv -> vols !! v' = Some kv' ->
  vol_path re (kv_disk kv) v = vol_path re (kv_disk kv') v' -> v = v'.
Proof.
  intros Ht Hv Hv' E. destruct (stored_normal v kv w (td_stored _ _ _ Ht _ _ Hv)), (stored_normal v' kv' w (td_stored _ _ _ Ht _ _ Hv')).
  by apply vol_path_inj in E as [_ ?].
Qed.

(** The directories of a disk are those of its volumes. *)
Lemma volumes_listed vols w x dev :
  tidy re w vols -> mounted re x dev w ->
  exists vs, names_in (re ++ [x]) w = map getQuotaPathName vs /\ NoDup vs /\
    forall v, v ∈ vs <-> exists kv, vols !! v = Some kv /\ kv_disk kv = x.
Proof.
  intros Ht Hm. destruct (td_entries _ _ _ Ht _ _ Hm) as (dir & Hdir & Hall).
  pose proof (names_in_NoDup (re ++ [x]) w) as Hnd.
  assert (Hnames : names_in (re ++ [x]) w = map fi_Name dir).
  { unfold names_in. unfold disk_path in Hdir. rewrite Hdir. f_equal.
    clear Hdir. induction Hall as [|fi l [Hd _] Hl IH]; [done |]. by rewrite filter_cons_True, IH. }
  assert (Hvs : exists vs, map fi_Name dir = map getQuotaPathName vs /\ Forall (fun v => exists kv, vols !! v = Some kv /\ kv_disk kv = x) vs).
  { clear Hdir Hnames. induction Hall as [|fi dir [_ (v & kv & Hv & Hx & Hn)] Hall (vs & E & Hvs)]; [by exists [] |].
    exists (v :: vs). cbn. split; [by rewrite Hn, E |]. constructor; [by exists kv | done]. }
  destruct Hvs as (vs & E & Hvs). rewrite Hnames, E in *. exists vs. split_and!; [done | |].
  - clear -Hnd. induction vs as [|v vs IH]; [constructor |]. cbn in Hnd. apply NoDup_cons in Hnd as [Hv Hnd].
    constructor; [| by apply IH]. intros Hin. apply Hv, list_elem_of_In, in_map. by apply list_elem_of_In.
  - intros v. split; [by rewrite Forall_forall in Hvs; apply Hvs |]. intros (kv & Hv & Hx).
    pose proof (td_stored _ _ _ Ht _ _ Hv) as Hst. destruct (stored_normal v kv w Hst) as [Hnx Hnv].
    assert (Hin : getQuotaPathName v ∈ map fi_Name dir).
    { eapply open_listed; [apply (snoc_ne re x) | by apply disk_normal; subst | by apply quota_name_normal | | exact Hdir].
      rewrite <- Hx. apply Hst. }
    rewrite E in Hin. apply list_elem_of_In, in_map_iff in Hin as (v' & Hv' & Hin).
    apply getQuotaPathName_inj in Hv' as ->. by apply list_elem_of_In.
Qed.

(** A new provider is in order. *)
Lemma fresh_provider_inv (seed : R) : provider_inv (NewXFSVolumeQuotaProvider seed ProjectIdStart ProjectIdNum).
Proof.
  split; cbn; [apply NewAllocator_wf; unfold ProjectIdStart, ProjectIdNum; lia | | done | done].
  intros id. split; [| by intros [p Hp]]. unfold prj_Has. destruct (contains _ id); [| done].
  unfold bm_Has, Bit. cbn. by rewrite Z.testbit_0_l.
Qed.

(** An id of the span that nobody holds is granted. *)
Lemma Allocate_granted (a : ProjectIDAllocator R) id :
  prj_wf a -> in_span a -> ProjectIdStart <= id < ProjectIdStart + ProjectIdNum -> prj_Has id a = false ->
  exists a', prj_Allocate id a = (Ok tt, a') /\ in_span a'.
Proof.
  intros Hw [Hst Hnum] Hid Hfree. unfold prj_Allocate, bind, gets, zoom. cbn.
  assert (Hc : contains a id = Some (id - PrjIdStart a)) by (apply contains_Some; [done |]; rewrite Hst, Hnum; lia).
  unfold prj_Has in Hfree. rewrite Hc in *. unfold bm_Allocate. unfold bm_Has in Hfree. rewrite Hfree. cbn. by eexists.
Qed.

(** Reading the quota of a directory that the provider does not know yet *)
Lemma GetProjectQuota_new vols (pr : Prov) w p dev id lim :
  provider_inv pr -> in_span (projectIdAllocator pr) -> quotaPathAndId pr !! p = None ->
  (forall q, quotaPathAndId pr !! q <> Some id) -> ProjectIdStart <= id < ProjectIdStart + ProjectIdNum ->
  opendir p w = None -> ioctl_getprojid p w = inl id -> limit_of dev id w = Some lim ->
  exists used a, let pr' := mkQuotaVolumeProvider a (<[p := id]> (quotaPathAndId pr)) in
    xfs_GetProjectQuota p dev (pr, w) =
      (Ok (mkQuota (u64 (lim.1 * BASIC_BLOCK_SIZE)) (u64 (lim.2 * BASIC_BLOCK_SIZE)) used), (pr', w)) /\
    provider_inv pr' /\ in_span a.
Proof.
  intros Hi Hs Hp Hfresh Hr Ho Hg Hl.
  assert (Hfree : prj_Has id (projectIdAllocator pr) = false).
  { apply not_true_is_false. intros Hh. apply (pi_held _ Hi) in Hh as [q Hh]. by apply (Hfresh q). }
  destruct (Allocate_granted _ _ (pi_alloc _ Hi) Hs Hr Hfree) as (a & Ea & Hsa).
  pose proof (Allocate_law (projectIdAllocator pr) id _ a (pi_alloc _ Hi) Ea) as (Hwf & _ & Hid & Hhas).
  unfold limit_of in Hl. destruct (quotactl_getquota dev id w) as [dq | e] eqn:Eq; [| done]. injection Hl as <-.
  exists (u64 (d_bcount dq * BASIC_BLOCK_SIZE)), a. cbv zeta. split_and!; [| by apply provider_inv_grant | done].
  unfold xfs_GetProjectQuota, cached, bind at 1, gets. cbn. rewrite Hp.
  unfold bind at 1, on_world at 1, zoom. cbn.
  assert (Eid : getProjectId p w = (Ok id, w)) by (unfold getProjectId, bind, openDir, map_error, sys_read; by rewrite Ho, Hg).
  rewrite Eid. unfold bind at 1, on_alloc, zoom. cbn [fst snd projectIdAllocator].
  change (Allocate id (projectIdAllocator pr)) with (prj_Allocate id (projectIdAllocator pr)).
  rewrite Ea. unfold bind, set_cache, modify, on_world, zoom. cbn.
  unfold getProjectQuota, bind, map_error, sys_read, ret. by rewrite Eq.
Qed.

Lemma parse_vol_path x v w dev vols :
  tidy re w vols -> mounted re x dev w -> no_char slash v -> parseQuotaPathInfoFromDirName (vol_path re x v) = Ok v.
Proof.
  intros Ht Hm Hv. assert (Hx : normal_elem x) by (by eapply listed_normal, Hm).
  unfold vol_path. rewrite <- Join_abs_path; [| apply snoc_ne | by apply disk_normal | by apply quota_name_normal].
  apply parse_quota_path; [apply snoc_ne | by apply disk_normal | done |]. by eapply td_plain.
Qed.

(** The state of the second loop: all disks are there, and the volumes of [D] *)
Definition found vols D s : Prop :=
  knows set_disk_limits vols D s /\ forall x dev, mounted re x dev s.2 -> is_Some (diskQuotaInfos s.1 !! dev).

Lemma found_steady vols D : steady (found vols D).
Proof.
  intros m w w' Hq [Hk Hd]. split; [by eapply knows_quiet |]. cbn in *. intros x dev Hm. apply (Hd x).
  by apply (quiet_mounted re re_normal x dev w w').
Qed.

Lemma found_alter vols D f dev m w :
  (forall d, disk_DeviceName (f d) = disk_DeviceName d /\ disk_MountPoint (f d) = disk_MountPoint d) ->
  found vols D (m, w) -> found vols D (set_disks (alter f dev) m, w).
Proof.
  intros Hf [[K1 K2 K3 K4 K5 K6 K7 K8 K9] Hd]. split; [split; try done |]; cbn in *.
  - intros dev' d'. rewrite lookup_alter_Some. intros [(<- & d0 & Hd0 & ->) | [_ Hd']]; [| by apply K8].
    destruct (Hf d0) as [-> ->]. by apply K8.
  - intros x dev' Hm. specialize (Hd x dev' Hm). by rewrite lookup_alter_is_Some.
Qed.

Lemma restore_path_total vols D x v kv :
  vols !! v = Some kv -> kv_disk kv = x -> v ∉ D ->
  total (found vols D) (restore_path (kv_dev kv) (vol_path re x v)) (fun _ => found vols ({[ v ]} ∪ D)).
Proof.
  intros Hv <- HD [m w] Hf. pose proof (proj1 Hf) as [K1 K2 K3 K4 K5 K6 K7 K8 K9]. cbn in *.
  pose proof (td_stored _ _ _ K2 _ _ Hv) as [S1 S2 S3 S4 S5 S6].
  unfold restore_path. rewrite (parse_vol_path _ _ w (kv_dev kv) vols) by done. unfold bind at 1, lift.
  set (p := vol_path re (kv_disk kv) v) in *.
  assert (Hnew : quotaPathAndId (quotaProvider m) !! p = None).
  { apply eq_None_not_Some. intros [id (v' & kv' & HD' & Hv' & E & _)%K5]. assert (v = v') by (by eapply stored_path_inj). by subst v'. }
  assert (Hid : forall q, quotaPathAndId (quotaProvider m) !! q <> Some (kv_id kv)).
  { intros q (v' & kv' & HD' & Hv' & _ & E)%K5. assert (v = v') by (by eapply (td_ids _ _ _ K2)). by subst v'. }
  destruct (GetProjectQuota_new vols (quotaProvider m) w p (kv_dev kv) (kv_id kv) (kv_limit kv)) as (used & a & E & Hi & Hsp); [done.. |].
  unfold bind at 1, on_provider, zoom. cbn [fst snd].
  rewrite E. unfold with_disks, with_quotas, modify, bind, on_os, zoom. cbn [fst snd].
  set (f := fun d => disk_set_quota _ d).
  pose proof (found_alter vols D f (kv_dev kv) m w (fun d => conj eq_refl eq_refl) Hf) as Hf2.
  destruct (time_quiet w) as (now & w' & Et & Hq). rewrite Et. cbn.
  apply (found_steady vols D _ w w' Hq) in Hf2 as [[L1 L2 L3 L4 L5 L6 L7 L8 L9] Ld]. cbn in *.
  split; [split; try done |]; cbn.
  - intros q id. rewrite lookup_insert_Some, K5. split.
    + intros [[<- <-] | [_ (v' & kv' & HD' & ? & ? & ?)]]; [exists v, kv; set_solver | exists v', kv'; set_solver].
    + intros (v' & kv' & HD' & Hv' & Ep & Eid). destruct (decide (v' = v)) as [-> | Hne].
      * left. rewrite Hv in Hv'. injection Hv' as <-. done.
      * right. split; [intros E'; rewrite Ep in E'; apply Hne; symmetry; by eapply stored_path_inj |]. exists v', kv'. set_solver.
  - intros v' q. rewrite lookup_insert_Some. intros [[<- <-] | [_ (HD' & Hq')%K6]]; [| set_solver].
    split; [set_solver |]. exists kv. by split_and!.
  - intros v' kv' HD' Hv'. destruct (decide (v' = v)) as [-> | Hne]; [rewrite lookup_insert_eq; by eexists |].
    rewrite lookup_insert_ne by done. apply (K7 v' kv'); [set_solver | done].
  - exact Ld.
Qed.

(** The volumes on some devices *)
Definition on_devices vols (devs : list string) : gset string := dom (filter (fun vk => kv_dev vk.2 ∈ devs) vols).

Lemma elem_of_on_devices vols devs v : v ∈ on_devices vols devs <-> exists kv, vols !! v = Some kv /\ kv_dev kv ∈ devs.
Proof.
  unfold on_devices. rewrite elem_of_dom. split.
  - intros [kv [Hv Hd]%map_lookup_filter_Some]. by exists kv.
  - intros (kv & Hv & Hd). exists kv. by apply map_lookup_filter_Some.
Qed.

Lemma restore_paths_total vols devs dev :
  dev ∉ devs ->
  total (found vols (on_devices vols devs)) (restore_paths dev) (fun _ => found vols (on_devices vols (devs ++ [dev]))).
Proof.
  intros Hnew [m w] Hf. pose proof (proj1 Hf) as [_ K2 _ _ _ _ _ K8 _]. pose proof (proj2 Hf) as Hall. cbn in K2, K8, Hall.
  unfold restore_paths, bind at 1, gets. cbn [fst]. destruct (diskQuotaInfos m !! dev) as [d|] eqn:Hd.
  2: { cbn. replace (on_devices vols (devs ++ [dev])) with (on_devices vols devs); [done |]. apply set_eq. intros v.
    rewrite !elem_of_on_devices. split; intros (kv & Hv & Hin); exists kv; (split; [done |]); rewrite elem_of_app in *; [by left |].
    destruct Hin as [Hin | Hin%list_elem_of_singleton]; [done |].
    destruct (td_stored _ _ _ K2 _ _ Hv) as [Hm _ _ _ _ _]. destruct (Hall _ _ Hm) as [d' Hd']. rewrite Hin, Hd in Hd'. done. }
  destruct (K8 dev d Hd) as (_ & x & Hm & ->). destruct (volumes_listed vols w x dev K2 Hm) as (vs & Hnames & Hnd & Hvs).
  unfold bind at 1, on_os, zoom, gets. cbn [fst snd].
  rewrite (GetSubDirs_names (re ++ [x]) w (snoc_ne _ _) (disk_normal re re_normal x ltac:(by eapply listed_normal, Hm)) :
    GetSubDirs (disk_path re x) w = _), Hnames, map_map, for_each_map.
  assert (Hdev : forall v kv, vols !! v = Some kv -> kv_disk kv = x <-> kv_dev kv = dev).
  { intros v kv Hv. pose proof (st_mounted _ _ _ _ (td_stored _ _ _ K2 _ _ Hv)) as Hm'. split.
    - intros E. rewrite E in Hm'. by eapply mounted_dev.
    - intros E. rewrite E in Hm'. by eapply (td_dev _ _ _ K2). }
  assert (Hloop : total (found vols (on_devices vols devs)) (for_each vs (fun v => restore_path dev (vol_path re x v)))
    (fun _ => found vols (list_to_set vs ∪ on_devices vols devs))).
  { eapply hoare_weaken; [apply (total_for_each (fun pre => found vols (list_to_set pre ∪ on_devices vols devs))) | | done | done].
    - intros pre v post ->. destruct (proj1 (Hvs v)) as (kv & Hv & Hx); [apply elem_of_app; right; by left |].
      rewrite <- (proj1 (Hdev v kv Hv) Hx). eapply hoare_weaken; [apply (restore_path_total vols (list_to_set pre ∪ on_devices vols devs) x v kv Hv Hx) | | | done].
      + rewrite elem_of_union, elem_of_list_to_set, elem_of_on_devices. intros [Hin | (kv' & Hv' & Hin)].
        * apply NoDup_app in Hnd as (_ & Hnd & _). by apply (Hnd v Hin), elem_of_cons; left.
        * apply Hnew. rewrite Hv in Hv'. injection Hv' as <-. by rewrite <- (proj1 (Hdev v kv Hv) Hx).
      + done.
      + intros u s. by replace ({[ v ]} ∪ (list_to_set pre ∪ on_devices vols devs)) with (list_to_set (pre ++ [v]) ∪ on_devices vols devs) by set_solver.
    - intros s. cbv beta. by replace (list_to_set [] ∪ on_devices vols devs) with (on_devices vols devs) by set_solver. }
  specialize (Hloop (m, w) Hf). unfold bind at 1. destruct (for_each vs _ (m, w)) as [[[] | e | y] [m1 w1]]; [| done..].
  unfold with_disks, modify, bind, on_os, zoom. cbn [fst snd]. destruct (time_quiet w1) as (now & w2 & -> & Hq). cbn.
  apply (found_alter vols _ (disk_set_lastSync now)); [done |]. apply (found_steady _ _ m1 w1 w2 Hq).
  replace (on_devices vols (devs ++ [dev])) with (list_to_set vs ∪ on_devices vols devs); [done |].
  apply set_eq. intros v. rewrite elem_of_union, elem_of_list_to_set, Hvs, !elem_of_on_devices. split.
  - intros [(kv & Hv & Hx) | (kv & Hv & Hin)]; exists kv; (split; [done |]); rewrite elem_of_app; [right | by left].
    apply list_elem_of_singleton. by apply (Hdev v kv).
  - intros (kv & Hv & Hin). rewrite elem_of_app in Hin. destruct Hin as [Hin | Hin%list_elem_of_singleton]; [right | left]; exists kv; [done |].
    split; [done |]. by apply (Hdev v kv).
Qed.

Lemma restoreQuotaInfo_total vols :
  total (knows set_disk_limits vols ∅) restoreQuotaInfo (fun _ s => found vols (dom vols) s).
Proof.
  intros [m w] Hk. unfold restoreQuotaInfo, bind at 1, gets. cbn [fst]. rewrite (kn_root _ _ _ _ Hk : quotaRootPath m = _).
  unfold bind at 1, on_os, zoom, gets. cbn [fst snd].
  pose proof (total_restore_disks vols w (m, w) (conj Hk eq_refl)) as H1'.
  unfold bind at 1. destruct (for_each _ restore_disk (m, w)) as [[[] | e | y] [m1 w1]]; [| done..].
  assert (Hf : found vols (on_devices vols []) (m1, w1)).
  { replace (on_devices vols []) with (∅ : gset string); [done |]. apply set_eq. intros v. rewrite elem_of_on_devices.
    split; [set_solver |]. intros (kv & _ & Hin). by apply not_elem_of_nil in Hin. }
  unfold bind at 1, range_disks, bind at 1, gets, on_os, zoom. cbn [fst snd].
  destruct (range_order_quiet (dom (diskQuotaInfos m1)) w1) as (names & w2 & Er & Hq).
  pose proof (range_order_perm (dom (diskQuotaInfos m1)) w1) as Hperm. rewrite Er.
  unfold sys_value in Er. destruct (range_order (dom (diskQuotaInfos m1)) w1) as [names0 w0]. injection Er as -> ->. cbn in Hperm.
  apply (found_steady _ _ m1 w1 w2 Hq) in Hf.
  pose proof (total_for_each (fun pre => found vols (on_devices vols pre)) restore_paths names) as Hloop.
  specialize (Hloop ltac:(intros pre dev post E; apply restore_paths_total;
    pose proof (NoDup_elements (dom (diskQuotaInfos m1))) as Hnd; rewrite <- Hperm, E in Hnd;
    apply NoDup_app in Hnd as (_ & Hnd & _); intros Hin; by apply (Hnd dev Hin), elem_of_cons; left) (m1, w2) Hf).
  destruct (for_each names restore_paths (m1, w2)) as [[[] | e | y] [m3 w3]]; [| done..].
  replace (dom vols) with (on_devices vols names); [exact Hloop |].
  apply set_eq. intros v. rewrite elem_of_on_devices, elem_of_dom. split; [intros (kv & ? & _); by eexists |].
  intros [kv Hv]. exists kv. split; [done |]. rewrite Hperm, elem_of_elements, elem_of_dom.
  pose proof (st_mounted _ _ _ _ (td_stored _ _ _ (kn_tidy _ _ _ _ (proj1 Hf)) _ _ Hv)) as Hm.
  by apply (proj2 Hf _ _ Hm).
Qed.

(** A start on tidy disks gives the real manager, which knows all the volumes. *)
Lemma start_knows seed w vols :
  CheckDirExists (abs_path re) w = true -> tidy re w vols ->
  exists m w', NewXfsQuotaManager seed (abs_path re) w = (Ok (inl m), w') /\ found vols (dom vols) (m, w').
Proof.
  intros Hroot Ht. unfold NewXfsQuotaManager. rewrite Hroot, Clean_abs_path by done. cbn [negb].
  set (m0 := mkXFSQuotaManager _ _ _ _ _).
  assert (Hk : knows set_disk_limits vols ∅ (m0, w)).
  { split; cbn; try done.
    - apply fresh_provider_inv.
    - intros p id. rewrite lookup_empty. split; [done |]. intros (v & kv & Hv & _). set_solver. }
  pose proof (restoreQuotaInfo_total vols (m0, w) Hk) as Hr.
  destruct (restoreQuotaInfo (m0, w)) as [[[] | e | y] [m w']]; [| done..]. by exists m, w'.
Qed.

(** C13: A restart finds the volumes: when the disks below the root hold the directories
    of some volumes, each with its own project id and with limits, and nothing else, the
    start gives the real manager; it has exactly these volumes, each with its directory,
    device and limits, exactly the mounted disks, and exactly their project ids taken. *)
Theorem restart_finds_volumes seed w vols :
  CheckDirExists (abs_path re) w = true -> tidy re w vols ->
  exists m w', NewXfsQuotaManager seed (abs_path re) w = (Ok (inl m), w') /\
  (forall v, match vols !! v with
   | Some kv => exists q, quotas m !! v = Some q /\ path_Path q = vol_path re (kv_disk kv) v /\
       path_DeviceName q = kv_dev kv /\ HardQuota (path_Quota q) = u64 (fst (kv_limit kv) * BASIC_BLOCK_SIZE) /\
       SoftQuota (path_Quota q) = u64 (snd (kv_limit kv) * BASIC_BLOCK_SIZE)
   | None => quotas m !! v = None
   end) /\
  (forall dev, is_Some (diskQuotaInfos m !! dev) <-> exists x, mounted re x dev w') /\
  (forall id, Has id (projectIdAllocator (quotaProvider m)) = true <-> exists v kv, vols !! v = Some kv /\ kv_id kv = id).
Proof.
  intros Hroot Ht. destruct (start_knows seed w vols Hroot Ht) as (m & w' & E & [[K1 K2 K3 K4 K5 K6 K7 K8 K9] Hd]).
  exists m, w'. cbn in K3, K5, K6, K7, K8, Hd. split_and!; [done | | |].
  - intros v. destruct (vols !! v) as [kv|] eqn:Hv.
    + destruct (K7 v kv) as [q Hq]; [by eapply elem_of_dom_2 | done |]. exists q.
      destruct (K6 v q Hq) as (_ & kv' & Hv' & Hp & Hdev & Hh & Hs). rewrite Hv in Hv'. injection Hv' as <-. done.
    + apply eq_None_not_Some. intros [q (_ & kv & Hv' & _)%K6]. congruence.
  - intros dev. split; [intros [d (_ & x & Hx & _)%K8]; by exists x | intros [x Hx]; by apply (Hd x)].
  - intros id. rewrite (pi_held _ K3). setoid_rewrite K5. split.
    + intros (p & v & kv & _ & Hv & _ & ->). by exists v, kv.
    + intros (v & kv & Hv & <-). exists (vol_path re (kv_disk kv) v), v, kv. split_and!; try done. by eapply elem_of_dom_2.
Qed.

(** ** A directory that is no volume's *)


Section stray.
Context (w0 : W) (dev x : string).
Context (Hx : x ∈ names_in re w0) (Hmount : IsLikelyNotMountPoint (disk_path re x) w0 = inl false).
Context (Hdev : GetDevForPath (disk_path re x) w0 = (Ok dev, w0)).
Context (Hone : forall y, y ∈ names_in re w0 -> IsLikelyNotMountPoint (disk_path re y) w0 = inl false ->
  GetDevForPath (disk_path re y) w0 = (Ok dev, w0) -> y = x).

(** What holds all along a start: the files are as they were, the provider knows only
    directories whose project id is in its span, and the device is the disk's. *)
Record starting s : Prop := {
  sg_quiet : quiet w0 s.2;
  sg_wf : prj_wf (projectIdAllocator (quotaProvider s.1));
  sg_cache p id : quotaPathAndId (quotaProvider s.1) !! p = Some id ->
    ioctl_getprojid p w0 = inl id /\ is_Some (contains (projectIdAllocator (quotaProvider s.1)) id);
  sg_span : in_span (projectIdAllocator (quotaProvider s.1));
  sg_disk d : diskQuotaInfos s.1 !! dev = Some d -> disk_MountPoint d = disk_path re x
}.
Definition has_disk s : Prop := is_Some (diskQuotaInfos s.1 !! dev).

Lemma IsMountPoint_reads mp (m : XFSQuotaManager Prov) w :
  attempt (on_os (IsMountPoint mp)) (m, w) =
  (Ok (match IsLikelyNotMountPoint mp w with inl b => inl (negb b) | inr e => inr (StatusError Internal (error_text e)) end), (m, w)).
Proof. unfold attempt, on_os, zoom, IsMountPoint, bind, attempt, sys_read. cbn. by destruct (IsLikelyNotMountPoint mp w). Qed.

Lemma GetDev_reads p w r w' : GetDevForPath p w = (r, w') -> w' = w.
Proof.
  unfold GetDevForPath, bind, sys_read. destruct (unix_Lstat _ w); [| by intros [= _ <-]].
  destruct (mountinfo_lines w); [| by intros [= _ <-]]. destruct (scan_mountinfo _ _ _); by intros [= _ <-].
Qed.

Lemma DiskInfo_same mp (pr : Prov) w r t : xfs_GetQuotaDiskInfo mp (pr, w) = (r, t) -> t = (pr, w).
Proof.
  unfold xfs_GetQuotaDiskInfo, map_error, on_world, zoom, bind, sys_read. cbn. destruct (syscall_Statfs mp w); by intros [= _ <-].
Qed.

(** A round of the first loop: nothing happens, or the disk of the path is entered. *)
Lemma restore_disk_Ok mp m w s' :
  restore_disk mp (m, w) = (Ok tt, s') ->
  (s' = (m, w) /\ IsLikelyNotMountPoint mp w <> inl false) \/
  exists dev' d w', IsLikelyNotMountPoint mp w = inl false /\ GetDevForPath mp w = (Ok dev', w) /\ disk_MountPoint d = mp /\
    s' = (set_disks <[dev' := d]> m, w') /\ quiet w w'.
Proof.
  intros E. unfold restore_disk in E. unfold bind at 1 in E. rewrite IsMountPoint_reads in E.
  destruct (IsLikelyNotMountPoint mp w) as [[] | e] eqn:Hm; cbn [negb] in E; [left; by injection E as <- | | left; by injection E as <-].
  right. apply bind_Ok in E as (dev' & s1 & E1 & E). unfold on_os, zoom in E1. cbn in E1.
  destruct (GetDevForPath mp w) as [[dev1 | e | y] w1] eqn:Ed; [| done..]. injection E1 as <- <-. apply GetDev_reads in Ed as Hw. subst w1.
  apply bind_Ok in E as (b & s2 & E2 & E). unfold on_provider, zoom in E2. cbn [fst snd] in E2.
  destruct (Supported_reads mp dev1 (quotaProvider m) w) as [b' Eb]. cbn in E2. rewrite Eb in E2. injection E2 as <- <-. cbn in E.
  apply bind_Ok in E as (quota & s3 & E3 & E). unfold on_provider, zoom in E3. cbn in E3.
  destruct (xfs_GetQuotaDiskInfo mp (quotaProvider m, w)) as [rq sq] eqn:Eq. apply DiskInfo_same in Eq as ->. injection E3 as -> <-.
  apply bind_Ok in E as (dis & s4 & E4 & E). unfold on_os, zoom in E4. cbn in E4.
  destruct (get_disable_quiet mp w) as (b2 & w4 & Ew & Hq). rewrite Ew in E4. injection E4 as <- <-.
  unfold with_disks, modify in E. injection E as <-. eexists dev1, _, w4. split_and!; [done | done | | | done]; [| by destruct m]. done.
Qed.

Lemma starting_quiet m w w' : quiet w w' -> starting (m, w) -> starting (m, w').
Proof. intros Hq [S1 S2 S3 S4 S5]. split; try done. cbn in *. by transitivity w. Qed.

Lemma restore_disk_starting y : y ∈ names_in re w0 -> ok_keeps starting (restore_disk (disk_path re y)).
Proof.
  intros Hy [m w] [] s' Hs E. pose proof (sg_quiet _ Hs) as Hq. cbn in Hq.
  apply restore_disk_Ok in E as [[-> _] | (dev' & d & w' & Hm & Hd & Hmp & -> & Hq')]; [done |].
  pose proof (starting_quiet _ _ _ Hq' Hs) as [S1 S2 S3 S4 S5]. split; try done. cbn. intros d'.
  rewrite lookup_insert_Some. intros [[-> <-] | [_ Hd']]; [| by apply S5].
  rewrite Hmp. f_equal. apply Hone; [done | |].
  - by rewrite <- (sp_mount _ _ _ (se_path _ _ _ _ _ Hq (disk_path re y) I)).
  - apply same_except_sym in Hq. eapply GetDev_same; [| | exact Hd]; [apply (se_path _ _ _ _ _ Hq _ I) | apply Hq].
Qed.

Lemma restore_disk_has y : y ∈ names_in re w0 -> ok_keeps (fun s => starting s /\ has_disk s) (restore_disk (disk_path re y)).
Proof.
  intros Hy s [] s' [Hs Hd] E. split; [by eapply (restore_disk_starting y Hy s tt) |]. destruct s as [m w].
  apply restore_disk_Ok in E as [[-> _] | (dev' & d & w' & _ & _ & _ & -> & _)]; [done |]. unfold has_disk. cbn.
  destruct (decide (dev' = dev)) as [-> | Hne]; [rewrite lookup_insert_eq; by eexists | by rewrite lookup_insert_ne].
Qed.

Lemma restore_disk_enters s s' : starting s -> restore_disk (disk_path re x) s = (Ok tt, s') -> has_disk s'.
Proof.
  destruct s as [m w]. intros Hs E. pose proof (sg_quiet _ Hs) as Hq. cbn in Hq.
  assert (Hm : IsLikelyNotMountPoint (disk_path re x) w = inl false) by (by rewrite (sp_mount _ _ _ (se_path _ _ _ _ _ Hq (disk_path re x) I))).
  apply restore_disk_Ok in E as [[_ Hno] | (dev' & d & w' & _ & Hd & _ & -> & _)]; [done |].
  assert (E : GetDevForPath (disk_path re x) w = (Ok dev, w)) by 
    (eapply GetDev_same; [apply (sp_lstat _ _ _ (se_path _ _ _ _ _ Hq _ I)) | apply (se_mountinfo _ _ _ _ _ Hq) | exact Hdev]).
  rewrite Hd in E. injection E as ->. unfold has_disk. cbn. rewrite lookup_insert_eq. by eexists.
Qed.

Lemma on_provider_inv {B} (c : M (Prov * W) B) m w r s :
  on_provider c (m, w) = (r, s) -> exists pr' w', c (quotaProvider m, w) = (r, (pr', w')) /\ s = (set_provider pr' m, w').
Proof.
  unfold on_provider, zoom. cbn. destruct (c (quotaProvider m, w)) as [r' [pr' w']]. intros [= -> <-]. by exists pr', w'.
Qed.

(** Reading the quota of a directory: its project is in the span. *)
Lemma GetProjectQuota_Ok (pr : Prov) w p dev' q pr' w' :
  prj_wf (projectIdAllocator pr) -> xfs_GetProjectQuota p dev' (pr, w) = (Ok q, (pr', w')) ->
  w' = w /\ (pr' = pr /\ is_Some (quotaPathAndId pr !! p) \/
    exists id a, ioctl_getprojid p w = inl id /\ is_Some (contains (projectIdAllocator pr) id) /\ prj_wf a /\
      PrjIdStart a = PrjIdStart (projectIdAllocator pr) /\ MaxPrjIdNum a = MaxPrjIdNum (projectIdAllocator pr) /\
      pr' = mkQuotaVolumeProvider a (<[p := id]> (quotaPathAndId pr))).
Proof.
  intros Hwf E. unfold xfs_GetProjectQuota, cached in E. unfold bind at 1, gets in E. cbn [fst] in E.
  assert (Hread : forall id pr1, on_world (A := ProjectIDAllocator R) (getProjectQuota dev' id) (pr1, w) = (Ok q, (pr', w')) -> pr' = pr1 /\ w' = w).
  { intros id pr1 Er. unfold on_world, zoom, getProjectQuota, bind, map_error, sys_read, ret in Er. cbn in Er.
    destruct (quotactl_getquota dev' id w); [| done]. by injection Er as _ <- <-. }
  destruct (quotaPathAndId pr !! p) as [id|] eqn:Hp; [apply Hread in E as [-> ->]; split; [done | left; by split; [| eexists]] |].
  apply bind_Ok in E as (id & s1 & E1 & E). unfold on_world, zoom, getProjectId, bind, openDir, map_error, sys_read in E1. cbn in E1.
  destruct (opendir p w); [done |]. destruct (ioctl_getprojid p w) as [id' | e] eqn:Hg; [| done]. injection E1 as -> <-.
  apply bind_Ok in E as ([] & s2 & E2 & E). unfold on_alloc, zoom in E2. cbn [fst snd] in E2.
  change (Allocate id) with (prj_Allocate (R := R) id) in E2.
  destruct (prj_Allocate id (projectIdAllocator pr)) as [ra a] eqn:Ea. injection E2 as -> <-.
  apply bind_Ok in E as ([] & s3 & E3 & E). unfold set_cache, modify in E3. injection E3 as <-. cbn in E.
  apply Hread in E as [-> ->]. split; [done |]. right. exists id, a.
  pose proof (prj_Allocate_spec _ _ _ _ Hwf Ea) as [Hwf' _]. unfold prj_Allocate, bind, gets, zoom in Ea. cbn in Ea.
  destruct (contains (projectIdAllocator pr) id) as [off|] eqn:Hc; [| done].
  split_and!; [done | by eexists | done | | | done]; destruct (bm_Allocate off _) as [[[] | |] ?]; cbn in Ea; unfold ret, fail in Ea; by simplify_eq.
Qed.

Lemma restore_path_starting dev' p : ok_keeps starting (restore_path dev' p).
Proof.
  intros [m w] [] s' Hs E. unfold restore_path in E. apply bind_Ok in E as (v & s1 & E1 & E). unfold lift in E1. injection E1 as _ <-.
  apply bind_Ok in E as (quota & s2 & E2 & E). apply on_provider_inv in E2 as (pr' & w' & Eq & ->).
  pose proof Hs as [S1 S2 S3 S4 S5]. cbn in S1, S2, S3, S4, S5.
  apply GetProjectQuota_Ok in Eq as [-> Hpr]; [| done].
  assert (Hs2 : starting (set_provider pr' m, w)).
  { destruct Hpr as [[-> _] | (id & a & Hg & Hc & Hwf & Ha1 & Ha2 & ->)]; [split; done |]. split; try done; cbn.
    - intros q i. assert (Hca : forall j, contains a j = contains (projectIdAllocator (quotaProvider m)) j) by (intros j; unfold contains; by rewrite Ha1, Ha2).
      rewrite Hca, lookup_insert_Some. intros [[<- <-] | [_ Hq]]; [| by apply S3].
      split; [| done]. by rewrite <- (sp_id _ _ _ (se_path _ _ _ _ _ S1 p I)).
    - unfold in_span. by rewrite Ha1, Ha2. }
  unfold with_disks, with_quotas, modify, bind, on_os, zoom in E. cbn [fst snd] in E.
  destruct (time_quiet w) as (now & w2 & Et & Hq). rewrite Et in E. injection E as <-.
  apply (starting_quiet _ _ _ Hq) in Hs2 as [L1 L2 L3 L4 L5]. split; try done. cbn. intros d.
  destruct (decide (dev' = dev)) as [-> | Hne]; [rewrite lookup_alter_eq | rewrite lookup_alter_ne by done; apply L5].
  intros (d0 & Hd0 & ->)%fmap_Some. exact (L5 d0 Hd0).
Qed.

Lemma restore_paths_keeps y : ok_keeps (fun s => starting s /\ has_disk s) (restore_paths y).
Proof.
  assert (Hp : forall p, ok_keeps (fun s => starting s /\ has_disk s) (restore_path y p)).
  { intros p s [] s' [Hs Hh] E. split; [by eapply (restore_path_starting y p s tt) |].
    unfold restore_path in E. apply bind_Ok in E as (v & s1 & E1 & E). unfold lift in E1. injection E1 as _ <-.
    apply bind_Ok in E as (quota & s2 & E2 & E).
    assert (Hh2 : has_disk s2).
    { destruct s as [m1 w1]. by apply on_provider_inv in E2 as (pr' & w' & _ & ->). }
    destruct s2 as [m2 w2]. unfold with_disks, with_quotas, modify, bind, on_os, zoom, sys_value in E. cbn [fst snd] in E.
    destruct (time_Now w2) as [now w3]. injection E as <-. unfold has_disk in *. cbn in *. by rewrite lookup_alter_is_Some. }
  intros [m w] [] s' Hs E. unfold restore_paths in E. apply bind_Ok in E as (o & s1 & E1 & E). injection E1 as <- <-.
  destruct (diskQuotaInfos m !! y) as [d|]; [| by injection E as <-].
  apply bind_Ok in E as (dirs & s2 & E2 & E). injection E2 as _ <-. apply bind_Ok in E as ([] & s3 & E3 & E).
  assert (H3' : starting s3 /\ has_disk s3).
  { clear E. revert Hs E3. generalize (m, w). induction dirs as [|p dirs IH]; intros t Ht E3; cbn [for_each] in E3; [by injection E3 as <- |].
    apply bind_Ok in E3 as ([] & t1 & Et & E3). eapply IH; [| exact E3]. by apply (Hp p t tt t1). }
  destruct s3 as [m3 w3]. unfold with_disks, modify, bind, on_os, zoom in E. cbn [fst snd] in E.
  destruct (time_quiet w3) as (now & w4 & Et & Hq). rewrite Et in E. injection E as <-.
  destruct H3' as [Hs3 Hh3]. apply (starting_quiet _ _ _ Hq) in Hs3 as [L1 L2 L3 L4 L5]. split.
  - split; try done. cbn. intros d'. destruct (decide (y = dev)) as [-> | Hne]; [rewrite lookup_alter_eq | rewrite lookup_alter_ne by done; apply L5].
    intros (d0 & Hd0 & ->)%fmap_Some. exact (L5 d0 Hd0).
  - unfold has_disk in *. cbn in *. by rewrite lookup_alter_is_Some.
Qed.

(** No start gets past a directory of the disk whose project id is out of the span. *)
Lemma stray_stops n id :
  n ∈ names_in (re ++ [x]) w0 -> ioctl_getprojid (abs_path ((re ++ [x]) ++ [n])) w0 = inl id ->
  ~ (ProjectIdStart <= id < ProjectIdStart + ProjectIdNum) ->
  forall s s', starting s -> has_disk s -> restore_paths dev s <> (Ok tt, s').
Proof.
  intros Hn Hg Hid [m w] s' Hs [d Hd] E. unfold restore_paths, bind at 1, gets in E. cbn [fst] in E. cbn in Hd.
  rewrite Hd, (sg_disk _ Hs d Hd) in E. apply bind_Ok in E as (dirs & s1 & E1 & E). injection E1 as <- <-.
  apply bind_Ok in E as ([] & s2 & E2 & _). pose proof (sg_quiet _ Hs) as Hq. cbn in Hq.
  assert (Hnx : normal_elem x) by (by eapply listed_normal).
  rewrite (GetSubDirs_names (re ++ [x]) w (snoc_ne _ _) (disk_normal re re_normal x Hnx) : GetSubDirs (disk_path re x) w = _) in E2.
  assert (Hnames : names_in (re ++ [x]) w = names_in (re ++ [x]) w0) by (unfold names_in; by rewrite (se_readdir _ _ _ _ _ Hq _ I I)).
  rewrite Hnames, for_each_map in E2.
  destruct (for_each_at starting (fun _ => False) (fun n => restore_path dev (abs_path ((re ++ [x]) ++ [n]))) (names_in (re ++ [x]) w0) n (m, w) s2
    (fun y _ => restore_path_starting _ _)) as [_ []]; [| | exact Hn | exact Hs | exact E2].
  { intros y _ s a s'' [_ []]. }
  clear m w Hs Hd E2 Hq Hnames s2. intros [m w] s2 Hs E.
  unfold restore_path in E. apply bind_Ok in E as (v & s1 & E1 & E). unfold lift in E1. injection E1 as _ <-.
  apply bind_Ok in E as (quota & s3 & E3 & _). apply on_provider_inv in E3 as (pr' & w' & Eq & ->).
  set (p := abs_path _) in *. destruct Hs as [S1 S2 S3 S4 S5]. cbn in S1, S2, S3, S4.
  assert (Hspan : ~ is_Some (contains (projectIdAllocator (quotaProvider m)) id)).
  { intros [off Hc]. apply contains_Some in Hc as [-> Hoff]; [| done]. destruct S4 as [Ha Hb]. rewrite Ha, Hb in *. lia. }
  apply GetProjectQuota_Ok in Eq as [_ [[_ [id' Hc]] | (id' & a & Hg' & Hc & _)]]; [| | done].
  - apply S3 in Hc as [Hg' Hc]. rewrite Hg in Hg'. injection Hg' as <-. done.
  - rewrite (sp_id _ _ _ (se_path _ _ _ _ _ S1 p I)), Hg in Hg'. injection Hg' as <-. done.
Qed.
End stray.

(** C30: One directory that is no volume's disables the node: when a disk is the only one
    of the pool that is mounted from its device, and a directory of it, say lost+found, has
    no project id of the manager's span, no start - whatever volumes are on the disks -
    gives the real manager: each falls back to the one that refuses all calls, or panics,
    as it does on the name of a directory that is the bare prefix of the names of volumes. *)
Theorem stray_directory_disables seed w dev x n id :
  x ∈ names_in re w -> IsLikelyNotMountPoint (disk_path re x) w = inl false -> GetDevForPath (disk_path re x) w = (Ok dev, w) ->
  (forall y, y ∈ names_in re w -> IsLikelyNotMountPoint (disk_path re y) w = inl false ->
     GetDevForPath (disk_path re y) w = (Ok dev, w) -> y = x) ->
  n ∈ names_in (re ++ [x]) w -> ioctl_getprojid (abs_path ((re ++ [x]) ++ [n])) w = inl id ->
  ~ (ProjectIdStart <= id < ProjectIdStart + ProjectIdNum) ->
  exists r w', NewXfsQuotaManager seed (abs_path re) w = (r, w') /\ (r = Ok (inr mkFakeQuotaManager) \/ exists y, r = Panic y).
Proof.
  intros Hx Hm Hd Hone Hn Hg Hid. unfold NewXfsQuotaManager. rewrite Clean_abs_path by done.
  destruct (negb _); [by eauto |]. set (m0 := mkXFSQuotaManager _ _ _ _ _).
  destruct (restoreQuotaInfo (m0, w)) as [[[] | e | y] [m w1]] eqn:Er; [exfalso | by eauto 6 ..].
  apply bind_Ok in Er as (root & s1 & E1 & Er). injection E1 as <- <-.
  apply bind_Ok in Er as (dirs & s2 & E2 & Er). injection E2 as <- <-. apply bind_Ok in Er as ([] & s3 & E3 & Er).
  change (quotaRootPath m0) with (abs_path re) in E3. rewrite GetSubDirs_names, for_each_map in E3 by done.
  assert (H0' : starting w dev x (m0, w)).
  { split; cbn; [reflexivity | apply (NewAllocator_wf seed); unfold ProjectIdStart, ProjectIdNum; lia | | done |];
      intros *; by rewrite lookup_empty. }
  destruct (for_each_at (starting w dev x) (has_disk dev) (fun y => restore_disk (disk_path re y)) (names_in re w) x (m0, w) s3
    (fun y Hy => restore_disk_starting w dev x Hone y Hy) (fun y Hy => restore_disk_has w dev x Hone y Hy)
    (restore_disk_enters w dev x Hm Hd) Hx H0' E3) as [Hs Hh].
  apply bind_Ok in Er as (names & s4 & E4 & Er). destruct s3 as [m3 w3]. unfold range_disks, bind, gets, on_os, zoom in E4. cbn in E4.
  destruct (range_order_quiet (dom (diskQuotaInfos m3)) w3) as (names' & w4 & Eo & Hq). rewrite Eo in E4. injection E4 as <- <-.
  pose proof (range_order_perm (dom (diskQuotaInfos m3)) w3) as Hperm. unfold sys_value in Eo.
  destruct (range_order (dom (diskQuotaInfos m3)) w3) as [names0 w0]. injection Eo as -> ->. cbn in Hperm.
  apply (starting_quiet _ _ _ m3 w3 w4 Hq) in Hs.
  assert (Hin : dev ∈ names') by (rewrite Hperm, elem_of_elements, elem_of_dom; exact Hh).
  assert (Hkeep : forall y, ok_keeps (fun s => starting w dev x s /\ has_disk dev s) (restore_paths y)) by apply restore_paths_keeps.
  destruct (for_each_at (fun s => starting w dev x s /\ has_disk dev s) (fun _ => False) restore_paths names' dev (m3, w4) (m, w1)
    (fun y _ => Hkeep y)) as [_ []]; [| | done | done | exact Er].
  - intros y _ s a s' [_ []].
  - intros t1 t2 [Ht1 Ht2] Et. by apply (stray_stops w dev x Hx n id Hn Hg Hid t1 t2).
Qed.
End restore.
