(* ===== verification/Tidy.v ===== *)
(** * What calls do to tidy disks

    The disks of a pool stay tidy when a volume's directory is made and gets a project, when
    it is removed, and when a placement fails and its directory is removed again; calls for
    paths outside of the pool change nothing there. *)

From stdpp Require Import pretty.
From S2P Require Import Prelude GoStrings Os Util FileSystem QuotaManager Recovery.
Open Scope Z_scope.
Open Scope go_scope.

(** ** What the calls do to the disks *)

Section disks.
Context {W : Type} `{FileLaws W}.
Context (re : list string) (re_ne : re <> []) (re_normal : Forall normal_elem re).
Implicit Types (w : W) (x v dev : string) (vols : gmap string KernelVolume).

Lemma same_except_weaken (keep keep' listing listing' : string -> Prop) (lim lim' : string -> Z -> Prop) w w' :
  same_except keep listing lim w w' -> (forall q, keep' q -> keep q) -> (forall q, listing' q -> listing q) ->
  (forall dev id, lim' dev id -> lim dev id) -> same_except keep' listing' lim' w w'.
Proof. intros [P R M L F] Hk Hl Hlim. split; auto. Qed.

Lemma same_except_trans keep listing lim w1 w2 w3 :
  same_except keep listing lim w1 w2 -> same_except keep listing lim w2 w3 -> same_except keep listing lim w1 w3.
Proof.
  intros [P1 R1 M1 L1 F1] [P2 R2 M2 L2 F2]. split.
  - intros q Hq. destruct (P1 q Hq) as [A1 B1 C1 D1 E1 G1], (P2 q Hq) as [A2 B2 C2 D2 E2 G2]. split; [congruence.. | tauto].
  - intros q Hq Hl. by rewrite R2, R1.
  - by rewrite M2.
  - intros dev id Hl. by rewrite L2, L1.
  - intros q. by rewrite F2, F1.
Qed.

Lemma quiet_same keep listing lim w w' : quiet w w' -> same_except keep listing lim w w'.
Proof. intros Hq. by eapply same_except_weaken. Qed.

Lemma vol_normal x v : normal_elem x -> no_char slash v -> Forall normal_elem ((re ++ [x]) ++ [getQuotaPathName v]).
Proof. intros Hx Hv. apply Forall_app. split; [by apply disk_normal |]. apply Forall_singleton. by apply quota_name_normal. Qed.

Lemma vol_path_normal x v : normal_elem x -> no_char slash v -> normal_path (vol_path re x v).
Proof. intros Hx Hv. apply normal_abs_path; [apply snoc_ne | by apply vol_normal]. Qed.

Lemma other_disk x v : normal_elem x -> other (vol_path re x v) (disk_path re x).
Proof. intros Hx. split; [apply normal_abs_path; [apply snoc_ne | by apply disk_normal] | by apply abs_path_ne, snoc_ne]. Qed.

(** The root and the disks are not a volume's directory, nor below one. *)
Lemma not_at_or_below es x v :
  es <> [] -> Forall normal_elem es -> (length es <= S (length re))%nat -> normal_elem x -> no_char slash v ->
  beside (vol_path re x v) (abs_path es).
Proof.
  intros Hne Hes Hlen Hx Hv. split.
  - split; [by apply normal_abs_path |]. intros E. apply abs_path_inj in E; [| done | apply snoc_ne | done | by apply vol_normal]. subst es.
    rewrite !length_app in Hlen. cbn in Hlen. lia.
  - intros (l & Hl & ->)%below_abs_path; [| apply snoc_ne | done | by apply vol_normal | done].
    rewrite !length_app in Hlen. destruct l; [done |]. cbn in Hlen. lia.
Qed.

Lemma disk_path_inj x x' : normal_elem x -> normal_elem x' -> disk_path re x = disk_path re x' -> x = x'.
Proof.
  intros Hx Hx' E. apply abs_path_inj in E; [| apply snoc_ne.. | by apply disk_normal | by apply disk_normal].
  by apply app_inj_tail in E as [_ ->].
Qed.

(** The change of the world by a call that makes or removes the directory of [v] on
    disk [x], as far as the other volumes are concerned *)
Record around x v (lim : string -> Z -> Prop) w w' : Prop := {
  ar_same : same_except (beside (vol_path re x v)) (fun q => q <> disk_path re x) lim w w'
}.

(** The directories of the pool can be removed. *)
Definition clearable w : Prop := forall q, normal_path q -> below (abs_path re) q -> removable q w.

Lemma clearable_same keep listing lim w w' : same_except keep listing lim w w' -> clearable w -> clearable w'.
Proof. intros Hs Hc q Hn Hq. apply (se_removable _ _ _ _ _ Hs). by apply Hc. Qed.

(** The disks are mounted as before, the root is there, and what could be removed still can. *)
Definition settled w w' : Prop :=
  (forall y dev, mounted re y dev w' <-> mounted re y dev w) /\ os_Stat (abs_path re) w' = os_Stat (abs_path re) w /\
  (clearable w -> clearable w').

Section one_volume.
Context (x v : string) (lim : string -> Z -> Prop) (w w' : W).
Context (Hx : normal_elem x) (Hv : no_char slash v) (Har : around x v lim w w').

Lemma around_root : names_in re w' = names_in re w.
Proof.
  destruct Har as [[P R M L F]]. unfold names_in. rewrite R; [done | apply not_at_or_below; auto |].
  by apply abs_path_ne.
Qed.

Lemma around_mounted y dev : mounted re y dev w' <-> mounted re y dev w.
Proof.
  destruct Har as [Hs]. pose proof (same_except_sym _ _ _ _ _ Hs) as Hs'.
  assert (Hk : forall es, es <> [] -> Forall normal_elem es -> (length es <= S (length re))%nat ->
    beside (vol_path re x v) (abs_path es)) by (intros; by apply not_at_or_below).
  assert (Hr : abs_path re <> disk_path re x) by (by apply abs_path_ne).
  assert (Hy : forall u, mounted re y dev u -> beside (vol_path re x v) (disk_path re y)).
  { intros u Hu. apply Hk; [apply snoc_ne | apply disk_normal; [done | by eapply listed_normal, Hu] | rewrite length_app; cbn; lia]. }
  split; intros Hm; (eapply (mounted_same re re_normal); [exact Hs' || exact Hs | apply Hk; auto | exact Hr | by eapply Hy | exact Hm]).
Qed.

Lemma around_settled : settled w w'.
Proof.
  destruct Har as [Hsame]. pose proof Hsame as [P R M L F].
  split; [intros y dev; by apply around_mounted |]. split; [| by eapply clearable_same].
  apply (sp_stat _ _ _ (P (abs_path re) (not_at_or_below re x v re_ne re_normal ltac:(lia) Hx Hv))).
Qed.

Lemma around_stored u kv :
  stored re u kv w -> vol_path re (kv_disk kv) u <> vol_path re x v -> lim (kv_dev kv) (kv_id kv) -> stored re u kv w'.
Proof.
  intros Hst Hne Hl. pose proof (stored_normal re u kv w Hst) as [Hnx Hnu]. destruct Hst as [S1 S2 S3 S4 S5 S6].
  destruct Har as [[P R M L F]].
  assert (Hk : ~ below (vol_path re x v) (vol_path re (kv_disk kv) u)).
  { intros (l & Hl' & E)%below_abs_path; [| apply snoc_ne.. | by apply vol_normal | by apply vol_normal].
    apply (f_equal length) in E. rewrite !length_app in E. destruct l; [done |]. cbn in E. lia. }
  pose proof (vol_path_normal (kv_disk kv) u Hnx Hnu) as Hn.
  pose proof (P _ (conj (conj Hn Hne) Hk)) as [_ Po Pi _ _ _].
  split; [by apply around_mounted | congruence | congruence | by rewrite L | done | done].
Qed.

(** The disks stay tidy for the volumes [vols'], if the directory of disk [x] and the
    volume [v] are right. *)
Lemma around_tidy vols vols' :
  tidy re w vols ->
  (forall u, u <> v -> vols' !! u = vols !! u) ->
  (forall u kv, u <> v -> vols !! u = Some kv -> lim (kv_dev kv) (kv_id kv)) ->
  (forall dev, mounted re x dev w -> exists dir, ioutil_ReadDir (disk_path re x) w' = inl dir /\ Forall (is_volume_dir vols' x) dir) ->
  (forall y dir, y <> x -> Forall (is_volume_dir vols y) dir -> Forall (is_volume_dir vols' y) dir) ->
  (forall kv, vols' !! v = Some kv -> stored re v kv w' /\ forall u ku, u <> v -> vols !! u = Some ku -> kv_id ku <> kv_id kv) ->
  tidy re w' vols'.
Proof.
  intros [T1 T2 T3 T4 T5 T6] Hu Hlim Hdir Hother Hnew. destruct Har as [[P R M L F]]. split.
  - intros y Hy. rewrite around_root in Hy. assert (Hny : normal_elem y) by (by eapply listed_normal).
    destruct (T1 y Hy) as [[dev Hd] | Hd]; [left; exists dev; by apply around_mounted | right].
    rewrite (sp_mount _ _ _ (P (disk_path re y) (not_at_or_below (re ++ [y]) x v (snoc_ne _ _) (disk_normal re re_normal y Hny) ltac:(rewrite length_app; cbn; lia) Hx Hv))). done.
  - intros y y' dev. rewrite !around_mounted. apply T2.
  - intros y dev. rewrite around_mounted. apply T3.
  - intros y dev. rewrite around_mounted. intros Hm. destruct (decide (y = x)) as [-> | Hne]; [by eapply Hdir |].
    assert (Hny : normal_elem y) by (by eapply listed_normal, Hm).
    destruct (T4 y dev Hm) as (dir & Hd & Hall). exists dir. split; [| by apply Hother].
    rewrite R; [done | | intros E; by apply Hne, disk_path_inj].
    apply not_at_or_below; [apply snoc_ne | by apply disk_normal | rewrite length_app; cbn; lia | done..].
  - intros u kv Hkv. destruct (decide (u = v)) as [-> | Hne]; [by apply Hnew |]. rewrite Hu in Hkv by done.
    pose proof (T5 u kv Hkv) as Hst. apply around_stored; [done | | by apply (Hlim u)].
    intros E. destruct (stored_normal re u kv w Hst). apply vol_path_inj in E as [_ ?]; done.
  - intros u u' kv kv' Hkv Hkv' E. destruct (decide (u = v)) as [-> | Hne], (decide (u' = v)) as [-> | Hne']; [done | | |].
    + rewrite Hu in Hkv' by done. destruct (Hnew kv Hkv) as [_ Hid]. by destruct (Hid u' kv' Hne' Hkv').
    + rewrite Hu in Hkv by done. destruct (Hnew kv' Hkv') as [_ Hid]. by destruct (Hid u kv Hne Hkv).
    + rewrite Hu in Hkv, Hkv' by done. by eapply T6.
Qed.
End one_volume.

(** The directory of a new volume is there, or has just been made. *)
Definition dir_ready x v w w1 : Prop :=
  quiet w w1 \/ exists wa e mode, quiet w wa /\ os_Stat (vol_path re x v) wa = Some e /\ IsNotExist e = true /\
    os_MkdirAll (vol_path re x v) mode wa = (None, w1).

Lemma entries_grow vols x y dir v kv :
  vols !! v = None -> Forall (is_volume_dir vols y) dir -> Forall (is_volume_dir (<[v := kv]> vols) y) dir.
Proof.
  intros Hv Hl. eapply Forall_impl; [exact Hl |]. intros fi [Hd (u & ku & Hu & Hy & Hn)]. split; [done |]. exists u, ku.
  rewrite lookup_insert_ne; [done |]. intros ->. congruence.
Qed.

(** What the call that makes the directory leaves, in the directory of the disk *)
Lemma ready_entries vols w w1 x v dev :
  tidy re w vols -> mounted re x dev w -> no_char slash v -> dir_ready x v w w1 ->
  exists dir, Forall (is_volume_dir vols x) dir /\
    same_except (other (vol_path re x v)) (fun q => q <> disk_path re x) all_limits w w1 /\
    (ioutil_ReadDir (disk_path re x) w1 = inl dir \/
     exists dir', ioutil_ReadDir (disk_path re x) w1 = inl dir' /\ dir' ≡ₚ mkFileInfo (getQuotaPathName v) true :: dir).
Proof.
  intros Ht Hm Hv Hready. destruct (td_entries _ _ _ Ht x dev Hm) as (dir & Hdir & Hall). exists dir. split; [done |].
  assert (Hx : normal_elem x) by (by eapply listed_normal, Hm).
  destruct Hready as [Hq | (wa & e & mode & Hq & Hstat & Hnot & Hmk)].
  - split; [by apply quiet_same | left]. by rewrite (se_readdir _ _ _ _ _ Hq _ I I).
  - destruct (mkdir_only (re ++ [x]) (getQuotaPathName v) mode wa w1 e dir) as [Hs Hd];
      [apply snoc_ne | by apply disk_normal | by apply quota_name_normal | done | done | by rewrite (se_readdir _ _ _ _ _ Hq _ I I) | done |].
    split; [| by right]. eapply same_except_trans; [by apply quiet_same | by eapply same_except_weaken].
Qed.

Lemma not_listed vols v x dir :
  vols !! v = None -> Forall (is_volume_dir vols x) dir -> getQuotaPathName v ∉ map fi_Name dir.
Proof.
  intros Hnew Hall Hin. apply list_elem_of_In, in_map_iff in Hin as (fi & Hfi & Hin). apply list_elem_of_In in Hin.
  rewrite Forall_forall in Hall. destruct (Hall fi Hin) as [_ (u & ku & Hu & _ & Hn)].
  rewrite Hfi in Hn. apply getQuotaPathName_inj in Hn as <-. congruence.
Qed.

(** A new volume: its directory, the project id and the limits *)
Lemma tidy_placed vols w w1 w2 w3 x v dev id hard soft :
  tidy re w vols -> vols !! v = None -> mounted re x dev w -> no_char slash v ->
  dir_ready x v w w1 -> opendir (vol_path re x v) w1 = None ->
  ioctl_setprojid (vol_path re x v) id w1 = (None, w2) -> quotactl_setqlim dev id hard soft w2 = (None, w3) ->
  ProjectIdStart <= id < ProjectIdStart + ProjectIdNum -> (forall u ku, vols !! u = Some ku -> kv_id ku <> id) ->
  tidy re w3 (<[v := mkKernelVolume x dev id (hard, soft)]> vols) /\ settled w w3.
Proof.
  intros Ht Hnew Hm Hv Hready Hopen Hset Hlim Hid Hfresh. set (p := vol_path re x v) in *. set (lim := fun d i => (d, i) <> (dev, id)).
  assert (Hx : normal_elem x) by (by eapply listed_normal, Hm).
  pose proof (getprojid_setprojid p id w1 w2 Hopen Hset) as [Hopen2 Hg2].
  pose proof (getquota_setqlim dev id hard soft w2 w3 Hlim) as [[n Hq3] Hsame3]. destruct (Hsame3 p) as [Hopen3 Hg3].
  pose proof (setprojid_only p id w1 (vol_path_normal x v Hx Hv)) as Hs12. rewrite Hset in Hs12.
  pose proof (setqlim_only dev id hard soft w2) as Hs23. rewrite Hlim in Hs23.
  destruct (ready_entries vols w w1 x v dev Ht Hm Hv Hready) as (dir & Hall & Hs01 & Hdir1).
  pose proof (other_disk x v Hx) as Hpx.
  assert (H13 : same_except (other p) all_paths lim w1 w3).
  { eapply same_except_trans; [eapply same_except_weaken; [exact Hs12 | done..] | by eapply same_except_weaken]. }
  assert (Hs03 : same_except (other p) (fun q => q <> disk_path re x) lim w w3).
  { eapply same_except_trans; by eapply same_except_weaken. }
  assert (Har : around x v lim w w3) by (split; eapply same_except_weaken; [exact Hs03 | by intros q [] | done..]).
  assert (Hread3 : ioutil_ReadDir (disk_path re x) w3 = ioutil_ReadDir (disk_path re x) w1) by (by rewrite (se_readdir _ _ _ _ _ H13)).
  split; [| by eapply around_settled].
  apply (around_tidy x v lim w w3 Hx Hv Har vols); [done | | | | | ].
  - intros u Hu. by rewrite lookup_insert_ne.
  - intros u ku _ Hu E. injection E as _ E. by apply (Hfresh u ku).
  - intros _ _. destruct Hdir1 as [Hd | (dir' & Hd' & Hperm)].
    + exfalso. rewrite Hd in Hread3. apply (not_listed vols v x dir); [done | done |].
      eapply open_listed; [apply (snoc_ne re x) | by apply disk_normal | by apply quota_name_normal | | exact Hread3].
      change (opendir p w3 = None). by rewrite Hopen3.
    + exists dir'. rewrite Hread3. split; [done |]. rewrite Hperm. constructor; [| by apply entries_grow].
      split; [done |]. exists v, (mkKernelVolume x dev id (hard, soft)). by rewrite lookup_insert_eq.
  - intros y dir' _. by apply entries_grow.
  - intros kv Hkv. rewrite lookup_insert_eq in Hkv. injection Hkv as <-. split; [| by intros u ku _ Hu; apply (Hfresh u)].
    split; cbn; [by eapply around_mounted | | | | done | done].
    + change (opendir p w3 = None). by rewrite Hopen3.
    + change (ioctl_getprojid p w3 = inl id). by rewrite Hg3.
    + unfold limit_of. by rewrite Hq3.
Qed.

Lemma vol_path_below x v : below (abs_path re) (vol_path re x v).
Proof.
  exists (x +:+ "/" +:+ getQuotaPathName v). unfold vol_path. rewrite abs_path_snoc by apply snoc_ne.
  rewrite abs_path_snoc by done. by rewrite !app_assoc_string.
Qed.

(** A placement that fails after it has made the directory, and removes it again *)
Lemma tidy_unplaced vols w w1 w2 x v dev lim :
  tidy re w vols -> clearable w -> vols !! v = None -> mounted re x dev w -> no_char slash v -> dir_ready x v w w1 ->
  same_except (other (vol_path re x v)) all_paths lim w1 w2 ->
  (forall u ku, vols !! u = Some ku -> lim (kv_dev ku) (kv_id ku)) ->
  exists w3, DeleteFile (vol_path re x v) w2 = (Ok tt, w3) /\ tidy re w3 vols /\ settled w w3.
Proof.
  intros Ht Hc Hnew Hm Hv Hready H12 Hlim. set (p := vol_path re x v) in *.
  assert (Hx : normal_elem x) by (by eapply listed_normal, Hm).
  destruct (ready_entries vols w w1 x v dev Ht Hm Hv Hready) as (dir & Hall & H01 & Hdir1).
  pose proof (other_disk x v Hx) as Hpx.
  assert (Hread2 : ioutil_ReadDir (disk_path re x) w2 = ioutil_ReadDir (disk_path re x) w1) by (by rewrite (se_readdir _ _ _ _ _ H12)).
  assert (H02 : same_except (other p) (fun q => q <> disk_path re x) lim w w2).
  { eapply same_except_trans; by eapply same_except_weaken. }
  assert (Hdone : forall w3, same_except (beside p) (fun q => q <> disk_path re x) lim w w3 ->
      (exists dir3, ioutil_ReadDir (disk_path re x) w3 = inl dir3 /\ Forall (is_volume_dir vols x) dir3) ->
      tidy re w3 vols /\ settled w w3).
  { intros w3 Hs Hd. assert (Har : around x v lim w w3) by done.
    split; [| by eapply around_settled].
    apply (around_tidy x v lim w w3 Hx Hv Har vols); try done; [by intros u ku _; apply Hlim | congruence]. }
  unfold DeleteFile, bind, gets. destruct (IsPathExist p w2) eqn:Hex.
  - assert (Hrm : removable p w2) by (eapply clearable_same; [exact H02 | done | by apply vol_path_normal | apply vol_path_below]).
    unfold removable in Hrm. unfold sys_write. destruct (os_RemoveAll p w2) as [oe w3] eqn:Erm. cbn in Hrm. subst oe.
    exists w3. split; [done |].
    assert (Hr2 : exists dir2, ioutil_ReadDir (disk_path re x) w2 = inl dir2 /\
      Forall (fun fi => fi_Name fi = getQuotaPathName v \/ is_volume_dir vols x fi) dir2).
    { rewrite Hread2. destruct Hdir1 as [Hd | (dir' & Hd & Hperm)]; eexists; (split; [done |]).
      - eapply Forall_impl; [exact Hall |]. by right.
      - rewrite Hperm. constructor; [by left |]. eapply Forall_impl; [exact Hall |]. by right. }
    destruct Hr2 as (dir2 & Hd2 & Hall2).
    destruct (removeall_only (re ++ [x]) (getQuotaPathName v) w2 w3 dir2) as [Hs (dir3 & Hd3 & Hperm)];
      [apply snoc_ne | by apply disk_normal | by apply quota_name_normal | done | done |].
    apply Hdone.
    + eapply same_except_trans; [eapply same_except_weaken; [exact H02 | by intros q [] | done..] |].
      by eapply same_except_weaken.
    + exists dir3. split; [done |]. rewrite Hperm, Forall_forall. rewrite Forall_forall in Hall2.
      intros fi [Hn Hfi]%list_elem_of_filter. by destruct (Hall2 fi Hfi).
  - exists w2. split; [done |]. apply Hdone; [by eapply same_except_weaken; [exact H02 | by intros q [] | done..] |].
    rewrite Hread2. destruct Hdir1 as [Hd | (dir' & Hd & Hperm)]; [by exists dir |]. exfalso.
    assert (Hin : getQuotaPathName v ∈ map fi_Name dir').
    { apply list_elem_of_In, in_map_iff. exists (mkFileInfo (getQuotaPathName v) true). split; [done |].
      apply list_elem_of_In. rewrite Hperm. by left. }
    assert (IsPathExist p w2 = true); [| congruence].
    apply (listed_exists (re ++ [x]) (getQuotaPathName v) w2 dir');
      [apply snoc_ne | by apply disk_normal | by apply quota_name_normal | by rewrite <- Hd | done].
Qed.

(** A volume whose directory is removed *)
Lemma tidy_released vols w w1 v kv :
  tidy re w vols -> vols !! v = Some kv -> os_RemoveAll (vol_path re (kv_disk kv) v) w = (None, w1) ->
  tidy re w1 (delete v vols) /\ settled w w1.
Proof.
  intros Ht Hkv Hrm. pose proof (td_stored _ _ _ Ht v kv Hkv) as Hst. destruct (stored_normal re v kv w Hst) as [Hx Hv].
  set (x := kv_disk kv) in *. destruct (td_entries _ _ _ Ht x (kv_dev kv) (st_mounted _ _ _ _ Hst)) as (dir & Hdir & Hall).
  destruct (removeall_only (re ++ [x]) (getQuotaPathName v) w w1 dir) as [Hs (dir' & Hd' & Hperm)];
    [apply snoc_ne | by apply disk_normal | by apply quota_name_normal | done | done |].
  assert (Hshrink : forall y l, Forall (is_volume_dir vols y) l -> (y <> x \/ Forall (fun fi => fi_Name fi <> getQuotaPathName v) l) ->
    Forall (is_volume_dir (delete v vols) y) l).
  { intros y l Hl Hne. rewrite Forall_forall in Hl |- *. intros fi Hfi. destruct (Hl fi Hfi) as [Hd (u & ku & Hu & Hy & Hn)].
    split; [done |]. exists u, ku. rewrite lookup_delete_ne; [done |]. intros <-. rewrite Hkv in Hu. injection Hu as <-.
    destruct Hne as [Hne | Hne]; [by apply Hne | rewrite Forall_forall in Hne; by apply (Hne fi)]. }
  assert (Har : around x v all_limits w w1) by by split.
  split; [| by eapply around_settled].
  apply (around_tidy x v all_limits w w1 Hx Hv Har vols); [done | | | | |].
  - intros u Hu. by rewrite lookup_delete_ne.
  - done.
  - intros dev _. exists dir'. split; [done |]. rewrite Hperm. apply Hshrink.
    + rewrite Forall_forall in *. intros fi [_ Hfi]%list_elem_of_filter. by apply Hall.
    + right. rewrite Forall_forall. by intros fi [Hfi _]%list_elem_of_filter.
  - intros y l Hy Hl. apply Hshrink; [done | by left].
  - intros ku Hu. by rewrite lookup_delete_eq in Hu.
Qed.

(** Calls for a path that is not in the pool, nor above it *)
Section outside.
Context (p : string) (w w' : W) (Hp : apart p (abs_path re)) (Hw : elsewhere p w w').

Lemma disk_apart x : apart p (disk_path re x).
Proof. eapply apart_below; [exact Hp |]. exists x. by apply abs_path_snoc. Qed.

Lemma disk_same x : normal_elem x -> same_path (disk_path re x) w w'.
Proof. intros Hx. apply (ew_path _ _ _ Hw); [apply normal_abs_path; [apply snoc_ne | by apply disk_normal] | apply disk_apart]. Qed.

Lemma root_same : same_path (abs_path re) w w' /\ ioutil_ReadDir (abs_path re) w' = ioutil_ReadDir (abs_path re) w.
Proof. split; [apply (ew_path _ _ _ Hw) | apply (ew_readdir _ _ _ Hw)]; done || by apply normal_abs_path. Qed.

Lemma GetDev_elsewhere x dev : normal_elem x -> GetDevForPath (disk_path re x) w = (Ok dev, w) -> GetDevForPath (disk_path re x) w' = (Ok dev, w').
Proof.
  intros Hx. pose proof (disk_apart x) as Ha.
  assert (Hc : Clean (disk_path re x) = disk_path re x) by (by apply Clean_abs_path, disk_normal).
  unfold GetDevForPath. rewrite Hc.
  unfold bind, sys_read. rewrite (sp_lstat _ _ _ (disk_same x Hx)).
  destruct (unix_Lstat (disk_path re x) w) as [d | e]; [| done].
  pose proof (ew_mountinfo _ _ _ Hw (pretty (Major d) +:+ ":" +:+ pretty (Minor d)) (disk_path re x) ltac:(apply normal_abs_path; [apply snoc_ne | by apply disk_normal])) as Hl.
  destruct (mountinfo_lines w) as [l|], (mountinfo_lines w') as [l'|]; try done.
  - rewrite Hl; [| by destruct Ha]. destruct (scan_mountinfo _ _ l); [| done]. by intros [= ->].
  - by destruct Ha as [Ha _]; destruct (Hl Ha).
Qed.

Lemma elsewhere_mounted x dev : mounted re x dev w -> mounted re x dev w'.
Proof.
  intros Hm. assert (Hx : normal_elem x) by (by eapply listed_normal, Hm). destruct Hm as [Ml Mm Md Mf].
  split.
  - unfold names_in in *. by rewrite (proj2 root_same).
  - by rewrite (sp_mount _ _ _ (disk_same x Hx)).
  - by apply GetDev_elsewhere.
  - by apply (sp_statfs _ _ _ (disk_same x Hx)).
Qed.
End outside.

Lemma elsewhere_tidy p vols w w' :
  apart p (abs_path re) -> elsewhere p w w' -> tidy re w vols -> tidy re w' vols /\ settled w w'.
Proof.
  intros Hp Hw [T1 T2 T3 T4 T5 T6]. pose proof (elsewhere_sym _ _ _ Hw) as Hw'.
  assert (Hm : forall x dev, mounted re x dev w' <-> mounted re x dev w) by (intros x dev; split; by apply (elsewhere_mounted p)).
  pose proof (disk_same p w w' Hp Hw) as Hd. destruct (root_same p w w' Hp Hw) as [Hroot Hlist].
  split; [split |].
  - intros x Hx. unfold names_in in Hx. rewrite Hlist in Hx.
    destruct (T1 x Hx) as [[dev Hdev] | Hno]; [left; exists dev; by apply Hm | right].
    rewrite (sp_mount _ _ _ (Hd x ltac:(by eapply listed_normal))). done.
  - intros x x' dev. rewrite !Hm. apply T2.
  - intros x dev. rewrite Hm. apply T3.
  - intros x dev. rewrite Hm. intros Hx. rewrite (ew_readdir _ _ _ Hw); [by eapply T4 | | by apply disk_apart].
    apply normal_abs_path; [apply snoc_ne | apply disk_normal; [done | by eapply listed_normal, Hx]].
  - intros v kv Hv. destruct (T5 v kv Hv) as [S1 S2 S3 S4 S5 S6].
    assert (Ha : apart p (vol_path re (kv_disk kv) v)) by (eapply apart_below; [exact Hp | apply vol_path_below]).
    destruct (stored_normal re v kv w ltac:(by split)) as [Hx Hn].
    destruct (ew_path _ _ _ Hw _ (vol_path_normal _ _ Hx Hn) Ha) as [_ Po Pi _ _ _].
    split; [by apply Hm | congruence | congruence | by rewrite (ew_limit _ _ _ Hw) | done | done].
  - done.
  - split; [intros x dev; apply Hm |]. split; [apply (sp_stat _ _ _ Hroot) |].
    intros Hc q Hn Hq. apply (ew_removable _ _ _ Hw); [done | by eapply apart_below | by apply Hc].
Qed.
End disks.
