(* ===== verification/Restart.v ===== *)
(** * Volumes survive a restart

    The calls of the quota manager keep the disks tidy: what they leave on the disks is
    what they have in memory, so that a process that starts again has the same volumes,
    in the same directories. *)

From S2P Require Import Prelude GoStrings Os SimOs Util FileSystem Allocator QuotaProvider QuotaManager HeldVolumes Recovery Tidy.
Open Scope Z_scope.
Open Scope go_scope.

(** ** What the calls do to the manager *)

Section life.
Context {R W : Type} `{RandLaws R} `{FileLaws W}.
Context (re : list string) (re_ne : re <> []) (re_normal : Forall normal_elem re).
Abbreviation Prov := (QuotaVolumeProvider (ProjectIDAllocator R)).
Abbreviation Mgr := (XFSQuotaManager (QuotaVolumeProvider (ProjectIDAllocator R))).
Implicit Types (s : XFSQuotaManager (QuotaVolumeProvider (ProjectIDAllocator R)) * W) (m : XFSQuotaManager (QuotaVolumeProvider (ProjectIDAllocator R))) (w : W) (vols : gmap string KernelVolume).

Definition any_limits (kv : KernelVolume) (q : Quota) : Prop := True.

(** The manager has the volumes that are on the disks, their directories can be removed,
    and it has all disks. *)
Definition all_disks s : Prop := forall x dev, mounted re x dev s.2 -> is_Some (diskQuotaInfos s.1 !! dev).
Definition tied vols s : Prop := knows re any_limits vols (dom vols) s /\ clearable re s.2 /\ all_disks s.

(** A volume keeps its disk, its device, its project id and its limits. *)
Definition steadfast vols vols' : Prop := forall u ku ku', vols !! u = Some ku -> vols' !! u = Some ku' -> ku' = ku.

Lemma steadfast_refl vols : steadfast vols vols.
Proof. intros u ku ku' Hu Hu'. congruence. Qed.

Lemma steadfast_insert vols v kv : vols !! v = None -> steadfast vols (<[v := kv]> vols).
Proof. intros Hv u ku ku' Hu [[<- _] | [_ Hu']]%lookup_insert_Some; congruence. Qed.

Lemma steadfast_delete vols v : steadfast vols (delete v vols).
Proof. intros u ku ku' Hu [_ Hu']%lookup_delete_Some. congruence. Qed.

Lemma tied_steady vols : steady (R := R) (tied vols).
Proof.
  intros m w w' Hq (Hk & Hc & Hd). split_and!; [by eapply knows_quiet | by eapply clearable_same |].
  intros x dev Hm. apply (Hd x), (quiet_mounted re re_normal x dev w w' Hq), Hm.
Qed.

Lemma all_disks_insert m w name d : all_disks (m, w) -> all_disks (set_disks <[name := d]> m, w).
Proof.
  intros Ha x dev Hm. cbn. destruct (decide (name = dev)) as [-> | Hne]; [rewrite lookup_insert_eq; by eexists |].
  rewrite lookup_insert_ne by done. by apply (Ha x).
Qed.

Lemma all_disks_settled m w w' : settled re w w' -> all_disks (m, w) -> all_disks (m, w').
Proof. intros [Hs _] Ha x dev Hm. apply (Ha x), Hs, Hm. Qed.

Lemma tied_set_disk vols m w name d d' :
  diskQuotaInfos m !! name = Some d -> disk_DeviceName d' = disk_DeviceName d -> disk_MountPoint d' = disk_MountPoint d ->
  tied vols (m, w) -> tied vols (set_disks <[name := d']> m, w).
Proof.
  intros Hd Hn Hmp ([K1 K2 K3 K4 K5 K6 K7 K8 K9] & Hc & Ha). split_and!; [| done | by apply all_disks_insert].
  split; try done; cbn in *.
  intros dev d2. rewrite lookup_insert_Some. intros [[<- <-] | [_ Hd2]]; [| by apply K8].
  rewrite Hn, Hmp. by apply K8.
Qed.

Lemma tied_set_quota vols m w v q q' :
  quotas m !! v = Some q -> path_Path q' = path_Path q -> path_DeviceName q' = path_DeviceName q ->
  tied vols (m, w) -> tied vols (set_quotas <[v := q']> m, w).
Proof.
  intros Hq Hp Hd ([K1 K2 K3 K4 K5 K6 K7 K8 K9] & Hc & Ha). split; [| by split]. split; try done; cbn in *.
  - intros u q2. rewrite lookup_insert_Some. intros [[<- <-] | [_ Hq2]]; [| by apply K6].
    rewrite Hp, Hd. destruct (K6 v q Hq) as (HD & kv & ? & ? & ? & _). split; [done |]. by exists kv.
  - intros u kv HD Hu. destruct (decide (u = v)) as [-> | Hne]; [rewrite lookup_insert_eq; by eexists |].
    rewrite lookup_insert_ne by done. by eapply K7.
Qed.

Lemma tied_cached vols m w v q :
  tied vols (m, w) -> quotas m !! v = Some q -> exists kv, vols !! v = Some kv /\ path_Path q = vol_path re (kv_disk kv) v /\
    path_DeviceName q = kv_dev kv /\ quotaPathAndId (quotaProvider m) !! path_Path q = Some (kv_id kv).
Proof.
  intros [[K1 K2 K3 K4 K5 K6 K7 K8 K9] _] Hq. cbn in *. destruct (K6 v q Hq) as (HD & kv & Hv & Hp & Hd & _).
  exists kv. split_and!; try done. rewrite K5. by exists v, kv.
Qed.

(** Calls that change neither the provider nor the files *)
Lemma frames_on_os_quiet {B} I (c : M W B) : steady (R := R) I -> (forall w, quiet w (c w).2) -> frames I (on_os (P := Prov) c).
Proof.
  intros HI Hc [m w] Hs. unfold on_os, zoom. cbn. pose proof (Hc w) as Hq. destruct (c w) as [[b | e | y] w']; by eapply HI.
Qed.

Lemma frames_on_provider_same {B} (I : Mgr * W -> Prop) (c : M (Prov * W) B) :
  (forall m w, I (m, w) -> (c (quotaProvider m, w)).2 = (quotaProvider m, w)) -> frames I (on_provider c).
Proof.
  intros Hc [m w] Hs. unfold on_provider, zoom. cbn. pose proof (Hc m w Hs) as Hq.
  destruct (c (quotaProvider m, w)) as [r t]. cbn in Hq. subst t. destruct m. by destruct r.
Qed.

Lemma value_quiet {B} (f : W -> B * W) w : quiet w (f w).2 -> quiet w (sys_value f w).2.
Proof. unfold sys_value. by destruct (f w). Qed.

Lemma frames_clock I : steady (R := R) I -> frames I (on_os (P := Prov) (sys_value time_Now)).
Proof. intros HI. apply frames_on_os_quiet; [done |]. intros w. apply value_quiet, clock_quiet. Qed.

Lemma frames_range I ks : steady (R := R) I -> frames I (on_os (P := Prov) (sys_value (range_order ks))).
Proof. intros HI. apply frames_on_os_quiet; [done |]. intros w. apply value_quiet, range_quiet. Qed.

Lemma DiskInfo_unchanged mp (pr : Prov) w : (xfs_GetQuotaDiskInfo mp (pr, w)).2 = (pr, w).
Proof. destruct (xfs_GetQuotaDiskInfo mp (pr, w)) as [r t] eqn:E. by apply DiskInfo_same in E. Qed.

Lemma GetProjectQuota_cached (pr : Prov) w p dev id :
  quotaPathAndId pr !! p = Some id -> (xfs_GetProjectQuota p dev (pr, w)).2 = (pr, w).
Proof.
  intros Hc. unfold xfs_GetProjectQuota, cached, bind at 1, gets. cbn. rewrite Hc.
  unfold on_world, zoom, getProjectQuota, bind, map_error, sys_read, ret. cbn. by destruct (quotactl_getquota dev id w).
Qed.

(** A predicate and an entry that was read *)
Definition with_disk vols name d s : Prop := tied vols s /\ diskQuotaInfos s.1 !! name = Some d.
Definition with_volume vols v q s : Prop := tied vols s /\ quotas s.1 !! v = Some q.

Lemma with_disk_steady vols name d : steady (R := R) (with_disk vols name d).
Proof. intros m w w' Hq [Ht Hd]. split; [by eapply tied_steady | done]. Qed.
Lemma with_volume_steady vols v q : steady (R := R) (with_volume vols v q).
Proof. intros m w w' Hq [Ht Hd]. split; [by eapply tied_steady | done]. Qed.

Lemma frames_weaken {B} (I J : Mgr * W -> Prop) (c : M (Mgr * W) B) :
  frames I c -> (forall s, I s -> J s) -> hoare I c (fun _ => I) (fun _ => J).
Proof. intros Hc HIJ. eapply hoare_weaken; [exact Hc | done | done |]. intros o s. apply HIJ. Qed.

Lemma tied_list_disk vols name : frames (tied vols) (list_disk name).
Proof.
  apply hoare_gets_bind. intros [d|]; [| apply hoare_ret; by intros s []].
  apply hoare_weaken with (I := with_disk vols name d) (Q := fun _ => tied vols) (E := fun _ => tied vols); [| done..].
  eapply hoare_bind; [apply frames_weaken; [apply frames_clock, with_disk_steady | by intros s []] |]. intros now.
  apply hoare_gets_bind. intros mx. apply hoare_weaken with (I := with_disk vols name d) (Q := fun _ => tied vols) (E := fun _ => tied vols);
    [| by intros s [] | done | done].
  destruct (_ >? _); [| apply hoare_ret; by intros s []].
  eapply hoare_bind; [apply frames_weaken; [apply frames_on_provider_same; intros m w _; apply DiskInfo_unchanged | by intros s []] |]. intros q.
  eapply hoare_bind; [apply frames_weaken; [apply frames_clock, with_disk_steady | by intros s []] |]. intros now'.
  apply hoare_modify_bind with (J := tied vols); [intros [m w] [Ht Hd]; by eapply tied_set_disk | by apply hoare_ret].
Qed.

(** The listing of the volumes does not fail: the kernel has limits for their projects. *)
Lemma GetProjectQuota_succeeds vols m w v q :
  tied vols (m, w) -> quotas m !! v = Some q ->
  exists quota, xfs_GetProjectQuota (path_Path q) (path_DeviceName q) (quotaProvider m, w) = (Ok quota, (quotaProvider m, w)).
Proof.
  intros Ht Hq. destruct (tied_cached _ _ _ _ _ Ht Hq) as (kv & Hkv & _ & Hd & Hc).
  destruct Ht as (Hk & _). pose proof (st_limit _ _ _ _ (td_stored _ _ _ (kn_tidy _ _ _ _ _ Hk) _ _ Hkv)) as Hl. cbn in Hl.
  unfold xfs_GetProjectQuota, cached. unfold bind at 1, gets. cbn [fst]. rewrite Hc, Hd.
  unfold limit_of in Hl. unfold on_world, zoom, getProjectQuota, map_error, bind, sys_read. cbn.
  destruct (quotactl_getquota (kv_dev kv) (kv_id kv) w); [by eexists | done].
Qed.

Lemma tied_list_path vols v : total (tied vols) (list_path v) (fun _ => tied vols).
Proof.
  apply hoare_gets_bind. intros [q|]; [| apply hoare_ret; by intros s []].
  apply hoare_weaken with (I := with_volume vols v q) (Q := fun _ => tied vols) (E := fun _ _ => False); [| done | done | done].
  eapply hoare_bind; [apply total_on_os; [apply with_volume_steady | exact time_quiet] |]. intros now.
  apply hoare_gets_bind. intros mx. apply hoare_weaken with (I := with_volume vols v q) (Q := fun _ => tied vols) (E := fun _ _ => False); [| by intros s [] | done | done].
  destruct (_ >? _); [| apply hoare_ret; by intros s []].
  eapply (hoare_bind (with_volume vols v q) _ _ (fun _ => with_volume vols v q)).
  { intros [m w] [Ht Hq]. destruct (GetProjectQuota_succeeds vols m w v q Ht Hq) as [quota E].
    unfold on_provider, zoom. cbn in *. rewrite E. by destruct m. }
  intros quota. eapply hoare_bind; [apply total_on_os; [apply with_volume_steady | exact time_quiet] |]. intros now'.
  apply hoare_modify_bind with (J := tied vols); [intros [m w] [Ht Hd]; by eapply tied_set_quota | by apply hoare_ret].
Qed.

Lemma tied_range_disks vols : frames (tied vols) range_disks.
Proof.
  apply hoare_gets_bind. intros ds. eapply hoare_weaken; [apply (frames_range (tied vols)), tied_steady | by intros s [] | done | done].
Qed.

Lemma tied_range_quotas vols : total (tied vols) range_quotas (fun _ => tied vols).
Proof.
  apply hoare_gets_bind. intros qs. eapply hoare_weaken; [apply (total_on_os (tied vols)); [apply tied_steady |] | by intros s [] | done | done].
  exact (range_order_quiet (dom qs)).
Qed.

Lemma tied_ListQuotaDiskInfos vols : frames (tied vols) xfs_ListQuotaDiskInfos.
Proof.
  eapply hoare_bind; [apply tied_range_disks |]. intros names.
  eapply hoare_bind; [apply hoare_collect, tied_list_disk |]. intros infos. by apply hoare_ret.
Qed.

Lemma tied_ListPathQuotaInfos vols : total (tied vols) xfs_ListPathQuotaInfos (fun _ => tied vols).
Proof.
  eapply hoare_bind; [apply tied_range_quotas |]. intros ids.
  eapply hoare_bind; [apply total_collect, tied_list_path |]. intros infos. by apply hoare_ret.
Qed.

Lemma tied_SetDisabled vols mp b : frames (tied vols) (xfs_SetQuotaDiskDisabledState mp b).
Proof.
  eapply hoare_bind; [apply tied_range_disks |]. intros names. apply hoare_gets_bind. intros ds.
  destruct (find_mountPoint mp ds names) as [[name d]|] eqn:E; [| apply hoare_fail; by intros s []].
  apply find_mountPoint_Some in E as [Hd _].
  apply hoare_weaken with (I := with_disk vols name d) (Q := fun _ => tied vols) (E := fun _ => tied vols);
    [| intros s [Ht Hds]; split; [done | by rewrite Hds] | done | done].
  eapply hoare_bind with (R := fun _ => with_disk vols name d).
  { apply hoare_map_error. eapply hoare_weaken with (I := with_disk vols name d) (Q := fun _ => with_disk vols name d) (E := fun _ => tied vols);
      [apply frames_weaken; [apply frames_on_os_quiet; [apply with_disk_steady |] | by intros s []] | done..].
    intros w. destruct (set_disable_quiet (disk_MountPoint d) b w) as (r & w' & -> & Hq & _). done. }
  intros u. apply hoare_modify. intros [m w] [Ht Hm]. by eapply tied_set_disk.
Qed.

Lemma tied_ExpandVolume vols v c : frames (tied vols) (xfs_ExpandVolume v c).
Proof.
  apply hoare_gets_bind. intros [q|]; [| apply hoare_fail; by intros s []].
  apply hoare_gets_bind. intros [d|]; [| apply hoare_fail; by intros s [[] ?]].
  cbv zeta. destruct (HardQuota (path_Quota q) >? u64 c); [apply hoare_fail; by intros s [[] ?] |].
  destruct (disk_AllocatableSize d <? u64 (u64 c - HardQuota (path_Quota q))); [apply hoare_fail; by intros s [[] ?] |].
  set (I := fun s => (tied vols s /\ quotas s.1 !! v = Some q) /\ diskQuotaInfos s.1 !! path_DeviceName q = Some d).
  eapply hoare_bind with (R := fun _ => I).
  { apply hoare_map_error. eapply hoare_weaken with (I := I) (Q := fun _ => I) (E := fun _ => tied vols);
      [apply frames_weaken; [apply frames_on_provider_same | by intros s [[] ?]] | done..].
    intros m w [[Ht Hq] _]. destruct (tied_cached _ _ _ _ _ Ht Hq) as (kv & _ & _ & _ & Hc).
    change ((xfs_SetProjectQuota (path_Path q) (path_DeviceName q) (u64 c) (u64 c) (quotaProvider m, w)).2 = (quotaProvider m, w)).
    by rewrite (SetProjectQuota_cached (quotaProvider m) w _ _ _ _ _ Hc). }
  intros u. apply hoare_modify_bind with (J := with_volume vols v q).
  { intros [m w] [[Ht Hq] Hd]. split; [by eapply tied_set_disk | done]. }
  apply hoare_modify. intros [m w] [Ht Hq]. by eapply tied_set_quota.
Qed.

(** Placing a volume: the disk and its directory *)
Lemma allocate_runs vols v size m w r s1 :
  tied vols (m, w) -> no_char slash v -> allocateNewQuotaDir v size (m, w) = (r, s1) ->
  exists w1, s1 = (m, w1) /\
  match r with
  | Ok (dev, path) => is_Some (diskQuotaInfos m !! dev) /\ exists x, mounted re x dev w /\ path = vol_path re x v /\ dir_ready re x v w w1
  | _ => quiet w w1
  end.
Proof.
  intros [Ht _] Hv E. unfold allocateNewQuotaDir in E.
  destruct (range_order_quiet (dom (diskQuotaInfos m)) w) as (names & w2 & Er & Hq).
  assert (En : range_disks (m, w) = (Ok names, (m, w2))) by (unfold range_disks, bind, gets, on_os, zoom; cbn; by rewrite Er).
  unfold bind at 1 in E. rewrite En in E. unfold bind at 1, gets at 1 in E. cbn [fst] in E.
  destruct (sort_by Less (omap (available_disk size (diskQuotaInfos m)) names)) as [|it its] eqn:Es; [injection E as <- <-; by exists w2 |].
  apply available_head in Es as [Hin _]. apply elem_of_available in Hin as (n & d & _ & Hd & _ & ->). cbn [item_MountPoint item_DeviceName] in E.
  destruct (kn_disk _ _ _ _ _ Ht n d Hd) as (Hn & x & Hm & Hmp). cbn in Hm.
  assert (Hx : normal_elem x) by (by eapply listed_normal, Hm).
  assert (Hpath : GoStrings.Join [disk_MountPoint d; getQuotaPathName v] = vol_path re x v).
  { rewrite Hmp. apply Join_abs_path; [apply snoc_ne | by apply disk_normal | by apply quota_name_normal]. }
  rewrite Hpath in E. unfold bind at 1, on_os at 1, zoom, gets in E. cbn [fst snd] in E. rewrite <- Hn in Hm.
  destruct (IsPathExist (vol_path re x v) w2) eqn:Hex.
  - injection E as <- <-. exists w2. split; [done |]. split; [by exists d; rewrite Hn |]. exists x. split_and!; [done | done | by left].
  - unfold map_error, on_os, zoom, MkDir, gets, attempt, sys_write, bind in E. cbn [fst snd] in E. rewrite Hex in E.
    unfold IsPathExist in Hex. destruct (os_Stat (vol_path re x v) w2) as [e|] eqn:Est; [apply negb_false_iff in Hex | done].
    destruct (os_MkdirAll (vol_path re x v) 493 w2) as [[e'|] w3] eqn:Emk; injection E as <- <-; exists w3; (split; [done |]).
    + etransitivity; [exact Hq |]. destruct (td_entries _ _ _ (kn_tidy _ _ _ _ _ Ht) x _ Hm) as (dir & Hdir & _).
      cbn in Hdir. eapply (mkdir_fails (re ++ [x]) (getQuotaPathName v));
        [apply snoc_ne | by apply disk_normal | by apply quota_name_normal | exact Est | exact Hex | | exact Emk].
      rewrite (se_readdir _ _ _ _ _ Hq _ I I). exact Hdir.
    + split; [by exists d; rewrite Hn |]. exists x. split_and!; [done | done |]. right. by exists w2, e, 493.
Qed.

(** A failed [SetProjectQuota] leaves at most the project id of the directory and the
    limits of a project that is no volume's. *)
Lemma SetProjectQuota_fails (pr : Prov) w p dev hard soft e (s' : Prov * W) :
  provider_inv pr -> quotaPathAndId pr !! p = None -> normal_path p -> xfs_SetProjectQuota p dev hard soft (pr, w) = (Fail e, s') ->
  exists lim, same_except (other p) all_paths lim w s'.2 /\
    forall dev' id, Has id (projectIdAllocator pr) = true -> lim dev' id.
Proof.
  intros Hi Hp Hn E. pose proof Hi as [Ha _ _ _].
  unfold xfs_SetProjectQuota, cached, bind at 1, gets in E. cbn [fst] in E. rewrite Hp in E.
  unfold bind at 1, on_alloc at 1, zoom in E. cbn [fst snd] in E.
  destruct (AllocateNext (projectIdAllocator pr)) as [ra a] eqn:Ea. apply AllocateNext_law in Ea as [Hwf Hra]; [| done].
  destruct ra as [id | e0 | y]; [| injection E as _ <-; exists all_limits; split; [apply quiet_same; reflexivity | done] | done].
  destruct Hra as (Hfree & _ & Hhas).
  assert (Hback : forall w1, (rollback p id (mkQuotaVolumeProvider a (quotaPathAndId pr), w1)).2.2 = w1).
  { intros w1. by destruct (rollback_spec pr a w1 p id Hp Hwf Hfree Hhas) as (a' & _ & _ & ->). }
  exists (fun dev' id' => (dev', id') <> (dev, id)). split; [| intros dev' id' Hid [= _ ->]; congruence].
  assert (Hs1 : same_except (other p) all_paths (fun d i => (d, i) <> (dev, id)) w (setProjectId p id w).2).
  { unfold setProjectId, bind, openDir. destruct (opendir p w); [apply quiet_same; reflexivity |].
    unfold map_error, sys_write. pose proof (setprojid_only p id w Hn) as Hs. destruct (ioctl_setprojid p id w) as [[err|] w1];
      by eapply same_except_weaken. }
  unfold on_fail in E. unfold bind at 1, on_world at 1, zoom in E. cbn [fst snd] in E.
  destruct (setProjectId p id w) as [[[] | e1 | y] w1]; cbn [snd] in Hs1.
  - unfold bind at 1, on_world at 1, zoom in E. cbn [fst snd] in E.
    assert (Hs2 : same_except all_paths all_paths (fun d i => (d, i) <> (dev, id)) w1 (setProjectQuota dev id hard soft w1).2).
    { unfold setProjectQuota, map_error, sys_write. pose proof (setqlim_only dev id (hard / BASIC_BLOCK_SIZE) (soft / BASIC_BLOCK_SIZE) w1) as Hs.
      by destruct (quotactl_setqlim _ _ _ _ w1) as [[err|] w2]. }
    destruct (setProjectQuota dev id hard soft w1) as [[[] | e2 | y] w2]; [done | | done]. cbn [snd] in Hs2.
    specialize (Hback w2). destruct (rollback _ _ _) as [rb sb]. cbn in Hback, E. injection E as _ <-. rewrite Hback.
    eapply same_except_trans; [exact Hs1 | by eapply same_except_weaken].
  - specialize (Hback w1). destruct (rollback _ _ _) as [rb sb]. cbn in Hback, E. injection E as _ <-. by rewrite Hback.
  - done.
Qed.

Lemma SetProjectQuota_span (pr : Prov) w p dev hard soft :
  in_span (projectIdAllocator pr) -> in_span (projectIdAllocator (xfs_SetProjectQuota p dev hard soft (pr, w)).2.1).
Proof.
  intros Hs. set (I := fun t : Prov * W => in_span (projectIdAllocator t.1)).
  enough (Hp : preserves I (xfs_SetProjectQuota p dev hard soft)) by by apply (Hp (pr, w)).
  assert (Hal : forall B (c : M (ProjectIDAllocator R) B),
    (forall a, PrjIdStart (c a).2 = PrjIdStart a /\ MaxPrjIdNum (c a).2 = MaxPrjIdNum a) -> preserves I (on_alloc c)).
  { intros B c Hc [pr' w'] Hi. unfold I, on_alloc, zoom, in_span in *. cbn in *. destruct (Hc (projectIdAllocator pr')) as [H1' H2'].
    destruct (c (projectIdAllocator pr')) as [r a]. cbn in *. by rewrite H1', H2'. }
  assert (Hw : forall B (c : M W B), preserves I (on_world c)) by (intros B c [pr' w'] Hi; unfold I; by rewrite on_world_provider).
  assert (Hsc : forall f, preserves I (set_cache f)) by (by intros f [pr' w'] Hi).
  unfold xfs_SetProjectQuota. apply preserves_bind; [apply preserves_gets |]. intros [id|]; [apply preserves_ret |].
  apply preserves_bind.
  { apply Hal. intros a. unfold AllocateNext, ProjectIDAllocator_interface, prj_AllocateNext, bind, zoom, gets.
    destruct (bm_AllocateNext (alloc a)) as [[[off []] | e | y] b]; done. }
  intros id t Hi. unfold on_fail.
  assert (Hbody : preserves I (on_world (setProjectId p id);; on_world (setProjectQuota dev id hard soft);; set_cache <[p := id]>)).
  { apply preserves_bind; [apply Hw |]. intros _. apply preserves_bind; [apply Hw |]. intros _. apply Hsc. }
  specialize (Hbody t Hi). destruct (bind _ _ t) as [[u | e | y] t'] eqn:Et; [exact Hbody | | exact Hbody]. cbn.
  assert (Hroll : preserves I (rollback p id)); [| by apply Hroll].
  unfold rollback. apply preserves_bind; [apply preserves_attempt | intros _; apply Hsc].
  apply Hal. intros a. unfold alloc_Release, ProjectIDAllocator_interface, prj_Release, bind, zoom, gets, ret. cbn.
  destruct (contains a id); [| done]. unfold bm_Release. by destruct (Bit (allocated (alloc a)) z).
Qed.

Lemma attempt_inl {S A} (c : M S A) t a t' : attempt c t = (Ok (inl a), t') -> c t = (Ok a, t').
Proof. unfold attempt. destruct (c t) as [[b | e | y] u]; by intros [= -> ->]. Qed.

(** What a placement does after it has found its disk [d] and made the directory *)
Section placing.
Context (vols : gmap string KernelVolume) (m : Mgr) (w w1 : W) (v x dev : string) (d : DiskQuotaInfo) (Ht : tied vols (m, w)) (Hv : no_char slash v) (Hq : quotas m !! v = None).
Context (Hm : mounted re x dev w) (Hready : dir_ready re x v w w1) (Hd : diskQuotaInfos m !! dev = Some d).

Lemma place_new : vols !! v = None.
Proof.
  destruct Ht as [Hk _]. apply eq_None_not_Some. intros [kv Hkv].
  destruct (kn_all _ _ _ _ _ Hk v kv) as [q Hq']; [by eapply elem_of_dom_2 | done |]. cbn in Hq'. congruence.
Qed.

Lemma place_uncached : quotaPathAndId (quotaProvider m) !! vol_path re x v = None.
Proof.
  destruct Ht as [Hk _]. apply eq_None_not_Some. intros [id (u & ku & _ & Hu & Ep & _)%(kn_cache _ _ _ _ _ Hk)].
  assert (Hx : normal_elem x) by (by eapply listed_normal, Hm).
  destruct (stored_normal re u ku w (td_stored _ _ _ (kn_tidy _ _ _ _ _ Hk) _ _ Hu)).
  apply vol_path_inj in Ep as [_ <-]; [| done..]. pose proof place_new. congruence.
Qed.

Lemma place_ids u ku : vols !! u = Some ku -> Has (kv_id ku) (projectIdAllocator (quotaProvider m)) = true.
Proof.
  destruct Ht as [Hk _]. intros Hu. apply (pi_held _ (kn_prov _ _ _ _ _ Hk)). exists (vol_path re (kv_disk ku) u).
  apply (kn_cache _ _ _ _ _ Hk). exists u, ku. split_and!; try done. by eapply elem_of_dom_2.
Qed.

Lemma settled_disk w3 dev' d' :
  settled re w w3 -> diskQuotaInfos m !! dev' = Some d' ->
  disk_DeviceName d' = dev' /\ exists y, mounted re y dev' w3 /\ disk_MountPoint d' = disk_path re y.
Proof.
  destruct Ht as [Hk _]. intros (Hs & _ & _) Hd'. destruct (kn_disk _ _ _ _ _ Hk dev' d' Hd') as (Hn & y & Hy & Hmp).
  split; [done |]. exists y. split; [by apply Hs | done].
Qed.

Lemma settled_root w3 : settled re w w3 -> CheckDirExists (abs_path re) w3 = true.
Proof. destruct Ht as [Hk _]. intros (_ & Hs & _). pose proof (kn_exists _ _ _ _ _ Hk) as He. cbn in He. unfold CheckDirExists in *. by rewrite Hs. Qed.

Lemma place_fails e (s2 : Prov * W) hard soft :
  xfs_SetProjectQuota (vol_path re x v) dev hard soft (quotaProvider m, w1) = (Fail e, s2) ->
  exists w3, DeleteFile (vol_path re x v) s2.2 = (Ok tt, w3) /\ tied vols (set_provider s2.1 m, w3).
Proof.
  intros Es. pose proof place_uncached as Hp. pose proof Ht as [[K1 K2 K3 K4 K5 K6 K7 K8 K9] [Hc Ha]]. cbn in K1, K2, K3, K4, K5, K6, K7, K8, K9, Hc.
  pose proof (xfs_SetProjectQuota_inv (vol_path re x v) dev hard soft (quotaProvider m, w1) K3) as Hinv. rewrite Es in Hinv.
  pose proof (SetProjectQuota_span (quotaProvider m) w1 (vol_path re x v) dev hard soft K4) as Hspan. rewrite Es in Hspan. cbn in Hinv, Hspan.
  pose proof (listed_normal _ _ _ (mt_listed _ _ _ _ Hm)) as Hx.
  destruct (SetProjectQuota_fails (quotaProvider m) w1 _ _ _ _ _ _ K3 Hp (vol_path_normal re re_normal x v Hx Hv) Es) as (lim & Hsame & Hlim).
  apply SetProjectQuota_fresh in Es; [| done..]. destruct Es as (a & _ & _ & Epr).
  destruct (tidy_unplaced re re_ne re_normal vols w w1 s2.2 x v dev lim K2 Hc place_new Hm Hv Hready Hsame) as (w3 & E3 & Ht3 & Hs3).
  { intros u ku Hu. apply Hlim. by eapply place_ids. }
  exists w3. split; [done |]. split; [| split; [by apply Hs3 | by apply (all_disks_settled m w)]]. split; cbn; try done.
  - by rewrite Epr.
  - intros dev' d'. by apply settled_disk.
  - by apply settled_root.
Qed.

Lemma place_succeeds (s2 : Prov * W) hard soft :
  xfs_SetProjectQuota (vol_path re x v) dev hard soft (quotaProvider m, w1) = (Ok tt, s2) ->
  exists kv, forall n q now w4, quiet s2.2 w4 ->
    tied (<[v := kv]> vols)
      (set_disks <[dev := disk_account n d]> (set_quotas <[v := mkPathQuotaInfo (vol_path re x v) dev q now v]> (set_provider s2.1 m)), w4).
Proof.
  intros Es. pose proof place_uncached as Hp. pose proof place_new as Hnew. pose proof (listed_normal _ _ _ (mt_listed _ _ _ _ Hm)) as Hx.
  pose proof Ht as [[K1 K2 K3 K4 K5 K6 K7 K8 K9] [Hc Ha]]. cbn in K1, K2, K3, K4, K5, K6, K7, K8, K9, Hc.
  pose proof (xfs_SetProjectQuota_inv (vol_path re x v) dev hard soft (quotaProvider m, w1) K3) as Hinv. rewrite Es in Hinv.
  pose proof (SetProjectQuota_span (quotaProvider m) w1 (vol_path re x v) dev hard soft K4) as Hspan. rewrite Es in Hspan. cbn in Hinv, Hspan.
  apply SetProjectQuota_fresh in Es; [| done..]. destruct s2 as [pr3 w3].
  destruct Es as (id & a & w2 & Hfree & _ & Hwf & Hhas & Eid & Elim & Hpr). cbn in Elim, Hpr. subst pr3.
  assert (Hopen : opendir (vol_path re x v) w1 = None /\ ioctl_setprojid (vol_path re x v) id w1 = (None, w2)).
  { unfold setProjectId, bind, openDir, map_error, sys_write in Eid. destruct (opendir _ w1); [done |].
    destruct (ioctl_setprojid _ id w1) as [[e|] w2']; [done |]. by injection Eid as <-. }
  assert (Hset : quotactl_setqlim dev id (hard / BASIC_BLOCK_SIZE) (soft / BASIC_BLOCK_SIZE) w2 = (None, w3)).
  { unfold setProjectQuota, map_error, sys_write in Elim. destruct (quotactl_setqlim _ _ _ _ w2) as [[e|] w3']; [done |]. by injection Elim as <-. }
  assert (Hid : ProjectIdStart <= id < ProjectIdStart + ProjectIdNum).
  { specialize (Hhas id). rewrite bool_decide_true in Hhas by done. change (prj_Has id a = true) in Hhas. unfold prj_Has in Hhas.
    destruct (contains a id) as [off|] eqn:Hcn; [| done]. apply contains_Some in Hcn as [-> Hoff]; [| exact Hwf].
    cbn in Hspan. destruct Hspan as [H1' H2']. rewrite H1', H2' in *. lia. }
  assert (Hused : forall u ku, vols !! u = Some ku -> kv_id ku <> id) by (intros u ku Hu%place_ids <-; congruence).
  pose proof (tidy_placed re re_ne re_normal vols w w1 w2 w3 x v dev id _ _ K2 Hnew Hm Hv Hready (proj1 Hopen) (proj2 Hopen) Hset Hid Hused) as [Ht3 Hs3].
  set (kv := mkKernelVolume x dev id _) in Ht3. exists kv. intros n q now w4 Hq4.
  apply (tied_steady _ _ w3 w4 Hq4). split; [split; cbn; [done | done | done | done | | | | |] | split; [by apply Hs3 |]].
  6: by apply all_disks_insert, (all_disks_settled m w).
  - intros p id'. rewrite lookup_insert_Some, K5, dom_insert_L. split.
    + intros [[<- <-] | [_ (u & ku & Hin & Hu & -> & ->)]]; [exists v, kv; rewrite lookup_insert_eq; set_solver |].
      exists u, ku. rewrite lookup_insert_ne; [set_solver |]. intros ->. congruence.
    + intros (u & ku & _ & Hu & -> & ->). apply lookup_insert_Some in Hu as [[<- <-] | [Hne Hu]]; [by left | right].
      split; [| exists u, ku; split_and!; try done; by eapply elem_of_dom_2].
      intros Ep. destruct (stored_normal re u ku w (td_stored _ _ _ K2 _ _ Hu)).
      by apply vol_path_inj in Ep as [_ ?].
  - intros u q'. rewrite lookup_insert_Some, dom_insert_L. intros [[<- <-] | [Hne (Hin & ku & Hu & Hrest)%K6]].
    + split; [set_solver |]. exists kv. by rewrite lookup_insert_eq.
    + split; [set_solver |]. exists ku. by rewrite lookup_insert_ne.
  - intros u ku _ Hu. destruct (decide (u = v)) as [-> | Hne]; [rewrite lookup_insert_eq; by eexists |].
    rewrite lookup_insert_ne by done. rewrite lookup_insert_ne in Hu by done. eapply K7; [by eapply elem_of_dom_2 | done].
  - intros dev' d'. rewrite lookup_insert_Some. intros [[<- <-] | [_ Hd']]; [| by apply settled_disk].
    destruct (settled_disk w3 dev d Hs3 Hd). by split.
  - by apply settled_root.
Qed.
End placing.

Lemma tied_place vols v c r s s' :
  tied vols s -> no_char slash v -> xfs_GetVolumeQuotaPath v c s = (r, s') -> exists vols', tied vols' s' /\ steadfast vols vols'.
Proof.
  destruct s as [m w]. intros Ht Hv E. unfold xfs_GetVolumeQuotaPath in E. unfold bind at 1, gets at 1 in E.
  cbn [fst] in E. destruct (quotas m !! v) as [q|] eqn:Hq; [injection E as _ <-; exists vols; by split; [| apply steadfast_refl] |].
  unfold bind at 1, map_error in E. destruct (allocateNewQuotaDir v (u64 c) (m, w)) as [ra s1] eqn:Ea.
  destruct (allocate_runs vols v _ m w ra s1 Ht Hv Ea) as (w1 & -> & Hra). clear Ea.
  destruct ra as [[dev p] | e | y];
    [| injection E as _ <-; exists vols; split; [by apply (tied_steady vols m w w1 Hra) | apply steadfast_refl]..].
  destruct Hra as ([d Hd] & x & Hm & -> & Hready). unfold bind at 1, gets at 1 in E. cbn [fst] in E. rewrite Hd in E.
  set (size := u64 c) in *. unfold bind at 1, attempt at 1, on_provider, zoom in E. cbn [fst snd] in E.
  change (SetProjectQuota (vol_path re x v) dev size size (quotaProvider m, w1))
    with (xfs_SetProjectQuota (vol_path re x v) dev size size (quotaProvider m, w1)) in E.
  destruct (xfs_SetProjectQuota _ _ _ _ _) as [[[] | err | y] s2] eqn:Es.
  - destruct (place_succeeds vols m w w1 v x dev d Ht Hv Hq Hm Hready Hd s2 size size Es) as [kv Hkv]. exists (<[v := kv]> vols).
    split; [| apply steadfast_insert; by eapply place_new]. destruct s2 as [pr3 w3].
    unfold with_quotas, with_disks, modify, bind, on_os, zoom in E. cbn [fst snd] in E.
    destruct (time_quiet w3) as (now & w4 & Et & Hq4). rewrite Et in E. injection E as _ <-. by apply Hkv.
  - destruct (place_fails vols m w w1 v x dev Ht Hv Hq Hm Hready err s2 size size Es) as (w3 & E3 & Ht3).
    exists vols. split; [| apply steadfast_refl]. destruct s2 as [pr3 w2]. cbn [fst snd] in *.
    unfold bind, attempt, on_os, zoom in E. cbn [fst snd] in E. rewrite E3 in E. by injection E as _ <-.
  - exfalso. assert (Hp : quotaPathAndId (quotaProvider m) !! vol_path re x v = None) by (by eapply place_uncached).
    destruct Ht as [Hk _]. by apply SetProjectQuota_fresh in Es; [| apply (kn_prov _ _ _ _ _ Hk) |].
Qed.

(** The release of the directory of a volume that the manager has *)
Lemma DeleteProjectQuota_removes vols m w v q :
  tied vols (m, w) -> quotas m !! v = Some q ->
  exists pr w', xfs_DeleteProjectQuota (path_Path q) (quotaProvider m, w) = (Ok tt, (pr, w')) /\
    provider_inv pr /\ in_span (projectIdAllocator pr) /\ quotaPathAndId pr = delete (path_Path q) (quotaPathAndId (quotaProvider m)) /\
    tidy re w' (delete v vols) /\ settled re w w'.
Proof.
  intros Ht Hq. destruct (tied_cached _ _ _ _ _ Ht Hq) as (kv & Hkv & Hp & Hdev & Hc).
  destruct Ht as (Hk & Hclear & _). pose proof (kn_tidy _ _ _ _ _ Hk) as K2. pose proof (kn_prov _ _ _ _ _ Hk) as K3. pose proof (kn_span _ _ _ _ _ Hk) as K4.
  cbn in K2, K3, K4, Hclear. pose proof (td_stored _ _ _ K2 _ _ Hkv) as Hst. rewrite Hp in Hc |- *.
  unfold xfs_DeleteProjectQuota, cached. unfold bind at 1, gets. cbn [fst]. rewrite Hc.
  destruct (Release_law (projectIdAllocator (quotaProvider m)) (kv_id kv) (pi_alloc _ K3)) as (a & Er & Hwf & Hhas).
  unfold bind at 1, bind at 1, on_alloc, zoom. cbn [fst snd].
  assert (Hspan : in_span a).
  { change (prj_Release (kv_id kv) (projectIdAllocator (quotaProvider m)) = (Ok tt, a)) in Er. unfold prj_Release, bind, zoom, gets in Er. cbn in Er.
    destruct (contains _ _) as [off|]; [| by injection Er as <-]. unfold bm_Release in Er.
    destruct (Bit _ _); by injection Er as <-. }
  cbn in Er |- *. rewrite Er. unfold set_cache, modify. cbn.
  pose proof (open_exists _ _ (st_open _ _ _ _ Hst)) as Hex.
  assert (Hno : (match os_Stat (vol_path re (kv_disk kv) v) w with Some e => IsNotExist e | None => false end) = false)
    by (by destruct (os_Stat (vol_path re (kv_disk kv) v) w)).
  rewrite Hno. unfold on_world, zoom, sys_write. cbn.
  assert (Hrm : removable (vol_path re (kv_disk kv) v) w) by (destruct (stored_normal re v kv w Hst); apply Hclear; [by apply vol_path_normal | by apply vol_path_below]).
  unfold removable in Hrm. destruct (os_RemoveAll (vol_path re (kv_disk kv) v) w) as [oe w3] eqn:Erm. cbn in Hrm. subst oe.
  destruct (tidy_released re re_ne re_normal vols w w3 v kv K2 Hkv Erm) as [Ht3 Hs3].
  eexists _, w3. split; [done |]. split_and!; try done. by eapply provider_inv_release.
Qed.

Lemma tied_release vols v r s s' :
  tied vols s -> xfs_ReleaseVolumePath v s = (r, s') -> r = Ok tt /\ exists vols', tied vols' s' /\ steadfast vols vols'.
Proof.
  destruct s as [m w]. intros Ht E. unfold xfs_ReleaseVolumePath in E. unfold bind at 1, gets at 1 in E.
  cbn [fst] in E. destruct (quotas m !! v) as [q|] eqn:Hq; [| injection E as <- <-; split; [done |]; exists vols; by split; [| apply steadfast_refl]].
  unfold bind at 1, gets at 1 in E. cbn [fst] in E.
  assert (Hdisk : is_Some (diskQuotaInfos m !! path_DeviceName q)).
  { destruct (tied_cached _ _ _ _ _ Ht Hq) as (kv & Hkv & _ & -> & _). destruct Ht as (Hk & _ & Ha).
    apply (Ha (kv_disk kv)), (st_mounted _ _ _ _ (td_stored _ _ _ (kn_tidy _ _ _ _ _ Hk) _ _ Hkv)). }
  destruct Hdisk as [d Hd]. rewrite Hd in E.
  destruct (DeleteProjectQuota_removes vols m w v q Ht Hq) as (pr & w3 & Ed & Hinv & Hspan & Hcache & Ht3 & Hs3).
  destruct (tied_cached _ _ _ _ _ Ht Hq) as (kv & Hkv & Hp & Hdev & _).
  unfold bind at 1, on_provider, zoom in E. cbn [fst snd] in E.
  change (DeleteProjectQuota (path_Path q) (quotaProvider m, w)) with (xfs_DeleteProjectQuota (path_Path q) (quotaProvider m, w)) in E.
  rewrite Ed in E. unfold with_quotas, with_disks, modify, bind in E. cbn in E. injection E as <- <-. split; [done |].
  pose proof Ht as [[K1 K2 K3 K4 K5 K6 K7 K8 K9] [Hclear Ha]]. cbn in K1, K2, K3, K4, K5, K6, K7, K8, K9, Hclear.
  exists (delete v vols). split; [| apply steadfast_delete]. split; [split; cbn; [done.. | | | | |] | split; [by apply Hs3 | by apply all_disks_insert, (all_disks_settled m w)]].
  - intros p id. rewrite Hcache, Hp, lookup_delete_Some, K5, dom_delete_L. split.
    + intros (Hne & u & ku & Hin & Hu & -> & ->). exists u, ku.
      assert (u <> v) by (intros ->; rewrite Hkv in Hu; injection Hu as <-; by apply Hne).
      rewrite lookup_delete_ne by done. set_solver.
    + intros (u & ku & Hin & Hu & -> & ->). apply lookup_delete_Some in Hu as [Hne Hu]. split.
      * intros Ep. by apply (stored_path_inj re re_normal vols w v u kv ku) in Ep.
      * exists u, ku. split_and!; try done. by eapply elem_of_dom_2.
  - intros u q'. rewrite lookup_delete_Some, dom_delete_L. intros [Hne (Hin & ku & Hu & Hrest)%K6].
    split; [set_solver |]. exists ku. by rewrite lookup_delete_ne.
  - intros u ku _ [Hne Hu]%lookup_delete_Some. rewrite lookup_delete_ne by done. eapply K7; [by eapply elem_of_dom_2 | done].
  - intros dev' d'. rewrite lookup_insert_Some. intros [[<- <-] | [_ Hd']]; [| by eapply settled_disk].
    by apply (settled_disk vols m w Ht w3 _ d Hs3 Hd).
  - by eapply settled_root.
Qed.

(** ** A node that starts again and again *)

(** Calls of the manager, whether they succeed or fail, and starts *)
Inductive node_step : Mgr * W -> Mgr * W -> Prop :=
  | nd_disks s : node_step s (xfs_ListQuotaDiskInfos s).2
  | nd_paths s : node_step s (xfs_ListPathQuotaInfos s).2
  | nd_disable mountPoint disabled s : node_step s (xfs_SetQuotaDiskDisabledState mountPoint disabled s).2
  | nd_expand v capacity s : node_step s (xfs_ExpandVolume v capacity s).2
  | nd_place v capacity s : no_char slash v -> node_step s (xfs_GetVolumeQuotaPath v capacity s).2
  | nd_release v s : node_step s (xfs_ReleaseVolumePath v s).2
  | nd_restart seed m w m' w' : NewXfsQuotaManager seed (abs_path re) w = (Ok (inl m'), w') -> node_step (m, w) (m', w').

(** Where the manager has its volumes *)
Definition whereabouts m : gmap string (string * string) := (fun q => (path_Path q, path_DeviceName q)) <$> quotas m.

Lemma tied_whereabouts vols m w :
  tied vols (m, w) -> whereabouts m = map_imap (fun v kv => Some (vol_path re (kv_disk kv) v, kv_dev kv)) vols.
Proof.
  intros [[K1 K2 K3 K4 K5 K6 K7 K8 K9] _]. cbn in *. apply map_eq. intros v. unfold whereabouts. rewrite lookup_fmap, map_lookup_imap.
  destruct (vols !! v) as [kv|] eqn:Hv; cbn.
  - destruct (K7 v kv) as [q Hq]; [by eapply elem_of_dom_2 | done |].
    destruct (K6 v q Hq) as (_ & kv' & Hv' & Hp & Hd & _). rewrite Hv in Hv'. injection Hv' as <-. by rewrite Hq, <- Hp, <- Hd.
  - destruct (quotas m !! v) as [q|] eqn:Hq; [| done]. destruct (K6 v q Hq) as (_ & kv & Hv' & _). congruence.
Qed.

(** A start changes at most the clock and the marks of the disks. *)
Definition since w0 s : Prop := quiet w0 s.2.

Lemma since_on_os {B} w0 (c : M W B) : (forall w, quiet w (c w).2) -> preserves (since w0) (on_os (P := Prov) c).
Proof.
  intros Hc [m w] Hs. unfold on_os, zoom. cbn. pose proof (Hc w) as Hq. destruct (c w) as [b w'].
  unfold since in *. cbn in *. by etransitivity.
Qed.

Lemma since_on_provider {B} w0 (c : M (Prov * W) B) : (forall pr w, (c (pr, w)).2.2 = w) -> preserves (since w0) (on_provider c).
Proof.
  intros Hc [m w] Hs. unfold on_provider, zoom. cbn. pose proof (Hc (quotaProvider m) w) as Hq.
  destruct (c (quotaProvider m, w)) as [b [pr' w']]. cbn in Hq. by subst w'.
Qed.

Lemma GetProjectQuota_world (pr : Prov) w p dev : (xfs_GetProjectQuota p dev (pr, w)).2.2 = w.
Proof.
  assert (Hq : forall id (pr' : Prov), (on_world (getProjectQuota dev id) (pr', w)).2.2 = w).
  { intros id pr'. unfold on_world, zoom, getProjectQuota, map_error, bind, sys_read. cbn. by destruct (quotactl_getquota dev id w). }
  unfold xfs_GetProjectQuota, cached. unfold bind at 1, gets. cbn [fst]. destruct (quotaPathAndId pr !! p) as [id|]; [apply Hq |].
  unfold bind at 1, on_world at 1, zoom, getProjectId, openDir, map_error, bind at 1, sys_read. cbn [fst snd].
  destruct (opendir p w); [done |]. cbn. destruct (ioctl_getprojid p w) as [id | e]; [| done]. cbn.
  unfold bind at 1, on_alloc, zoom. cbn [fst snd]. destruct (prj_Allocate id (projectIdAllocator pr)) as [[[] | e | y] a]; [| done..].
  unfold bind, set_cache, modify. cbn. apply (Hq id (mkQuotaVolumeProvider a (<[p := id]> (quotaPathAndId pr)))).
Qed.

Lemma since_restore w0 : preserves (since w0) (restoreQuotaInfo (P := Prov)).
Proof.
  assert (Hr : forall {B} (o : W -> outcome B), preserves (since w0) (on_os (P := Prov) (fun w => (o w, w))))
    by (intros B o; by apply since_on_os).
  assert (Hw : forall f : gmap string DiskQuotaInfo -> gmap string DiskQuotaInfo, preserves (since w0) (with_disks (P := Prov) f)) by (by intros f s).
  assert (Hdisk : forall mp, preserves (since w0) (restore_disk (P := Prov) mp)).
  { intros mp. apply preserves_bind; [apply preserves_attempt, since_on_os |].
    { intros w. unfold IsMountPoint, bind, attempt, sys_read. by destruct (IsLikelyNotMountPoint mp w). }
    intros [[] | e]; [| apply preserves_ret..].
    apply preserves_bind; [apply since_on_os; intros w; destruct (GetDevForPath mp w) as [r u] eqn:E; by apply GetDev_reads in E as -> |].
    intros dev. apply preserves_bind; [apply since_on_provider; intros pr w; destruct (Supported_reads mp dev pr w) as [b Eb]; cbn in *; by rewrite Eb |].
    intros _. apply preserves_bind; [apply since_on_provider; intros pr w; apply (f_equal snd (DiskInfo_unchanged mp pr w)) |].
    intros q. apply preserves_bind; [apply since_on_os; intros w; by destruct (get_disable_quiet mp w) as (b & w' & -> & Hq) |]. intros b. apply Hw. }
  assert (Hpath : forall dev p, preserves (since w0) (restore_path (P := Prov) dev p)).
  { intros dev p. apply preserves_bind; [apply preserves_lift |]. intros v.
    apply preserves_bind; [apply since_on_provider; intros pr w; apply GetProjectQuota_world |]. intros q.
    apply preserves_bind; [apply Hw |]. intros _. apply preserves_bind; [apply since_on_os; intros w; apply value_quiet, clock_quiet |].
    by intros now s. }
  assert (Hpaths : forall dev, preserves (since w0) (restore_paths (P := Prov) dev)).
  { intros dev. apply preserves_bind; [apply preserves_gets |]. intros [d|]; [| apply preserves_ret].
    apply preserves_bind; [apply (Hr _ (fun w => Ok (GetSubDirs (disk_MountPoint d) w))) |]. intros dirs.
    apply preserves_bind; [apply preserves_for_each; intros; apply Hpath |]. intros _.
    apply preserves_bind; [apply since_on_os; intros w; apply value_quiet, clock_quiet |]. intros now. apply Hw. }
  apply preserves_bind; [apply preserves_gets |]. intros root.
  apply preserves_bind; [apply (Hr _ (fun w => Ok (GetSubDirs root w))) |]. intros dirs.
  apply preserves_bind; [apply preserves_for_each; intros; apply Hdisk |]. intros _.
  apply preserves_bind; [| intros names; apply preserves_for_each; intros; apply Hpaths].
  apply preserves_bind; [apply preserves_gets |]. intros ds. apply since_on_os. intros w. apply value_quiet, range_quiet.
Qed.

Lemma start_quiet seed w : quiet w (NewXfsQuotaManager seed (abs_path re) w).2.
Proof.
  unfold NewXfsQuotaManager. destruct (negb _); [done |]. set (m0 := mkXFSQuotaManager _ _ _ _ _).
  pose proof (since_restore w (m0, w) ltac:(unfold since; cbn; reflexivity)) as Hs.
  by destruct (restoreQuotaInfo (m0, w)) as [[] [m w']].
Qed.

Lemma restart_tied seed vols w :
  CheckDirExists (abs_path re) w = true -> tidy re w vols -> clearable re w ->
  exists m w', NewXfsQuotaManager seed (abs_path re) w = (Ok (inl m), w') /\ tied vols (m, w').
Proof.
  intros Hroot Ht Hc. pose proof (start_quiet seed w) as Hq. destruct (start_knows re re_ne re_normal seed w vols Hroot Ht) as (m & w' & E & [[K1 K2 K3 K4 K5 K6 K7 K8 K9] Ha]).
  exists m, w'. split; [done |]. rewrite E in Hq. split; [| split; [by eapply clearable_same | exact Ha]].
  split; try done. intros v q Hv. destruct (K6 v q Hv) as (HD & kv & ? & ? & ? & _). split; [done |]. by exists kv.
Qed.

Lemma tied_restarts vols m w :
  tied vols (m, w) -> forall seed, exists m' w', NewXfsQuotaManager seed (abs_path re) w = (Ok (inl m'), w') /\
    tied vols (m', w') /\ whereabouts m' = whereabouts m.
Proof.
  intros (Hk & Hc & Ha) seed.
  destruct (restart_tied seed vols w (kn_exists _ _ _ _ _ Hk) (kn_tidy _ _ _ _ _ Hk) Hc) as (m' & w' & E & Ht').
  exists m', w'. split_and!; [done | done |]. by rewrite (tied_whereabouts _ _ _ Ht'), (tied_whereabouts vols m w).
Qed.

Lemma node_step_tied vols s s' : tied vols s -> node_step s s' -> exists vols', tied vols' s' /\ steadfast vols vols'.
Proof.
  intros Ht Hs.
  assert (Hf : forall B (c : M (Mgr * W) B), frames (tied vols) c -> forall u, tied vols u -> exists vols', tied vols' (c u).2 /\ steadfast vols vols').
  { intros B c Hc u Hu. exists vols. split; [by apply (hoare_preserves _ _) | apply steadfast_refl]. }
  destruct Hs as [s | s | mp b s | v c s | v c s Hv | v s | seed m w m' w' E].
  - apply Hf; [apply tied_ListQuotaDiskInfos | done].
  - apply Hf; [apply total_frames, tied_ListPathQuotaInfos | done].
  - apply Hf; [apply tied_SetDisabled | done].
  - apply Hf; [apply tied_ExpandVolume | done].
  - eapply tied_place; [exact Ht | exact Hv | apply surjective_pairing].
  - apply (tied_release vols v (xfs_ReleaseVolumePath v s).1 s); [exact Ht | apply surjective_pairing].
  - exists vols. split; [| apply steadfast_refl]. destruct (tied_restarts vols m w Ht seed) as (m2 & w2 & E2 & Ht2 & _).
    rewrite E in E2. by injection E2 as <- <-.
Qed.

(** C7: Volumes survive a restart: on disks that hold volumes only, whose directories can
    be removed, whatever calls are made, whichever of them fail, and however often the
    process starts again, another start gives a manager with exactly the volumes that the
    running one has, each in its directory and on its device. *)
Theorem volumes_survive_restart seed vols w0 m0 w0' m w :
  CheckDirExists (abs_path re) w0 = true -> tidy re w0 vols -> clearable re w0 ->
  NewXfsQuotaManager seed (abs_path re) w0 = (Ok (inl m0), w0') -> reachable node_step (m0, w0') (m, w) ->
  forall seed', exists m' w', NewXfsQuotaManager seed' (abs_path re) w = (Ok (inl m'), w') /\ whereabouts m' = whereabouts m.
Proof.
  intros Hroot Ht Hc E Hr seed'. assert (Hti : exists vols, tied vols (m, w)).
  { revert Hr. apply (reachable_invariant node_step (fun s => exists vols, tied vols s)).
    - destruct (restart_tied seed vols w0 Hroot Ht Hc) as (m2 & w2 & E2 & Ht2). rewrite E in E2. injection E2 as <- <-. by exists vols.
    - intros s s' [vols' Hs] Hstep. destruct (node_step_tied vols' s s' Hs Hstep) as (vols2 & Ht2 & _). by exists vols2. }
  destruct Hti as [vols' Hti]. destruct (tied_restarts vols' m w Hti seed') as (m' & w' & E' & _ & Hw). by exists m', w'.
Qed.
End life.

(** ** Runs *)

Section one_disk.
Context {W : Type} `{FileLaws W} (re : list string) (x dev : string).

(** One disk is mounted in a world. *)
Record one_disk (w : W) : Prop := {
  od_names : names_in re w = [x];
  od_mount : IsLikelyNotMountPoint (disk_path re x) w = inl false;
  od_dev : GetDevForPath (disk_path re x) w = (Ok dev, w);
  od_statfs : is_Some (match syscall_Statfs (disk_path re x) w with inl fs => Some fs | inr _ => None end)
}.

Lemma one_disk_mounted w : one_disk w -> mounted re x dev w.
Proof.
  intros [O1 O2 O3 O4]. split; [rewrite O1; by left | exact O2 | exact O3 |].
  destruct (syscall_Statfs (disk_path re x) w) as [fs | e]; [by exists fs | by destruct O4].
Qed.

Lemma one_disk_only w y dev' : one_disk w -> mounted re y dev' w -> y = x /\ dev' = dev.
Proof.
  intros Ho Hm. assert (Hy : y = x).
  { pose proof (mt_listed _ _ _ _ Hm) as Hy. rewrite (od_names _ Ho) in Hy. by apply list_elem_of_singleton in Hy. }
  subst y. split; [done |]. by eapply mounted_dev, one_disk_mounted.
Qed.

Lemma one_disk_tidy w vols dir :
  one_disk w -> Index (disk_path re x) XfsQuotaDirPrefix = -1 ->
  ioutil_ReadDir (disk_path re x) w = inl dir -> Forall (is_volume_dir vols x) dir ->
  (forall v kv, vols !! v = Some kv -> stored re v kv w) ->
  (forall v v' kv kv', vols !! v = Some kv -> vols !! v' = Some kv' -> kv_id kv = kv_id kv' -> v = v') ->
  tidy re w vols.
Proof.
  intros Ho Hplain Hdir Hall Hst Hids. split; [| | | | done | done].
  - intros y Hy. rewrite (od_names _ Ho) in Hy. apply list_elem_of_singleton in Hy as ->. left. eexists. by apply one_disk_mounted.
  - intros y y' dev' Hm Hm'. apply (one_disk_only w) in Hm as [-> _], Hm' as [-> _]; done.
  - by intros y dev' [-> _]%(one_disk_only w).
  - intros y dev' [-> _]%(one_disk_only w); [| done]. by exists dir.
Qed.
End one_disk.

Definition the_root : list string := ["pool"].

Lemma empty_disk : one_disk the_root "d1" "/dev/vdb" sim_empty.
Proof. split; vm_compute; try reflexivity. by eexists. Qed.

Lemma empty_tidy : tidy the_root sim_empty ∅.
Proof.
  apply (one_disk_tidy the_root "d1" "/dev/vdb" sim_empty ∅ []); [exact empty_disk | by vm_compute | vm_compute; reflexivity | apply Forall_nil_2 | |]; by intros v.
Qed.

Lemma empty_clearable : clearable the_root sim_empty.
Proof. intros q _ _. by apply removable_sim. Qed.

(** The volume that [placed] has put on the disk *)
Definition the_volume : KernelVolume := mkKernelVolume "d1" "/dev/vdb" 1000007 (5859, 5859).
Definition one_volume : gmap string KernelVolume := {[ "v1" := the_volume ]}.

Lemma placed_disk : one_disk the_root "d1" "/dev/vdb" placed.2.
Proof. split; vm_compute; try reflexivity. by eexists. Qed.

Lemma placed_stored : stored the_root "v1" the_volume placed.2.
Proof.
  split; [exact (one_disk_mounted the_root "d1" "/dev/vdb" _ placed_disk) | vm_compute; reflexivity.. | | ].
  - by vm_compute.
  - vm_compute. by split.
Qed.

Lemma placed_tidy : tidy the_root placed.2 one_volume.
Proof.
  apply (one_disk_tidy the_root "d1" "/dev/vdb" _ _ [mkFileInfo "k8squota_v1" true]); [exact placed_disk | by vm_compute | vm_compute; reflexivity | | |].
  - apply Forall_singleton. split; [done |]. by exists "v1", the_volume.
  - intros v kv. unfold one_volume. rewrite lookup_singleton_Some. intros [<- <-]. exact placed_stored.
  - intros v v' kv kv'. unfold one_volume. rewrite !lookup_singleton_Some. by intros [<- _] [<- _].
Qed.

Lemma root_normal : Forall normal_elem the_root.
Proof. apply Forall_singleton. by vm_compute. Qed.

Lemma restart_finds_volumes_witness :
  exists m w' q, NewXfsQuotaManager 7 "/pool" placed.2 = (Ok (inl m), w') /\ quotas m !! "v1" = Some q /\
    path_Path q = "/pool/d1/k8squota_v1" /\ HardQuota (path_Quota q) = 2999808.
Proof.
  destruct (restart_finds_volumes the_root ltac:(done) root_normal 7 placed.2 one_volume eq_refl placed_tidy)
    as (m & w' & E & Hv & _).
  destruct (Hv "v1") as (q & Hq & Hp & _ & Hh & _). exists m, w', q. split_and!; [exact E | exact Hq | exact Hp | exact Hh].
Defined.

(** Placing the volume, and starting again *)
Lemma started_eq : NewXfsQuotaManager 7 "/pool" sim_empty = (Ok (inl started.1), started.2).
Proof. vm_compute; reflexivity. Qed.

Lemma placing_step : node_step the_root started placed.
Proof. unfold placed. apply (nd_place the_root "v1" 3000000 started). by vm_compute. Qed.

Lemma restarted_reached : reachable (node_step the_root) started restarted.
Proof.
  eapply reachable_trans; apply reachable_one; [exact placing_step |].
  rewrite (surjective_pairing placed), (surjective_pairing restarted).
  apply (nd_restart the_root 7 placed.1 placed.2 restarted.1 restarted.2). exact restarted_eq.
Qed.

Lemma volumes_survive_restart_witness :
  exists m' w', NewXfsQuotaManager 11 "/pool" restarted.2 = (Ok (inl m'), w') /\ whereabouts m' = whereabouts restarted.1.
Proof.
  apply (volumes_survive_restart the_root ltac:(done) root_normal 7 ∅ sim_empty started.1 started.2 restarted.1 restarted.2);
    [reflexivity | exact empty_tidy | exact empty_clearable | exact started_eq |].
  rewrite <- !surjective_pairing. exact restarted_reached.
Defined.

(** A disk with a directory lost+found, and with the volume *)
Definition with_lost_found : sim := with_dirs (fun ds => ds ++ ["/pool/d1/lost+found"]) placed.2.

Lemma stray_directory_disables_witness :
  exists w', NewXfsQuotaManager 7 "/pool" with_lost_found = (Ok (inr mkFakeQuotaManager), w').
Proof.
  destruct (stray_directory_disables the_root ltac:(done) root_normal 7 with_lost_found "/dev/vdb" "d1" "lost+found" 0)
    as (r & w' & E & Hr).
  - vm_compute. by left.
  - by vm_compute.
  - by vm_compute.
  - intros y Hy _ _. vm_compute in Hy. by apply list_elem_of_singleton in Hy.
  - vm_compute. right. by left.
  - by vm_compute.
  - vm_compute. intros [Hle _]. by apply Hle.
  - destruct Hr as [-> | [y ->]]; [by exists w' |]. apply (f_equal fst) in E. vm_compute in E. discriminate E.
Defined.
