(* ===== verification/Csi.v ===== *)
(** * The messages of the Container Storage Interface

    The fields of the gRPC messages that the plugin reads and fills in; a pointer
    to a message is an [option], a repeated field a list.  No code of the plugin
    is modelled here. *)

From S2P Require Import Prelude.

(** [ControllerServiceCapability_RPC_Type] *)
Inductive ControllerCap : Set :=
  | CC_UNKNOWN | CC_CREATE_DELETE_VOLUME | CC_PUBLISH_UNPUBLISH_VOLUME | CC_LIST_VOLUMES
  | CC_GET_CAPACITY | CC_CREATE_DELETE_SNAPSHOT | CC_LIST_SNAPSHOTS | CC_CLONE_VOLUME
  | CC_PUBLISH_READONLY | CC_EXPAND_VOLUME | CC_LIST_VOLUMES_PUBLISHED_NODES
  | CC_VOLUME_CONDITION | CC_GET_VOLUME.

#[global] Instance ControllerCap_eq_dec : EqDecision ControllerCap.
Proof. solve_decision. Defined.

(** Its [String] method. *)
Definition ControllerCap_text (c : ControllerCap) : string :=
  match c with
  | CC_UNKNOWN => "UNKNOWN" | CC_CREATE_DELETE_VOLUME => "CREATE_DELETE_VOLUME"
  | CC_PUBLISH_UNPUBLISH_VOLUME => "PUBLISH_UNPUBLISH_VOLUME" | CC_LIST_VOLUMES => "LIST_VOLUMES"
  | CC_GET_CAPACITY => "GET_CAPACITY" | CC_CREATE_DELETE_SNAPSHOT => "CREATE_DELETE_SNAPSHOT"
  | CC_LIST_SNAPSHOTS => "LIST_SNAPSHOTS" | CC_CLONE_VOLUME => "CLONE_VOLUME"
  | CC_PUBLISH_READONLY => "PUBLISH_READONLY" | CC_EXPAND_VOLUME => "EXPAND_VOLUME"
  | CC_LIST_VOLUMES_PUBLISHED_NODES => "LIST_VOLUMES_PUBLISHED_NODES"
  | CC_VOLUME_CONDITION => "VOLUME_CONDITION" | CC_GET_VOLUME => "GET_VOLUME"
  end.

(** [VolumeCapability_AccessMode_Mode] *)
Inductive AccessMode : Set :=
  | AM_UNKNOWN | AM_SINGLE_NODE_WRITER | AM_SINGLE_NODE_READER_ONLY
  | AM_MULTI_NODE_READER_ONLY | AM_MULTI_NODE_SINGLE_WRITER | AM_MULTI_NODE_MULTI_WRITER.

(** [NodeServiceCapability_RPC_Type] and [PluginCapability] *)
Inductive NodeCap : Set :=
  | NC_UNKNOWN | NC_STAGE_UNSTAGE_VOLUME | NC_GET_VOLUME_STATS | NC_EXPAND_VOLUME | NC_VOLUME_CONDITION.
Inductive PluginCap : Set :=
  | Service_CONTROLLER_SERVICE | Service_VOLUME_ACCESSIBILITY_CONSTRAINTS | VolumeExpansion_ONLINE.

(** [VolumeCapability]: its access type. *)
Inductive AccessType : Set := NoAccessType | BlockVolume | MountVolume (MountFlags : list string).
Record VolumeCapability := mkVolumeCapability { vc_AccessType : AccessType; vc_AccessMode : AccessMode }.

Definition GetBlock (c : VolumeCapability) : bool :=
  match vc_AccessType c with BlockVolume => true | _ => false end.
(** [GetMount], of a possibly nil capability: the mount flags *)
Definition GetMount (c : option VolumeCapability) : option (list string) :=
  match c with Some (mkVolumeCapability (MountVolume flags) _) => Some flags | _ => None end.

Record CapacityRange := mkCapacityRange { RequiredBytes : Z; LimitBytes : Z }.

Inductive VolumeContentSource : Set := FromSnapshot (SnapshotId : string) | FromVolume (VolumeId : string).

Record CreateVolumeRequest := mkCreateVolumeRequest {
  cv_Name : string;
  cv_CapacityRange : option CapacityRange;
  cv_VolumeCapabilities : list VolumeCapability;
  cv_Parameters : gmap string string;
  cv_VolumeContentSource : option VolumeContentSource
}.
Record Volume := mkVolume {
  vol_VolumeId : string;
  vol_CapacityBytes : Z;
  vol_VolumeContext : gmap string string;
  vol_ContentSource : option VolumeContentSource
}.
Record DeleteVolumeRequest := mkDeleteVolumeRequest { dv_VolumeId : string }.
Record ControllerExpandVolumeRequest := mkControllerExpandVolumeRequest {
  ce_VolumeId : string;
  ce_CapacityRange : option CapacityRange
}.
Record ControllerExpandVolumeResponse := mkControllerExpandVolumeResponse {
  ce_CapacityBytes : Z;
  ce_NodeExpansionRequired : bool
}.
Record ValidateVolumeCapabilitiesRequest := mkValidateVolumeCapabilitiesRequest {
  vv_VolumeId : string;
  vv_VolumeCapabilities : list VolumeCapability
}.
(** The confirmed capabilities, if any. *)
Record ValidateVolumeCapabilitiesResponse := mkValidateVolumeCapabilitiesResponse {
  vv_Confirmed : option (list VolumeCapability)
}.
Record NodeStageVolumeRequest := mkNodeStageVolumeRequest {
  ns_VolumeId : string;
  ns_StagingTargetPath : string;
  ns_VolumeCapability : option VolumeCapability
}.
Record NodeUnstageVolumeRequest := mkNodeUnstageVolumeRequest {
  nu_VolumeId : string;
  nu_StagingTargetPath : string
}.
Record NodePublishVolumeRequest := mkNodePublishVolumeRequest {
  np_VolumeId : string;
  np_StagingTargetPath : string;
  np_TargetPath : string;
  np_VolumeCapability : option VolumeCapability;
  np_Readonly : bool
}.
Record NodeUnpublishVolumeRequest := mkNodeUnpublishVolumeRequest {
  un_VolumeId : string;
  un_TargetPath : string
}.
Record NodeExpandVolumeRequest := mkNodeExpandVolumeRequest {
  ne_VolumeId : string;
  ne_VolumePath : string;
  ne_CapacityRange : option CapacityRange
}.

(** The requests a handler may get, as far as the interceptors tell them apart. *)
Inductive Request :=
  | ReqCreateVolume (r : CreateVolumeRequest)
  | ReqDeleteVolume (r : DeleteVolumeRequest)
  | ReqCreateSnapshot (Name : string)
  | ReqDeleteSnapshot (SnapshotId : string)
  | ReqControllerExpandVolume (r : ControllerExpandVolumeRequest)
  | ReqNodeStageVolume (r : NodeStageVolumeRequest)
  | ReqNodeUnstageVolume (r : NodeUnstageVolumeRequest)
  | ReqNodePublishVolume (r : NodePublishVolumeRequest)
  | ReqNodeUnpublishVolume (r : NodeUnpublishVolumeRequest)
  | ReqNodeExpandVolume (r : NodeExpandVolumeRequest)
  | ReqOther.

Record VolumeUsage := mkVolumeUsage { vu_Available : Z; vu_Total : Z; vu_Used : Z }.
