(* ===== verification/CsiCommon.v ===== *)
(** * Code shared by the CSI servers: pkg/csi-plugin/csi-common, pkg/util/validate.go

    The driver's capabilities, the default servers, the mount options, the
    validation of node requests and the interceptors around every handler. *)

From S2P Require Import Prelude GoStrings Os Util Csi.
From stdpp Require Import pretty.
Open Scope Z_scope.
Open Scope go_scope.

(** ** driver.go *)

Record CSIDriver := mkCSIDriver {
  drv_name : string;
  drv_nodeID : string;
  drv_version : string;
  drv_topology : option (gmap string string);
  drv_cap : list ControllerCap;
  drv_vc : list AccessMode
}.

Definition NewCSIDriver (name v nodeID : string) : option CSIDriver :=
  if decide (name = "") then None
  else if decide (nodeID = "") then None
  else if decide (v = "") then None
  else Some (mkCSIDriver name nodeID v None [] []).

Definition ValidateControllerServiceRequest (c : ControllerCap) (d : CSIDriver) : option error :=
  if decide (c = CC_UNKNOWN) then None
  else if existsb (fun cap => bool_decide (c = cap)) (drv_cap d) then None
  else Some (StatusError InvalidArgument (ControllerCap_text c)).

Definition NewControllerServiceCapability (ctrlCap : ControllerCap) : ControllerCap := ctrlCap.
Definition NewVolumeCapabilityAccessMode (mode : AccessMode) : AccessMode := mode.

Definition AddControllerServiceCapabilities (cl : list ControllerCap) (d : CSIDriver) : CSIDriver :=
  mkCSIDriver (drv_name d) (drv_nodeID d) (drv_version d) (drv_topology d)
    (map NewControllerServiceCapability cl) (drv_vc d).

Definition AddVolumeCapabilityAccessModes (vc : list AccessMode) (d : CSIDriver) : list AccessMode * CSIDriver :=
  let vca := map NewVolumeCapabilityAccessMode vc in
  (vca, mkCSIDriver (drv_name d) (drv_nodeID d) (drv_version d) (drv_topology d) (drv_cap d) vca).

Definition GetVolumeCapabilityAccessModes (d : CSIDriver) : list AccessMode := drv_vc d.

(** ** The default servers *)

Definition unimplemented : error := StatusError Unimplemented "".

Record DefaultNodeServer := mkDefaultNodeServer { dns_Driver : CSIDriver; dns_Type : string }.
Definition NewDefaultNodeServer (d : CSIDriver) (t : string) (topology : option (gmap string string)) :
    DefaultNodeServer :=
  mkDefaultNodeServer (mkCSIDriver (drv_name d) (drv_nodeID d) (drv_version d) topology (drv_cap d) (drv_vc d)) t.

Definition NodeGetInfo (ns : DefaultNodeServer) : string * option (gmap string string) :=
  (drv_nodeID (dns_Driver ns), drv_topology (dns_Driver ns)).
Definition default_NodeGetCapabilities (ns : DefaultNodeServer) : list NodeCap := [NC_UNKNOWN].

Definition ControllerGetCapabilities (d : CSIDriver) : list ControllerCap := drv_cap d.

Definition GetPluginInfo (d : CSIDriver) : outcome (string * string) :=
  if decide (drv_name d = "") then Fail (StatusError Unavailable "Driver name not configured")
  else if decide (drv_version d = "") then Fail (StatusError Unavailable "Driver is missing version")
  else Ok (drv_name d, drv_version d).
Definition default_GetPluginCapabilities : list PluginCap := [Service_CONTROLLER_SERVICE].

(** [volume.NewMetricsStatFS(path).GetMetrics()] of k8s.io/kubernetes/pkg/volume;
    a quantity that is no int64 is [None]. *)
Record VolumeMetrics := mkVolumeMetrics {
  vm_Available : option Z; vm_Capacity : option Z; vm_Used : option Z;
  vm_Inodes : option Z; vm_InodesFree : option Z; vm_InodesUsed : option Z
}.
Class MetricsStatFS (W : Type) := { GetMetrics : string -> W -> VolumeMetrics + error }.

Section stats.
Context {W : Type} `{OS W} `{MetricsStatFS W}.

(** [AsInt64] of a quantity that is no int64 gives 0. *)
Definition AsInt64 (q : option Z) : Z := default 0 q.

Definition NodeGetVolumeStats (targetPath : string) : M W (VolumeUsage * VolumeUsage) :=
  if decide (targetPath = "") then
    fail (StatusError InvalidArgument "targetpath  is empty")
  else
    let! isMnt := attempt (IsMountPoint targetPath) in
    match isMnt with
    | inr err =>
        if IsNotExist err
        then fail (StatusError InvalidArgument ("targetpath " +:+ targetPath +:+ " doesnot exist"))
        else fail err
    | inl isMnt =>
        if negb isMnt
        then fail (StatusError InvalidArgument ("targetpath " +:+ targetPath +:+ " is not mounted"))
        else
          let! volMetrics := attempt (sys_read (GetMetrics targetPath)) in
          match volMetrics with
          | inr volMetErr => fail (StatusError Internal (error_text volMetErr))
          | inl m =>
              match vm_Capacity m with
              | None => fail (StatusError Unknown "failed to fetch capacity bytes")
              | Some capacity =>
                  match vm_Inodes m with
                  | None => fail (StatusError Unknown "failed to fetch available inodes")
                  | Some inodes =>
                      ret (mkVolumeUsage (AsInt64 (vm_Available m)) capacity (AsInt64 (vm_Used m)),
                           mkVolumeUsage (AsInt64 (vm_InodesFree m)) inodes (AsInt64 (vm_InodesUsed m)))
                  end
              end
          end
    end.
End stats.

(** ** Mount options *)

Definition hasOption (options : list string) (opt : string) : bool :=
  existsb (fun o => bool_decide (o = opt)) options.

Definition ConstructMountOptions (mountOptions : list string) (volCap : option VolumeCapability) : list string :=
  match GetMount volCap with
  | Some flags =>
      foldl (fun opts f => if hasOption opts f then opts else opts ++ [f]) mountOptions flags
  | None => mountOptions
  end.

Definition MountOptionContains (mountOptions : list string) (opt : string) : bool :=
  existsb (fun mnt => bool_decide (mnt = opt)) mountOptions.

(** ** Endpoints *)

(** [strings.SplitN(s, sep, 2)] *)
Definition SplitN2 (s sep : string) : list string :=
  match String.index 0 sep s with
  | Some n => [String.substring 0 n s;
               String.substring (n + String.length sep) (String.length s - (n + String.length sep)) s]
  | None => [s]
  end.

Definition parseEndpoint (ep : string) : outcome (string * string) :=
  let invalid := Fail (Errorf ("invalid endpoint: " +:+ ep)) in
  if HasPrefix (ToLower ep) "unix://" || HasPrefix (ToLower ep) "tcp://" then
    match SplitN2 ep "://" with
    | s0 :: s1 :: _ => if decide (s1 <> "") then Ok (s0, s1) else invalid
    | _ => Panic "index out of range"
    end
  else invalid.

(** ** util/validate.go *)

Definition invalid (msg : string) : error := StatusError InvalidArgument msg.

Section validate.
Context {W : Type} `{OS W}.

Definition ValidateNodeStageVolumeRequest (req : NodeStageVolumeRequest) (w : W) : option error :=
  if decide (ns_VolumeCapability req = None) then Some (invalid "volume capability missing in request")
  else if go_len (ns_VolumeId req) =? 0 then Some (invalid "volume ID missing in request")
  else if go_len (ns_StagingTargetPath req) =? 0 then Some (invalid "staging target path missing in request")
  else if decide (ns_VolumeCapability req = None) then Some (invalid "volume capability missing in request")
  else if negb (CheckDirExists (ns_StagingTargetPath req) w) then
    Some (invalid ("staging path " +:+ ns_StagingTargetPath req +:+ " does not exists on node"))
  else None.
End validate.

Definition ValidateNodeUnstageVolumeRequest (req : NodeUnstageVolumeRequest) : option error :=
  if go_len (nu_VolumeId req) =? 0 then Some (invalid "volume ID missing in request")
  else if go_len (nu_StagingTargetPath req) =? 0 then Some (invalid "staging target path missing in request")
  else None.

Definition ValidateNodePublishVolumeRequest (req : NodePublishVolumeRequest) : option error :=
  if decide (np_VolumeCapability req = None) then Some (invalid "volume capability missing in request")
  else if go_len (np_VolumeId req) =? 0 then Some (invalid "volume ID missing in request")
  else if go_len (np_TargetPath req) =? 0 then Some (invalid "target path missing in request")
  else if go_len (np_StagingTargetPath req) =? 0 then Some (invalid "staging target path missing in request")
  else None.

Definition ValidateNodeUnpublishVolumeRequest (req : NodeUnpublishVolumeRequest) : option error :=
  if go_len (un_VolumeId req) =? 0 then Some (invalid "volume ID missing in request")
  else if go_len (un_TargetPath req) =? 0 then Some (invalid "target path missing in request")
  else None.

(** ** The interceptors *)

(** What the interceptors and the log functions read of a context. *)
Record Ctx := mkCtx { ctx_ID : option Z; ctx_ReqID : option string }.

(** util/log.go: the prefix of a log line *)
Definition Log (ctx : Ctx) (format : string) : string :=
  match ctx_ID ctx with
  | None => format
  | Some id =>
      let a := "ID: " +:+ pretty id +:+ " " in
      match ctx_ReqID ctx with
      | None => a +:+ format
      | Some reqID => a +:+ "Req-ID: " +:+ reqID +:+ " " +:+ format
      end
  end.

Definition getReqID (req : Request) : string :=
  match req with
  | ReqCreateVolume r => cv_Name r
  | ReqDeleteVolume r => dv_VolumeId r
  | ReqCreateSnapshot name => name
  | ReqDeleteSnapshot snapshotId => snapshotId
  | ReqControllerExpandVolume r => ce_VolumeId r
  | ReqNodeStageVolume r => ns_VolumeId r
  | ReqNodeUnstageVolume r => nu_VolumeId r
  | ReqNodePublishVolume r => np_VolumeId r
  | ReqNodeUnpublishVolume r => un_VolumeId r
  | ReqNodeExpandVolume r => ne_VolumeId r
  | ReqOther => ""
  end.

Section interceptors.
(** [S]: what the handlers work on; the counter [id] comes with it. *)
Context {S Resp : Type}.
Abbreviation Handler := (Ctx -> Request -> M (Z * S) Resp).

Definition contextIDInjector (handler : Handler) : Handler := fun ctx req =>
  modify (fun s => (u64 (s.1 + 1), s.2)) ;;
  (let! id := gets fst in
   let reqID := getReqID req in
   handler (mkCtx (Some id) (if decide (reqID <> "") then Some reqID else ctx_ReqID ctx)) req).

Definition logGRPC (handler : Handler) : Handler := fun ctx req =>
  let! resp := attempt (handler ctx req) in
  match resp with inl resp => ret resp | inr err => fail err end.

Definition panicHandler (handler : Handler) : Handler := fun ctx req s =>
  match handler ctx req s with
  | (Panic r, s') => (Fail (StatusError Internal ("panic " +:+ r)), s')
  | r => r
  end.

(** [grpc_middleware.WithUnaryServerChain]: the first interceptor is outermost.
    (With metrics the Prometheus interceptor, which only observes, is added inside.) *)
Definition middleWare : list (Handler -> Handler) := [contextIDInjector; logGRPC; panicHandler].
Definition served (handler : Handler) : Handler := foldr (fun f h => f h) handler middleWare.

(** whatever a handler does, the served call returns a response or an error:
    a panic becomes an Internal error and the state the handler left is kept; the
    handler sees the next value of the counter and, when the request names a
    volume or snapshot, that name. *)
Theorem served_spec (handler : Handler) ctx req id s :
  served handler ctx req (id, s) =
  let ctx' := mkCtx (Some (u64 (id + 1)))
                (if decide (getReqID req <> "") then Some (getReqID req) else ctx_ReqID ctx) in
  match handler ctx' req (u64 (id + 1), s) with
  | (Ok resp, s') => (Ok resp, s')
  | (Fail err, s') => (Fail err, s')
  | (Panic r, s') => (Fail (StatusError Internal ("panic " +:+ r)), s')
  end.
Proof.
  unfold served, middleWare, contextIDInjector, logGRPC, panicHandler. simpl.
  go_unfold. simpl. by destruct (handler _ req _) as [[] ?].
Qed.
End interceptors.

(** *** Concurrent calls

    [contextIDInjector] increments the counter atomically, then reads it in a
    second step. *)
Inductive Caller := NotYet | Incremented | Given (id : Z).

Inductive id_step : Z * list Caller -> Z * list Caller -> Prop :=
  | step_increment id l1 l2 :
      id_step (id, l1 ++ NotYet :: l2) (u64 (id + 1), l1 ++ Incremented :: l2)
  | step_read id l1 l2 :
      id_step (id, l1 ++ Incremented :: l2) (id, l1 ++ Given id :: l2).

(** two requests can be given the same id: both increment the counter before
    either reads it. *)
Theorem context_ids_collide :
  reachable id_step (0, [NotYet; NotYet]) (2, [Given 2; Given 2]).
Proof.
  eapply reachable_next; [| apply (step_read 2 [Given 2] [])].
  eapply reachable_next; [| apply (step_read 2 [] [Incremented])].
  eapply reachable_next; [| apply (step_increment 1 [Incremented] [])].
  eapply reachable_next; [| apply (step_increment 0 [] [NotYet])].
  apply reachable_init.
Qed.

(** ** Mount options are unique *)

Lemma hasOption_iff options opt : hasOption options opt = true <-> opt ∈ options.
Proof.
  unfold hasOption. rewrite existsb_exists. setoid_rewrite bool_decide_eq_true.
  setoid_rewrite <- list_elem_of_In. naive_solver.
Qed.

Lemma add_options flags opts :
  let r := foldl (fun opts f => if hasOption opts f then opts else opts ++ [f]) opts flags in
  (NoDup opts -> NoDup r) /\ opts `prefix_of` r /\ (forall o, o ∈ r <-> o ∈ opts \/ o ∈ flags).
Proof.
  revert opts. induction flags as [|f flags IH]; intros opts; simpl.
  - split_and!; [done | done |]. intros o. rewrite elem_of_nil. tauto.
  - specialize (IH (if hasOption opts f then opts else opts ++ [f])). simpl in IH.
    destruct IH as (IH1 & IH2 & IH3). destruct (hasOption opts f) eqn:E.
    + apply hasOption_iff in E. split_and!; [done | done |]. intros o. rewrite IH3, elem_of_cons. naive_solver.
    + assert (f ∉ opts) by (rewrite <- hasOption_iff; congruence). split_and!.
      * intros Hd. apply IH1, NoDup_app. split; [done |]. split; [| apply NoDup_singleton].
        intros o Ho Hf. apply list_elem_of_singleton in Hf. by subst o.
      * etrans; [| exact IH2]. by exists [f].
      * intros o. rewrite IH3, elem_of_app, list_elem_of_singleton, elem_of_cons. tauto.
Qed.

(** the options of a mount are the given ones, in front and in order, followed
    by those of the volume's flags that are not there yet: no option is lost, none
    is added twice, and a volume without a mount capability adds none. *)
Theorem ConstructMountOptions_spec mountOptions volCap :
  NoDup mountOptions ->
  let r := ConstructMountOptions mountOptions volCap in
  NoDup r /\ mountOptions `prefix_of` r /\
  (forall o, o ∈ r <-> o ∈ mountOptions \/ exists flags, GetMount volCap = Some flags /\ o ∈ flags).
Proof.
  intros Hd. unfold ConstructMountOptions. destruct (GetMount volCap) as [flags |]; simpl.
  - destruct (add_options flags mountOptions) as (H1 & H2 & H3). split_and!; [auto | done |].
    intros o. rewrite H3. naive_solver.
  - split_and!; [done | done |]. naive_solver.
Qed.

Lemma ConstructMountOptions_spec_witness :
  NoDup (ConstructMountOptions ["bind"]
    (Some (mkVolumeCapability (MountVolume ["noatime"; "bind"; "noatime"]) AM_SINGLE_NODE_WRITER))).
Proof.
  refine (proj1 (ConstructMountOptions_spec ["bind"] _ _)). apply NoDup_singleton.
Defined.
