(* ===== verification/Log.v ===== *)
(** * The log functions: pkg/util/log.go

    A function of the package formats its message, prefixed with what the context
    knows of the request, and hands the text to klog at one depth.  What klog does with
    it lies outside; its verbosity is an argument.  The message that is formatted is the
    prefix followed by the format, so that a request id is read as a format as well. *)

From S2P Require Import Prelude GoStrings Csi CsiCommon.
From stdpp Require Import pretty.
Open Scope Z_scope.
Open Scope go_scope.

(** ** fmt.Sprintf

    An argument is known by what it prints for a verb, and by what it prints when no
    verb asks for it; a verb is one character, as in the formats of the program. *)

Record Arg := mkArg { arg_text : ascii -> string; arg_extra : string }.

(** A string, which every verb of the program's formats prints as it is. *)
Definition string_arg (s : string) : Arg := mkArg (fun _ => s) ("string=" +:+ s).

Definition percent : ascii := "%"%char.

Fixpoint sprintf_from (s : string) (args : list Arg) : string * list Arg :=
  match s with
  | EmptyString => ("", args)
  | String c s' =>
      if decide (c = percent) then
        match s' with
        | EmptyString => ("%!(NOVERB)", args)
        | String v s'' =>
            if decide (v = percent) then
              let '(t, rest) := sprintf_from s'' args in (String percent t, rest)
            else
              match args with
              | [] => let '(t, rest) := sprintf_from s'' [] in ("%!" +:+ String v "(MISSING)" +:+ t, rest)
              | a :: args' => let '(t, rest) := sprintf_from s'' args' in (arg_text a v +:+ t, rest)
              end
        end
      else let '(t, rest) := sprintf_from s' args in (String c t, rest)
  end.

Definition Sprintf (format : string) (args : list Arg) : string :=
  let '(t, rest) := sprintf_from format args in
  match rest with
  | [] => t
  | _ => t +:+ "%!(EXTRA " +:+ String.concat ", " (map arg_extra rest) +:+ ")"
  end.

Example Sprintf_examples :
  Sprintf "a %s%% b" [string_arg "x"] = "a x% b" /\ Sprintf "%v" [] = "%!v(MISSING)" /\
  Sprintf "a" [string_arg "x"] = "a%!(EXTRA string=x)" /\ Sprintf "50%" [] = "50%!(NOVERB)".
Proof. by vm_compute. Qed.

(** ** The functions *)

Inductive Severity := InfoSev | WarningSev | ErrorSev | FatalSev.
Record LogLine := mkLogLine { ll_Severity : Severity; ll_Text : string }.

(** The levels of the package *)
Definition Default : Z := 1.
Definition Useful : Z := 2.
Definition Extended : Z := 3.
Definition Debug : Z := 4.
Definition Trace : Z := 5.

Section functions.
(** [v]: the verbosity of klog; [V(level).Enabled()]. *)
Context (v : Z).
Definition Enabled (level : Z) : bool := level <=? v.

Definition at_level (level : Z) (message : string) : list LogLine :=
  if Enabled level then [mkLogLine InfoSev message] else [].

Definition FatalLogMsg (message : string) (args : list Arg) : list LogLine :=
  [mkLogLine FatalSev (Sprintf message args)].
Definition ErrorLogMsg (message : string) (args : list Arg) : list LogLine :=
  [mkLogLine ErrorSev (Sprintf message args)].
Definition ErrorLog (ctx : Ctx) (message : string) (args : list Arg) : list LogLine :=
  [mkLogLine ErrorSev (Sprintf (Log ctx message) args)].
Definition WarningLogMsg (message : string) (args : list Arg) : list LogLine :=
  [mkLogLine WarningSev (Sprintf message args)].
Definition WarningLog (ctx : Ctx) (message : string) (args : list Arg) : list LogLine :=
  [mkLogLine WarningSev (Sprintf (Log ctx message) args)].
Definition DefaultLog (message : string) (args : list Arg) : list LogLine :=
  at_level Default (Sprintf message args).
Definition UsefulLog (ctx : Ctx) (message : string) (args : list Arg) : list LogLine :=
  at_level Useful (Sprintf (Log ctx message) args).
Definition ExtendedLogMsg (message : string) (args : list Arg) : list LogLine :=
  at_level Extended (Sprintf message args).
Definition ExtendedLog (ctx : Ctx) (message : string) (args : list Arg) : list LogLine :=
  at_level Extended (Sprintf (Log ctx message) args).
(** The one function that also calls [klog.V(Debug).Infof]. *)
Definition DebugLogMsg (message : string) (args : list Arg) : list LogLine :=
  let logMessage := Sprintf message args in
  (if Enabled Debug then [mkLogLine InfoSev (Sprintf message args)] else []) ++ at_level Debug logMessage.
Definition DebugLog (ctx : Ctx) (message : string) (args : list Arg) : list LogLine :=
  at_level Debug (Sprintf (Log ctx message) args).
Definition TraceLogMsg (message : string) (args : list Arg) : list LogLine :=
  at_level Trace (Sprintf message args).
Definition TraceLog (ctx : Ctx) (message : string) (args : list Arg) : list LogLine :=
  at_level Trace (Sprintf (Log ctx message) args).
End functions.

(** ** What is logged *)

(** The prefix as it should appear in the line *)
Definition prefix_of_ctx (ctx : Ctx) : string := Log ctx "".

Fixpoint no_percent (s : string) : bool :=
  match s with EmptyString => true | String c s' => negb (bool_decide (c = percent)) && no_percent s' end.

Lemma no_percent_app s t : no_percent (s +:+ t) = no_percent s && no_percent t.
Proof.
  induction s as [|c s IH]; [done |]. change (String c s +:+ t) with (String c (s +:+ t)).
  cbn [no_percent]. by rewrite IH, andb_assoc.
Qed.

Lemma app_cons_string c (s t : string) : String c s +:+ t = String c (s +:+ t).
Proof. done. Qed.

Lemma sprintf_from_prefix p s args :
  no_percent p = true -> sprintf_from (p +:+ s) args = (p +:+ (sprintf_from s args).1, (sprintf_from s args).2).
Proof.
  induction p as [|c p IH]; cbn [no_percent]; intros Hp; [apply surjective_pairing |].
  apply andb_prop in Hp as [Hc Hp]. apply negb_true_iff, bool_decide_eq_false in Hc.
  rewrite !app_cons_string. cbn [sprintf_from]. by rewrite decide_False, (IH Hp) by done.
Qed.

Lemma Sprintf_prefix p s args : no_percent p = true -> Sprintf (p +:+ s) args = p +:+ Sprintf s args.
Proof.
  intros Hp. unfold Sprintf. rewrite sprintf_from_prefix by done. destruct (sprintf_from s args) as [t [|a rest]]; [done |].
  cbn [fst snd]. by rewrite app_assoc_string.
Qed.

Lemma Log_prefix ctx format : Log ctx format = prefix_of_ctx ctx +:+ format.
Proof.
  unfold prefix_of_ctx, Log. destruct (ctx_ID ctx) as [id |]; [| done].
  destruct (ctx_ReqID ctx) as [reqID |]; by rewrite !app_assoc_string.
Qed.

Lemma no_percent_char n : pretty_N_char n <> percent.
Proof. unfold pretty_N_char. by repeat case_match. Qed.

Lemma no_percent_go n : forall s, no_percent s = true -> no_percent (pretty_N_go n s) = true.
Proof.
  induction n as [n IH] using (well_founded_induction N.lt_wf_0). intros s Hs. destruct (decide (n = 0)%N) as [-> | Hn]; [by rewrite pretty_N_go_0 |].
  rewrite pretty_N_go_step by lia. apply IH; [apply N.div_lt; lia |]. cbn [no_percent].
  by rewrite bool_decide_eq_false_2 by apply no_percent_char.
Qed.

Lemma no_percent_pretty (id : Z) : no_percent (pretty id) = true.
Proof.
  assert (Hn : forall n : N, no_percent (pretty n) = true).
  { intros n. unfold pretty, pretty_N. case_decide; [done |]. by apply no_percent_go. }
  destruct id; [done | apply Hn |]. apply (Hn (Npos p)).
Qed.

Lemma no_percent_ctx ctx :
  (forall r, ctx_ReqID ctx = Some r -> no_percent r = true) -> no_percent (prefix_of_ctx ctx) = true.
Proof.
  intros Hr. unfold prefix_of_ctx, Log. destruct (ctx_ID ctx) as [id |]; [| done].
  destruct (ctx_ReqID ctx) as [r |]; rewrite !no_percent_app, no_percent_pretty; [| done].
  by rewrite (Hr r eq_refl).
Qed.

(** Each function writes one line of its severity, or of the info severity and only
    from its level of verbosity on, but for [DebugLogMsg], which writes its line twice;
    and the line is the prefix of the request followed by the formatted message,
    whenever the request id has no percent sign. *)
Theorem log_lines_spec v ctx message args :
  (forall r, ctx_ReqID ctx = Some r -> no_percent r = true) ->
  let text := Sprintf message args in
  let line := prefix_of_ctx ctx +:+ text in
  let from (level : Z) (t : string) := if level <=? v then [mkLogLine InfoSev t] else [] in
  FatalLogMsg message args = [mkLogLine FatalSev text] /\
  ErrorLogMsg message args = [mkLogLine ErrorSev text] /\ ErrorLog ctx message args = [mkLogLine ErrorSev line] /\
  WarningLogMsg message args = [mkLogLine WarningSev text] /\ WarningLog ctx message args = [mkLogLine WarningSev line] /\
  DefaultLog v message args = from 1 text /\ UsefulLog v ctx message args = from 2 line /\
  ExtendedLogMsg v message args = from 3 text /\ ExtendedLog v ctx message args = from 3 line /\
  DebugLogMsg v message args = from 4 text ++ from 4 text /\ DebugLog v ctx message args = from 4 line /\
  TraceLogMsg v message args = from 5 text /\ TraceLog v ctx message args = from 5 line.
Proof.
  intros Hr text line from. assert (Hl : Sprintf (Log ctx message) args = line).
  { rewrite Log_prefix. by apply Sprintf_prefix, no_percent_ctx. }
  unfold ErrorLog, WarningLog, UsefulLog, ExtendedLog, DebugLog, TraceLog. rewrite Hl. by split_and!.
Qed.

Definition request_ctx (name : string) : Ctx := mkCtx (Some 7) (Some name).

Lemma log_lines_spec_witness :
  ErrorLog (request_ctx "pvc-1") "failed %s" [string_arg "x"] = [mkLogLine ErrorSev "ID: 7 Req-ID: pvc-1 failed x"].
Proof.
  refine (proj1 (proj2 (proj2 (log_lines_spec 2 (request_ctx "pvc-1") "failed %s" [string_arg "x"] _)))).
  by intros r [= <-].
Defined.

(** A volume name with a verb takes the argument of the message. *)
Example request_id_is_a_format :
  ErrorLog (request_ctx "a%sb") "failed %s" [string_arg "x"] = [mkLogLine ErrorSev "ID: 7 Req-ID: axb failed %!s(MISSING)"].
Proof. by vm_compute. Qed.
