(* ===== verification/GrpcServer.v ===== *)
(** * The gRPC server and its services: csi-common/server.go, the default servers

    The methods of the three services of the Container Storage Interface are indexed
    by the type of their response, and a service is a function from its methods to
    computations.  [serve] prepares the listener and the server, registers services,
    and serves until the server is stopped; the process around it is a step relation.

    The network, the gRPC library and Prometheus are the class [NetOps].  A [Fail] of
    the code that sets the process up is a [klog.Fatal]: the process exits. *)

From S2P Require Import Prelude GoStrings Os Util Csi CsiCommon.
Open Scope Z_scope.
Open Scope go_scope.

(** ** The services *)

Record NodeGetVolumeStatsRequest := mkNodeGetVolumeStatsRequest { gs_VolumePath : string }.

Inductive IdentityCall : Type -> Type :=
  | CallGetPluginInfo : IdentityCall (string * string)
  | CallGetPluginCapabilities : IdentityCall (list PluginCap)
  | CallProbe : IdentityCall unit.

Inductive ControllerCall : Type -> Type :=
  | CallCreateVolume (req : CreateVolumeRequest) : ControllerCall Volume
  | CallDeleteVolume (req : DeleteVolumeRequest) : ControllerCall unit
  | CallControllerPublishVolume : ControllerCall unit
  | CallControllerUnpublishVolume : ControllerCall unit
  | CallValidateVolumeCapabilities (req : ValidateVolumeCapabilitiesRequest) :
      ControllerCall ValidateVolumeCapabilitiesResponse
  | CallListVolumes : ControllerCall unit
  | CallGetCapacity : ControllerCall unit
  | CallControllerGetCapabilities : ControllerCall (list ControllerCap)
  | CallCreateSnapshot (Name : string) : ControllerCall unit
  | CallDeleteSnapshot (SnapshotId : string) : ControllerCall unit
  | CallListSnapshots : ControllerCall unit
  | CallControllerExpandVolume (req : ControllerExpandVolumeRequest) :
      ControllerCall ControllerExpandVolumeResponse
  | CallControllerGetVolume : ControllerCall unit.

Inductive NodeCall : Type -> Type :=
  | CallNodeStageVolume (req : NodeStageVolumeRequest) : NodeCall unit
  | CallNodeUnstageVolume (req : NodeUnstageVolumeRequest) : NodeCall unit
  | CallNodePublishVolume (req : NodePublishVolumeRequest) : NodeCall unit
  | CallNodeUnpublishVolume (req : NodeUnpublishVolumeRequest) : NodeCall unit
  | CallNodeGetVolumeStats (req : NodeGetVolumeStatsRequest) : NodeCall (VolumeUsage * VolumeUsage)
  | CallNodeExpandVolume (req : NodeExpandVolumeRequest) : NodeCall unit
  | CallNodeGetCapabilities : NodeCall (list NodeCap)
  | CallNodeGetInfo : NodeCall (string * option (gmap string string)).

(** What the interceptors see of a call. *)
Definition controller_request {A} (c : ControllerCall A) : Request :=
  match c with
  | CallCreateVolume r => ReqCreateVolume r
  | CallDeleteVolume r => ReqDeleteVolume r
  | CallCreateSnapshot name => ReqCreateSnapshot name
  | CallDeleteSnapshot id => ReqDeleteSnapshot id
  | CallControllerExpandVolume r => ReqControllerExpandVolume r
  | _ => ReqOther
  end.
Definition node_request {A} (c : NodeCall A) : Request :=
  match c with
  | CallNodeStageVolume r => ReqNodeStageVolume r
  | CallNodeUnstageVolume r => ReqNodeUnstageVolume r
  | CallNodePublishVolume r => ReqNodePublishVolume r
  | CallNodeUnpublishVolume r => ReqNodeUnpublishVolume r
  | CallNodeExpandVolume r => ReqNodeExpandVolume r
  | _ => ReqOther
  end.

(** ** The default servers *)

Record DefaultIdentityServer := mkDefaultIdentityServer { dis_Driver : CSIDriver }.
Definition NewDefaultIdentityServer (d : CSIDriver) : DefaultIdentityServer := mkDefaultIdentityServer d.

Definition Probe {S} : M S unit := ret tt.

Definition default_identity {S A} (ids : DefaultIdentityServer) (c : IdentityCall A) : M S A :=
  match c with
  | CallGetPluginInfo => lift (GetPluginInfo (dis_Driver ids))
  | CallGetPluginCapabilities => ret default_GetPluginCapabilities
  | CallProbe => Probe
  end.

Record DefaultControllerServer := mkDefaultControllerServer { dcs_Driver : CSIDriver }.
Definition NewDefaultControllerServer (d : CSIDriver) : DefaultControllerServer := mkDefaultControllerServer d.

Section default_controller.
Context {S : Type}.
Definition ControllerPublishVolume : M S unit := fail unimplemented.
Definition ControllerUnpublishVolume : M S unit := fail unimplemented.
Definition default_ControllerExpandVolume (req : ControllerExpandVolumeRequest) :
    M S ControllerExpandVolumeResponse := fail unimplemented.
Definition ListVolumes : M S unit := fail unimplemented.
Definition GetCapacity : M S unit := fail unimplemented.
Definition CreateSnapshot (Name : string) : M S unit := fail unimplemented.
Definition DeleteSnapshot (SnapshotId : string) : M S unit := fail unimplemented.
Definition ListSnapshots : M S unit := fail unimplemented.
Definition ControllerGetVolume : M S unit := fail unimplemented.
End default_controller.

(** ** strconv.Atoi *)

Definition is_digit (c : ascii) : bool := (48 <=? byte_val c) && (byte_val c <=? 57).

Definition errSyntax : error := Errorf "invalid syntax".
Definition errRange : error := Errorf "value out of range".

(** [ParseUint(s, 10, 64)]: the value returned beside the error counts too. *)
Fixpoint parse_uint (n : Z) (s : string) : Z * option error :=
  match s with
  | EmptyString => (n, None)
  | String c s' =>
      if negb (is_digit c) then (0, Some errSyntax)
      else
        let n1 := n * 10 + (byte_val c - 48) in
        if n1 >? 2 ^ 64 - 1 then (2 ^ 64 - 1, Some errRange) else parse_uint n1 s'
  end.

(** The text of its errors is cut short: nothing reads it. *)
Definition Atoi (s : string) : Z * option error :=
  let '(neg, ds) := match s with
                    | String c s' => if decide (c = "-"%char) then (true, s')
                                     else if decide (c = "+"%char) then (false, s') else (false, s)
                    | EmptyString => (false, s)
                    end in
  if decide (ds = "") then (0, Some errSyntax)
  else
    match parse_uint 0 ds with
    | (un, Some err) => if decide (err = errRange)
                        then (if neg then - 2 ^ 63 else 2 ^ 63 - 1, Some err) else (0, Some err)
    | (un, None) =>
        if negb neg && (un >=? 2 ^ 63) then (2 ^ 63 - 1, Some errRange)
        else if neg && (un >? 2 ^ 63) then (- 2 ^ 63, Some errRange)
        else (if neg then - un else un, None)
    end.

Example Atoi_examples :
  Atoi "6" = (6, None) /\ Atoi "-12" = (-12, None) /\ Atoi "" = (0, Some errSyntax) /\
  Atoi "1e3" = (0, Some errSyntax) /\ Atoi "9223372036854775808" = (9223372036854775807, Some errRange).
Proof. by vm_compute. Qed.

(** ** What the process is given from outside *)

(** The file system and the network as [serve] uses them, and the values that it
    builds with the library and does not look into. *)
Class NetOps (W : Type) := {
  os_Remove : string -> W -> option error * W;
  Listener : Type;
  net_Listen : string -> string -> W -> (Listener + error) * W;
  (** [strconv.ParseFloat]: the number, which is only passed on, is returned beside
      an error too *)
  Float : Type;
  ParseFloat : string -> Z -> Float * option error;
  (** [prometheus.ExponentialBuckets], which panics on a bad argument, and the
      registration with [grpc_prometheus] *)
  Buckets : Type;
  ExponentialBuckets : Float -> Float -> Z -> outcome Buckets;
  EnableHandlingTimeHistogram : Buckets -> W -> W
}.

(** An argument of an interface type: no value, a nil pointer of the server's type,
    which is a value of the interface, or a pointer to an object. *)
Inductive iface := NilInterface | NilPointer | Object.
#[export] Instance iface_eq_dec : EqDecision iface.
Proof. solve_decision. Defined.

(** [x != nil] of an interface *)
Definition not_nil (x : iface) : bool := negb (bool_decide (x = NilInterface)).

(** What the library keeps of a server: its interceptors beside [middleWare], and the
    services that are registered. *)
Record grpcServer := mkGrpcServer {
  sv_prometheus : bool;
  sv_identity : option iface;
  sv_controller : option iface;
  sv_node : option iface
}.

Record nonBlockingGRPCServer := mkNonBlocking { wg : Z; server : option grpcServer }.
Definition NewNonBlockingGRPCServer : nonBlockingGRPCServer := mkNonBlocking 0 None.

(** The arguments of [Start] *)
Record ServeArgs := mkServeArgs {
  sa_endpoint : string;
  sa_hstOptions : string;
  sa_ids : iface;
  sa_cs : iface;
  sa_ns : iface;
  sa_metrics : bool
}.

(** [klog.Fatal]: the process exits. *)
Definition fatal {S A} (msg : string) : M S A := fail (Errorf msg).

Section serve.
Context {W : Type} `{NetOps W}.

Abbreviation St := (nonBlockingGRPCServer * W)%type.

Definition net_read {B} (f : W -> (B + error) * W) : M St (B + error) := fun s =>
  let '(r, w) := f s.2 in (Ok r, (s.1, w)).
Definition set_server (sv : grpcServer) : M St unit :=
  modify (fun s : St => (mkNonBlocking (wg s.1) (Some sv), s.2)).

(** The services that are registered with a new server *)
Definition registered_services (a : ServeArgs) : grpcServer :=
  mkGrpcServer (sa_metrics a)
    (if not_nil (sa_ids a) then Some (sa_ids a) else None)
    (if not_nil (sa_cs a) then Some (sa_cs a) else None)
    (if not_nil (sa_ns a) then Some (sa_ns a) else None).

(** The histogram: the errors of the second and the third number are looked for in
    [err], which is nil here, and not in [e]. *)
Definition enable_histogram (hstOptions : string) : M St unit :=
  match split_on ","%char hstOptions with
  | [ho0; ho1; ho2] =>
      let '(start, e) := ParseFloat ho0 32 in
      match e with
      | Some e => fatal ("failed to parse histogram start value: " +:+ error_text e)
      | None =>
          let '(factor, _) := ParseFloat ho1 32 in
          let '(count, _) := Atoi ho2 in
          let! buckets := lift (ExponentialBuckets start factor count) in
          modify (fun s : St => (s.1, EnableHandlingTimeHistogram buckets s.2))
      end
  | _ => fatal ("invalid histogram options provided: " +:+ hstOptions)
  end.

(** A socket that an earlier process left behind is removed. *)
Definition remove_socket (addr : string) : M St unit :=
  let! e := net_read (fun w => let '(e, w') := os_Remove addr w in (inl (B := error) e, w')) in
  match e with
  | inl (Some e) =>
      if negb (IsNotExist e) then fatal ("Failed to remove " +:+ addr +:+ ", error: " +:+ error_text e) else ret tt
  | _ => ret tt
  end.

(** [serve] up to [server.Serve] *)
Definition serve_prepare (a : ServeArgs) : M St Listener :=
  match parseEndpoint (sa_endpoint a) with
  | Ok (proto, addr) =>
      let unix := bool_decide (proto = "unix") in
      let addr := if unix then "/" +:+ addr else addr in
      (if unix then remove_socket addr else ret tt) ;;
      (let! listener := net_read (net_Listen proto addr) in
       match listener with
       | inr err => fatal ("Failed to listen: " +:+ error_text err)
       | inl listener =>
           set_server (registered_services a) ;;
           (if sa_metrics a then enable_histogram (sa_hstOptions a) else ret tt) ;;
           ret listener
       end)
  | Fail err => fatal (error_text err)
  | Panic y => panic y
  end.

(** [serve] from the end of [server.Serve]; nothing tells the wait group. *)
Definition serve_finish (r : option error) : M St unit :=
  match r with
  | Some err => fatal ("Failed to server: " +:+ error_text err)
  | None => ret tt
  end.

(** [Start], up to the goroutine it starts *)
Definition Start (s : nonBlockingGRPCServer) : nonBlockingGRPCServer := mkNonBlocking (wg s + 1) (server s).
(** [Wait] returns *)
Definition may_return (s : nonBlockingGRPCServer) : bool := wg s =? 0.
(** [Stop] and [ForceStop]: the server that is told to stop *)
Definition Stop : M St grpcServer :=
  let! sv := gets (fun s : St => server s.1) in
  match sv with Some sv => ret sv | None => panic "invalid memory address or nil pointer dereference" end.
Definition ForceStop : M St grpcServer := Stop.

(** ** The process *)

Inductive serve_pc := Spawned | Serving (l : Listener) | Done.
Record process := mkProcess {
  p_state : St;
  p_serve : serve_pc;
  p_stopping : bool;
  p_waiting : bool;  (* the main goroutine is in [Wait] *)
  p_exit : option string
}.

Definition why {A} (r : outcome A) : option string :=
  match r with Ok _ => None | Fail e => Some (error_text e) | Panic y => Some y end.

Inductive proc_step (a : ServeArgs) : process -> process -> Prop :=
  | step_prepare s st wait r s' :
      serve_prepare a s = (r, s') ->
      proc_step a (mkProcess s Spawned st wait None)
                  (mkProcess s' (match r with Ok l => Serving l | _ => Spawned end) st wait (why r))
  | step_stop s pc st wait r s' :
      Stop s = (r, s') ->
      proc_step a (mkProcess s pc st wait None)
                  (mkProcess s' pc (match r with Ok _ => true | _ => st end) wait (why r))
  | step_served s l wait r s' :
      serve_finish None s = (r, s') ->
      proc_step a (mkProcess s (Serving l) true wait None) (mkProcess s' Done true wait (why r))
  | step_serve_fails s l st wait err r s' :
      serve_finish (Some err) s = (r, s') ->
      proc_step a (mkProcess s (Serving l) st wait None) (mkProcess s' (Serving l) st wait (why r))
  | step_wait s pc st :
      may_return s.1 = true ->
      proc_step a (mkProcess s pc st true None) (mkProcess s pc st false None).

Definition launch (w : W) : process := mkProcess (Start NewNonBlockingGRPCServer, w) Spawned false true None.
End serve.

(** [RunNodePublishServer], [RunControllerPublishServer] and
    [RunControllerandNodePublishServer]: what is served; a [nil] in the call is an
    interface without a value. *)
Definition RunNodePublishServer (endpoint hstOption : string) (ns : iface) (m : bool) : ServeArgs :=
  mkServeArgs endpoint hstOption Object NilInterface ns m.
Definition RunControllerPublishServer (endpoint hstOption : string) (cs : iface) (m : bool) : ServeArgs :=
  mkServeArgs endpoint hstOption Object cs NilInterface m.
Definition RunControllerandNodePublishServer (endpoint hstOption : string) (cs ns : iface) (m : bool) : ServeArgs :=
  mkServeArgs endpoint hstOption Object cs ns m.

(** ** What the server does *)

Lemma to_lower_punct c d : (d = ":"%char \/ d = "/"%char) -> to_lower c = d -> c = d.
Proof. intros [-> | ->]; revert c; intros [[] [] [] [] [] [] [] []]; vm_compute; congruence. Qed.

Lemma HasPrefix_split s pre : HasPrefix s pre = true -> exists r, s = pre +:+ r.
Proof.
  revert s. induction pre as [|c pre IH]; intros s Hp; [by exists s |].
  destruct s as [|c' s]; [done |]. unfold HasPrefix in Hp. simpl in Hp.
  destruct (ascii_dec c c') as [<- | Hc]; [| done]. destruct (IH s Hp) as [r ->]. by exists r.
Qed.

(** A scheme is followed by [://], in whatever case it is written. *)
Lemma scheme_split ep pre :
  pre = "unix://" \/ pre = "tcp://" -> HasPrefix (ToLower ep) pre = true ->
  exists s0 s1, SplitN2 ep "://" = [s0; s1].
Proof.
  intros Hpre Hp. unfold SplitN2.
  destruct (String.index 0 "://" ep) as [k |] eqn:E; [by eexists _, _ |]. exfalso.
  assert (Hne : forall m, String.substring m 3 ep <> "://").
  { intros m. apply (String.index_correct3 0 m "://" ep E); [done | lia]. }
  apply HasPrefix_split in Hp as [r Hr]. destruct Hpre as [-> | ->].
  - destruct ep as [|c0 [|c1 [|c2 [|c3 [|c4 [|c5 [|c6 ep]]]]]]]; try discriminate Hr.
    injection Hr as _ _ _ _ H4 H5 H6 _. apply (Hne 4%nat). cbn.
    rewrite (to_lower_punct _ _ (or_introl eq_refl) H4), (to_lower_punct _ _ (or_intror eq_refl) H5),
      (to_lower_punct _ _ (or_intror eq_refl) H6). by destruct ep.
  - destruct ep as [|c0 [|c1 [|c2 [|c3 [|c4 [|c5 ep]]]]]]; try discriminate Hr.
    injection Hr as _ _ _ H4 H5 H6 _. apply (Hne 3%nat). cbn.
    rewrite (to_lower_punct _ _ (or_introl eq_refl) H4), (to_lower_punct _ _ (or_intror eq_refl) H5),
      (to_lower_punct _ _ (or_intror eq_refl) H6). by destruct ep.
Qed.

Lemma parseEndpoint_no_panic ep y : parseEndpoint ep <> Panic y.
Proof.
  unfold parseEndpoint. destruct (_ || _) eqn:E; [| done].
  assert (exists s0 s1, SplitN2 ep "://" = [s0; s1]) as (s0 & s1 & ->).
  { apply orb_true_iff in E as [E | E]; (eapply scheme_split; [| exact E]); auto. }
  by destruct (decide (s1 <> "")).
Qed.

Section serve_proofs.
Context {W : Type} `{NetOps W}.
Implicit Types (s : nonBlockingGRPCServer * W) (a : ServeArgs).

(** [wg_is n]: the counter of the wait group. *)
Definition wg_is (n : Z) s : Prop := wg s.1 = n.

Lemma net_read_frames n {B} (f : W -> (B + error) * W) : frames (wg_is n) (net_read f).
Proof. intros [v w] Hv. unfold net_read. simpl. by destruct (f w). Qed.

Lemma remove_socket_frames n addr : frames (wg_is n) (remove_socket addr).
Proof.
  unfold remove_socket. eapply hoare_bind; [apply net_read_frames |].
  intros [[e |] |]; [destruct (negb (IsNotExist e)) | |]; by apply hoare_ret || by apply hoare_fail.
Qed.

Lemma enable_histogram_frames n opts : frames (wg_is n) (enable_histogram opts).
Proof.
  unfold enable_histogram. destruct (split_on _ _) as [|h0 [|h1 [|h2 [|]]]]; try by apply hoare_fail.
  destruct (ParseFloat h0 32) as [x [e |]]; [by apply hoare_fail |].
  destruct (ParseFloat h1 32), (Atoi h2). eapply hoare_bind.
  - apply hoare_lift. intros s Hs. instantiate (1 := fun _ => wg_is n). by destruct (ExponentialBuckets _ _ _).
  - intros b. by apply hoare_modify.
Qed.

(** Preparing to serve does not touch the wait group. *)
Lemma serve_prepare_frames n a : frames (wg_is n) (serve_prepare a).
Proof.
  unfold serve_prepare. destruct (parseEndpoint _) as [[proto addr] | e | y]; [| by apply hoare_fail | by apply hoare_panic].
  apply (hoare_bind _ _ _ (fun _ => wg_is n)).
  { destruct (bool_decide _); [apply remove_socket_frames | by apply hoare_ret]. }
  intros _. eapply hoare_bind; [apply net_read_frames |]. intros [l | e]; [| by apply hoare_fail].
  apply (hoare_bind _ _ _ (fun _ => wg_is n)); [by apply hoare_modify |]. intros _.
  apply (hoare_bind _ _ _ (fun _ => wg_is n)); [| intros _; by apply hoare_ret].
  destruct (sa_metrics a); [apply enable_histogram_frames | by apply hoare_ret].
Qed.

Lemma Stop_state s : (Stop s).2 = s.
Proof. unfold Stop. go_unfold. by destruct (server s.1). Qed.

Lemma serve_finish_state r s : (serve_finish r s).2 = s.
Proof. by destruct r. Qed.

Lemma remove_socket_run addr v w :
  exists e w1, os_Remove addr w = (e, w1) /\
  remove_socket addr (v, w) =
    (match e with
     | Some err => if IsNotExist err then Ok tt
                   else Fail (Errorf ("Failed to remove " +:+ addr +:+ ", error: " +:+ error_text err))
     | None => Ok tt
     end, (v, w1)).
Proof.
  destruct (os_Remove addr w) as [e w1] eqn:E. exists e, w1. split; [done |].
  unfold remove_socket, net_read, bind. simpl. rewrite E. destruct e as [err |]; [| done].
  by destruct (IsNotExist err).
Qed.

Lemma enable_histogram_server opts s r s' : enable_histogram opts s = (r, s') -> s'.1 = s.1.
Proof.
  intros E. assert (Hf : frames (fun t => t.1 = s.1) (enable_histogram opts)).
  { unfold enable_histogram. destruct (split_on _ _) as [|h0 [|h1 [|h2 [|]]]]; try by apply hoare_fail.
    destruct (ParseFloat h0 32) as [x [e |]]; [by apply hoare_fail |].
    destruct (ParseFloat h1 32), (Atoi h2).
    apply (hoare_bind _ _ _ (fun _ t => t.1 = s.1)); [apply hoare_lift; intros; by case_match |].
    intros b. by apply hoare_modify. }
  specialize (Hf s eq_refl). rewrite E in Hf. by destruct r.
Qed.

(** The address that the server listens at *)
Definition listen_addr (proto addr : string) : string :=
  if bool_decide (proto = "unix") then "/" +:+ addr else addr.

(** What holds of a run of [serve] up to [server.Serve] *)
Definition prepared a s (r : outcome Listener) (s' : nonBlockingGRPCServer * W) : Prop :=
  wg s'.1 = wg s.1 /\
  match r with
  | Ok l => exists proto addr w1 w2,
      parseEndpoint (sa_endpoint a) = Ok (proto, addr) /\
      (if bool_decide (proto = "unix")
       then exists e, os_Remove (listen_addr proto addr) s.2 = (e, w1) /\ (forall err, e = Some err -> IsNotExist err = true)
       else w1 = s.2) /\
      net_Listen proto (listen_addr proto addr) w1 = (inl l, w2) /\
      (sa_metrics a = false -> s'.2 = w2) /\
      server s'.1 = Some (registered_services a)
  | Fail _ => server s'.1 = server s.1 \/ (sa_metrics a = true /\ server s'.1 = Some (registered_services a))
  | Panic _ => sa_metrics a = true
  end.

Lemma serve_prepare_run a s r s' : serve_prepare a s = (r, s') -> prepared a s r s'.
Proof.
  intros E. split.
  { pose proof (serve_prepare_frames (wg s.1) a s eq_refl) as Hf. rewrite E in Hf. by destruct r. }
  revert E. unfold serve_prepare. pose proof (parseEndpoint_no_panic (sa_endpoint a)) as Hnp.
  destruct (parseEndpoint _) as [[proto addr] | e | y]; [| by intros [= <- <-]; left | by destruct (Hnp y)].
  clear Hnp. fold (listen_addr proto addr). set (b := bool_decide (proto = "unix")). destruct s as [v w].
  assert (Hrm : exists (o : option error) w1,
    (if b then remove_socket (listen_addr proto addr) else ret tt) (v, w) =
      (match o with Some e => Fail e | None => Ok tt end, (v, w1)) /\
    (o = None -> if b then exists e, os_Remove (listen_addr proto addr) w = (e, w1) /\
                             (forall err, e = Some err -> IsNotExist err = true)
                 else w1 = w)).
  { destruct b; [| by exists None, w].
    destruct (remove_socket_run (listen_addr proto addr) v w) as (e & w1 & He & ->).
    destruct e as [err |]; [| exists None, w1; split; [done | intros _; by exists None]].
    destruct (IsNotExist err) eqn:En; [exists None, w1 | by eexists (Some _), w1].
    split; [done |]. intros _. exists (Some err). split; [done |]. by intros ? [= <-]. }
  destruct Hrm as (o & w1 & Hrm & Ho). unfold bind at 1. rewrite Hrm. destruct o as [e |]; [by intros [= <- <-]; left |].
  unfold bind at 1, net_read. cbn [fst snd]. destruct (net_Listen proto _ w1) as [[l | e] w2] eqn:El; [| by intros [= <- <-]; left].
  unfold bind at 1, set_server, modify. cbn [fst snd]. specialize (Ho eq_refl).
  destruct (sa_metrics a) eqn:Em.
  - unfold bind. destruct (enable_histogram _ _) as [[[] | e | y] s2] eqn:Eh; apply enable_histogram_server in Eh;
      intros [= <- <-]; cbn in Eh; [| by right; rewrite Eh | done].
    exists proto, addr, w1, w2. by rewrite Eh.
  - unfold bind, ret. intros [= <- <-]. by exists proto, addr, w1, w2.
Qed.

(** A process waits for a count of one; past its preparation it has a server. *)
Definition counted a (p : process) : Prop :=
  wg (p_state p).1 = 1 /\ p_waiting p = true /\ (p_exit p = None -> p_serve p <> Spawned -> server (p_state p).1 <> None).

Lemma Stop_serving s : server s.1 <> None -> exists sv, (Stop s).1 = Ok sv.
Proof. unfold Stop. go_unfold. destruct (server s.1); [by eexists | done]. Qed.

Lemma counted_step a p p' : counted a p -> proc_step a p p' -> counted a p'.
Proof.
  intros (Hw & Hm & Hs) Hstep. destruct Hstep as [s st wait r s' E | s pc st wait r s' E | s l wait r s' E |
    s l st wait err r s' E | s pc st E]; cbn in Hw, Hm, Hs; unfold counted; cbn.
  - apply serve_prepare_run in E as [Hw' E]. rewrite Hw'. split; [done |]. split; [done |].
    destruct r; [| done..]. destruct E as (? & ? & ? & ? & ? & ? & ? & ? & ->). done.
  - pose proof (Stop_state s) as Es. rewrite E in Es. cbn in Es. subst s'. split; [done |]. split; [done |]. auto.
  - injection E as <- <-. auto.
  - injection E as <- <-. auto.
  - unfold may_return in E. by rewrite Hw in E.
Qed.

Lemma counted_reachable a w p : reachable (proc_step a) (launch w) p -> counted a p.
Proof.
  intros Hr. apply (reachable_invariant (proc_step a) (counted a) (launch w)); [| apply counted_step | done].
  split_and!; [done | done |]. done.
Qed.

(** The server is prepared in the order that makes it reachable, and answers for
    exactly the services whose argument is not nil as an interface: when [serve] gets
    to serving, the endpoint has been parsed, a socket of an earlier process is gone,
    the listener is open at the address, the services are registered and the wait
    group is untouched.  When it does not get there, the process has exited and, without
    metrics, nothing was registered; and without metrics no preparation panics. *)
Theorem serve_prepare_spec a s r s' :
  serve_prepare a s = (r, s') ->
  prepared a s r s' /\
  forall sv, registered_services a = sv ->
    (sv_identity sv = None <-> sa_ids a = NilInterface) /\
    (sv_controller sv = None <-> sa_cs a = NilInterface) /\
    (sv_node sv = None <-> sa_ns a = NilInterface).
Proof.
  intros E. split; [by apply serve_prepare_run |]. intros sv <-. unfold registered_services. cbn.
  destruct (sa_ids a), (sa_cs a), (sa_ns a); done.
Qed.

(** A server that is stopped leaves its process behind: the count of the wait group
    is raised once by [Start] and lowered by nothing, so that [Wait] never returns,
    whatever happens.  A process whose preparation succeeds can be stopped, after which
    [serve] has returned, the process has not exited, and no step is left but
    stopping it again. *)
Theorem Wait_never_returns a w :
  (forall p, reachable (proc_step a) (launch w) p -> p_waiting p = true /\ wg (p_state p).1 = 1) /\
  (forall p p', reachable (proc_step a) (launch w) p -> p_serve p = Done -> p_exit p = None ->
     proc_step a p p' -> p' = mkProcess (p_state p) Done true true None) /\
  ((exists l, (serve_prepare a (Start NewNonBlockingGRPCServer, w)).1 = Ok l) ->
     exists p, reachable (proc_step a) (launch w) p /\ p_serve p = Done /\ p_exit p = None /\ p_waiting p = true).
Proof.
  split_and!.
  - intros p Hp. apply counted_reachable in Hp as (? & ? & ?). done.
  - intros p p' Hp Hd He Hs. apply counted_reachable in Hp as (Hw & Hm & Hsv).
    destruct Hs as [s st wait r s' E | s pc st wait r s' E | s l wait r s' E |
      s l st wait err r s' E | s pc st E]; cbn [p_state p_serve p_stopping p_waiting p_exit] in *; subst; try done.
    + pose proof (Stop_state s) as Es. rewrite E in Es. cbn in Es. subst s'.
      destruct (Stop_serving s) as [sv Ev]; [by apply Hsv |]. rewrite E in Ev. cbn in Ev. by subst r.
    + unfold may_return in E. by rewrite Hw in E.
  - intros [l El]. destruct (serve_prepare a _) as [r s1] eqn:E. cbn in El. subst r.
    pose proof (serve_prepare_run _ _ _ _ E) as [_ (? & ? & ? & ? & ? & ? & ? & ? & Hsv)].
    destruct (Stop_serving s1) as [sv Ev]; [by rewrite Hsv |]. pose proof (Stop_state s1) as Es.
    destruct (Stop s1) as [r2 s2] eqn:E2. cbn in Ev, Es. subst r2 s2.
    exists (mkProcess s1 Done true true None). split_and!; [| done..].
    eapply reachable_next; [| by apply (step_served a s1 l true (Ok tt) s1)].
    eapply reachable_next; [| by apply (step_stop a s1 (Serving l) false true (Ok sv) s1)].
    eapply reachable_next; [apply reachable_init |]. by apply (step_prepare a _ false true (Ok l) s1).
Qed.
End serve_proofs.

(** ** A server on a small machine: the sockets that exist and the addresses in use *)

Definition machine : Type := gset string * list string.

#[local] Instance machine_net : NetOps machine := {|
  os_Remove p m := if decide (p ∈ m.1) then (None, (m.1 ∖ {[p]}, m.2)) else (Some (SysErr true "no such file"), m);
  Listener := string;
  net_Listen proto addr m :=
    if decide (addr ∈ m.1) then (inr (SysErr false "address already in use"), m)
    else (inl addr, ({[addr]} ∪ m.1, addr :: m.2));
  Float := string;
  ParseFloat s _ := (s, None);
  Buckets := string;
  ExponentialBuckets start factor count := if count <? 1 then Panic "count" else Ok start;
  EnableHandlingTimeHistogram _ m := m
|}.

Definition node_args : ServeArgs := mkServeArgs "unix://tmp/csi.sock" "0.5,2,6" Object NilInterface NilPointer false.
Definition stale_machine : machine := ({["/tmp/csi.sock"]}, []).
Definition prepared_node := serve_prepare node_args (Start NewNonBlockingGRPCServer, stale_machine).

Lemma serve_prepare_spec_witness :
  prepared_node.1 = Ok "/tmp/csi.sock" /\
  prepared node_args (Start NewNonBlockingGRPCServer, stale_machine) prepared_node.1 prepared_node.2 /\
  sv_controller (registered_services node_args) = None /\ sv_node (registered_services node_args) <> None.
Proof.
  assert (E : prepared_node = (prepared_node.1, prepared_node.2)) by (by destruct prepared_node).
  destruct (serve_prepare_spec node_args _ _ _ E) as [Hp Hr]. split; [by vm_compute |]. split; [exact Hp |].
  destruct (Hr _ eq_refl) as (_ & Hc & Hn). split; [by apply Hc | by rewrite Hn].
Defined.

Example metrics_count_unchecked :
  (serve_prepare (mkServeArgs "tcp://:80" "0.5,2,six" Object Object Object true)
     (Start NewNonBlockingGRPCServer, (∅, []))).1 = Panic "count".
Proof. by vm_compute. Qed.
