(* ===== verification/Locked.v ===== *)
(** * Handlers under a volume lock

    The CSI handlers guard an operation with [VolumeLocks]: [TryAcquire], an
    Aborted error when the id is taken, a deferred [Release] otherwise. *)

From S2P Require Import Prelude IdLocker.
Open Scope go_scope.

(** A server state with its locks. *)
Class HasVolumeLocks (S : Type) := {
  get_locks : S -> VolumeLocks;
  put_locks : VolumeLocks -> S -> S;
  get_put_locks l s : get_locks (put_locks l s) = l;
  put_get_locks s : put_locks (get_locks s) s = s;
  put_put_locks l l' s : put_locks l (put_locks l' s) = put_locks l s
}.

Definition aborted (id : string) : error :=
  StatusError Aborted ("an operation with the given Volume ID " +:+ id +:+ " already exists").

Section locked.
Context {S : Type} `{HasVolumeLocks S} {A : Type}.

Definition locked (id : string) (body : M S A) : M S A :=
  let! acquired := zoom get_locks put_locks (TryAcquire id) in
  if negb acquired then fail (aborted id)
  else deferring (fun s => put_locks (Release id (get_locks s)) s) body.

Lemma locked_busy id body s :
  id ∈ vl_locks (get_locks s) -> locked id body s = (Fail (aborted id), s).
Proof.
  intros Hid. unfold locked, bind, zoom, TryAcquire. rewrite decide_True by done. simpl.
  unfold fail. by rewrite put_get_locks.
Qed.

Definition with_lock (id : string) (s : S) : S :=
  put_locks (mkVolumeLocks ({[id]} ∪ vl_locks (get_locks s))) s.

Lemma locked_free id body s :
  id ∉ vl_locks (get_locks s) ->
  locked id body s =
  let '(r, s') := body (with_lock id s) in (r, put_locks (Release id (get_locks s')) s').
Proof.
  intros Hid. unfold locked, bind, zoom, TryAcquire. by rewrite decide_False by done.
Qed.

(** The locks held after the call are those held before it. *)
Lemma locked_restores id body s :
  (forall s, get_locks (body s).2 = get_locks s) -> get_locks (locked id body s).2 = get_locks s.
Proof.
  intros Hb. destruct (decide (id ∈ vl_locks (get_locks s))) as [Hid | Hid].
  - by rewrite locked_busy.
  - rewrite locked_free by done. specialize (Hb (with_lock id s)).
    destruct (body _) as [r s']. simpl in *. rewrite get_put_locks, Hb. unfold with_lock.
    rewrite get_put_locks. unfold Release. simpl. destruct (get_locks s) as [l]. simpl in *. f_equal.
    set_solver.
Qed.
End locked.
