(* ===== verification/MetaStore.v ===== *)
(** * The meta store: pkg/csi-plugin/hostpath/metestore.go

    The ids of the volumes that exist are the keys of a config map in the API
    server.  [ConfigMaps] is what the plugin uses of the Kubernetes client,
    [ConfigMapsLaws] the optimistic concurrency the API server documents:
    an update carries the resource version it was read with and is refused once
    the object has changed.  [MetaStoreInterFace] is the Go interface,
    [MetaStoreLaws] what it promises to the controller and the sync worker. *)

From S2P Require Import Prelude Os.
From stdpp Require Import pretty.
Open Scope Z_scope.
Open Scope go_scope.

Record ConfigMap := mkConfigMap {
  cm_Name : string;
  cm_ResourceVersion : string;
  cm_Data : option (gmap string string)  (* a nil map is [None] *)
}.

(** A read of a nil map finds nothing. *)
Definition cm_data (cm : ConfigMap) : gmap string string := default ∅ (cm_Data cm).

(** Get, Create and Update of [CoreV1().ConfigMaps(namespace)]. *)
Class ConfigMaps (W : Type) := {
  cm_Get : string -> string -> W -> ConfigMap + error;
  cm_Create : string -> ConfigMap -> W -> option error * W;
  cm_Update : string -> ConfigMap -> W -> option error * W
}.

(** An update with the version that was read takes place when nothing has changed since,
    and an update that fails changes nothing: the case that an update is applied and only
    its answer is lost is not part of these laws. *)
Class ConfigMapsLaws (W : Type) `{ConfigMaps W} := {
  (** how the world may change between two calls of a client *)
  later : W -> W -> Prop;
  later_refl w : later w w;
  update_ok ns name cm data w0 w1 w2 :
    cm_Get ns name w0 = inl cm -> later w0 w1 ->
    cm_Update ns (mkConfigMap (cm_Name cm) (cm_ResourceVersion cm) data) w1 = (None, w2) ->
    cm_Get ns name w1 = inl cm /\
    exists cm2, cm_Get ns name w2 = inl cm2 /\ cm_data cm2 = default ∅ data;
  update_refused ns name cm w1 w2 e :
    cm_Update ns cm w1 = (Some e, w2) -> cm_Get ns name w2 = cm_Get ns name w1
}.

(** The Go interface [MetaStoreInterFace]. *)
Class MetaStoreInterFace (W : Type) := {
  ListMetaInfos : M W (gmap string string);
  AddMetaInfo : string -> M W unit;
  UnsetMetaInfo : string -> M W unit
}.

Record ConfigMapMetaStore := mkConfigMapMetaStore { cmName : string; cmNamespace : string }.

Section store.
Context {W : Type} `{ConfigMaps W} (c : ConfigMapMetaStore).

Definition Init : M W unit :=
  let! cm := attempt (sys_read (cm_Get (cmNamespace c) (cmName c))) in
  match cm with
  | inl _ => ret tt
  | inr err =>
      if IsNotExist err
      then sys_write (cm_Create (cmNamespace c) (mkConfigMap (cmName c) "" None))
      else fail err
  end.

Definition NewConfigMapMetaStore : M W ConfigMapMetaStore := Init ;; ret c.

Definition cm_ListMetaInfos : M W (gmap string string) :=
  let! cm := sys_read (cm_Get (cmNamespace c) (cmName c)) in
  ret (cm_data cm).

(** The second half of [AddMetaInfo] and of [UnsetMetaInfo]: the object read
    before, changed and written back. *)
Definition add_write (volumeId : string) (cm : ConfigMap) : M W unit :=
  sys_write (cm_Update (cmNamespace c)
    (mkConfigMap (cm_Name cm) (cm_ResourceVersion cm) (Some (<[volumeId := ""]> (cm_data cm))))).
Definition unset_write (volumeId : string) (cm : ConfigMap) : M W unit :=
  sys_write (cm_Update (cmNamespace c)
    (mkConfigMap (cm_Name cm) (cm_ResourceVersion cm) (delete volumeId <$> cm_Data cm))).

Definition cm_AddMetaInfo (volumeId : string) : M W unit :=
  let! cm := sys_read (cm_Get (cmNamespace c) (cmName c)) in add_write volumeId cm.

Definition cm_UnsetMetaInfo (volumeId : string) : M W unit :=
  let! cm := sys_read (cm_Get (cmNamespace c) (cmName c)) in unset_write volumeId cm.

#[export] Instance ConfigMapMetaStore_interface : MetaStoreInterFace W := {
  ListMetaInfos := cm_ListMetaInfos;
  AddMetaInfo := cm_AddMetaInfo;
  UnsetMetaInfo := cm_UnsetMetaInfo
}.
End store.

(** What a meta store promises: a set of volume ids that a successful call changes
    by one id, and a failed call not at all. *)
Class MetaStoreLaws (W : Type) `{MetaStoreInterFace W} := {
  stored : W -> option (gmap string string);
  List_law w : ListMetaInfos w =
    match stored w with Some m => (Ok m, w) | None => ((ListMetaInfos w).1, w) end /\
    (stored w = None -> exists e, (ListMetaInfos w).1 = Fail e);
  Add_law v w r w' :
    AddMetaInfo v w = (r, w') ->
    match r with
    | Ok _ => exists m, stored w = Some m /\ stored w' = Some (<[v := ""]> m)
    | Fail _ => stored w' = stored w
    | Panic _ => False
    end;
  Unset_law v w r w' :
    UnsetMetaInfo v w = (r, w') ->
    match r with
    | Ok _ => exists m, stored w = Some m /\ stored w' = Some (delete v m)
    | Fail _ => stored w' = stored w
    | Panic _ => False
    end
}.

Section store_proofs.
Context {W : Type} `{ConfigMapsLaws W} (c : ConfigMapMetaStore).

Definition cm_stored (w : W) : option (gmap string string) :=
  match cm_Get (cmNamespace c) (cmName c) w with inl cm => Some (cm_data cm) | inr _ => None end.

(** The write half against whatever happened since the read half. *)
Lemma add_write_spec v cm w0 w1 r w2 :
  cm_Get (cmNamespace c) (cmName c) w0 = inl cm -> later w0 w1 -> add_write c v cm w1 = (r, w2) ->
  match r with
  | Ok _ => exists m, cm_stored w1 = Some m /\ cm_stored w2 = Some (<[v := ""]> m)
  | Fail _ => cm_stored w2 = cm_stored w1
  | Panic _ => False
  end.
Proof.
  intros Hget Hlater. unfold add_write, sys_write. destruct (cm_Update _ _ w1) as [[e |] w'] eqn:E;
    intros [= <- <-]; unfold cm_stored.
  - by rewrite (update_refused _ (cmName c) _ _ _ _ E).
  - destruct (update_ok _ _ _ _ _ _ _ Hget Hlater E) as (-> & cm2 & -> & ->). by eexists.
Qed.

Lemma unset_write_spec v cm w0 w1 r w2 :
  cm_Get (cmNamespace c) (cmName c) w0 = inl cm -> later w0 w1 -> unset_write c v cm w1 = (r, w2) ->
  match r with
  | Ok _ => exists m, cm_stored w1 = Some m /\ cm_stored w2 = Some (delete v m)
  | Fail _ => cm_stored w2 = cm_stored w1
  | Panic _ => False
  end.
Proof.
  intros Hget Hlater. unfold unset_write, sys_write. destruct (cm_Update _ _ w1) as [[e |] w'] eqn:E;
    intros [= <- <-]; unfold cm_stored.
  - by rewrite (update_refused _ (cmName c) _ _ _ _ E).
  - destruct (update_ok _ _ _ _ _ _ _ Hget Hlater E) as (-> & cm2 & -> & ->).
    eexists. split; [done |]. f_equal. unfold cm_data. destruct (cm_Data cm); simpl; [done |].
    by rewrite delete_empty.
Qed.

(** C34: no update of the store is lost, although every one is a read followed by a
    write and others may write in between: when the write half of [AddMetaInfo] or
    [UnsetMetaInfo] succeeds, the ids stored afterwards are those stored right
    before the write with the one id added or removed; when it fails they are
    unchanged. *)
Theorem meta_updates_not_lost cm w0 w1 v r w2 :
  cm_Get (cmNamespace c) (cmName c) w0 = inl cm -> later w0 w1 ->
  (add_write c v cm w1 = (r, w2) ->
     match r with
     | Ok _ => exists m, cm_stored w1 = Some m /\ cm_stored w2 = Some (<[v := ""]> m)
     | Fail _ => cm_stored w2 = cm_stored w1
     | Panic _ => False
     end) /\
  (unset_write c v cm w1 = (r, w2) ->
     match r with
     | Ok _ => exists m, cm_stored w1 = Some m /\ cm_stored w2 = Some (delete v m)
     | Fail _ => cm_stored w2 = cm_stored w1
     | Panic _ => False
     end).
Proof.
  intros Hget Hlater. split; [by eapply add_write_spec | by eapply unset_write_spec].
Qed.

#[export] Program Instance ConfigMapMetaStore_laws :
  MetaStoreLaws (H := ConfigMapMetaStore_interface c) W := {| stored := cm_stored |}.
Next Obligation.
  intros w. unfold ListMetaInfos. simpl. unfold cm_ListMetaInfos, cm_stored, bind, sys_read.
  destruct (cm_Get _ _ w); simpl; split; [done | done | done | eauto].
Qed.
Next Obligation.
  intros v w r w'. simpl. unfold cm_AddMetaInfo, bind, sys_read.
  destruct (cm_Get _ _ w) as [cm | e] eqn:E; [| by intros [= <- <-]].
  by apply add_write_spec with (w0 := w), later_refl.
Qed.
Next Obligation.
  intros v w r w'. simpl. unfold cm_UnsetMetaInfo, bind, sys_read.
  destruct (cm_Get _ _ w) as [cm | e] eqn:E; [| by intros [= <- <-]].
  by apply unset_write_spec with (w0 := w), later_refl.
Qed.
End store_proofs.

(** ** Runs *)

(** An API server with one config map: its version and its data. *)
Definition sim_api : Type := option (N * gmap string string).

#[export] Instance sim_configmaps : ConfigMaps sim_api := {
  cm_Get ns name w :=
    match w with
    | Some (v, d) => inl (mkConfigMap "meta" (pretty v) (Some d))
    | None => inr (SysErr true "configmaps not found")
    end;
  cm_Create ns cm w :=
    match w with
    | Some _ => (Some (SysErr false "already exists"), w)
    | None => (None, Some (1%N, cm_data cm))
    end;
  cm_Update ns cm w :=
    match w with
    | Some (v, d) =>
        if decide (cm_ResourceVersion cm = pretty v) then (None, Some (v + 1, cm_data cm)%N)
        else (Some (SysErr false "the object has been modified"), w)
    | None => (Some (SysErr true "configmaps not found"), w)
    end
}.

(** Versions only grow while the object exists. *)
Definition sim_later (w w' : sim_api) : Prop :=
  w = w' \/ match w, w' with Some (v, _), Some (v', _) => (v < v')%N | _, _ => True end.

#[export] Program Instance sim_configmaps_laws : ConfigMapsLaws sim_api := {| later := sim_later |}.
Next Obligation. by left. Qed.
Next Obligation.
  intros ns name cm data w0 w1 w2 Hget Hlater Hup. simpl in *.
  destruct w0 as [[v d] |]; [| done]. injection Hget as <-.
  destruct w1 as [[v1 d1] |]; [| done]. simpl in Hup.
  destruct (decide (pretty v = pretty v1)) as [Hv |]; [| done].
  apply (inj pretty) in Hv as ->. injection Hup as <-.
  destruct Hlater as [[= ->] | Hlt]; [| lia]. split; [done |]. by eexists.
Qed.
Next Obligation.
  intros ns name cm w1 w2 e Hup. simpl in *. destruct w1 as [[v1 d1] |]; [| by injection Hup as _ <-].
  destruct (decide _); [done |]. by injection Hup as _ <-.
Qed.

Definition sim_store : ConfigMapMetaStore := mkConfigMapMetaStore "meta" "kube-system".

(** Two clients read the empty store; the first to write wins, the other is
    refused and the first one's volume stays. *)
Lemma meta_updates_not_lost_witness :
  let w0 : sim_api := Some (1%N, ∅) in
  let cm := mkConfigMap "meta" "1" (Some ∅) in
  let w1 := (add_write sim_store "v1" cm w0).2 in
  let w2 := (add_write sim_store "v2" cm w1).2 in
  cm_stored sim_store w2 = cm_stored sim_store w1 /\ cm_stored sim_store w1 = Some {[ "v1" := "" ]}.
Proof.
  intros w0 cm w1 w2. split; [| vm_compute; reflexivity].
  assert (Hl : later w0 w1) by (right; vm_compute; reflexivity).
  exact (proj1 (meta_updates_not_lost sim_store cm w0 w1 "v2"
    (Fail (SysErr false "the object has been modified")) w2 eq_refl Hl) ltac:(vm_compute; reflexivity)).
Defined.
