(* ===== verification/ControllerServer.v ===== *)
(** * The controller server: pkg/csi-plugin/hostpath/controllerserver.go

    A volume is created by recording its id in the meta store; its directory is
    made later, on the node.  The handlers work on the driver, the volume locks
    and the world with the meta store, through [MetaStoreInterFace]. *)

From S2P Require Import Prelude IdLocker GoStrings VolId Util Csi CsiCommon Locked MetaStore.
Open Scope Z_scope.
Open Scope go_scope.

Record ControllerServer := mkControllerServer { cs_Driver : CSIDriver; cs_VolumeLocks : VolumeLocks }.

Section controller.
Context {W : Type} `{MetaStoreInterFace W}.

Abbreviation St := (ControllerServer * W)%type.

#[export] Program Instance controller_locks : HasVolumeLocks St := {|
  get_locks s := cs_VolumeLocks s.1;
  put_locks l s := (mkControllerServer (cs_Driver s.1) l, s.2)
|}.
Next Obligation. done. Qed.
Next Obligation. by intros [[] ?]. Qed.
Next Obligation. done. Qed.

Definition on_store {B} (m : M W B) : M St B := zoom snd (fun w s => (s.1, w)) m.

Definition validateCreateVolumeRequest (req : CreateVolumeRequest) (d : CSIDriver) : option error :=
  match ValidateControllerServiceRequest CC_CREATE_DELETE_VOLUME d with
  | Some err => Some err
  | None =>
      if decide (cv_Name req = "") then Some (StatusError InvalidArgument "volume Name cannot be empty")
      else if decide (cv_VolumeCapabilities req = []) then
        Some (StatusError InvalidArgument "volume Capabilities cannot be empty")
      else if existsb GetBlock (cv_VolumeCapabilities req) then
        Some (StatusError Unimplemented "block volume not supported")
      else None
  end.

(** [if err := ...; err != nil { return nil, err }] *)
Definition check (err : option error) : M St unit :=
  match err with Some e => fail e | None => ret tt end.

(** The size of a new volume: 100 MiB unless the request has a range. *)
Definition create_size (req : CreateVolumeRequest) : Z :=
  let volSizeBytes := match cv_CapacityRange req with
                      | Some r => RequiredBytes r
                      | None => i64 (MiB * 100)
                      end in
  RoundOffBytes volSizeBytes.

Definition CreateVolume (req : CreateVolumeRequest) : M St Volume :=
  let! d := gets (fun s : St => cs_Driver s.1) in
  check (validateCreateVolumeRequest req d) ;;
  locked (cv_Name req)
    (match ParseBool (default "" (cv_Parameters req !! "ephemeral")) with
     | Ok ephemeral =>
         match ComposeCSIID (mkCSIIdentifier VolIDVersion ephemeral (cv_Name req)) with
         | Ok volumeId =>
             let! err := attempt (on_store (AddMetaInfo volumeId)) in
             match err with
             | inr _ => fail (StatusError InvalidArgument "failed add volumeId to meta store")
             | inl _ => ret (mkVolume volumeId (create_size req) (cv_Parameters req) (cv_VolumeContentSource req))
             end
         | _ => fail (StatusError Internal "failed get volumeId")
         end
     | _ => fail (StatusError InvalidArgument "invalid ephemeral volume options in request")
     end).

Definition DeleteVolume (req : DeleteVolumeRequest) : M St unit :=
  let! d := gets (fun s : St => cs_Driver s.1) in
  check (ValidateControllerServiceRequest CC_CREATE_DELETE_VOLUME d) ;;
  (let volumeID := dv_VolumeId req in
   if decide (volumeID = "") then fail (StatusError InvalidArgument "empty volume ID in request")
   else
     let! err := attempt (on_store (UnsetMetaInfo volumeID)) in
     match err with
     | inr _ => fail (StatusError InvalidArgument "failed remove from meta store")
     | inl _ => ret tt
     end).

Definition ControllerExpandVolume (req : ControllerExpandVolumeRequest) : M St ControllerExpandVolumeResponse :=
  let! d := gets (fun s : St => cs_Driver s.1) in
  check (ValidateControllerServiceRequest CC_EXPAND_VOLUME d) ;;
  (let volID := ce_VolumeId req in
   if decide (volID = "") then fail (StatusError InvalidArgument "volume ID cannot be empty")
   else
     match ce_CapacityRange req with
     | None => fail (StatusError InvalidArgument "capacityRange cannot be empty")
     | Some capRange =>
         let volSize := RoundOffBytes (RequiredBytes capRange) in
         locked volID (ret (mkControllerExpandVolumeResponse volSize true))
     end).

Definition ValidateVolumeCapabilities (req : ValidateVolumeCapabilitiesRequest) :
    outcome ValidateVolumeCapabilitiesResponse :=
  if decide (vv_VolumeId req = "") then Fail (StatusError InvalidArgument "empty volume ID in request")
  else if decide (vv_VolumeCapabilities req = []) then
    Fail (StatusError InvalidArgument "empty volume capabilities in request")
  else if existsb GetBlock (vv_VolumeCapabilities req) then Ok (mkValidateVolumeCapabilitiesResponse None)
  else Ok (mkValidateVolumeCapabilitiesResponse (Some (vv_VolumeCapabilities req))).
End controller.

(** ** What creating and deleting a volume does *)

Section controller_proofs.
Context {W : Type} `{MetaStoreLaws W}.
Implicit Types s : ControllerServer * W.

Definition meta s : option (gmap string string) := stored s.2.

Lemma DeleteVolume_cases req s r s' :
  DeleteVolume req s = (r, s') ->
  get_locks s' = get_locks s /\
  match r with
  | Ok _ => exists m, meta s = Some m /\ meta s' = Some (delete (dv_VolumeId req) m)
  | Fail _ => meta s' = meta s
  | Panic _ => False
  end.
Proof.
  unfold DeleteVolume, bind at 1, gets. destruct (ValidateControllerServiceRequest _ _) as [err |];
    [by intros [= <- <-] |].
  unfold check, bind at 1, ret at 1. destruct (decide (dv_VolumeId req = "")); [by intros [= <- <-] |].
  unfold bind, attempt, on_store, zoom. destruct (UnsetMetaInfo (dv_VolumeId req) s.2) as [ra w'] eqn:Ea.
  apply Unset_law in Ea. destruct ra; [| by intros [= <- <-] | done].
  intros [= <- <-]. done.
Qed.

Lemma on_store_get_locks {B} (m : M W B) s : get_locks (on_store m s).2 = get_locks s.
Proof. unfold on_store, zoom. by destruct (m s.2). Qed.

(** Storing an id under a lock: the id is added or the store is as before, and the
    locks are those of before. *)
Lemma stored_under_lock {A} name v (x : A) e s r s' :
  locked name (let! err := attempt (on_store (AddMetaInfo v)) in
               match err with inr _ => fail e | inl _ => ret x end) s = (r, s') ->
  get_locks s' = get_locks s /\
  match r with
  | Ok y => y = x /\ name ∉ vl_locks (get_locks s) /\
      exists m, meta s = Some m /\ meta s' = Some (<[v := ""]> m)
  | Fail _ => meta s' = meta s
  | Panic _ => False
  end.
Proof.
  intros E. split.
  { change s' with (r, s').2. rewrite <- E. apply locked_restores. intros t.
    unfold bind, attempt. pose proof (on_store_get_locks (AddMetaInfo v) t) as Hl.
    by destruct (on_store (AddMetaInfo v) t) as [[] ?]. }
  destruct (decide (name ∈ vl_locks (get_locks s))) as [Hn | Hn].
  - rewrite locked_busy in E by done. by injection E as <- <-.
  - rewrite locked_free in E by done. unfold bind, attempt, on_store, zoom in E. simpl in E.
    destruct (AddMetaInfo v s.2) as [ra w'] eqn:Ea. apply Add_law in Ea.
    destruct ra; injection E as <- <-; [| done | done]. by split_and!.
Qed.

(** The result of [CreateVolume]. *)
Definition created (req : CreateVolumeRequest) s (r : outcome Volume) s' : Prop :=
  get_locks s' = get_locks s /\
  match r with
  | Ok v =>
      (exists ephemeral, ParseBool (default "" (cv_Parameters req !! "ephemeral")) = Ok ephemeral /\
         forall ci0, DecomposeCSIID (vol_VolumeId v) ci0 =
           (Ok tt, mkCSIIdentifier VolIDVersion ephemeral (cv_Name req))) /\
      vol_CapacityBytes v = create_size req /\
      cv_Name req ∉ vl_locks (get_locks s) /\
      exists m, meta s = Some m /\ meta s' = Some (<[vol_VolumeId v := ""]> m)
  | Fail e => meta s' = meta s
  | Panic _ => False
  end.

Lemma CreateVolume_created req s r s' : CreateVolume req s = (r, s') -> created req s r s'.
Proof.
  unfold CreateVolume, bind at 1, gets. destruct (validateCreateVolumeRequest req (cs_Driver s.1)) as [err |];
    [by intros [= <- <-] |].
  unfold check, bind at 1, ret at 1.
  assert (Hfail : forall e, locked (A := Volume) (cv_Name req) (fail e) s = (r, s') ->
    get_locks s' = get_locks s /\ match r with Fail _ => meta s' = meta s | _ => False end).
  { intros e E. split.
    - change s' with (r, s').2. rewrite <- E. by apply locked_restores.
    - destruct (decide (cv_Name req ∈ vl_locks (get_locks s)));
        [rewrite locked_busy in E by done | rewrite locked_free in E by done]; by injection E as <- <-. }
  destruct (ParseBool _) as [ephemeral | e | w] eqn:Ep;
    [| intros E; apply Hfail in E as [? ?]; by destruct r..].
  destruct (ComposeCSIID _) as [volumeId | e | w] eqn:Ec;
    [| intros E; apply Hfail in E as [? ?]; by destruct r..].
  intros E. apply stored_under_lock in E as [Hl E]. split; [done |].
  destruct r as [v | e | w]; [| done | done]. destruct E as (-> & Hn & Hm). simpl. split_and!; try done.
  exists ephemeral. split; [done |]. intros ci0.
  destruct (compose_cases (mkCSIIdentifier VolIDVersion ephemeral (cv_Name req))) as [[Hlen E] | [_ E]];
    rewrite E in Ec; [| done]. injection Ec as <-.
  apply decompose_layout; unfold VolIDVersion, in_u16; try done; simpl in *; lia.
Qed.

(** C31: a [CreateVolume] that succeeds returns an id that decodes to the requested
    name and ephemeral flag and a capacity rounded up from the request, and has
    recorded exactly that id; one that fails has recorded nothing; it never
    panics, holds no lock afterwards that was not held before, and does not
    succeed while an operation on the name is under way. *)
Theorem CreateVolume_spec req s r s' : CreateVolume req s = (r, s') -> created req s r s'.
Proof. apply CreateVolume_created. Qed.

(** deleting a volume that was just created brings the meta store back to what
    it was, and deleting it once more succeeds or fails without changing it. *)
Theorem create_delete_roundtrip req s v s1 r2 s2 r3 s3 m :
  meta s = Some m -> CreateVolume req s = (Ok v, s1) -> m !! vol_VolumeId v = None ->
  DeleteVolume (mkDeleteVolumeRequest (vol_VolumeId v)) s1 = (Ok r2, s2) ->
  DeleteVolume (mkDeleteVolumeRequest (vol_VolumeId v)) s2 = (r3, s3) ->
  meta s2 = meta s /\ meta s3 = meta s.
Proof.
  intros Hm E1 Hnew E2 E3. apply CreateVolume_created in E1 as (_ & _ & _ & _ & m1 & Hm1 & Hs1).
  apply DeleteVolume_cases in E2 as [_ (m2 & Hm2 & Hs2)]. apply DeleteVolume_cases in E3 as [_ E3].
  simpl in *. assert (Hback : meta s2 = meta s).
  { rewrite Hs2, Hm. f_equal. rewrite Hs1 in Hm2. injection Hm2 as <-. rewrite Hm in Hm1.
    injection Hm1 as <-. by rewrite delete_insert_id. }
  split; [done |]. destruct r3 as [[] | e | w]; [| congruence | done].
  destruct E3 as (m3 & Hm3 & ->). rewrite Hm3 in Hback. rewrite <- Hback. f_equal.
  apply delete_id. rewrite Hback in *. congruence.
Qed.

(** an expansion is answered with a size at least as large as the one asked
    for, below 8 PiB, and leaves everything as it is; a missing range and an empty
    id are errors, an operation under way on the id is answered Aborted. *)
Theorem ControllerExpandVolume_spec req s r s' :
  ControllerExpandVolume req s = (r, s') ->
  s' = s /\
  match r with
  | Ok resp => ce_NodeExpansionRequired resp = true /\
      ce_VolumeId req <> "" /\ ce_VolumeId req ∉ vl_locks (get_locks s) /\
      exists range, ce_CapacityRange req = Some range /\
        (0 <= RequiredBytes range < 2 ^ 53 - GiB -> RequiredBytes range <= ce_CapacityBytes resp)
  | Fail e => exists c msg, e = StatusError c msg
  | Panic _ => False
  end.
Proof.
  unfold ControllerExpandVolume, bind at 1, gets.
  destruct (ValidateControllerServiceRequest CC_EXPAND_VOLUME (cs_Driver s.1)) as [err |] eqn:Ev.
  { intros [= <- <-]. split; [done |]. unfold ValidateControllerServiceRequest in Ev.
    case_decide; [done |]. destruct (existsb _ _); [done |]. injection Ev as <-. eauto. }
  unfold check, bind at 1, ret at 1. case_decide as Hid; [intros [= <- <-]; eauto |].
  destruct (ce_CapacityRange req) as [range |]; [| intros [= <- <-]; eauto].
  destruct (decide (ce_VolumeId req ∈ vl_locks (get_locks s))) as [Hn | Hn].
  - rewrite locked_busy by done. intros [= <- <-]. unfold aborted. eauto.
  - rewrite locked_free by done. intros [= <- <-]. split.
    + destruct s as [[d [l]] w]. unfold with_lock, Release; simpl in *. repeat f_equal. set_solver.
    + split_and!; [done | done | done |]. exists range. split; [done |]. intros Hr. simpl.
      unfold GiB, MiB in Hr. destruct (RoundOffBytes_cases (RequiredBytes range)) as (c & -> & _ & ?); lia.
Qed.
End controller_proofs.

(** ** Runs *)

#[local] Instance sim_meta : MetaStoreInterFace sim_api := ConfigMapMetaStore_interface sim_store.
#[local] Instance sim_meta_laws : MetaStoreLaws sim_api := ConfigMapMetaStore_laws sim_store.

Definition sim_driver : CSIDriver :=
  mkCSIDriver "xfsquota.hostpath.csi" "node1" "v1" None [CC_CREATE_DELETE_VOLUME; CC_EXPAND_VOLUME] [].
Definition sim_controller : ControllerServer * sim_api :=
  (mkControllerServer sim_driver NewVolumeLocks, Some (1%N, ∅)).
Definition pvc_request : CreateVolumeRequest :=
  mkCreateVolumeRequest "pvc-1" (Some (mkCapacityRange 1500000 0))
    [mkVolumeCapability (MountVolume []) AM_SINGLE_NODE_WRITER] {[ "ephemeral" := "true" ]} None.

Definition pvc_volume : Volume := mkVolume "0001-0001-0005-pvc-1" (2 * MiB) {[ "ephemeral" := "true" ]} None.
Definition after_create : ControllerServer * sim_api := (CreateVolume pvc_request sim_controller).2.
Definition after_delete : ControllerServer * sim_api :=
  (DeleteVolume (mkDeleteVolumeRequest "0001-0001-0005-pvc-1") after_create).2.

Lemma after_create_eq : CreateVolume pvc_request sim_controller = (Ok pvc_volume, after_create).
Proof. vm_compute; reflexivity. Qed.

Lemma CreateVolume_spec_witness : created pvc_request sim_controller (Ok pvc_volume) after_create.
Proof. exact (CreateVolume_spec pvc_request sim_controller _ _ after_create_eq). Defined.

Lemma create_delete_roundtrip_witness : meta after_delete = meta sim_controller.
Proof.
  refine (proj1 (create_delete_roundtrip pvc_request sim_controller pvc_volume after_create tt after_delete
    _ (DeleteVolume (mkDeleteVolumeRequest "0001-0001-0005-pvc-1") after_delete).2 ∅ _ after_create_eq _ _
    (surjective_pairing _))); vm_compute; reflexivity.
Defined.

Lemma ControllerExpandVolume_spec_witness :
  (ControllerExpandVolume (mkControllerExpandVolumeRequest "v" (Some (mkCapacityRange 5 0))) sim_controller).2 =
  sim_controller.
Proof. exact (proj1 (ControllerExpandVolume_spec _ sim_controller _ _ (surjective_pairing _))). Defined.
