(* ===== verification/HostPathApi.v ===== *)
(** * The plugin's view of the cluster: pkg/hostpathclient (types and interface)

    The usage records that nodes and volumes carry, the stripped-down node and
    persistent volume of the plugin, and the Go interface
    [HostPathClientInterface] through which the node server and the sync worker
    reach the API server. *)

From S2P Require Import Prelude GoStrings.
Open Scope Z_scope.

(** ** types.go *)

Record PVUsageInfo := mkPVUsageInfo {
  pvu_NodeName : string;
  pvu_Path : string;
  pvu_Capacity : Z;
  pvu_Used : Z
}.

Record DiskInfo := mkDiskInfo {
  di_MountPoint : string;
  di_Capacity : Z;
  di_QuotaSize : Z;
  di_Used : Z;
  di_Allocatable : Z;
  di_Disabled : bool
}.

Record NodeUsageInfo := mkNodeUsageInfo {
  nu_Capacity : Z;
  nu_QuotaSize : Z;
  nu_Used : Z;
  nu_AvailableSize : Z;
  nu_Allocatable : Z;
  nu_DiskStatus : list DiskInfo
}.

Definition empty_usage : NodeUsageInfo := mkNodeUsageInfo 0 0 0 0 0 [].

(** [DiskInfoList.Less] on the elements themselves *)
Definition DiskInfo_Less (x y : DiskInfo) : bool :=
  if negb (di_Allocatable x =? di_Allocatable y) then di_Allocatable x >? di_Allocatable y
  else String.ltb (di_MountPoint x) (di_MountPoint y).

(** ** persistentVolume.go *)

Record PersistentVolume := mkPersistentVolume {
  pv_version : string;
  pv_name : string;
  pv_namespace : string;
  pv_index : string;
  pv_volId : string;
  pv_isHostPathPv : bool;
  pv_bindNode : string;
  pv_ephemeral : bool;
  pv_capacity : Z;
  pv_volumePath : string;
  pv_usage : Z
}.

Definition SetBindNodeName (nodeName : string) (p : PersistentVolume) : PersistentVolume :=
  mkPersistentVolume (pv_version p) (pv_name p) (pv_namespace p) (pv_index p) (pv_volId p)
    (pv_isHostPathPv p) nodeName (pv_ephemeral p) (pv_capacity p) (pv_volumePath p) (pv_usage p).
Definition SetVolumePath (volumePath : string) (p : PersistentVolume) : PersistentVolume :=
  mkPersistentVolume (pv_version p) (pv_name p) (pv_namespace p) (pv_index p) (pv_volId p)
    (pv_isHostPathPv p) (pv_bindNode p) (pv_ephemeral p) (pv_capacity p) volumePath (pv_usage p).
Definition SetUsage (usage : Z) (p : PersistentVolume) : PersistentVolume :=
  mkPersistentVolume (pv_version p) (pv_name p) (pv_namespace p) (pv_index p) (pv_volId p)
    (pv_isHostPathPv p) (pv_bindNode p) (pv_ephemeral p) (pv_capacity p) (pv_volumePath p) (i64 usage).
Definition GetUsage (p : PersistentVolume) : Z := u64 (pv_usage p).
Definition GetHardQuota (p : PersistentVolume) : Z := u64 (pv_capacity p).
Definition GetSoftQuota (p : PersistentVolume) : Z := u64 (pv_capacity p).

(** ** node.go *)

Record Node := mkNode {
  nd_version : string;
  nd_name : string;
  nd_namespace : string;
  nd_hostPathNode : bool;
  nd_diskUsage : NodeUsageInfo;
  nd_disabledDisk : gset string;
  nd_ready : string
}.

(** ** client.go *)

(** The Go interface [HostPathClientInterface], on the world [W]. *)
Class HostPathClientInterface (W : Type) := {
  GetHostPathPVByVolumeId : string -> M W (option PersistentVolume);
  GetNodeByName : string -> M W Node;
  UpdateHostPathPVUsageInfo : string -> PersistentVolume -> M W unit;
  UpdateNodeHostPathPVUsageInfo : string -> NodeUsageInfo -> M W unit;
  SetHostPathDiskDisableState : string -> string -> bool -> M W unit
}.
