(* ===== verification/Base64.v ===== *)
(** * encoding/base64, the standard encoding with padding

    [base64.StdEncoding] as the plugin uses it: the annotations of nodes and
    volumes are stored in it.  Decoding skips line breaks and, on an invalid text,
    returns the bytes decoded so far together with the error. *)

From S2P Require Import Prelude GoStrings.
Open Scope Z_scope.

(** The alphabet. *)
Definition b64_char (d : Z) : ascii :=
  byte_of (if d <? 26 then 65 + d else if d <? 52 then 71 + d else if d <? 62 then d - 4
           else if d =? 62 then 43 else 47).

Definition b64_val (c : ascii) : option Z :=
  let v := byte_val c in
  if (65 <=? v) && (v <=? 90) then Some (v - 65)
  else if (97 <=? v) && (v <=? 122) then Some (v - 71)
  else if (48 <=? v) && (v <=? 57) then Some (v + 4)
  else if v =? 43 then Some 62
  else if v =? 47 then Some 63
  else None.

Definition pad : ascii := "="%char.

(** [EncodeToString] *)
Fixpoint b64_encode (s : string) : string :=
  match s with
  | EmptyString => EmptyString
  | String a EmptyString =>
      let a := byte_val a in
      String (b64_char (a / 4)) (String (b64_char (a mod 4 * 16)) (String pad (String pad EmptyString)))
  | String a (String b EmptyString) =>
      let a := byte_val a in let b := byte_val b in
      String (b64_char (a / 4)) (String (b64_char (a mod 4 * 16 + b / 16))
        (String (b64_char (b mod 16 * 4)) (String pad EmptyString)))
  | String a (String b (String c s')) =>
      let a := byte_val a in let b := byte_val b in let c := byte_val c in
      String (b64_char (a / 4)) (String (b64_char (a mod 4 * 16 + b / 16))
        (String (b64_char (b mod 16 * 4 + c / 64)) (String (b64_char (c mod 64)) (b64_encode s'))))
  end.

(** The bytes of a quantum of four values, as far as they are complete. *)
Definition byte1 (a b : Z) : ascii := byte_of (a * 4 + b / 16).
Definition byte2 (b c : Z) : ascii := byte_of (b mod 16 * 16 + c / 4).
Definition byte3 (c d : Z) : ascii := byte_of (c mod 4 * 64 + d).

Definition is_break (c : ascii) : bool := (byte_val c =? 10) || (byte_val c =? 13).
Fixpoint strip_breaks (s : string) : string :=
  match s with
  | EmptyString => EmptyString
  | String c s' => if is_break c then strip_breaks s' else String c (strip_breaks s')
  end.

(** The bytes decoded, and whether all of the text was valid; the text has no line
    breaks left. *)
Fixpoint b64_quanta (s : string) : string * bool :=
  match s with
  | EmptyString => (EmptyString, true)
  | String c1 (String c2 (String c3 (String c4 s'))) =>
      match b64_val c1, b64_val c2 with
      | Some a, Some b =>
          match b64_val c3 with
          | Some c =>
              match b64_val c4 with
              | Some d =>
                  let '(bs, ok) := b64_quanta s' in
                  (String (byte1 a b) (String (byte2 b c) (String (byte3 c d) bs)), ok)
              | None =>
                  if Ascii.eqb c4 pad
                  then (String (byte1 a b) (String (byte2 b c) EmptyString), String.eqb s' "")
                  else (EmptyString, false)
              end
          | None =>
              if Ascii.eqb c3 pad && Ascii.eqb c4 pad
              then (String (byte1 a b) EmptyString, String.eqb s' "")
              else (EmptyString, false)
          end
      | _, _ => (EmptyString, false)
      end
  | _ => (EmptyString, false)
  end.

(** [CorruptInputError]; its text gives the position as well. *)
Definition corrupt : error := Errorf "illegal base64 data at input byte".

(** [DecodeString]: the bytes, and the error. *)
Definition b64_decode (s : string) : string * option error :=
  let '(bs, ok) := b64_quanta (strip_breaks s) in (bs, if ok then None else Some corrupt).

Example b64_example :
  b64_encode "/xfs/d1,/xfs/d2" = "L3hmcy9kMSwveGZzL2Qy"%string /\
  b64_decode "L3hmcw==" = ("/xfs"%string, None) /\ b64_decode "L3hmcw=" = ("/xf"%string, Some corrupt).
Proof. by vm_compute. Qed.

(** ** Decoding what was encoded *)

Lemma b64_char_val d : 0 <= d < 64 -> byte_val (b64_char d) =
  if d <? 26 then 65 + d else if d <? 52 then 71 + d else if d <? 62 then d - 4
  else if d =? 62 then 43 else 47.
Proof.
  intros Hd. unfold b64_char.
  destruct (Z.ltb_spec d 26); [by rewrite byte_val_of by lia |].
  destruct (Z.ltb_spec d 52); [by rewrite byte_val_of by lia |].
  destruct (Z.ltb_spec d 62); [by rewrite byte_val_of by lia |].
  destruct (Z.eqb_spec d 62); by rewrite byte_val_of by lia.
Qed.

Lemma b64_val_char d : 0 <= d < 64 -> b64_val (b64_char d) = Some d.
Proof.
  intros Hd. unfold b64_val. rewrite b64_char_val by done.
  repeat match goal with
  | |- context [?a <? ?b] => destruct (Z.ltb_spec a b)
  | |- context [?a <=? ?b] => destruct (Z.leb_spec a b)
  | |- context [?a =? ?b] => destruct (Z.eqb_spec a b)
  end; simpl; try lia; f_equal; lia.
Qed.

Lemma b64_char_break d : 0 <= d < 64 -> is_break (b64_char d) = false.
Proof.
  intros Hd. unfold is_break. rewrite b64_char_val by done.
  destruct (Z.ltb_spec d 26), (Z.ltb_spec d 52), (Z.ltb_spec d 62), (Z.eqb_spec d 62);
    apply orb_false_iff; split; apply Z.eqb_neq; lia.
Qed.



Lemma byte1_enc a b : 0 <= b < 16 -> byte1 (byte_val a / 4) (byte_val a mod 4 * 16 + b) = a.
Proof.
  intros Hb. unfold byte1.
  replace (byte_val a / 4 * 4 + (byte_val a mod 4 * 16 + b) / 16) with (byte_val a); [apply byte_of_val |].
  pose proof (byte_val_range a). Z.to_euclidean_division_equations; lia.
Qed.

Lemma byte2_enc a b c : 0 <= c < 4 -> byte2 (a * 16 + byte_val b / 16) (byte_val b mod 16 * 4 + c) = b.
Proof.
  intros Hc. unfold byte2.
  replace ((a * 16 + byte_val b / 16) mod 16 * 16 + (byte_val b mod 16 * 4 + c) / 4) with (byte_val b);
    [apply byte_of_val |].
  pose proof (byte_val_range b). Z.to_euclidean_division_equations; lia.
Qed.

Lemma byte3_enc b c : byte3 (b * 4 + byte_val c / 64) (byte_val c mod 64) = c.
Proof.
  unfold byte3.
  replace ((b * 4 + byte_val c / 64) mod 4 * 64 + byte_val c mod 64) with (byte_val c); [apply byte_of_val |].
  pose proof (byte_val_range c). Z.to_euclidean_division_equations; lia.
Qed.

(** Induction three bytes at a time. *)
Lemma string_ind3 (P : string -> Prop) :
  P "" -> (forall a, P (String a "")) -> (forall a b, P (String a (String b ""))) ->
  (forall a b c s, P s -> P (String a (String b (String c s)))) -> forall s, P s.
Proof.
  intros H0 H1 H2 H3 s.
  assert (Hall : forall n s, (String.length s <= n)%nat -> P s); [| by apply (Hall (String.length s))].
  clear s. induction n as [|n IH]; intros [|a [|b [|c s]]]; simpl; intros Hn; try done; try lia.
  apply H3, IH. lia.
Qed.

Ltac b64_range := repeat match goal with
  | |- context [byte_val ?c] => lazymatch goal with
      | H : 0 <= byte_val c < 256 |- _ => fail
      | _ => pose proof (byte_val_range c) end
  end; Z.to_euclidean_division_equations; lia.

Lemma strip_encode s : strip_breaks (b64_encode s) = b64_encode s.
Proof.
  induction s as [| a | a b | a b c s IH] using string_ind3; [done | | |]; cbn [b64_encode strip_breaks];
    rewrite !b64_char_break by b64_range; try done. by rewrite IH.
Qed.

Lemma b64_quanta_encode s : b64_quanta (b64_encode s) = (s, true).
Proof.
  induction s as [| a | a b | a b c s IH] using string_ind3; [done | | |]; cbn [b64_encode b64_quanta];
    rewrite !b64_val_char by b64_range.
  - change (b64_val pad) with (@None Z). simpl. rewrite <- (Z.add_0_r (byte_val a mod 4 * 16)).
    by rewrite byte1_enc by lia.
  - change (b64_val pad) with (@None Z). simpl. rewrite byte1_enc by b64_range.
    rewrite <- (Z.add_0_r (byte_val b mod 16 * 4)). by rewrite byte2_enc by lia.
  - rewrite IH. rewrite byte1_enc by b64_range. rewrite byte2_enc by b64_range. by rewrite byte3_enc.
Qed.

Lemma b64_decode_encode s : b64_decode (b64_encode s) = (s, None).
Proof. unfold b64_decode. by rewrite strip_encode, b64_quanta_encode. Qed.
