(* ===== verification/Json.v ===== *)
(** * encoding/json, as far as the plugin's records need it

    [Marshal] of integers, booleans, strings, lists and records, and [Unmarshal]:
    the parser of the full JSON syntax and the decoding of record fields, whose
    names match without regard to case.  Strings are ASCII: longer UTF-8 sequences
    pass through unchanged, as they do in Go when they are valid and no line
    separators; field names are matched with ASCII case folding.  The limit of 10000
    on the nesting depth is left out. *)

From S2P Require Import Prelude GoStrings.
From stdpp Require Import pretty.
Open Scope Z_scope.
Open Scope go_scope.
#[local] Set Warnings "-register-all".

Inductive json :=
  | JNull
  | JBool (b : bool)
  | JNum (literal : string)
  | JStr (s : string)
  | JArr (l : list json)
  | JObj (members : list (string * json)).

(** ** Printing *)

Definition backslash : ascii := "\"%char.
Definition dquote : ascii := "034"%char.

(** The escape of one byte of a string; HTML characters are escaped, too. *)
Definition escape_char (c : ascii) (rest : string) : string :=
  let v := byte_val c in
  if Ascii.eqb c dquote || Ascii.eqb c backslash then String backslash (String c rest)
  else if v =? 10 then String backslash (String "n" rest)
  else if v =? 13 then String backslash (String "r" rest)
  else if v =? 9 then String backslash (String "t" rest)
  else if (v <? 32) || Ascii.eqb c "<" || Ascii.eqb c ">" || Ascii.eqb c "&" then
    String backslash (String "u" (String "0" (String "0" (String (hex_digit (v / 16)) (String (hex_digit (v mod 16)) rest)))))
  else String c rest.

(** The escaped string, up to the closing quote. *)
Fixpoint escape (s : string) (rest : string) : string :=
  match s with
  | EmptyString => String dquote rest
  | String c s' => escape_char c (escape s' rest)
  end.

Definition quote (s : string) : string := String dquote (escape s "").

Fixpoint print (v : json) : string :=
  match v with
  | JNull => "null"
  | JBool b => FormatBool b
  | JNum l => l
  | JStr s => quote s
  | JArr l => "[" +:+ GoStrings.join "," (map print l) +:+ "]"
  | JObj ms => "{" +:+ GoStrings.join "," (map (fun m => quote m.1 +:+ ":" +:+ print m.2) ms) +:+ "}"
  end.

(** ** Parsing *)

Fixpoint skip_ws (s : string) : string :=
  match s with
  | String c s' => if bool_decide (byte_val c ∈ [32; 9; 10; 13]) then skip_ws s' else s
  | EmptyString => s
  end.

(** The UTF-8 encoding of a code point. *)
Definition utf8 (v : Z) (rest : string) : string :=
  if v <? 128 then String (byte_of v) rest
  else if v <? 2048 then String (byte_of (192 + v / 64)) (String (byte_of (128 + v mod 64)) rest)
  else if v <? 65536 then
    String (byte_of (224 + v / 4096)) (String (byte_of (128 + v / 64 mod 64)) (String (byte_of (128 + v mod 64)) rest))
  else
    String (byte_of (240 + v / 262144)) (String (byte_of (128 + v / 4096 mod 64))
      (String (byte_of (128 + v / 64 mod 64)) (String (byte_of (128 + v mod 64)) rest))).

Definition replacement : Z := 65533.

(** The four digits of a \u escape. *)
Definition hex4 (a b c d : ascii) : option Z :=
  match from_hex a, from_hex b, from_hex c, from_hex d with
  | Some a, Some b, Some c, Some d => Some (((a * 16 + b) * 16 + c) * 16 + d)
  | _, _, _, _ => None
  end.

Definition is_high (v : Z) : bool := (55296 <=? v) && (v <=? 56319).
Definition is_low (v : Z) : bool := (56320 <=? v) && (v <=? 57343).

Definition unescape (c : ascii) : option ascii :=
  if Ascii.eqb c dquote || Ascii.eqb c backslash || Ascii.eqb c slash then Some c
  else if Ascii.eqb c "b" then Some (byte_of 8)
  else if Ascii.eqb c "f" then Some (byte_of 12)
  else if Ascii.eqb c "n" then Some (byte_of 10)
  else if Ascii.eqb c "r" then Some (byte_of 13)
  else if Ascii.eqb c "t" then Some (byte_of 9)
  else None.

(** The rest of a string after its opening quote: its value and what follows the
    closing quote. *)
Fixpoint parse_str (s : string) : option (string * string) :=
  match s with
  | EmptyString => None
  | String c s' =>
      if Ascii.eqb c dquote then Some (EmptyString, s')
      else if Ascii.eqb c backslash then
        match s' with
        | String e s'' =>
            if Ascii.eqb e "u" then
              match s'' with
              | String h1 (String h2 (String h3 (String h4 s4))) =>
                  match hex4 h1 h2 h3 h4 with
                  | Some v =>
                      match s4 with
                      | String b (String u (String l1 (String l2 (String l3 (String l4 s5))))) =>
                          match (if Ascii.eqb b backslash && Ascii.eqb u "u" && is_high v
                                 then hex4 l1 l2 l3 l4 else None) with
                          | Some w =>
                              if is_low w then
                                match parse_str s5 with
                                | Some (t, r) => Some (utf8 (65536 + (v - 55296) * 1024 + (w - 56320)) t, r)
                                | None => None
                                end
                              else
                                match parse_str s4 with
                                | Some (t, r) => Some (utf8 replacement t, r)
                                | None => None
                                end
                          | None =>
                              match parse_str s4 with
                              | Some (t, r) => Some (utf8 (if is_high v || is_low v then replacement else v) t, r)
                              | None => None
                              end
                          end
                      | _ =>
                          match parse_str s4 with
                          | Some (t, r) => Some (utf8 (if is_high v || is_low v then replacement else v) t, r)
                          | None => None
                          end
                      end
                  | None => None
                  end
              | _ => None
              end
            else
              match unescape e with
              | Some d => match parse_str s'' with Some (t, r) => Some (String d t, r) | None => None end
              | None => None
              end
        | EmptyString => None
        end
      else if byte_val c <? 32 then None
      else match parse_str s' with Some (t, r) => Some (String c t, r) | None => None end
  end.

Definition is_digit (c : ascii) : bool := (48 <=? byte_val c) && (byte_val c <=? 57).

Fixpoint take_digits (s : string) : string * string :=
  match s with
  | String c s' =>
      if is_digit c then let '(d, r) := take_digits s' in (String c d, r) else (EmptyString, s)
  | EmptyString => (EmptyString, s)
  end.

(** The fraction and the exponent of a number. *)
Definition scan_frac (s : string) : option (string * string) :=
  match s with
  | String c s' =>
      if Ascii.eqb c "." then
        let '(d, r) := take_digits s' in
        if String.eqb d "" then None else Some (String c d, r)
      else Some (EmptyString, s)
  | EmptyString => Some (EmptyString, s)
  end.
Definition scan_exp (s : string) : option (string * string) :=
  match s with
  | String c s' =>
      if Ascii.eqb c "e" || Ascii.eqb c "E" then
        let '(sign, s'') := match s' with
                            | String g r => if Ascii.eqb g "+" || Ascii.eqb g "-" then (String g "", r) else ("", s')
                            | EmptyString => ("", s')
                            end in
        let '(d, r) := take_digits s'' in
        if String.eqb d "" then None else Some (String c (sign +:+ d), r)
      else Some (EmptyString, s)
  | EmptyString => Some (EmptyString, s)
  end.
Definition scan_int (s : string) : option (string * string) :=
  match s with
  | String c s' =>
      if Ascii.eqb c "0" then Some ("0", s')
      else if is_digit c then Some (take_digits s) else None
  | EmptyString => None
  end.
Definition scan_number (s : string) : option (string * string) :=
  let '(sign, s1) := match s with
                     | String c s' => if Ascii.eqb c "-" then ("-", s') else ("", s)
                     | EmptyString => ("", s)
                     end in
  match scan_int s1 with
  | Some (i, s2) =>
      match scan_frac s2 with
      | Some (f, s3) =>
          match scan_exp s3 with
          | Some (e, s4) => Some (sign +:+ i +:+ f +:+ e, s4)
          | None => None
          end
      | None => None
      end
  | None => None
  end.

(** The text after [word], if the text starts with it. *)
Definition expect (word s : string) : option string :=
  if String.prefix word s
  then Some (String.substring (String.length word) (String.length s - String.length word) s) else None.

Fixpoint parse_value (fuel : nat) (s : string) : option (json * string) :=
  match fuel with
  | O => None
  | S fuel =>
      match skip_ws s with
      | EmptyString => None
      | String c r as t =>
          if Ascii.eqb c dquote then
            match parse_str r with Some (x, r') => Some (JStr x, r') | None => None end
          else if Ascii.eqb c "[" then
            match expect "]" (skip_ws r) with
            | Some r' => Some (JArr [], r')
            | None => match parse_elems fuel r with Some (l, r') => Some (JArr l, r') | None => None end
            end
          else if Ascii.eqb c "{" then
            match expect "}" (skip_ws r) with
            | Some r' => Some (JObj [], r')
            | None => match parse_members fuel r with Some (l, r') => Some (JObj l, r') | None => None end
            end
          else if Ascii.eqb c "t" then
            match expect "true" t with Some r' => Some (JBool true, r') | None => None end
          else if Ascii.eqb c "f" then
            match expect "false" t with Some r' => Some (JBool false, r') | None => None end
          else if Ascii.eqb c "n" then
            match expect "null" t with Some r' => Some (JNull, r') | None => None end
          else match scan_number t with Some (l, r') => Some (JNum l, r') | None => None end
      end
  end
with parse_elems (fuel : nat) (s : string) : option (list json * string) :=
  match fuel with
  | O => None
  | S fuel =>
      match parse_value fuel s with
      | None => None
      | Some (v, r) =>
          match skip_ws r with
          | String c r' =>
              if Ascii.eqb c "," then
                match parse_elems fuel r' with Some (l, r'') => Some (v :: l, r'') | None => None end
              else if Ascii.eqb c "]" then Some ([v], r') else None
          | EmptyString => None
          end
      end
  end
with parse_members (fuel : nat) (s : string) : option (list (string * json) * string) :=
  match fuel with
  | O => None
  | S fuel =>
      match skip_ws s with
      | String q r =>
          if Ascii.eqb q dquote then
            match parse_str r with
            | None => None
            | Some (k, r1) =>
                match expect ":" (skip_ws r1) with
                | None => None
                | Some r2 =>
                    match parse_value fuel r2 with
                    | None => None
                    | Some (v, r3) =>
                        match skip_ws r3 with
                        | String c r' =>
                            if Ascii.eqb c "," then
                              match parse_members fuel r' with
                              | Some (l, r'') => Some ((k, v) :: l, r'')
                              | None => None
                              end
                            else if Ascii.eqb c "}" then Some ([(k, v)], r') else None
                        | EmptyString => None
                        end
                    end
                end
            end
          else None
      | EmptyString => None
      end
  end.

(** Every step of the parser consumes a byte, so the length of the text is enough. *)
Definition parse (s : string) : option json :=
  match parse_value (S (String.length s)) s with
  | Some (v, r) => if String.eqb (skip_ws r) "" then Some v else None
  | None => None
  end.

(** ** Reading back what was printed *)

(** A text that a number before it cannot run into. *)
Definition ends_number (rest : string) : Prop :=
  match rest with
  | String c _ => is_digit c = false /\ bool_decide (c ∈ ["."; "e"; "E"]%char) = false
  | EmptyString => True
  end.

(** [v] is read back from its text, whatever follows it. *)
Definition reads_back (v : json) : Prop :=
  (exists c t, print v = String c t /\ bool_decide (byte_val c ∈ [32; 9; 10; 13]) = false /\ Ascii.eqb "]" c = false) /\
  forall fuel rest, (String.length (print v) <= fuel)%nat -> ends_number rest ->
    parse_value fuel (print v +:+ rest) = Some (v, rest).


(** The \u escape of a byte below 128. *)
Lemma parse_str_u b s :
  0 <= b < 128 ->
  parse_str (String backslash (String "u" (String "0" (String "0"
    (String (hex_digit (b / 16)) (String (hex_digit (b mod 16)) s)))))) =
  match parse_str s with Some (t, r) => Some (String (byte_of b) t, r) | None => None end.
Proof.
  intros Hb.
  cbn [parse_str Ascii.eqb]. simpl Ascii.eqb. cbv iota.
  unfold hex4. rewrite !from_hex_digit by (Z.to_euclidean_division_equations; lia).
  change (from_hex "0") with (Some 0). cbv iota.
  replace (((0 * 16 + 0) * 16 + b / 16) * 16 + b mod 16) with b by (Z.to_euclidean_division_equations; lia).
  assert (Hh : is_high b = false) by (unfold is_high; apply andb_false_iff; left; apply Z.leb_gt; lia).
  assert (Hl : is_low b = false) by (unfold is_low; apply andb_false_iff; left; apply Z.leb_gt; lia).
  rewrite Hh, Hl. simpl.
  assert (Hu : forall t, utf8 b t = String (byte_of b) t).
  { intros t. unfold utf8. destruct (Z.ltb_spec b 128); [done | lia]. }
  assert (Hs : match parse_str s with Some (t, r) => Some (utf8 b t, r) | None => None end =
               match parse_str s with Some (t, r) => Some (String (byte_of b) t, r) | None => None end).
  { destruct (parse_str s) as [[t r]|]; by rewrite ?Hu. }
  rewrite <- Hs.
  destruct s as [|c1 [|c2 [|c3 [|c4 [|c5 [|c6 s]]]]]]; try done.
  rewrite andb_false_r. done.
Qed.

Lemma parse_escape_char c s :
  parse_str (escape_char c s) =
  match parse_str s with Some (t, r) => Some (String c t, r) | None => None end.
Proof.
  pose proof (byte_val_range c) as Hr. unfold escape_char.
  destruct (Ascii.eqb_spec c dquote) as [-> | Hq]; [done |].
  destruct (Ascii.eqb_spec c backslash) as [-> | Hb]; [done |]. simpl orb. cbv iota.
  destruct (Z.eqb_spec (byte_val c) 10) as [E | _]; [by apply (byte_val_inj c (byte_of 10)) in E as -> |].
  destruct (Z.eqb_spec (byte_val c) 13) as [E | _]; [by apply (byte_val_inj c (byte_of 13)) in E as -> |].
  destruct (Z.eqb_spec (byte_val c) 9) as [E | _]; [by apply (byte_val_inj c (byte_of 9)) in E as -> |].
  destruct (_ || _ || _ || _) eqn:E.
  - rewrite parse_str_u, byte_of_val; [done |].
    rewrite !orb_true_iff in E. destruct E as [[[E|E]|E]|E].
    + apply Z.ltb_lt in E. lia.
    + apply Ascii.eqb_eq in E as ->. by vm_compute.
    + apply Ascii.eqb_eq in E as ->. by vm_compute.
    + apply Ascii.eqb_eq in E as ->. by vm_compute.
  - rewrite !orb_false_iff in E. destruct E as [[[E _] _] _].
    apply Ascii.eqb_neq in Hq, Hb. cbn [parse_str]. by rewrite Hq, Hb, E.
Qed.

Lemma escape_app s rest t : escape s rest +:+ t = escape s (rest +:+ t).
Proof.
  induction s as [|c s IH]; simpl; [done |]. unfold escape_char.
  repeat match goal with |- context [if ?b then _ else _] => destruct b end;
    rewrite ?append_cons, IH; done.
Qed.

Lemma parse_str_escape s rest : parse_str (escape s rest) = Some (s, rest).
Proof. induction s as [|c s IH]; [done |]. simpl escape. by rewrite parse_escape_char, IH. Qed.

Lemma quote_app s rest : quote s +:+ rest = String dquote (escape s rest).
Proof. unfold quote. rewrite append_cons, escape_app. done. Qed.

(** The value of a string of decimal digits, [None] if there is another character. *)
Fixpoint dec (acc : Z) (s : string) : option Z :=
  match s with
  | EmptyString => Some acc
  | String c s' => if is_digit c then dec (acc * 10 + (byte_val c - 48)) s' else None
  end.

(** [strconv.ParseInt(s, 10, 64)] on a number literal *)
Definition ParseInt (s : string) : option Z :=
  let '(neg, ds) := match s with
                    | String c s' => if Ascii.eqb c "-" then (true, s') else (false, s)
                    | EmptyString => (false, s)
                    end in
  if String.eqb ds "" then None
  else match dec 0 ds with
       | Some n => let z := if neg then - n else n in
                   if bool_decide (- 2 ^ 63 <= z < 2 ^ 63) then Some z else None
       | None => None
       end.

(** The decimal digits of a positive number. *)
Definition numeral (n : Z) (s : string) : Prop :=
  (exists c t, s = String c t /\ is_digit c = true /\ Ascii.eqb c "0" = false) /\ dec 0 s = Some n.

Lemma take_digits_dec s r acc n : dec acc s = Some n -> ends_number r -> take_digits (s +:+ r) = (s, r).
Proof.
  intros Hs Hr. revert acc Hs. induction s as [|c s IH]; intros acc; cbn [dec].
  - intros _. destruct r as [|c r]; [done |]. destruct Hr as [Hd _].
    change ("" +:+ String c r) with (String c r). cbn [take_digits]. by rewrite Hd.
  - rewrite append_cons. cbn [take_digits]. destruct (is_digit c); [| done]. intros Hs. by rewrite (IH _ Hs).
Qed.

Lemma dec_snoc s c acc : 
  dec acc (s +:+ String c "") = 
  match dec acc s with
  | Some n => if is_digit c then Some (n * 10 + (byte_val c - 48)) else None
  | None => None
  end.
Proof.
  revert acc. induction s as [|d s IH]; intros acc; [done |].
  rewrite append_cons. cbn [dec]. destruct (is_digit d); [apply IH | done].
Qed.

Lemma pretty_N_char_digit d : (d < 10)%N -> 
  is_digit (pretty_N_char d) = true /\ byte_val (pretty_N_char d) = 48 + Z.of_N d /\
  (d <> 0%N -> Ascii.eqb (pretty_N_char d) "0" = false).
Proof.
  intros Hd.
  assert (d = 0 \/ d = 1 \/ d = 2 \/ d = 3 \/ d = 4 \/ d = 5 \/ d = 6 \/ d = 7 \/ d = 8 \/ d = 9)%N as Hc by lia.
  repeat destruct Hc as [Hc|Hc]; subst d; by vm_compute.
Qed.

Lemma pretty_N_go_numeral n : forall s,
  (0 < n)%N -> exists ds, pretty_N_go n s = ds +:+ s /\ numeral (Z.of_N n) ds.
Proof.
  induction (N.lt_wf_0 n) as [n _ IH]. intros s Hn.
  rewrite pretty_N_go_step by done.
  destruct (pretty_N_char_digit (n mod 10)) as (Hd & Hv & H0); [by apply N.mod_lt |].
  set (c := pretty_N_char (n mod 10)) in *.
  pose proof (N.div_mod n 10 ltac:(done)) as E.
  destruct (decide (n / 10 = 0)%N) as [Hz | Hz].
  - rewrite Hz, pretty_N_go_0. exists (String c ""). split; [done |]. split.
    + exists c, "". split; [done |]. split; [done | apply H0; lia].
    + cbn [dec]. rewrite Hd, Hv. f_equal. rewrite Hz in E. lia.
  - destruct (IH (n / 10)%N) with (s := String c s) as (ds & -> & (c0 & t & -> & Hc0) & Hval).
    { apply N.div_lt; lia. }
    { by apply N.neq_0_lt_0. }
    exists (String c0 t +:+ String c ""). split; [by rewrite app_assoc_string |]. split.
    + exists c0, (t +:+ String c ""). done.
    + rewrite dec_snoc, Hval, Hd, Hv. f_equal. lia.
Qed.

Lemma pretty_pos_numeral p : numeral (Zpos p) (pretty (Npos p)).
Proof.
  destruct (pretty_N_go_numeral (Npos p) "") as (ds & E & H); [lia |].
  unfold pretty, pretty_N. rewrite decide_False by done. by rewrite E, app_empty_r.
Qed.

Lemma scan_end r : ends_number r -> scan_frac r = Some ("", r) /\ scan_exp r = Some ("", r).
Proof.
  destruct r as [|c r]; [done |]. intros [_ He]. apply bool_decide_eq_false in He.
  assert (Hc : Ascii.eqb c "." = false /\ Ascii.eqb c "e" = false /\ Ascii.eqb c "E" = false).
  { repeat split; apply Ascii.eqb_neq; intros ->; apply He; set_solver. }
  destruct Hc as (H1 & H2 & H3). simpl. by rewrite H1, H2, H3.
Qed.

Lemma scan_numeral n s r : numeral n s -> ends_number r -> scan_number (s +:+ r) = Some (s, r) /\
  scan_number (String "-" (s +:+ r)) = Some (String "-" s, r).
Proof.
  intros [(c & t & -> & Hd & H0) Hv] Hr. unfold scan_number.
  rewrite (append_cons c). destruct (Ascii.eqb c "-") eqn:Hc; [by apply Ascii.eqb_eq in Hc as -> |].
  simpl Ascii.eqb. cbv iota. unfold scan_int. rewrite H0, Hd, <- append_cons.
  rewrite (take_digits_dec _ _ _ _ Hv Hr). destruct (scan_end r Hr) as [-> ->].
  by rewrite !app_empty_r.
Qed.

Lemma scan_pretty (z : Z) r : ends_number r -> scan_number (pretty z +:+ r) = Some (pretty z, r).
Proof.
  intros Hr. destruct z as [|p|p].
  - change (pretty 0) with "0". unfold scan_number. rewrite append_cons. simpl.
    destruct (scan_end r Hr) as [E1 E2]. change ("" +:+ r) with r. by rewrite E1, E2.
  - by apply (scan_numeral _ _ _ (pretty_pos_numeral p)).
  - change (pretty (Zneg p)) with ("-" +:+ pretty (Npos p)). rewrite append_cons.
    by apply (scan_numeral _ _ _ (pretty_pos_numeral p)).
Qed.

Lemma ParseInt_pretty z : in_i64 z -> ParseInt (pretty z) = Some z.
Proof.
  intros Hz. unfold ParseInt. destruct z as [|p|p]; [done | |].
  - change (pretty (Zpos p)) with (pretty (Npos p)).
    destruct (pretty_pos_numeral p) as [(c & t & -> & Hd & _) Hv]. cbv beta iota.
    destruct (Ascii.eqb c "-") eqn:Hc; [by apply Ascii.eqb_eq in Hc as -> |]. cbv beta iota.
    rewrite Hv. by rewrite bool_decide_true.
  - change (pretty (Zneg p)) with (String "-" (pretty (Npos p))). destruct (pretty_pos_numeral p) as [(c & t & -> & Hd & _) Hv].
    change (Ascii.eqb "-" "-") with true. cbv iota. rewrite Hv. by rewrite bool_decide_true.
Qed.

Lemma reads_back_num (z : Z) : reads_back (JNum (pretty z)).
Proof.
  assert (Hfirst : exists c t, pretty z = String c t /\ (is_digit c = true \/ c = "-"%char)).
  { destruct z as [|p|p].
    - exists "0"%char, "". by split; [| left].
    - destruct (pretty_pos_numeral p) as [(c & t & E & Hd & _) _]. exists c, t. by split; [| left].
    - exists "-"%char, (pretty (Npos p)). by split; [| right]. }
  destruct Hfirst as (c & t & E & Hc).
  assert (Hbyte : byte_val c = 45 \/ 48 <= byte_val c <= 57).
  { destruct Hc as [Hc | ->]; [right | by left]. unfold is_digit in Hc. apply andb_true_iff in Hc. lia. }
  assert (Hneq : forall d, (byte_val d =? 45) || is_digit d = false -> Ascii.eqb c d = false).
  { intros d Hd. apply Ascii.eqb_neq. intros ->. unfold is_digit in Hd.
    apply orb_false_iff in Hd as [H1 H2]. apply andb_false_iff in H2. lia. }
  assert (Hws : bool_decide (byte_val c ∈ [32; 9; 10; 13]) = false).
  { apply bool_decide_eq_false. set_unfold; lia. }
  split.
  - exists c, t. split; [done |]. split; [done |]. rewrite Ascii.eqb_sym. by apply Hneq.
  - intros [|fuel] rest Hf Hr; [simpl in Hf; rewrite E in Hf; simpl in Hf; lia |].
    pose proof (scan_pretty z rest Hr) as Hs. cbn [print parse_value]. rewrite E, append_cons in *.
    cbn [skip_ws]. rewrite Hws.
    rewrite !(Hneq dquote), !(Hneq "["%char), !(Hneq "{"%char), !(Hneq "t"%char), !(Hneq "f"%char), !(Hneq "n"%char) by done.
    by rewrite Hs.
Qed.

Lemma reads_back_str x : reads_back (JStr x).
Proof.
  split; [by exists dquote, (escape x "") |].
  intros [|fuel] rest Hf _; [simpl in Hf; lia |]. cbn [print]. rewrite quote_app.
  change (parse_value (S fuel) (String dquote (escape x rest))) with
    (match parse_str (escape x rest) with Some (x, r') => Some (JStr x, r') | None => None end).
  by rewrite parse_str_escape.
Qed.

Lemma expect_app w rest : expect w (w +:+ rest) = Some rest.
Proof.
  unfold expect.
  assert (Hp : String.prefix w (w +:+ rest) = true).
  { induction w as [|c w IH]; [by destruct rest |]. rewrite append_cons. simpl. by destruct (ascii_dec c c). }
  rewrite Hp. f_equal. rewrite length_string_app.
  replace (String.length w + String.length rest - String.length w)%nat with (String.length rest) by lia.
  rewrite <- (Nat.add_0_r (String.length w)) at 1. rewrite substring_drop. apply substring_all.
Qed.

Lemma reads_back_bool b : reads_back (JBool b).
Proof.
  split; [destruct b; simpl; by eexists _, _ |].
  intros [|fuel] rest Hf _; [destruct b; simpl in Hf; lia |].
  destruct b; cbn [print FormatBool].
  - change (parse_value (S fuel) ("true" +:+ rest)) with
      (match expect "true" ("true" +:+ rest) with Some r' => Some (JBool true, r') | None => None end).
    by rewrite expect_app.
  - change (parse_value (S fuel) ("false" +:+ rest)) with
      (match expect "false" ("false" +:+ rest) with Some r' => Some (JBool false, r') | None => None end).
    by rewrite expect_app.
Qed.

Lemma join_cons2 sep x y l : GoStrings.join sep (x :: y :: l) = x +:+ sep +:+ GoStrings.join sep (y :: l).
Proof. done. Qed.

Lemma skip_ws_first v rest : reads_back v -> skip_ws (print v +:+ rest) = print v +:+ rest.
Proof.
  intros [(c & t & -> & Hws & _) _]. rewrite append_cons. cbn [skip_ws]. by rewrite Hws.
Qed.

Lemma parse_elems_print l : l <> [] -> Forall reads_back l -> forall fuel rest,
  (String.length (GoStrings.join "," (map print l)) < fuel)%nat ->
  parse_elems fuel (GoStrings.join "," (map print l) +:+ String "]" rest) = Some (l, rest).
Proof.
  induction l as [|v [|w l] IH]; [done | |]; intros _ Hl [|fuel] rest Hf; try lia;
    apply Forall_cons in Hl as [Hv Hl]; cbn [map] in *.
  - cbn [parse_elems]. change (GoStrings.join "," [print v]) with (print v) in *.
    rewrite (proj2 Hv) by (done || lia). done.
  - rewrite join_cons2 in *. rewrite !length_string_app in Hf. simpl in Hf.
    cbn [parse_elems]. rewrite app_assoc_string, (proj2 Hv) by (done || lia).
    rewrite app_assoc_string. change ("," +:+ ?x) with (String "," x).
    change (skip_ws (String "," ?x)) with (String "," x). cbv iota.
    rewrite IH; [done | done | done |]. simpl. lia.
Qed.

Lemma reads_back_arr l : Forall reads_back l -> reads_back (JArr l).
Proof.
  intros Hl. split; [exists "["%char; eexists; by split; [reflexivity |] |].
  intros [|fuel] rest Hf _; [simpl in Hf; lia |]. cbn [print] in *.
  rewrite !length_string_app in Hf. rewrite !app_assoc_string.
  change ("[" +:+ ?x) with (String "[" x). change ("]" +:+ ?x) with (String "]" x).
  change (parse_value (S fuel) (String "[" ?x)) with
    (match expect "]" (skip_ws x) with
     | Some r' => Some (JArr [], r')
     | None => match parse_elems fuel x with Some (l, r') => Some (JArr l, r') | None => None end
     end).
  destruct l as [|v l].
  { change (skip_ws ?x) with ("]" +:+ rest). by rewrite expect_app. }
  assert (Hex : expect "]" (skip_ws (GoStrings.join "," (map print (v :: l)) +:+ String "]" rest)) = None).
  { assert (E : exists t, GoStrings.join "," (map print (v :: l)) +:+ String "]" rest = print v +:+ t).
    { destruct l as [|w l]; [by eexists |]. cbn [map]. rewrite join_cons2, app_assoc_string. by eexists. }
    destruct E as [t ->]. apply Forall_cons in Hl as [Hv _]. rewrite skip_ws_first by done.
    destruct Hv as [(c & u & -> & _ & Hc) _]. rewrite append_cons. unfold expect. cbn [String.prefix].
    destruct (ascii_dec "]" c) as [<- |]; [by rewrite Ascii.eqb_refl in Hc | done]. }
  rewrite Hex, parse_elems_print; [done | done | done |].
  change (String.length "[") with 1%nat in Hf. change (String.length "]") with 1%nat in Hf. lia.
Qed.

Definition member_text (m : string * json) : string := quote m.1 +:+ ":" +:+ print m.2.

(** One member, given what its value [s] parses to and what follows. *)
Lemma parse_member fuel k s v t l' rest :
  parse_value fuel s = Some (v, t) ->
  match skip_ws t with
  | String c r' => if Ascii.eqb c "," then parse_members fuel r' = Some (l', rest) else
                   if Ascii.eqb c "}" then l' = [] /\ r' = rest else False
  | EmptyString => False
  end ->
  parse_members (S fuel) (quote k +:+ ":" +:+ s) = Some ((k, v) :: l', rest).
Proof.
  intros Hv Hrest. rewrite quote_app.
  change (parse_members (S fuel) (String dquote ?x)) with
   (match parse_str x with
    | None => None
    | Some (k, r1) =>
      match expect ":" (skip_ws r1) with
      | None => None
      | Some r2 =>
          match parse_value fuel r2 with
          | None => None
          | Some (v, r3) =>
              match skip_ws r3 with
              | String c r' =>
                  if Ascii.eqb c "," then
                    match parse_members fuel r' with
                    | Some (l, r'') => Some ((k, v) :: l, r'')
                    | None => None
                    end
                  else if Ascii.eqb c "}" then Some ([(k, v)], r') else None
              | EmptyString => None
              end
          end
      end end).
  rewrite parse_str_escape. change (skip_ws (":" +:+ ?x)) with (":" +:+ x). rewrite expect_app, Hv.
  destruct (skip_ws t) as [|c r']; [done |].
  destruct (Ascii.eqb c ","); [by rewrite Hrest |]. destruct (Ascii.eqb c "}"); [| done].
  by destruct Hrest as [-> ->].
Qed.

Lemma parse_members_print l : l <> [] -> Forall (fun m => reads_back m.2) l -> forall fuel rest,
  (String.length (GoStrings.join "," (map member_text l)) < fuel)%nat ->
  parse_members fuel (GoStrings.join "," (map member_text l) +:+ String "}" rest) = Some (l, rest).
Proof.
  assert (Hlen : forall k v, (String.length (print v) < String.length (member_text (k, v)))%nat).
  { intros k v. unfold member_text. rewrite !length_string_app. simpl. lia. }
  induction l as [|[k v] [|w l] IH]; [done | |]; intros _ Hl [|fuel] rest Hf; try lia;
    apply Forall_cons in Hl as [Hv Hl]; cbn [snd] in Hv; cbn [map] in *; specialize (Hlen k v).
  - change (GoStrings.join "," [?x]) with x in *. unfold member_text at 1. cbn [fst snd].
    rewrite !app_assoc_string. apply (parse_member _ _ _ _ (String "}" rest)); [| done].
    apply (proj2 Hv); [lia | done].
  - rewrite join_cons2 in *. rewrite !length_string_app in Hf. change (String.length ",") with 1%nat in Hf.
    rewrite app_assoc_string. unfold member_text at 1. cbn [fst snd]. rewrite !app_assoc_string.
    eapply parse_member; [apply (proj2 Hv); [lia | done] |].
    change (skip_ws ("," +:+ ?x)) with (String "," x). apply IH; [done | done |]. lia.
Qed.

Lemma reads_back_obj ms : Forall (fun m => reads_back m.2) ms -> reads_back (JObj ms).
Proof.
  intros Hl. split; [exists "{"%char; eexists; by split; [reflexivity |] |].
  intros [|fuel] rest Hf _; [simpl in Hf; lia |]. cbn [print] in *.
  change (fun m => quote m.1 +:+ ":" +:+ print m.2) with member_text in *.
  rewrite !length_string_app in Hf. rewrite !app_assoc_string.
  change ("{" +:+ ?x) with (String "{" x). change ("}" +:+ ?x) with (String "}" x).
  change (parse_value (S fuel) (String "{" ?x)) with
    (match expect "}" (skip_ws x) with
     | Some r' => Some (JObj [], r')
     | None => match parse_members fuel x with Some (l, r') => Some (JObj l, r') | None => None end
     end).
  destruct ms as [|[k v] l].
  { change (skip_ws ?x) with ("}" +:+ rest). by rewrite expect_app. }
  assert (Hex : expect "}" (skip_ws (GoStrings.join "," (map member_text ((k, v) :: l)) +:+ String "}" rest)) = None).
  { assert (E : exists t, GoStrings.join "," (map member_text ((k, v) :: l)) = String dquote t).
    { destruct l as [|w l]; cbn [map]; [| rewrite join_cons2]; unfold member_text; cbn [fst snd];
        rewrite ?app_assoc_string, quote_app; by eexists. }
    destruct E as [t ->]. done. }
  rewrite Hex, parse_members_print; [done | done | done |].
  change (String.length "{") with 1%nat in Hf. change (String.length "}") with 1%nat in Hf. lia.
Qed.

Create HintDb json.
#[export] Hint Resolve reads_back_num reads_back_str reads_back_bool reads_back_arr reads_back_obj : json.

Lemma parse_print v : reads_back v -> parse (print v) = Some v.
Proof.
  intros [_ Hv]. unfold parse. rewrite <- (app_empty_r (print v)) at 2.
  rewrite Hv by (done || lia). done.
Qed.

(** ** Decoding into Go values

    A field keeps its value when the text says null; a value of another type is an
    error.  (Go goes on with the other fields after such an error and returns the
    value with the error; the program drops the value then.) *)

Definition decode_int (old : Z) (v : json) : option Z :=
  match v with JNull => Some old | JNum l => ParseInt l | _ => None end.
Definition decode_string (old : string) (v : json) : option string :=
  match v with JNull => Some old | JStr s => Some s | _ => None end.
Definition decode_bool (old : bool) (v : json) : option bool :=
  match v with JNull => Some old | JBool b => Some b | _ => None end.

(** The elements of an array, decoded over those the slice has already. *)
Fixpoint decode_elems {A} (f : A -> json -> option A) (zero : A) (old : list A) (l : list json) : option (list A) :=
  match l with
  | [] => Some []
  | v :: l' =>
      match f (default zero (head old)) v, decode_elems f zero (tail old) l' with
      | Some a, Some r => Some (a :: r)
      | _, _ => None
      end
  end.
Definition decode_slice {A} (f : A -> json -> option A) (zero : A) (old : list A) (v : json) : option (list A) :=
  match v with JNull => Some [] | JArr l => decode_elems f zero old l | _ => None end.

(** A record: [set] decodes one member, and ignores unknown names. *)
Definition decode_record {R} (set : string -> json -> R -> option R) (old : R) (v : json) : option R :=
  match v with
  | JNull => Some old
  | JObj ms => foldl (fun r m => match r with Some r => set m.1 m.2 r | None => None end) (Some old) ms
  | _ => None
  end.

Definition is_field (name key : string) : bool := String.eqb (ToLower name) (ToLower key).

Definition json_error : error := Errorf "json: cannot unmarshal".

(** [json.Unmarshal(data, &x)] with [x] zero. *)
Definition Unmarshal {R} (decode : json -> option R) (data : string) : outcome R :=
  match parse data with
  | Some v => match decode v with Some r => Ok r | None => Fail json_error end
  | None => Fail json_error
  end.


Lemma decode_elems_map {A} (f : A -> json -> option A) zero (enc : A -> json) l :
  Forall (fun a => f zero (enc a) = Some a) l -> decode_elems f zero [] (map enc l) = Some l.
Proof. induction 1 as [|a l Ha _ IH]; [done |]. simpl. by rewrite Ha, IH. Qed.
