(* ===== verification/Annotations.v ===== *)
(** * What the plugin keeps in annotations: pkg/hostpathclient/{const,node,persistentVolume}.go

    The usage of a node's disks and of a volume is stored as JSON in base64, the
    disabled disks as a comma-separated list in base64, the node of a volume as it
    is.  Annotations are written with JSON patches, whose text the plugin prints
    with [fmt.Sprintf]. *)

From S2P Require Import Prelude GoStrings HostPathApi Base64 Json.
From stdpp Require Import pretty.
Open Scope Z_scope.
Open Scope go_scope.

(** ** const.go *)

Definition HostPathCsiDriverName : string := "xfsquota.hostpath.csi".
Definition HostPathPvNodeLabelKey : string := "node-role.kubernetes.io/hostpath".
Definition NodeDiskQuotaInfoAnn : string := "storage.hostpathpv.kubelet/quota-disk-info".
Definition NodeDiskQuotaDisabledDisksAnn : string := "storage.hostpathpv.kubelet/disable-disks".
Definition HostPathPVUsageInfoAnn : string := "storage.hostpathpv.volume/allocate".
Definition HostPathPvBindInfoAnn : string := "storage.hostpathpv.volume/bind-node".

(** ** The usage records as JSON *)

Definition json_int (z : Z) : json := JNum (pretty z).

Definition pv_usage_json (u : PVUsageInfo) : json :=
  JObj [("NodeName", JStr (pvu_NodeName u)); ("Path", JStr (pvu_Path u));
        ("Capacity", json_int (pvu_Capacity u)); ("Used", json_int (pvu_Used u))].

Definition set_pv_usage (k : string) (v : json) (u : PVUsageInfo) : option PVUsageInfo :=
  let '(mkPVUsageInfo n p c d) := u in
  if is_field "NodeName" k then n ← decode_string n v; Some (mkPVUsageInfo n p c d)
  else if is_field "Path" k then p ← decode_string p v; Some (mkPVUsageInfo n p c d)
  else if is_field "Capacity" k then c ← decode_int c v; Some (mkPVUsageInfo n p c d)
  else if is_field "Used" k then d ← decode_int d v; Some (mkPVUsageInfo n p c d)
  else Some u.

Definition no_pv_usage : PVUsageInfo := mkPVUsageInfo "" "" 0 0.
Definition read_pv_usage : json -> option PVUsageInfo := decode_record set_pv_usage no_pv_usage.

Definition disk_json (d : DiskInfo) : json :=
  JObj [("MountPoint", JStr (di_MountPoint d)); ("Capacity", json_int (di_Capacity d));
        ("QuotaSize", json_int (di_QuotaSize d)); ("Used", json_int (di_Used d));
        ("Allocatable", json_int (di_Allocatable d)); ("Disabled", JBool (di_Disabled d))].

Definition set_disk (k : string) (v : json) (d : DiskInfo) : option DiskInfo :=
  let '(mkDiskInfo m c q u a x) := d in
  if is_field "MountPoint" k then m ← decode_string m v; Some (mkDiskInfo m c q u a x)
  else if is_field "Capacity" k then c ← decode_int c v; Some (mkDiskInfo m c q u a x)
  else if is_field "QuotaSize" k then q ← decode_int q v; Some (mkDiskInfo m c q u a x)
  else if is_field "Used" k then u ← decode_int u v; Some (mkDiskInfo m c q u a x)
  else if is_field "Allocatable" k then a ← decode_int a v; Some (mkDiskInfo m c q u a x)
  else if is_field "Disabled" k then x ← decode_bool x v; Some (mkDiskInfo m c q u a x)
  else Some d.

Definition no_disk_info : DiskInfo := mkDiskInfo "" 0 0 0 0 false.

(** The disks are a slice made with [make], which is printed as an array also when
    it is empty. *)
Definition node_usage_json (n : NodeUsageInfo) : json :=
  JObj [("Capacity", json_int (nu_Capacity n)); ("QuotaSize", json_int (nu_QuotaSize n));
        ("Used", json_int (nu_Used n)); ("AvailableSize", json_int (nu_AvailableSize n));
        ("Allocatable", json_int (nu_Allocatable n)); ("DiskStatus", JArr (map disk_json (nu_DiskStatus n)))].

Definition set_node_usage (k : string) (v : json) (n : NodeUsageInfo) : option NodeUsageInfo :=
  let '(mkNodeUsageInfo c q u s a d) := n in
  if is_field "Capacity" k then c ← decode_int c v; Some (mkNodeUsageInfo c q u s a d)
  else if is_field "QuotaSize" k then q ← decode_int q v; Some (mkNodeUsageInfo c q u s a d)
  else if is_field "Used" k then u ← decode_int u v; Some (mkNodeUsageInfo c q u s a d)
  else if is_field "AvailableSize" k then s ← decode_int s v; Some (mkNodeUsageInfo c q u s a d)
  else if is_field "Allocatable" k then a ← decode_int a v; Some (mkNodeUsageInfo c q u s a d)
  else if is_field "DiskStatus" k then
    d ← decode_slice (decode_record set_disk) no_disk_info d v; Some (mkNodeUsageInfo c q u s a d)
  else Some n.

Definition read_node_usage : json -> option NodeUsageInfo := decode_record set_node_usage empty_usage.

Definition annotation (key : string) (anns : gmap string string) : string := default "" (anns !! key).

(** [getHostPathPVUsageInfo] and [getNodeHostPathUsageInfo] on the annotations *)
Definition getHostPathPVUsageInfo (anns : gmap string string) : outcome PVUsageInfo :=
  let text := annotation HostPathPVUsageInfoAnn anns in
  if go_len text >? 0 then
    let '(decoded, err) := b64_decode text in
    match err with
    | Some err => Fail err
    | None => Unmarshal read_pv_usage decoded
    end
  else Ok no_pv_usage.

Definition getNodeHostPathUsageInfo (anns : gmap string string) : outcome NodeUsageInfo :=
  let text := annotation NodeDiskQuotaInfoAnn anns in
  if go_len text >? 0 then
    let '(decoded, err) := b64_decode text in
    match err with
    | Some err => Fail err
    | None => Unmarshal read_node_usage decoded
    end
  else Ok empty_usage.

(** The error of the decoding is only tested in order to log, and the other way
    round; what could be decoded is used. *)
Definition getNodeHostPathDisabledDisks (anns : gmap string string) : gset string :=
  let text := annotation NodeDiskQuotaDisabledDisksAnn anns in
  if go_len text >? 0 then list_to_set (split_on ","%char (fst (b64_decode text))) else ∅.

(** ** The patches *)

(** [rfc6901Encoder.Replace] *)
Fixpoint rfc6901Encode (s : string) : string :=
  match s with
  | EmptyString => EmptyString
  | String c s' =>
      if Ascii.eqb c "~" then String "~" (String "0" (rfc6901Encode s'))
      else if Ascii.eqb c slash then String "~" (String "1" (rfc6901Encode s'))
      else String c (rfc6901Encode s')
  end.

(** A text between quotes, as it is. *)
Definition between_quotes (s : string) : string := String dquote (s +:+ String dquote "").

Definition annotation_patch (key value : string) : string :=
  "[{" +:+
  between_quotes "op" +:+ ":" +:+ between_quotes "add" +:+
  "," +:+ between_quotes "path" +:+ ":" +:+ between_quotes ("/metadata/annotations/" +:+ rfc6901Encode key) +:+
  "," +:+ between_quotes "value" +:+ ": " +:+ between_quotes value +:+
  "}]".

Definition getHostPathPVBindNodePatchBytes (nodeName : string) : string :=
  annotation_patch HostPathPvBindInfoAnn nodeName.

Definition getHostPathPVUsageInfoPatchBytes (hpv : PersistentVolume) : string :=
  let usageInfo := mkPVUsageInfo (pv_bindNode hpv) (pv_volumePath hpv) (pv_capacity hpv) (i64 (GetUsage hpv)) in
  annotation_patch HostPathPVUsageInfoAnn (b64_encode (print (pv_usage_json usageInfo))).

Definition getNodeHostPathUsageInfoPatchBytes (nodeUsage : NodeUsageInfo) : string :=
  annotation_patch NodeDiskQuotaInfoAnn (b64_encode (print (node_usage_json nodeUsage))).

(** The disks once [diskPath] is enabled or disabled. *)
Definition change_disks (anns : gmap string string) (diskPath : string) (enable : bool) : gset string :=
  let disks := getNodeHostPathDisabledDisks anns in
  if enable then disks ∖ {[ diskPath ]} else {[ diskPath ]} ∪ disks.

(** [order] is the order in which the loop over the map visits the disks. *)
Definition getNodeHostPathDisabledDisksPatchBytes (order : gset string -> list string)
    (anns : gmap string string) (diskPath : string) (enable : bool) : string :=
  let diskSlice := order (change_disks anns diskPath enable) in
  annotation_patch NodeDiskQuotaDisabledDisksAnn (b64_encode (GoStrings.join "," diskSlice)).

(** ** How the API server reads a patch (RFC 6902 and RFC 6901) *)

Fixpoint rfc6901Decode (s : string) : string :=
  match s with
  | String c (String d s' as t) =>
      if Ascii.eqb c "~" then
        if Ascii.eqb d "0" then String "~" (rfc6901Decode s')
        else if Ascii.eqb d "1" then String slash (rfc6901Decode s')
        else String c (rfc6901Decode t)
      else String c (rfc6901Decode t)
  | _ => s
  end.

Definition member (k : string) (ms : list (string * json)) : option json :=
  snd <$> List.find (fun m => String.eqb k m.1) ms.

Definition annotations_path : string := "/metadata/annotations/".

(** The annotations after a patch that adds one; [None]: the patch is no such
    patch, or it is refused because the object has no annotations yet. *)
Definition apply_patch (patch : string) (anns : option (gmap string string)) : option (gmap string string) :=
  match parse patch, anns with
  | Some (JArr [JObj ms]), Some m =>
      match member "op" ms, member "path" ms, member "value" ms with
      | Some (JStr op), Some (JStr path), Some (JStr value) =>
          if String.eqb op "add" then
            key ← expect annotations_path path;
            Some (<[rfc6901Decode key := value]> m)
          else None
      | _, _, _ => None
      end
  | _, _ => None
  end.

(** ** Reading annotations back *)

(** A character that is printed as it is, by [quote] and between quotes. *)
Definition plain_char (c : ascii) : bool :=
  negb (bool_decide (c ∈ [dquote; backslash; "<"; ">"; "&"]%char)) && (32 <=? byte_val c).

Fixpoint plain (s : string) : bool :=
  match s with
  | EmptyString => true
  | String c s' => plain_char c && plain s'
  end.

Lemma plain_app s t : plain (s +:+ t) = plain s && plain t.
Proof. induction s as [|c s IH]; [done |]. rewrite append_cons. simpl. by rewrite IH, andb_assoc. Qed.

Lemma escape_plain s rest : plain s = true -> escape s rest = s +:+ String dquote rest.
Proof.
  induction s as [|c s IH]; [done |]. simpl. intros [Hc Hs]%andb_true_iff.
  unfold plain_char in Hc. apply andb_true_iff in Hc as [Hc H32].
  apply negb_true_iff, bool_decide_eq_false in Hc. apply Z.leb_le in H32.
  assert (E : forall d, d ∈ [dquote; backslash; "<"; ">"; "&"]%char -> Ascii.eqb c d = false).
  { intros d Hd. apply Ascii.eqb_neq. by intros ->. }
  unfold escape_char. rewrite !E by set_solver.
  destruct (Z.eqb_spec (byte_val c) 10), (Z.eqb_spec (byte_val c) 13), (Z.eqb_spec (byte_val c) 9),
    (Z.ltb_spec (byte_val c) 32); try lia.
  rewrite append_cons. simpl. by rewrite IH.
Qed.

Lemma between_quotes_plain s : plain s = true -> between_quotes s = quote s.
Proof. intros Hs. unfold between_quotes, quote. by rewrite escape_plain. Qed.

Lemma rfc6901_decode_encode s : rfc6901Decode (rfc6901Encode s) = s.
Proof.
  induction s as [|c s IH]; [done |]. cbn [rfc6901Encode].
  destruct (Ascii.eqb c "~") eqn:E1; [apply Ascii.eqb_eq in E1 as ->; simpl; by rewrite IH |].
  destruct (Ascii.eqb c slash) eqn:E2; [apply Ascii.eqb_eq in E2 as ->; simpl; by rewrite IH |].
  destruct (rfc6901Encode s) as [|d t] eqn:Es.
  - simpl in IH. by subst s.
  - transitivity (String c (rfc6901Decode (String d t))); [cbn; by rewrite E1 | by rewrite IH].
Qed.

Lemma rfc6901Encode_plain s : plain s = true -> plain (rfc6901Encode s) = true.
Proof.
  induction s as [|c s IH]; [done |]. simpl. intros [Hc Hs]%andb_true_iff.
  destruct (Ascii.eqb c "~"); [simpl; by rewrite IH |].
  destruct (Ascii.eqb c slash); simpl; by rewrite ?Hc, IH.
Qed.

Lemma parse_annotation_patch key value :
  plain key = true -> plain value = true ->
  parse (annotation_patch key value) =
  Some (JArr [JObj [("op", JStr "add"); ("path", JStr (annotations_path +:+ rfc6901Encode key)); ("value", JStr value)]]).
Proof.
  intros Hk Hv. unfold annotation_patch.
  rewrite !between_quotes_plain by (rewrite ?plain_app, ?rfc6901Encode_plain; done).
  change "/metadata/annotations/" with annotations_path. set (path := annotations_path +:+ _).
  assert (Hval : forall fuel x rest, parse_value (S fuel) (quote x +:+ rest) = Some (JStr x, rest)).
  { intros fuel x rest. rewrite quote_app.
    change (parse_value (S fuel) (String dquote (escape x rest))) with
      (match parse_str (escape x rest) with Some (x, r') => Some (JStr x, r') | None => None end).
    by rewrite parse_str_escape. }
  set (t3 := quote "value" +:+ ": " +:+ quote value +:+ "}]").
  set (t2 := quote "path" +:+ ":" +:+ quote path +:+ "," +:+ t3).
  set (t1 := quote "op" +:+ ":" +:+ quote "add" +:+ "," +:+ t2).
  assert (Hms : forall fuel, parse_members (S (S (S (S fuel)))) t1 =
    Some ([("op", JStr "add"); ("path", JStr path); ("value", JStr value)], "]")).
  { intros fuel. eapply parse_member; [apply Hval |]. change (skip_ws ("," +:+ ?x)) with (String "," x). cbv iota.
    eapply parse_member; [apply Hval |]. change (skip_ws ("," +:+ ?x)) with (String "," x). cbv iota.
    unfold t3. change (": " +:+ ?x) with (":" +:+ String " " x). eapply (parse_member _ _ _ _ "}]"); [| by split].
    change (parse_value (S fuel) (String " " ?x)) with (parse_value (S fuel) x). apply Hval. }
  assert (Hlen : exists f, String.length ("[{" +:+ t1) = S (S (S (S (S (S f)))))).
  { exists (String.length ("[{" +:+ t1) - 6)%nat. unfold t1. rewrite !length_string_app.
    change (String.length "[{") with 2%nat. change (String.length (quote "op")) with 4%nat. lia. }
  unfold parse. destruct Hlen as [f ->].
  assert (Ht1 : exists r, t1 = String dquote r) by (unfold t1; rewrite quote_app; by eexists).
  destruct Ht1 as [r Hr]. rewrite Hr in *.
  assert (Hobj : parse_value (S (S (S (S (S f))))) (String "{" (String dquote r)) =
    Some (JObj [("op", JStr "add"); ("path", JStr path); ("value", JStr value)], "]")).
  { change (parse_value (S (S (S (S (S f))))) (String "{" (String dquote r))) with
      (match parse_members (S (S (S (S f)))) (String dquote r) with Some (l, r') => Some (JObj l, r') | None => None end).
    by rewrite Hms. }
  change (parse_value ?n ("[{" +:+ String dquote r)) with
    (match parse_elems (S (S (S (S (S (S f)))))) (String "{" (String dquote r)) with
     | Some (l, r') => Some (JArr l, r') | None => None end).
  change (parse_elems ?n (String "{" (String dquote r))) with
    (match parse_value (S (S (S (S (S f))))) (String "{" (String dquote r)) with
     | None => None
     | Some (v, r) =>
         match skip_ws r with
         | String c r' =>
             if Ascii.eqb c "," then
               match parse_elems (S (S (S (S (S f))))) r' with Some (l, r'') => Some (v :: l, r'') | None => None end
             else if Ascii.eqb c "]" then Some ([v], r') else None
         | EmptyString => None
         end
     end).
  by rewrite Hobj.
Qed.

(** A patch for one annotation, as the server reads it. *)
Lemma apply_annotation_patch key value m :
  plain key = true -> plain value = true ->
  apply_patch (annotation_patch key value) (Some m) = Some (<[key := value]> m).
Proof.
  intros Hk Hv. unfold apply_patch. rewrite parse_annotation_patch by done.
  simpl. rewrite expect_app. simpl. by rewrite rfc6901_decode_encode.
Qed.

Lemma b64_encode_plain s : plain (b64_encode s) = true.
Proof.
  assert (Hc : forall d, 0 <= d < 64 -> plain_char (b64_char d) = true).
  { intros d Hd. unfold plain_char. pose proof (b64_char_val d Hd) as E.
    apply andb_true_iff. split.
    - apply negb_true_iff, bool_decide_eq_false. intros Hin.
      assert (Hval : byte_val (b64_char d) ∈ [34; 92; 60; 62; 38]).
      { set_unfold in Hin. destruct Hin as [Hin|[Hin|[Hin|[Hin|[Hin|[]]]]]]; rewrite Hin; vm_compute; set_solver. }
      rewrite E in Hval. set_unfold in Hval.
      destruct (Z.ltb_spec d 26), (Z.ltb_spec d 52), (Z.ltb_spec d 62), (Z.eqb_spec d 62); lia.
    - apply Z.leb_le. rewrite E.
      destruct (Z.ltb_spec d 26), (Z.ltb_spec d 52), (Z.ltb_spec d 62), (Z.eqb_spec d 62); lia. }
  induction s as [| a | a b | a b c s IH] using string_ind3; [done | | |]; cbn [b64_encode plain];
    rewrite !Hc by b64_range; done.
Qed.

Lemma b64_encode_nonempty s : s <> "" -> (go_len (b64_encode s) >? 0) = true.
Proof. destruct s as [|a [|b [|c s]]]; done. Qed.

Definition pv_usage_ok (u : PVUsageInfo) : Prop := in_i64 (pvu_Capacity u) /\ in_i64 (pvu_Used u).
Definition disk_ok (d : DiskInfo) : Prop :=
  in_i64 (di_Capacity d) /\ in_i64 (di_QuotaSize d) /\ in_i64 (di_Used d) /\ in_i64 (di_Allocatable d).
Definition node_usage_ok (n : NodeUsageInfo) : Prop :=
  in_i64 (nu_Capacity n) /\ in_i64 (nu_QuotaSize n) /\ in_i64 (nu_Used n) /\ in_i64 (nu_AvailableSize n) /\
  in_i64 (nu_Allocatable n) /\ Forall disk_ok (nu_DiskStatus n).

Lemma json_int_reads z : reads_back (json_int z).
Proof. apply reads_back_num. Qed.
#[export] Hint Resolve json_int_reads : json.

Ltac json_fields := apply reads_back_obj; repeat apply Forall_cons_2; try apply Forall_nil_2; simpl; auto with json.

Lemma disk_json_reads d : reads_back (disk_json d).
Proof. json_fields. Qed.

Ltac decode_fields := repeat (simpl; rewrite ParseInt_pretty by done); simpl.

Lemma disk_json_decode d : disk_ok d -> decode_record set_disk no_disk_info (disk_json d) = Some d.
Proof.
  destruct d as [m c q u a x]. intros (H1 & H2 & H3 & H4). simpl in *. unfold json_int.
  by decode_fields.
Qed.

Lemma read_pv_usage_annotation u anns :
  pv_usage_ok u ->
  anns !! HostPathPVUsageInfoAnn = Some (b64_encode (print (pv_usage_json u))) ->
  getHostPathPVUsageInfo anns = Ok u.
Proof.
  intros [Hc Hu] Ha. unfold getHostPathPVUsageInfo, annotation. rewrite Ha. change (default "" (Some ?x)) with x.
  rewrite b64_encode_nonempty, b64_decode_encode by done. unfold Unmarshal.
  rewrite parse_print by json_fields.
  clear Ha. destruct u as [n p c d]. simpl in *. unfold json_int. by decode_fields.
Qed.

Lemma read_node_usage_annotation n anns :
  node_usage_ok n ->
  anns !! NodeDiskQuotaInfoAnn = Some (b64_encode (print (node_usage_json n))) ->
  getNodeHostPathUsageInfo anns = Ok n.
Proof.
  intros (Hc & Hq & Hu & Hs & Hal & Hd) Ha. unfold getNodeHostPathUsageInfo, annotation. rewrite Ha. change (default "" (Some ?x)) with x.
  rewrite b64_encode_nonempty, b64_decode_encode by done. unfold Unmarshal.
  rewrite parse_print.
  2: { json_fields. apply reads_back_arr.
       apply List.Forall_map, List.Forall_forall. intros d _. apply disk_json_reads. }
  clear Ha.
  destruct n as [c q u s a d]. simpl in *. unfold json_int. decode_fields.
  rewrite decode_elems_map; [done |]. by apply (Forall_impl _ _ _ Hd), disk_json_decode.
Qed.

(** *** The disabled disks *)

Definition comma : ascii := ","%char.

Lemma split_no_char c s : Forall (no_char c) (split_on c s).
Proof.
  induction s as [|d s IH]; simpl; [by repeat constructor |].
  destruct (Ascii.eqb_spec d c); [by constructor |].
  destruct (split_on c s) as [|t ts]; [by repeat constructor |].
  apply Forall_cons in IH as [Ht Hts]. by constructor.
Qed.

Lemma split_join_commas es : es <> [] -> Forall (no_char comma) es -> split_on comma (GoStrings.join "," es) = es.
Proof.
  intros Hne Hall. induction Hall as [|e es He Hes IH]; [done |].
  destruct es as [|e' es]; [by apply split_on_no_char |].
  change (GoStrings.join "," (e :: e' :: es)) with (e +:+ String comma (GoStrings.join "," (e' :: es))).
  rewrite split_on_app by done. by rewrite IH.
Qed.

Lemma join_empty es : GoStrings.join "," es = "" -> es = [] \/ es = [""].
Proof.
  destruct es as [|e [|e' es]]; [by left | |].
  - change (GoStrings.join "," [e]) with e. intros ->. by right.
  - rewrite join_cons2. by destruct e.
Qed.

Lemma read_disabled_annotation es anns :
  es <> [""] -> Forall (no_char comma) es ->
  anns !! NodeDiskQuotaDisabledDisksAnn = Some (b64_encode (GoStrings.join "," es)) ->
  getNodeHostPathDisabledDisks anns = list_to_set es.
Proof.
  intros Hne Hes Ha. unfold getNodeHostPathDisabledDisks, annotation. rewrite Ha.
  change (default "" (Some ?x)) with x.
  destruct (decide (es = [])) as [-> | Hnil]; [done |].
  rewrite b64_encode_nonempty by (intros [|]%join_empty; done).
  rewrite b64_decode_encode. change (fst (?x, ?y)) with x. by rewrite split_join_commas.
Qed.

Lemma disabled_no_comma anns : set_Forall (no_char comma) (getNodeHostPathDisabledDisks anns).
Proof.
  unfold getNodeHostPathDisabledDisks. destruct (_ >? 0); [| set_solver].
  intros d Hd%elem_of_list_to_set. pose proof (split_no_char comma (b64_decode (annotation NodeDiskQuotaDisabledDisksAnn anns)).1) as H.
  rewrite Forall_forall in H. by apply H.
Qed.
