(* ===== verification/HostPathClient.v ===== *)
(** * The cluster client: pkg/hostpathclient/{client,node,persistentVolume,pod}.go

    The conversions from API objects to the plugin's own, and the client that reads
    nodes and volumes from the API server and patches their annotations.  The
    server is the class [KubeApi]; its laws say how a JSON patch acts. *)

From S2P Require Import Prelude GoStrings VolId Os HostPathApi Base64 Json Annotations.
Open Scope Z_scope.
Open Scope go_scope.

(** ** API objects, with the fields that the plugin reads *)

Record ObjectMeta := mkObjectMeta {
  om_Name : string;
  om_Namespace : string;
  om_UID : string;
  om_ResourceVersion : string;
  om_Labels : gmap string string;
  om_Annotations : option (gmap string string)
}.
Definition om_anns (m : ObjectMeta) : gmap string string := default ∅ (om_Annotations m).
Definition with_annotations (a : gmap string string) (version : string) (m : ObjectMeta) : ObjectMeta :=
  mkObjectMeta (om_Name m) (om_Namespace m) (om_UID m) version (om_Labels m) (Some a).

Record ObjectReference := mkObjectReference { or_Name : string; or_Namespace : string }.
Record CSIPersistentVolumeSource := mkCSISource { csi_Driver : string; csi_VolumeHandle : string }.
Inductive PersistentVolumePhase := VolumePending | VolumeAvailable | VolumeBound | VolumeReleased | VolumeFailed.
#[export] Instance phase_eq_dec : EqDecision PersistentVolumePhase.
Proof. solve_decision. Defined.

(** [cpv_storage]: [Quantity.Value] of the storage capacity *)
Record CorePV := mkCorePV {
  cpv_meta : ObjectMeta;
  cpv_ClaimRef : option ObjectReference;
  cpv_CSI : option CSIPersistentVolumeSource;
  cpv_storage : Z;
  cpv_Phase : PersistentVolumePhase
}.

Record NodeCondition := mkNodeCondition { nc_Type : string; nc_Status : string }.
Record CoreNode := mkCoreNode { cn_meta : ObjectMeta; cn_Conditions : list NodeCondition }.

(** [cpod_claims]: per volume, the name of its claim if it has one *)
Record CorePod := mkCorePod { cpod_meta : ObjectMeta; cpod_claims : list (option string) }.

(** ** Conversions *)

Definition PersistentVolumeKey (claimName claimNamespace : string) : string :=
  claimNamespace +:+ "/" +:+ claimName.

Definition isHostPathPV (pv : CorePV) : bool :=
  match cpv_CSI pv with
  | Some csi => bool_decide (csi_Driver csi = HostPathCsiDriverName)
  | None => false
  end.

Definition isEphemeral (handle : string) : bool :=
  match DecomposeCSIID handle (mkCSIIdentifier 0 false "") with
  | (Ok _, vi) => Ephemeral vi
  | _ => false
  end.

Definition getHostPathPVBindNode (pv : CorePV) : string := annotation HostPathPvBindInfoAnn (om_anns (cpv_meta pv)).

(** A volume without a claim or without a CSI source is dereferenced all the same. *)
Definition ToHostPathVolume (pv : CorePV) : outcome PersistentVolume :=
  match cpv_ClaimRef pv, cpv_CSI pv with
  | Some claim, Some csi =>
      let m := cpv_meta pv in
      let index := PersistentVolumeKey (or_Name claim) (or_Namespace claim) in
      if isHostPathPV pv then
        let '(path, used) := match getHostPathPVUsageInfo (om_anns m) with
                             | Ok u => (pvu_Path u, pvu_Used u)
                             | _ => ("", 0)
                             end in
        Ok (mkPersistentVolume (om_ResourceVersion m) (om_Name m) (om_Namespace m) index (csi_VolumeHandle csi) true
              (getHostPathPVBindNode pv) (isEphemeral (csi_VolumeHandle csi)) (cpv_storage pv) path used)
      else
        Ok (mkPersistentVolume (om_ResourceVersion m) (om_Name m) (om_Namespace m) index (csi_VolumeHandle csi) false
              "" false 0 "" 0)
  | _, _ => Panic "invalid memory address or nil pointer dereference"
  end.

(** [toPersistentVolume], which also empties the object it is given, and
    [ToPersistentVolume]. *)
Definition toPersistentVolume (pv : CorePV) : outcome PersistentVolume := ToHostPathVolume pv.

Definition ToPersistentVolume (pv : CorePV) : outcome PersistentVolume :=
  if decide (cpv_Phase pv <> VolumeBound)
  then Fail (Errorf ("persistentVolume " +:+ om_Name (cpv_meta pv) +:+ " is not bound,skip"))
  else toPersistentVolume pv.

Definition IsHostPathNode (node : CoreNode) : bool :=
  bool_decide (is_Some (om_Labels (cn_meta node) !! HostPathPvNodeLabelKey)).

Definition getNodeReadyStatus (conditions : list NodeCondition) : string :=
  match List.find (fun c => String.eqb (nc_Type c) "Ready") conditions with
  | Some c => if decide (nc_Status c = "True") then "Ready" else "unReady"
  | None => "unReady"
  end.

(** The part that both conversions of a node share. *)
Definition node_with_ready (node : CoreNode) (ready : string) : Node :=
  let m := cn_meta node in
  let '(usage, disks) :=
    if IsHostPathNode node
    then (match getNodeHostPathUsageInfo (om_anns m) with Ok u => u | _ => empty_usage end,
          getNodeHostPathDisabledDisks (om_anns m))
    else (empty_usage, ∅) in
  mkNode (om_ResourceVersion m) (om_Name m) (om_Namespace m) (IsHostPathNode node) usage disks ready.

Definition toHostPathNode (node : CoreNode) : Node := node_with_ready node "".
Definition ToHostPathNode (node : CoreNode) : Node := node_with_ready node (getNodeReadyStatus (cn_Conditions node)).

(** pod.go *)
Record Pod := mkPod {
  pod_UID : string;
  pod_version : string;
  pod_name : string;
  pod_namespace : string;
  pod_pvClaims : list string
}.

Definition toPod (pod : CorePod) : Pod :=
  let m := cpod_meta pod in
  mkPod (om_UID m) (om_ResourceVersion m) (om_Name m) (om_Namespace m) (omap id (cpod_claims pod)).

(** The copies drop fields. *)
Definition pv_DeepCopyObject (p : PersistentVolume) : PersistentVolume :=
  mkPersistentVolume (pv_version p) (pv_name p) (pv_namespace p) (pv_index p) (pv_volId p) false
    (pv_bindNode p) (pv_ephemeral p) (pv_capacity p) (pv_volumePath p) (pv_usage p).
Definition node_DeepCopyObject (h : Node) : Node :=
  mkNode (nd_version h) (nd_name h) (nd_namespace h) false (nd_diskUsage h) ∅ "".
Definition pod_DeepCopyObject (p : Pod) : Pod :=
  mkPod "" (pod_version p) (pod_name p) (pod_namespace p) (pod_pvClaims p).

(** ** The API server *)

Class KubeApi (W : Type) := {
  pv_Get : string -> W -> CorePV + error;
  pv_Patch : string -> string -> W -> option error * W;
  node_Get : string -> W -> CoreNode + error;
  node_Patch : string -> string -> W -> option error * W;
  (** the [bind] subresource of pods: namespace, name, UID and node *)
  pod_Bind : string -> string -> string -> string -> W -> option error * W;
  (** the order in which [range] visits a map *)
  map_order : gset string -> W -> list string
}.

(** A patch of one annotation that is accepted changes nothing of its object but
    the annotations and the version, and no other volume or node; a refusal has a
    text; binding a pod changes no volume. *)
Definition patches_annotation (patch : string) : Prop := apply_patch patch (Some ∅) <> None.

(** The server has applied the patch to the volume. *)
Definition pv_applied {W : Type} `{KubeApi W} (name patch : string) (w w' : W) : Prop :=
  exists pv anns version,
    pv_Get name w = inl pv /\ apply_patch patch (om_Annotations (cpv_meta pv)) = Some anns /\
    pv_Get name w' = inl (mkCorePV (with_annotations anns version (cpv_meta pv)) (cpv_ClaimRef pv) (cpv_CSI pv)
                           (cpv_storage pv) (cpv_Phase pv)) /\
    (forall other, other <> name -> pv_Get other w' = pv_Get other w) /\
    (forall node, node_Get node w' = node_Get node w).

(** A call that fails may have been applied all the same, when its answer is lost. *)
Class KubeApiLaws (W : Type) `{KubeApi W} := {
  map_order_perm ks w : map_order ks w ≡ₚ elements ks;
  pv_patched name patch w w' : patches_annotation patch -> pv_Patch name patch w = (None, w') -> pv_applied name patch w w';
  pv_patch_failed name patch w e w' : patches_annotation patch -> pv_Patch name patch w = (Some e, w') ->
    (forall pv, pv_Get pv w' = pv_Get pv w) \/ pv_applied name patch w w';
  node_patch_pvs name patch w r w' : node_Patch name patch w = (r, w') -> forall pv, pv_Get pv w' = pv_Get pv w;
  node_patched name patch w w' : patches_annotation patch -> node_Patch name patch w = (None, w') ->
    exists node anns version,
      node_Get name w = inl node /\ apply_patch patch (om_Annotations (cn_meta node)) = Some anns /\
      node_Get name w' = inl (mkCoreNode (with_annotations anns version (cn_meta node)) (cn_Conditions node)) /\
      (forall other, other <> name -> node_Get other w' = node_Get other w) /\
      (forall pv, pv_Get pv w' = pv_Get pv w);
  pv_patch_error name patch w e w' : pv_Patch name patch w = (Some e, w') -> error_text e <> "";
  pod_bound ns name uid node w r w' : pod_Bind ns name uid node w = (r, w') ->
    forall pv, pv_Get pv w' = pv_Get pv w
}.

(** ** client.go *)

Section client.
Context {W : Type} `{KubeApi W}.

Definition hp_GetHostPathPVByVolumeId (volumeId : string) : M W (option PersistentVolume) :=
  match DecomposeCSIID volumeId (mkCSIIdentifier 0 false "") with
  | (Ok _, vi) =>
      let! pv := attempt (sys_read (pv_Get (VolumeName vi))) in
      match pv with
      | inr _ => ret None
      | inl pv => let! hpv := lift (toPersistentVolume pv) in ret (Some hpv)
      end
  | (Fail _, _) => ret None
  | (Panic y, _) => panic y
  end.

Definition hp_GetNodeByName (name : string) : M W Node :=
  let! node := sys_read (node_Get name) in ret (ToHostPathNode node).

Definition hp_UpdateHostPathPVUsageInfo (pvName : string) (hpv : PersistentVolume) : M W unit :=
  sys_write (pv_Patch pvName (getHostPathPVUsageInfoPatchBytes hpv)).

Definition hp_UpdateNodeHostPathPVUsageInfo (nodeName : string) (nodeQuotaInfo : NodeUsageInfo) : M W unit :=
  sys_write (node_Patch nodeName (getNodeHostPathUsageInfoPatchBytes nodeQuotaInfo)).

Definition hp_SetHostPathDiskDisableState (nodeName diskPath : string) (state : bool) : M W unit :=
  let! node := sys_read (node_Get nodeName) in
  let! order := gets (fun w ks => map_order ks w) in
  sys_write (node_Patch nodeName
    (getNodeHostPathDisabledDisksPatchBytes order (om_anns (cn_meta node)) diskPath state)).

#[export] Instance HostPathClient : HostPathClientInterface W := {
  GetHostPathPVByVolumeId := hp_GetHostPathPVByVolumeId;
  GetNodeByName := hp_GetNodeByName;
  UpdateHostPathPVUsageInfo := hp_UpdateHostPathPVUsageInfo;
  UpdateNodeHostPathPVUsageInfo := hp_UpdateNodeHostPathPVUsageInfo;
  SetHostPathDiskDisableState := hp_SetHostPathDiskDisableState
}.
End client.

(** ** What is written is read back *)

Section client_proofs.
Context {W : Type} `{KubeApiLaws W}.

Lemma annotation_patch_ok key value : plain key = true -> plain value = true ->
  patches_annotation (annotation_patch key value).
Proof. intros Hk Hv. unfold patches_annotation. by rewrite apply_annotation_patch. Qed.

Lemma apply_annotation_patch_inv key value anns anns' :
  plain key = true -> plain value = true ->
  apply_patch (annotation_patch key value) anns = Some anns' ->
  anns' = <[key := value]> (default ∅ anns).
Proof.
  intros Hk Hv. destruct anns as [m|].
  - rewrite apply_annotation_patch by done. by intros [= <-].
  - unfold apply_patch. destruct (parse _) as [[]|]; try done. by repeat case_match.
Qed.

(** One annotation of a volume or of a node is written. *)
Lemma pv_annotated name key value w w' :
  plain key = true -> plain value = true -> pv_Patch name (annotation_patch key value) w = (None, w') ->
  exists pv version, pv_Get name w = inl pv /\
    pv_Get name w' = inl (mkCorePV (with_annotations (<[key := value]> (om_anns (cpv_meta pv))) version (cpv_meta pv))
                           (cpv_ClaimRef pv) (cpv_CSI pv) (cpv_storage pv) (cpv_Phase pv)) /\
    (forall other, other <> name -> pv_Get other w' = pv_Get other w).
Proof.
  intros Hk Hv Hp. destruct (pv_patched _ _ _ _ (annotation_patch_ok _ _ Hk Hv) Hp)
    as (pv & anns & version & Hget & Happ & Hget' & Hother & _).
  apply apply_annotation_patch_inv in Happ as ->; [| done | done]. by exists pv, version.
Qed.

Lemma node_annotated name key value w w' :
  plain key = true -> plain value = true -> node_Patch name (annotation_patch key value) w = (None, w') ->
  exists node version, node_Get name w = inl node /\
    node_Get name w' = inl (mkCoreNode (with_annotations (<[key := value]> (om_anns (cn_meta node))) version (cn_meta node))
                             (cn_Conditions node)).
Proof.
  intros Hk Hv Hp. destruct (node_patched _ _ _ _ (annotation_patch_ok _ _ Hk Hv) Hp)
    as (node & anns & version & Hget & Happ & Hget' & _).
  apply apply_annotation_patch_inv in Happ as ->; [| done | done]. by exists node, version.
Qed.

(** The conversion of a volume whose usage annotation was replaced. *)
Lemma ToHostPathVolume_usage pv old anns version u :
  ToHostPathVolume pv = Ok old -> pv_isHostPathPv old = true ->
  getHostPathPVUsageInfo anns = Ok u ->
  annotation HostPathPvBindInfoAnn anns = annotation HostPathPvBindInfoAnn (om_anns (cpv_meta pv)) ->
  ToHostPathVolume (mkCorePV (with_annotations anns version (cpv_meta pv)) (cpv_ClaimRef pv) (cpv_CSI pv)
                      (cpv_storage pv) (cpv_Phase pv)) =
  Ok (mkPersistentVolume version (pv_name old) (pv_namespace old) (pv_index old) (pv_volId old) true
        (pv_bindNode old) (pv_ephemeral old) (pv_capacity old) (pvu_Path u) (pvu_Used u)).
Proof.
  unfold ToHostPathVolume, getHostPathPVBindNode, isHostPathPV.
  cbn [cpv_ClaimRef cpv_CSI cpv_meta cpv_storage].
  change (om_anns (with_annotations anns version ?m)) with anns.
  intros Hold Hhost Hu Hb. destruct (cpv_ClaimRef pv) as [claim|]; [| done].
  destruct (cpv_CSI pv) as [csi|]; [| done].
  rewrite Hu, Hb.
  destruct (bool_decide _); [| by injection Hold as <-].
  destruct (match getHostPathPVUsageInfo _ with Ok _ => _ | _ => _ end) as [path used].
  by injection Hold as <-.
Qed.

(** C21: the usage that the sync worker reports for a volume is what the client reads
    for it afterwards: when the patch is accepted, the path and the usage of the
    volume read from the server are those that were written, and what the server
    held otherwise - the node it is bound to, its capacity - is unchanged.  This
    goes through the JSON text, base64, the patch printed with [Sprintf] and the
    server's reading of it. *)
Theorem pv_usage_reported name hpv w w' volumeId vi :
  hp_UpdateHostPathPVUsageInfo name hpv w = (Ok tt, w') ->
  in_i64 (pv_capacity hpv) -> in_i64 (pv_usage hpv) ->
  DecomposeCSIID volumeId (mkCSIIdentifier 0 false "") = (Ok tt, vi) -> VolumeName vi = name ->
  forall old, hp_GetHostPathPVByVolumeId volumeId w = (Ok (Some old), w) -> pv_isHostPathPv old = true ->
  exists version,
  hp_GetHostPathPVByVolumeId volumeId w' =
    (Ok (Some (mkPersistentVolume version (pv_name old) (pv_namespace old) (pv_index old) (pv_volId old) true
                 (pv_bindNode old) (pv_ephemeral old) (pv_capacity old) (pv_volumePath hpv) (pv_usage hpv))), w').
Proof.
  intros Hup Hcap Huse Hdec Hname old Hget Hhost.
  pose proof (sys_write_Ok _ _ _ Hup) as Hp. unfold getHostPathPVUsageInfoPatchBytes, GetUsage in Hp.
  rewrite i64_u64, i64_small in Hp by done. set (u := mkPVUsageInfo _ _ _ _) in *.
  destruct (pv_annotated _ HostPathPVUsageInfoAnn _ _ _ eq_refl (b64_encode_plain _) Hp) as (pv & version & Hpv & Hpv' & _).
  exists version. unfold hp_GetHostPathPVByVolumeId in *. rewrite Hdec, Hname in *.
  unfold attempt, sys_read, bind, lift, ret, toPersistentVolume in *. rewrite Hpv in Hget.
  destruct (ToHostPathVolume pv) as [old' | | ] eqn:Hold; [| done | done]. injection Hget as ->.
  rewrite Hpv'.
  assert (Hu : getHostPathPVUsageInfo (<[HostPathPVUsageInfoAnn := b64_encode (print (pv_usage_json u))]>
                 (om_anns (cpv_meta pv))) = Ok u).
  { apply read_pv_usage_annotation; [exact (conj Hcap Huse) | apply lookup_insert_eq]. }
  rewrite (ToHostPathVolume_usage _ _ _ version _ Hold Hhost Hu); [done |].
  unfold annotation. by rewrite lookup_insert_ne.
Qed.

(** The node after its usage has been replaced. *)
Lemma node_usage_stored name n w w' node :
  hp_UpdateNodeHostPathPVUsageInfo name n w = (Ok tt, w') ->
  node_usage_ok n -> node_Get name w = inl node -> IsHostPathNode node = true ->
  exists node' version, node_Get name w' = inl node' /\
    ToHostPathNode node' = mkNode version (om_Name (cn_meta node)) (om_Namespace (cn_meta node)) true n
      (nd_disabledDisk (ToHostPathNode node)) (getNodeReadyStatus (cn_Conditions node)).
Proof.
  intros Hup Hn Hget Hhost.
  pose proof (sys_write_Ok _ _ _ Hup) as Hp. unfold getNodeHostPathUsageInfoPatchBytes in Hp.
  destruct (node_annotated _ NodeDiskQuotaInfoAnn _ _ _ eq_refl (b64_encode_plain _) Hp) as (node' & version & Hg & Hg').
  rewrite Hget in Hg. injection Hg as <-. eexists _, version. split; [exact Hg' |].
  unfold ToHostPathNode, node_with_ready.
  assert (Hh : forall c, IsHostPathNode (mkCoreNode (with_annotations c version (cn_meta node)) (cn_Conditions node)) = true)
    by done.
  rewrite Hh, Hhost. cbn [cn_meta cn_Conditions nd_disabledDisk].
  change (om_anns (with_annotations ?c version _)) with c.
  rewrite (read_node_usage_annotation n) by (done || apply lookup_insert_eq).
  unfold getNodeHostPathDisabledDisks, annotation. by rewrite lookup_insert_ne.
Qed.

(** the same for a node: after [UpdateNodeHostPathPVUsageInfo] the node carries
    exactly the reported usage, its list of disks included, and its disabled disks
    are unchanged. *)
Theorem node_usage_reported name n w w' node :
  hp_UpdateNodeHostPathPVUsageInfo name n w = (Ok tt, w') ->
  node_usage_ok n -> node_Get name w = inl node -> IsHostPathNode node = true ->
  exists nd, hp_GetNodeByName name w' = (Ok nd, w') /\ nd_hostPathNode nd = true /\ nd_diskUsage nd = n /\
    nd_disabledDisk nd = nd_disabledDisk (ToHostPathNode node).
Proof.
  intros Hup Hn Hget Hhost. destruct (node_usage_stored _ _ _ _ _ Hup Hn Hget Hhost) as (node' & version & Hget' & E).
  unfold hp_GetNodeByName, bind, sys_read, ret. rewrite Hget'. eexists. split; [done |]. by rewrite E.
Qed.

(** [SetHostPathDiskDisableState] with [state] true takes the disk off the list
    of disabled disks of the node, with [state] false it puts it there; the other
    disks stay as they are.  (Its name and its parameter say the opposite: the state
    is passed on as [enable].) *)
Theorem disable_state_inverted name disk state w w' node :
  hp_SetHostPathDiskDisableState name disk state w = (Ok tt, w') ->
  node_Get name w = inl node -> IsHostPathNode node = true ->
  no_char comma disk -> change_disks (om_anns (cn_meta node)) disk state <> {[ "" ]} ->
  exists nd, hp_GetNodeByName name w' = (Ok nd, w') /\
    nd_disabledDisk nd = (if state then nd_disabledDisk (ToHostPathNode node) ∖ {[ disk ]}
                          else {[ disk ]} ∪ nd_disabledDisk (ToHostPathNode node)).
Proof.
  intros Hup Hget Hhost Hcomma Hempty.
  unfold hp_SetHostPathDiskDisableState, sys_read, bind, gets in Hup. rewrite Hget in Hup.
  apply sys_write_Ok in Hup as Hp. unfold getNodeHostPathDisabledDisksPatchBytes in Hp.
  destruct (node_annotated _ NodeDiskQuotaDisabledDisksAnn _ _ _ eq_refl (b64_encode_plain _) Hp)
    as (node' & version & Hg & Hg').
  rewrite Hget in Hg. injection Hg as <-.
  unfold hp_GetNodeByName, bind, sys_read, ret. rewrite Hg'. eexists. split; [done |].
  set (disks := change_disks _ _ _) in *.
  pose proof (map_order_perm disks w) as Hperm. set (es := map_order disks w) in *.
  assert (Hes : Forall (no_char comma) es).
  { rewrite Hperm. apply Forall_forall. intros d Hd%elem_of_elements.
    pose proof (disabled_no_comma (om_anns (cn_meta node)) d) as Hno.
    unfold disks, change_disks in Hd. destruct state; set_solver. }
  assert (Hne : es <> [""]).
  { intros E. apply Hempty. rewrite E in Hperm. apply set_eq. intros d.
    rewrite <- elem_of_elements, <- Hperm. set_solver. }
  unfold ToHostPathNode, node_with_ready.
  assert (Hh : forall c, IsHostPathNode (mkCoreNode (with_annotations c version (cn_meta node)) (cn_Conditions node)) = true)
    by done.
  rewrite Hh, Hhost. cbn [cn_meta nd_disabledDisk].
  change (om_anns (with_annotations ?c version _)) with c.
  rewrite (read_disabled_annotation es) by (done || apply lookup_insert_eq).
  transitivity disks; [| by destruct state].
  apply set_eq. intros d. by rewrite elem_of_list_to_set, Hperm, elem_of_elements.
Qed.
End client_proofs.

(** ** A server in memory *)

Record sim_cluster := mkSimCluster { sc_pvs : gmap string CorePV; sc_nodes : gmap string CoreNode; sc_bound : gmap string string }.

Definition sim_pv_patch (name patch : string) (w : sim_cluster) : option error * sim_cluster :=
  match sc_pvs w !! name with
  | None => (Some (StatusError NotFound name), w)
  | Some pv =>
      match apply_patch patch (om_Annotations (cpv_meta pv)) with
      | None => (Some (StatusError InvalidArgument patch), w)
      | Some anns =>
          (None, mkSimCluster (<[name := mkCorePV (with_annotations anns "2" (cpv_meta pv)) (cpv_ClaimRef pv)
                                  (cpv_CSI pv) (cpv_storage pv) (cpv_Phase pv)]> (sc_pvs w)) (sc_nodes w) (sc_bound w))
      end
  end.
Definition sim_node_patch (name patch : string) (w : sim_cluster) : option error * sim_cluster :=
  match sc_nodes w !! name with
  | None => (Some (StatusError NotFound name), w)
  | Some node =>
      match apply_patch patch (om_Annotations (cn_meta node)) with
      | None => (Some (StatusError InvalidArgument patch), w)
      | Some anns =>
          (None, mkSimCluster (sc_pvs w) (<[name := mkCoreNode (with_annotations anns "2" (cn_meta node))
                                               (cn_Conditions node)]> (sc_nodes w)) (sc_bound w))
      end
  end.

#[export] Instance sim_kube : KubeApi sim_cluster := {
  pv_Get name w := match sc_pvs w !! name with Some pv => inl pv | None => inr (StatusError NotFound name) end;
  pv_Patch := sim_pv_patch;
  node_Get name w := match sc_nodes w !! name with Some n => inl n | None => inr (StatusError NotFound name) end;
  node_Patch := sim_node_patch;
  pod_Bind ns name uid node w := (None, mkSimCluster (sc_pvs w) (sc_nodes w) (<[ns +:+ "/" +:+ name := node]> (sc_bound w)));
  map_order ks _ := elements ks
}.

#[export] Program Instance sim_kube_laws : KubeApiLaws sim_cluster.
Next Obligation. done. Qed.
Next Obligation.
  intros name patch w w' _. cbn. unfold sim_pv_patch.
  destruct (sc_pvs w !! name) as [pv|] eqn:Hpv; [| done].
  destruct (apply_patch patch _) as [anns|] eqn:Ha; [| done]. intros [= <-].
  unfold pv_applied. cbn. exists pv, anns, "2". rewrite lookup_insert_eq, Hpv. split_and!; try done.
  intros other Hne. by rewrite lookup_insert_ne.
Qed.
Next Obligation.
  intros name patch w e w' _ E. left. intros pv. cbn in *. unfold sim_pv_patch in E.
  destruct (sc_pvs w !! name) as [core|]; [destruct (apply_patch _ _); [discriminate E |] |]; by injection E as _ <-.
Qed.
Next Obligation.
  intros name patch w r w' E pv. cbn in *. unfold sim_node_patch in E.
  destruct (sc_nodes w !! name) as [core|]; [destruct (apply_patch _ _) |]; by injection E as _ <-.
Qed.
Next Obligation.
  intros name patch w w' _. cbn. unfold sim_node_patch.
  destruct (sc_nodes w !! name) as [pv|] eqn:Hpv; [| done].
  destruct (apply_patch patch _) as [anns|] eqn:Ha; [| done]. intros [= <-].
  exists pv, anns, "2". cbn. rewrite lookup_insert_eq. split_and!; try done.
  intros other Hne. by rewrite lookup_insert_ne.
Qed.
Next Obligation.
  intros name patch w e w'. cbn. unfold sim_pv_patch. by repeat case_match; intros; simplify_eq.
Qed.
Next Obligation. intros ns name uid node w r w'. cbn. by intros [= _ <-]. Qed.

Definition sim_meta (name ns : string) (anns : gmap string string) : ObjectMeta :=
  mkObjectMeta name ns ("uid-" +:+ name) "1" {[ HostPathPvNodeLabelKey := "" ]} (Some anns).
Definition core_pv (name claim node : string) (storage : Z) : CorePV :=
  mkCorePV (sim_meta name "" {[ HostPathPvBindInfoAnn := node ]}) (Some (mkObjectReference claim "default"))
    (Some (mkCSISource HostPathCsiDriverName ("0001-0001-0005-" +:+ name))) storage VolumeBound.
Definition core_node (name : string) : CoreNode :=
  mkCoreNode (sim_meta name "" {[ "k" := "v" ]}) [mkNodeCondition "Ready" "True"].
Definition cluster : sim_cluster :=
  mkSimCluster {[ "pvc-1" := core_pv "pvc-1" "c1" "" 1000 ]} {[ "n1" := core_node "n1" ]} ∅.

Definition reported_pv : PersistentVolume :=
  mkPersistentVolume "1" "pvc-1" "" "default/c1" "0001-0001-0005-pvc-1" true "n1" true 1000 "/xfs/d1/k8squota_x" 77.
Definition found_pv : PersistentVolume :=
  mkPersistentVolume "1" "pvc-1" "" "default/c1" "0001-0001-0005-pvc-1" true "" true 1000 "" 0.
Definition after_pv_report : sim_cluster := (hp_UpdateHostPathPVUsageInfo "pvc-1" reported_pv cluster).2.
Definition reported_usage : NodeUsageInfo :=
  mkNodeUsageInfo 100 60 5 95 40 [mkDiskInfo "/xfs/d1" 100 60 5 40 false].
Definition after_node_report : sim_cluster := (hp_UpdateNodeHostPathPVUsageInfo "n1" reported_usage cluster).2.
Definition after_disable : sim_cluster := (hp_SetHostPathDiskDisableState "n1" "/xfs/d1" false cluster).2.

Example enable_is_disable :
  match hp_GetNodeByName "n1" after_disable with (Ok nd, _) => elements (nd_disabledDisk nd) | _ => [] end = ["/xfs/d1"].
Proof. by vm_compute. Qed.

Lemma pv_usage_reported_witness :
  exists version, hp_GetHostPathPVByVolumeId "0001-0001-0005-pvc-1" after_pv_report =
    (Ok (Some (mkPersistentVolume version "pvc-1" "" "default/c1" "0001-0001-0005-pvc-1" true "" true 1000
                 "/xfs/d1/k8squota_x" 77)), after_pv_report).
Proof.
  apply (pv_usage_reported "pvc-1" reported_pv cluster after_pv_report "0001-0001-0005-pvc-1" (mkCSIIdentifier 1 true "pvc-1"))
    with (old := found_pv); by vm_compute.
Defined.

Lemma reported_usage_ok : node_usage_ok reported_usage.
Proof.
  unfold node_usage_ok, in_i64. cbn. split_and!; try lia. apply Forall_singleton. unfold disk_ok, in_i64. cbn. lia.
Qed.

Lemma node_usage_reported_witness :
  exists nd, hp_GetNodeByName "n1" after_node_report = (Ok nd, after_node_report) /\ nd_hostPathNode nd = true /\
    nd_diskUsage nd = reported_usage /\ nd_disabledDisk nd = nd_disabledDisk (ToHostPathNode (core_node "n1")).
Proof.
  apply (node_usage_reported "n1" reported_usage cluster after_node_report (core_node "n1")).
  - by vm_compute.
  - apply reported_usage_ok.
  - by vm_compute.
  - by vm_compute.
Defined.

Lemma disable_state_inverted_witness :
  exists nd, hp_GetNodeByName "n1" after_disable = (Ok nd, after_disable) /\
    nd_disabledDisk nd = {[ "/xfs/d1" ]} ∪ nd_disabledDisk (ToHostPathNode (core_node "n1")).
Proof.
  apply (disable_state_inverted "n1" "/xfs/d1" false cluster after_disable (core_node "n1")).
  - by vm_compute.
  - by vm_compute.
  - by vm_compute.
  - by vm_compute.
  - intros E. apply (f_equal elements) in E. by vm_compute in E.
Defined.
