(* ===== verification/NodeServer.v ===== *)
(** * The node server: pkg/csi-plugin/hostpath/nodeserver.go

    A volume is published by bind-mounting its quota directory, which the quota
    manager makes on first use, to the target path.  The handlers work on the
    volume locks, the quota manager (through [QuotaManagerInterface]) and the world
    with the cluster client (through [HostPathClientInterface]) and the mounts.
    [status.Errorf] is given finished texts as formats in two places; the texts are
    modelled as they are, which is what it makes of them when they hold no percent
    sign. *)

From S2P Require Import Prelude IdLocker GoStrings VolId Os SimOs Util Allocator QuotaProvider QuotaManager.
From S2P Require Import Csi CsiCommon Locked HostPathApi.
Open Scope Z_scope.
Open Scope go_scope.

Record NodeServer (Q : Type) := mkNodeServer { srv_VolumeLocks : VolumeLocks; srv_quotaMng : Q }.
Arguments mkNodeServer {Q}.
Arguments srv_VolumeLocks {Q}.
Arguments srv_quotaMng {Q}.

(** [status.Error(codes.Internal, err.Error())] *)
Definition internal (err : error) : error := StatusError Internal (error_text err).

Definition NodeGetCapabilities : list NodeCap :=
  [NC_STAGE_UNSTAGE_VOLUME; NC_GET_VOLUME_STATS; NC_EXPAND_VOLUME].

Section node.
Context {Q W : Type} `{QuotaManagerInterface Q W} `{OS W} `{HostPathClientInterface W}.

Abbreviation St := (NodeServer Q * W)%type.

#[export] Program Instance node_locks : HasVolumeLocks St := {|
  get_locks s := srv_VolumeLocks s.1;
  put_locks l s := (mkNodeServer l (srv_quotaMng s.1), s.2)
|}.
Next Obligation. done. Qed.
Next Obligation. by intros [[] ?]. Qed.
Next Obligation. done. Qed.

Definition srv_world {B} (m : M W B) : M St B := zoom snd (fun w s => (s.1, w)) m.
Definition srv_manager {B} (m : M (Q * W) B) : M St B :=
  zoom (fun s : St => (srv_quotaMng s.1, s.2))
    (fun t s => (mkNodeServer (srv_VolumeLocks s.1) t.1, t.2)) m.

Definition reject (err : option error) : M St unit :=
  match err with Some e => fail e | None => ret tt end.

Definition NodeStageVolume (req : NodeStageVolumeRequest) : M St unit :=
  let! err := srv_world (gets (ValidateNodeStageVolumeRequest req)) in reject err.

Definition NodeUnstageVolume (req : NodeUnstageVolumeRequest) : M St unit :=
  reject (ValidateNodeUnstageVolumeRequest req).

(** The options of the bind mount. *)
Definition mount_options (req : NodePublishVolumeRequest) : list string :=
  let mountOptions := ConstructMountOptions ["bind"] (np_VolumeCapability req) in
  if np_Readonly req then mountOptions ++ ["ro"] else mountOptions.

Definition mountVolume (quotaPath : string) (req : NodePublishVolumeRequest) : M St unit :=
  srv_world (map_error internal
    (sys_write (mount_Mount quotaPath (np_TargetPath req) "" (mount_options req)))).

(** The check of the target path, which is made when it is missing. *)
Definition target_notMnt (targetPath : string) : M St bool :=
  let! r := srv_world (attempt (sys_read (IsNotMountPoint targetPath))) in
  match r with
  | inl notMnt => ret notMnt
  | inr err =>
      if IsNotExist err
      then srv_world (map_error internal (CreateNewDir targetPath)) ;; ret true
      else fail (internal err)
  end.

Definition NodePublishVolume (req : NodePublishVolumeRequest) : M St unit :=
  reject (ValidateNodePublishVolumeRequest req) ;;
  (let targetPath := np_TargetPath req in
   let volID := np_VolumeId req in
   locked volID
     (let! notMnt := target_notMnt targetPath in
      if negb notMnt then ret tt
      else
        let! volume := srv_world (GetHostPathPVByVolumeId volID) in
        match volume with
        | None => fail (StatusError Internal ("volume " +:+ volID +:+ " not found"))
        | Some volume =>
            let! quotaPath := srv_manager (GetVolumeQuotaPath (pv_volId volume) (pv_capacity volume)) in
            mountVolume quotaPath req
        end)).

(** The error of a failed decoding is dropped, a panic is not. *)
Definition decode_volume_id (volID : string) : M St CSIIdentifier := fun s =>
  match DecomposeCSIID volID (mkCSIIdentifier 0 false "") with
  | (Ok _, vi) => (Ok vi, s)
  | (Fail _, _) => (Fail (StatusError Internal ("failed decode volId " +:+ volID +:+ " ")), s)
  | (Panic y, _) => (Panic y, s)
  end.

(** What follows once the target path is known to exist. *)
Definition unpublish_existing (req : NodeUnpublishVolumeRequest) (vi : CSIIdentifier) (notMnt : bool) : M St unit :=
  (if negb notMnt
   then srv_world (map_error internal (sys_write (mount_Unmount (un_TargetPath req))))
   else ret tt) ;;
  (if Ephemeral vi
   then map_error internal (srv_manager (ReleaseVolumePath (un_VolumeId req)))
   else ret tt) ;;
  srv_world (map_error internal (sys_write (os_RemoveAll (un_TargetPath req)))).

Definition NodeUnpublishVolume (req : NodeUnpublishVolumeRequest) : M St unit :=
  reject (ValidateNodeUnpublishVolumeRequest req) ;;
  (let targetPath := un_TargetPath req in
   let volID := un_VolumeId req in
   let! vi := decode_volume_id volID in
   locked volID
     (let! r := srv_world (attempt (sys_read (IsNotMountPoint targetPath))) in
      match r with
      | inr err => if IsNotExist err then ret tt else fail (internal err)
      | inl notMnt => unpublish_existing req vi notMnt
      end)).

Definition NodeExpandVolume (req : NodeExpandVolumeRequest) : M St unit :=
  let volID := ne_VolumeId req in
  if go_len volID =? 0 then fail (StatusError InvalidArgument "volume ID must be provided")
  else if go_len (ne_VolumePath req) =? 0 then fail (StatusError InvalidArgument "volume path must be provided")
  else
    locked volID
      (match ne_CapacityRange req with
       | None => fail (StatusError InvalidArgument "capacityRange cannot be empty")
       | Some capRange =>
           map_error (fun err => StatusError Internal ("failed expand volume " +:+ volID +:+ " ,err " +:+ error_text err))
             (srv_manager (ExpandVolume volID (RequiredBytes capRange)))
       end).
End node.

(** ** The locks are given back *)

Section node_proofs.
Context {Q W : Type} `{QuotaManagerInterface Q W} `{OS W} `{HostPathClientInterface W}.
Implicit Types s : NodeServer Q * W.

(** [m] leaves the locks alone. *)
Definition keeps_locks {A} (m : M (NodeServer Q * W) A) : Prop :=
  forall l, preserves (fun s => get_locks s = l) m.

Lemma keeps_srv_world {A} (m : M W A) : keeps_locks (srv_world m).
Proof. intros l s Hs. unfold srv_world, zoom. by destruct (m s.2). Qed.

Lemma keeps_srv_manager {A} (m : M (Q * W) A) : keeps_locks (srv_manager m).
Proof. intros l s Hs. unfold srv_manager, zoom. by destruct (m (srv_quotaMng s.1, s.2)). Qed.

Lemma keeps_bind {A B} (m : M (NodeServer Q * W) A) (f : A -> M (NodeServer Q * W) B) :
  keeps_locks m -> (forall a, keeps_locks (f a)) -> keeps_locks (bind m f).
Proof. intros Hm Hf l. apply preserves_bind; [apply Hm | intros a; apply Hf]. Qed.

Lemma keeps_ret {A} (a : A) : keeps_locks (ret a).
Proof. by intros l s Hs. Qed.

Lemma keeps_fail {A} e : keeps_locks (fail (A := A) e).
Proof. by intros l s Hs. Qed.

Lemma keeps_map_error {A} f (m : M (NodeServer Q * W) A) : keeps_locks m -> keeps_locks (map_error f m).
Proof. intros Hm l. apply preserves_map_error, Hm. Qed.

Lemma keeps_reject e : keeps_locks (reject e).
Proof. destruct e; [apply keeps_fail | apply keeps_ret]. Qed.

Lemma keeps_decode v : keeps_locks (decode_volume_id v).
Proof. intros l s Hs. unfold decode_volume_id. by destruct (DecomposeCSIID v _) as [[] ?]. Qed.

Lemma keeps_locked {A} id (m : M (NodeServer Q * W) A) : keeps_locks m -> keeps_locks (locked id m).
Proof. intros Hm l s Hs. rewrite locked_restores; [done |]. intros t. by apply (Hm (get_locks t)). Qed.

#[local] Create HintDb node.
#[local] Hint Resolve keeps_srv_world keeps_srv_manager keeps_bind keeps_ret keeps_fail keeps_map_error
  keeps_reject keeps_decode keeps_locked : node.

Lemma keeps_target_notMnt p : keeps_locks (target_notMnt p).
Proof.
  apply keeps_bind; [auto with node |]. intros [b | e]; [auto with node |].
  destruct (IsNotExist e); auto with node.
Qed.

Lemma keeps_unpublish_existing req vi b : keeps_locks (unpublish_existing req vi b).
Proof.
  apply keeps_bind; [destruct b; simpl; auto with node |]. intros _.
  apply keeps_bind; [destruct (Ephemeral vi); auto with node |]. auto with node.
Qed.

(** C35: publishing, unpublishing and expanding a volume give every lock back on
    every way out, an error or a panic included, and take none for good: the locks
    after the call are those before it. *)
Theorem node_locks_restored s :
  (forall req, get_locks (NodePublishVolume req s).2 = get_locks s) /\
  (forall req, get_locks (NodeUnpublishVolume req s).2 = get_locks s) /\
  (forall req, get_locks (NodeExpandVolume req s).2 = get_locks s).
Proof.
  assert (Hk : forall A (m : M (NodeServer Q * W) A), keeps_locks m -> get_locks (m s).2 = get_locks s)
    by (intros A m Hm; by apply (Hm (get_locks s))).
  split_and!; intros req; apply Hk.
  - apply keeps_bind; [auto with node |]. intros _. apply keeps_locked.
    apply keeps_bind; [apply keeps_target_notMnt |]. intros b. destruct (negb b); [auto with node |].
    apply keeps_bind; [auto with node |]. intros [v |]; unfold mountVolume; auto with node.
  - apply keeps_bind; [auto with node |]. intros _. apply keeps_bind; [auto with node |]. intros vi.
    apply keeps_locked, keeps_bind; [auto with node |]. intros [b | e];
      [apply keeps_unpublish_existing | destruct (IsNotExist e); auto with node].
  - unfold NodeExpandVolume. destruct (_ =? 0); [auto with node |]. destruct (_ =? 0); [auto with node |].
    apply keeps_locked. destruct (ne_CapacityRange req); auto with node.
Qed.

(** ** What a published volume is *)

Lemma srv_world_Ok {A} (m : M W A) s a s' :
  srv_world m s = (Ok a, s') -> m s.2 = (Ok a, s'.2) /\ s'.1 = s.1.
Proof. unfold srv_world, zoom. destruct (m s.2). by intros [= -> <-]. Qed.

(** The world in which [target_notMnt] leaves its caller, when it succeeds. *)
Lemma target_notMnt_Ok p s b s' :
  target_notMnt p s = (Ok b, s') ->
  (IsNotMountPoint p s.2 = inl b /\ s' = s) \/
  (b = true /\ exists e, IsNotMountPoint p s.2 = inr e /\ IsNotExist e = true /\
     CreateNewDir p s.2 = (Ok tt, s'.2) /\ s'.1 = s.1).
Proof.
  intros E. apply bind_Ok in E as (r & s1 & E1 & E). apply srv_world_Ok in E1 as [E1 Hs1].
  unfold attempt, sys_read in E1.
  destruct (IsNotMountPoint p s.2) as [b' | e] eqn:Em; injection E1 as <- Hw.
  - injection E as <- <-. left. split; [done |]. destruct s, s1; simpl in *; congruence.
  - destruct (IsNotExist e) eqn:Ee; [| done]. apply bind_Ok in E as ([] & s2 & E2 & E).
    injection E as <- <-. apply srv_world_Ok in E2 as [E2 Hs2]. apply map_error_Ok in E2.
    rewrite <- Hw in E2. right. split; [done |]. exists e. split_and!; try done. congruence.
Qed.

(** C17: a [NodePublishVolume] that succeeds either found the target mounted, and
    then changed nothing, or it ended with a bind mount of the directory that the
    quota manager gives the volume named by the request, of the volume's own size,
    on the target path, with the options of the request; the directory is asked
    for only after the volume was found in the cluster. *)
Theorem NodePublishVolume_spec req s s' :
  NodePublishVolume req s = (Ok tt, s') ->
  np_VolumeId req ∉ vl_locks (get_locks s) /\
  ((IsNotMountPoint (np_TargetPath req) s.2 = inl false /\ s'.2 = s.2 /\
      srv_quotaMng s'.1 = srv_quotaMng s.1) \/
   (exists w1 volume w2 path q w3,
      GetHostPathPVByVolumeId (np_VolumeId req) w1 = (Ok (Some volume), w2) /\
      GetVolumeQuotaPath (pv_volId volume) (pv_capacity volume) (srv_quotaMng s.1, w2) = (Ok path, (q, w3)) /\
      mount_Mount path (np_TargetPath req) "" (mount_options req) w3 = (None, s'.2) /\
      srv_quotaMng s'.1 = q)).
Proof.
  unfold NodePublishVolume, bind at 1. destruct (ValidateNodePublishVolumeRequest req); [done |].
  unfold reject, ret at 1. cbv zeta.
  destruct (decide (np_VolumeId req ∈ vl_locks (get_locks s))) as [Hn | Hn]; [by rewrite locked_busy |].
  rewrite locked_free by done. intros E. split; [done |].
  destruct (bind _ _ (with_lock _ s)) as [r s1] eqn:Eb. injection E as -> <-. simpl.
  apply bind_Ok in Eb as (b & s2 & E2 & Eb). apply target_notMnt_Ok in E2.
  assert (Hq : srv_quotaMng s2.1 = srv_quotaMng s.1)
    by (destruct E2 as [[_ ->] | (_ & e & _ & _ & _ & ->)]; done).
  destruct b; simpl in Eb.
  - right. apply bind_Ok in Eb as (v & s3 & E3 & Eb). unfold srv_world, zoom in E3.
    destruct (GetHostPathPVByVolumeId (np_VolumeId req) s2.2) as [r3 w3] eqn:Ev. injection E3 as -> <-.
    destruct v as [volume |]; [| done].
    apply bind_Ok in Eb as (path & s4 & E4 & Em). unfold srv_manager, zoom in E4. simpl in E4. rewrite Hq in E4.
    destruct (GetVolumeQuotaPath (pv_volId volume) (pv_capacity volume) (srv_quotaMng s.1, w3)) as [r4 [q w4]] eqn:Eg.
    injection E4 as -> <-. unfold mountVolume, srv_world, zoom, map_error, sys_write in Em. simpl in Em.
    destruct (mount_Mount path (np_TargetPath req) "" (mount_options req) w4) as [[e |] w5] eqn:Emm; [done |].
    injection Em as <-. simpl. by exists s2.2, volume, w3, path, q, w4.
  - left. injection Eb as <-. destruct E2 as [[? ->] | [? _]]; [done | done].
Qed.

Lemma unpublish_existing_Ok req vi notMnt s s' :
  unpublish_existing req vi notMnt s = (Ok tt, s') ->
  exists w1 w2,
    (if notMnt then w1 = s.2 else mount_Unmount (un_TargetPath req) s.2 = (None, w1)) /\
    (if Ephemeral vi
     then ReleaseVolumePath (un_VolumeId req) (srv_quotaMng s.1, w1) = (Ok tt, (srv_quotaMng s'.1, w2))
     else w2 = w1 /\ srv_quotaMng s'.1 = srv_quotaMng s.1) /\
    os_RemoveAll (un_TargetPath req) w2 = (None, s'.2).
Proof.
  intros E. apply bind_Ok in E as ([] & s1 & E1 & E). apply bind_Ok in E as ([] & s2 & E2 & E3).
  apply srv_world_Ok in E3 as [E3 Hs3]. apply map_error_Ok, sys_write_Ok in E3.
  exists s1.2, s2.2. rewrite Hs3.
  assert (Hu : (if notMnt then s1.2 = s.2 else mount_Unmount (un_TargetPath req) s.2 = (None, s1.2)) /\ s1.1 = s.1).
  { destruct notMnt; simpl in E1; [by injection E1 as <- |].
    apply srv_world_Ok in E1 as [E1 ->]. by apply map_error_Ok, sys_write_Ok in E1. }
  destruct Hu as [Hu Hs1]. split; [done |]. split; [| done].
  destruct (Ephemeral vi); [| by injection E2 as <-; rewrite Hs1].
  apply map_error_Ok in E2. unfold srv_manager, zoom in E2. rewrite Hs1 in E2.
  destruct (ReleaseVolumePath (un_VolumeId req) (srv_quotaMng s.1, s1.2)) as [r [q w]].
  injection E2 as -> <-. done.
Qed.

(** C18: a [NodeUnpublishVolume] that succeeds has unmounted the target path if it
    was mounted and removed it, and it has released the volume's quota directory
    exactly when the id says that the volume is ephemeral; a target path that is
    gone already is a success that touches nothing, so the directory of an
    ephemeral volume is then kept. *)
Theorem NodeUnpublishVolume_spec req s s' :
  NodeUnpublishVolume req s = (Ok tt, s') ->
  exists vi, DecomposeCSIID (un_VolumeId req) (mkCSIIdentifier 0 false "") = (Ok tt, vi) /\
  ((exists e, IsNotMountPoint (un_TargetPath req) s.2 = inr e /\ IsNotExist e = true /\
      s'.2 = s.2 /\ srv_quotaMng s'.1 = srv_quotaMng s.1) \/
   (exists notMnt w1 w2, IsNotMountPoint (un_TargetPath req) s.2 = inl notMnt /\
      (if notMnt then w1 = s.2 else mount_Unmount (un_TargetPath req) s.2 = (None, w1)) /\
      (if Ephemeral vi
       then ReleaseVolumePath (un_VolumeId req) (srv_quotaMng s.1, w1) = (Ok tt, (srv_quotaMng s'.1, w2))
       else w2 = w1 /\ srv_quotaMng s'.1 = srv_quotaMng s.1) /\
      os_RemoveAll (un_TargetPath req) w2 = (None, s'.2))).
Proof.
  unfold NodeUnpublishVolume, bind at 1. destruct (ValidateNodeUnpublishVolumeRequest req); [done |].
  unfold reject, ret at 1. cbv zeta. unfold bind at 1, decode_volume_id.
  destruct (DecomposeCSIID (un_VolumeId req) (mkCSIIdentifier 0 false "")) as [[[] | e | y] vi]; [| done..].
  intros E. exists vi. split; [done |].
  destruct (decide (un_VolumeId req ∈ vl_locks (get_locks s))) as [Hn | Hn]; [by rewrite locked_busy in E |].
  rewrite locked_free in E by done. destruct (bind _ _ (with_lock _ s)) as [r s1] eqn:Eb.
  injection E as -> <-. unfold bind, srv_world, zoom, attempt, sys_read in Eb. simpl in *.
  destruct (IsNotMountPoint (un_TargetPath req) s.2) as [notMnt | e]; simpl in Eb.
  - right. apply unpublish_existing_Ok in Eb as (w1 & w2 & Hw1 & Hw2 & Hw3). by exists notMnt, w1, w2.
  - left. exists e. destruct (IsNotExist e); [| done]. by injection Eb as <-.
Qed.
End node_proofs.

(** ** A run: publish and unpublish an ephemeral volume *)

Definition eph_id : string := "0001-0001-0005-pvc-1".
Definition eph_pv : PersistentVolume :=
  mkPersistentVolume "7" "pvc-1" "" "default/claim" eph_id true "" true 2097152 "" 0.

#[local] Instance sim_client : HostPathClientInterface sim := {
  GetHostPathPVByVolumeId v := ret (if decide (v = eph_id) then Some eph_pv else None);
  GetNodeByName n := ret (mkNode "1" n "" true empty_usage ∅ "Ready");
  UpdateHostPathPVUsageInfo _ _ := ret tt;
  UpdateNodeHostPathPVUsageInfo _ _ := ret tt;
  SetHostPathDiskDisableState _ _ _ := ret tt
}.

Definition sim_node : NodeServer manager * sim := (mkNodeServer NewVolumeLocks started.1, started.2).
Definition publish_request : NodePublishVolumeRequest :=
  mkNodePublishVolumeRequest eph_id "/stage" "/pods/t"
    (Some (mkVolumeCapability (MountVolume ["noatime"]) AM_SINGLE_NODE_WRITER)) true.
Definition unpublish_request : NodeUnpublishVolumeRequest := mkNodeUnpublishVolumeRequest eph_id "/pods/t".
Definition published : NodeServer manager * sim := (NodePublishVolume publish_request sim_node).2.
Definition unpublished : NodeServer manager * sim := (NodeUnpublishVolume unpublish_request published).2.

Lemma published_eq : NodePublishVolume publish_request sim_node = (Ok tt, published).
Proof. vm_compute; reflexivity. Qed.

Lemma unpublished_eq : NodeUnpublishVolume unpublish_request published = (Ok tt, unpublished).
Proof. vm_compute; reflexivity. Qed.

Lemma NodePublishVolume_spec_witness :
  sim_mounts published.2 =
    [("/pods/t", "/pool/d1/k8squota_0001-0001-0005-pvc-1"); ("/pool/d1", "/dev/vdb")] /\
  eph_id ∉ vl_locks (get_locks sim_node).
Proof.
  split; [vm_compute; reflexivity |].
  exact (proj1 (NodePublishVolume_spec publish_request sim_node published published_eq)).
Defined.

Lemma NodeUnpublishVolume_spec_witness :
  quotas (srv_quotaMng unpublished.1) = ∅ /\
  exists vi, DecomposeCSIID eph_id (mkCSIIdentifier 0 false "") = (Ok tt, vi).
Proof.
  split; [vm_compute; reflexivity |].
  destruct (NodeUnpublishVolume_spec unpublish_request published unpublished unpublished_eq) as (vi & E & _).
  exists vi. exact E.
Defined.
