(* ===== verification/SyncWorker.v ===== *)
(** * The sync worker: pkg/csi-plugin/hostpath/syncworker.go

    Every 30 seconds the worker of a node releases the directories of volumes that
    no longer exist, reports the usage of the others and of the node's disks to the
    cluster, and brings the disabled disks in line with the node's annotation.  Its
    state is the retry list, the two caches and the quota manager that it shares
    with the node server. *)

From S2P Require Import Prelude GoStrings Os SimOs Util Allocator QuotaProvider QuotaManager MetaStore HostPathApi.
Open Scope Z_scope.
Open Scope go_scope.

Record SyncWorker (Q : Type) := mkSyncWorker {
  shouldDeleteVolIds : list string;
  nodeName : string;
  lastSyncQuotaInfoCache : gmap string PathQuotaInfo;
  lastNodeUsageInfo : NodeUsageInfo;
  sw_quotaMng : Q
}.
Arguments mkSyncWorker {Q}.
Arguments shouldDeleteVolIds {Q}.
Arguments nodeName {Q}.
Arguments lastSyncQuotaInfoCache {Q}.
Arguments lastNodeUsageInfo {Q}.
Arguments sw_quotaMng {Q}.

(** [shouldUpdate], given the cache *)
Definition shouldUpdate (cache : gmap string PathQuotaInfo) (new : PathQuotaInfo) : bool :=
  match cache !! path_VolumeId new with
  | Some old =>
      bool_decide (path_Path new <> path_Path old) ||
      negb (HardQuota (path_Quota new) =? HardQuota (path_Quota old)) ||
      negb (Used (path_Quota new) =? Used (path_Quota old))
  | None => true
  end.

(** The loop of [shouldNodeUpdate] over the old disks, [index] being the index of
    the first; the allocatable size of the old disk is compared with itself. *)
Fixpoint disks_differ (index : nat) (old : list DiskInfo) (new : list DiskInfo) : outcome bool :=
  match old with
  | [] => Ok false
  | disk :: old' =>
      match new !! index with
      | None => Panic "index out of range"
      | Some n =>
          if bool_decide (di_MountPoint disk <> di_MountPoint n) ||
             negb (RoundOffBytes (di_Used disk) =? RoundOffBytes (di_Used n)) ||
             negb (di_Allocatable disk =? di_Allocatable disk)
          then Ok true
          else disks_differ (S index) old' new
      end
  end.

Definition shouldNodeUpdate (old new : NodeUsageInfo) : outcome bool :=
  if negb (nu_Capacity old =? nu_Capacity new) || negb (nu_QuotaSize old =? nu_QuotaSize new) ||
     negb (RoundOffBytes (nu_Used old) =? RoundOffBytes (nu_Used new))
  then Ok true
  else disks_differ 0 (nu_DiskStatus old) (nu_DiskStatus new).

(** The report of a node: [int64] sums over its disks. *)
Definition add_disk (n : NodeUsageInfo) (disk : DiskQuotaInfo) : NodeUsageInfo :=
  mkNodeUsageInfo
    (i64 (nu_Capacity n + i64 (disk_Capacity disk)))
    (i64 (nu_QuotaSize n + i64 (disk_QuotaSize disk)))
    (i64 (nu_Used n + i64 (disk_Used disk)))
    (nu_AvailableSize n)
    (i64 (nu_Allocatable n + i64 (disk_AllocatableSize disk)))
    (nu_DiskStatus n ++
       [mkDiskInfo (disk_MountPoint disk) (i64 (disk_Capacity disk)) (i64 (disk_QuotaSize disk))
          (i64 (disk_Used disk)) (i64 (disk_AllocatableSize disk)) (disk_Disabled disk)]).

Definition node_usage (diskInfo : list DiskQuotaInfo) : NodeUsageInfo :=
  let n := foldl add_disk empty_usage diskInfo in
  mkNodeUsageInfo (nu_Capacity n) (nu_QuotaSize n) (nu_Used n)
    (i64 (nu_Capacity n - nu_Used n)) (nu_Allocatable n)
    (sort_by DiskInfo_Less (nu_DiskStatus n)).

Section worker.
Context {Q W : Type} `{QuotaManagerInterface Q W} `{MetaStoreInterFace W} `{HostPathClientInterface W}.

Abbreviation St := (SyncWorker Q * W)%type.

Definition sw_world {B} (m : M W B) : M St B := zoom snd (fun w s => (s.1, w)) m.
Definition sw_manager {B} (m : M (Q * W) B) : M St B :=
  zoom (fun s : St => (sw_quotaMng s.1, s.2))
    (fun t s => (mkSyncWorker (shouldDeleteVolIds s.1) (nodeName s.1) (lastSyncQuotaInfoCache s.1)
                   (lastNodeUsageInfo s.1) t.1, t.2)) m.
Definition set_shouldDelete (l : list string) : M St unit :=
  modify (fun s : St => (mkSyncWorker l (nodeName s.1) (lastSyncQuotaInfoCache s.1)
                           (lastNodeUsageInfo s.1) (sw_quotaMng s.1), s.2)).
Definition set_cacheEntry (v : string) (info : PathQuotaInfo) : M St unit :=
  modify (fun s : St => (mkSyncWorker (shouldDeleteVolIds s.1) (nodeName s.1)
                           (<[v := info]> (lastSyncQuotaInfoCache s.1)) (lastNodeUsageInfo s.1) (sw_quotaMng s.1), s.2)).
Definition set_lastNodeUsage (n : NodeUsageInfo) : M St unit :=
  modify (fun s : St => (mkSyncWorker (shouldDeleteVolIds s.1) (nodeName s.1) (lastSyncQuotaInfoCache s.1)
                           n (sw_quotaMng s.1), s.2)).

(** Releases the volumes one after the other; returns those that failed. *)
Fixpoint release_all (volIds : list string) : M St (list string) :=
  match volIds with
  | [] => ret []
  | volId :: volIds' =>
      let! err := attempt (sw_manager (ReleaseVolumePath volId)) in
      let! failed := release_all volIds' in
      ret (match err with inr _ => volId :: failed | inl _ => failed end)
  end.

(** The loop itself does not fail: the errors of the calls are in its result. *)
Lemma release_all_no_fail vs : forall s e s', release_all vs s <> (Fail e, s').
Proof.
  induction vs as [|v vs IH]; intros s e s'; [done |]. cbn [release_all]. unfold bind at 1, attempt.
  destruct (sw_manager _ s) as [[u | e1 | y] t]; [| | done]; unfold bind;
    (destruct (release_all vs t) as [[] ?] eqn:Ev; [done | intros [= -> <-]; by eapply IH | done]).
Qed.

Definition orphans (metaInfos : gmap string string) (quotaInfos : list PathQuotaInfo) : list string :=
  filter (fun v => metaInfos !! v = None) (map path_VolumeId quotaInfos).

Definition cleanOrphanQuotaPath (quotaInfos : list PathQuotaInfo) : M St unit :=
  let! volIds := gets (fun s : St => shouldDeleteVolIds s.1) in
  let! nextLoop := release_all volIds in
  let! metaInfos := sw_world ListMetaInfos in
  let! failed := release_all (orphans metaInfos quotaInfos) in
  set_shouldDelete (nextLoop ++ failed).

Fixpoint syncQuotaPathUsage (quotaInfos : list PathQuotaInfo) : M St unit :=
  match quotaInfos with
  | [] => ret tt
  | info :: quotaInfos' =>
      let! cache := gets (fun s : St => lastSyncQuotaInfoCache s.1) in
      (if shouldUpdate cache info then
         let! hpv := sw_world (GetHostPathPVByVolumeId (path_VolumeId info)) in
         match hpv with
         | None => ret tt
         | Some hpv =>
             let! node := gets (fun s : St => nodeName s.1) in
             let hpv := SetUsage (Used (path_Quota info)) (SetVolumePath (path_Path info) (SetBindNodeName node hpv)) in
             sw_world (UpdateHostPathPVUsageInfo (pv_name hpv) hpv) ;;
             set_cacheEntry (path_VolumeId info) info
         end
       else ret tt) ;;
      syncQuotaPathUsage quotaInfos'
  end.

(** The first loop of [syncNodeQuotaStatus]: errors are only logged. *)
Definition sync_disabled (disableDisks : gset string) (disk : DiskQuotaInfo) : M St unit :=
  if decide (disk_MountPoint disk ∈ disableDisks) then
    if disk_Disabled disk then ret tt
    else attempt (sw_manager (SetQuotaDiskDisabledState (disk_MountPoint disk) true)) ;; ret tt
  else
    if disk_Disabled disk
    then attempt (sw_manager (SetQuotaDiskDisabledState (disk_MountPoint disk) false)) ;; ret tt
    else ret tt.

Definition syncNodeQuotaStatus (diskInfo : list DiskQuotaInfo) : M St unit :=
  let! name := gets (fun s : St => nodeName s.1) in
  let! node := sw_world (GetNodeByName name) in
  for_each diskInfo (sync_disabled (nd_disabledDisk node)) ;;
  (let nodeDiskInfo := node_usage diskInfo in
   let! old := gets (fun s : St => lastNodeUsageInfo s.1) in
   let! update := lift (shouldNodeUpdate old nodeDiskInfo) in
   if update then
     sw_world (UpdateNodeHostPathPVUsageInfo name nodeDiskInfo) ;;
     set_lastNodeUsage nodeDiskInfo
   else ret tt).

(** One round of the loop: an error is logged, and a list that could not be read is
    empty. *)
Definition populatorLoopFunc : M St unit :=
  let! quotaInfo := attempt (sw_manager ListPathQuotaInfos) in
  let quotaInfo := match quotaInfo with inl l => l | inr _ => [] end in
  attempt (cleanOrphanQuotaPath quotaInfo) ;;
  attempt (syncQuotaPathUsage quotaInfo) ;;
  (let! diskInfo := attempt (sw_manager ListQuotaDiskInfos) in
   let diskInfo := match diskInfo with inl l => l | inr _ => [] end in
   attempt (syncNodeQuotaStatus diskInfo) ;;
   ret tt).
End worker.

(** ** Orphans *)

Section clean.
Context {P W : Type} `{LinuxVolumeQuotaProvider P W} `{OS W} `{MetaStoreInterFace W} `{HostPathClientInterface W}.
Implicit Types s : SyncWorker (XFSQuotaManager P) * W.

Definition volumes s : gmap string PathQuotaInfo := quotas (sw_quotaMng s.1).

Lemma release_one v s r s' :
  sw_manager (ReleaseVolumePath v) s = (r, s') ->
  shouldDeleteVolIds s'.1 = shouldDeleteVolIds s.1 /\
  volumes s' = match r with Ok _ => delete v (volumes s) | _ => volumes s end.
Proof.
  unfold sw_manager, zoom, volumes. simpl.
  destruct (xfs_ReleaseVolumePath v (sw_quotaMng s.1, s.2)) as [r1 [q w]] eqn:E. intros [= <- <-]. simpl.
  pose proof (hoare_run _ _ _ _ (sw_quotaMng s.1, s.2) _ _ (hoare_ReleaseVolumePath _ _ v) E
    (conj eq_refl eq_refl)) as Hr. simpl in Hr. split; [done |].
  destruct r1 as [[] | e | y]; [| by destruct Hr as [_ Hq]..].
  destruct (quotas (sw_quotaMng s.1) !! v) as [p |] eqn:Ev.
  - by destruct Hr as (d & _ & _ & Hq).
  - destruct Hr as [_ Hq]. simpl in Hq. rewrite Hq. symmetry. by apply delete_id.
Qed.

(** What becomes of the volumes when [vs] are released, [failed] without success. *)
Definition after_release (vs failed : list string) (qs qs' : gmap string PathQuotaInfo) : Prop :=
  (forall u, u ∉ vs -> qs' !! u = qs !! u) /\
  (forall u, qs !! u = None -> qs' !! u = None) /\
  (forall u, u ∈ vs -> qs' !! u = None \/ u ∈ failed).

Lemma release_all_spec vs s failed s' :
  release_all vs s = (Ok failed, s') ->
  shouldDeleteVolIds s'.1 = shouldDeleteVolIds s.1 /\ after_release vs failed (volumes s) (volumes s').
Proof.
  revert s failed. induction vs as [|v vs IH]; intros s failed E; cbn [release_all] in E; unfold ret in E.
  - injection E as <- <-. split; [done |]. split_and!; try done. intros u Hu. by apply not_elem_of_nil in Hu.
  - apply bind_Ok in E as (err & s1 & E1 & E). apply bind_Ok in E as (fl & s2 & E2 & E).
    injection E as <- <-. apply IH in E2 as (Hsd & Hframe & Hgone & Hin). unfold attempt in E1.
    destruct (sw_manager (ReleaseVolumePath v) s) as [r s1'] eqn:Er. apply release_one in Er as [Hsd1 Hv1].
    assert (Hcase : s1' = s1 /\ volumes s1 = match err with inl _ => delete v (volumes s) | inr _ => volumes s end).
    { destruct r; simplify_eq/=; done. }
    destruct Hcase as [-> Hv]. split; [congruence |]. split_and!.
    + intros u Hu. rewrite not_elem_of_cons in Hu. destruct Hu as [Hu1 Hu2]. rewrite Hframe, Hv by done.
      destruct err; [by rewrite lookup_delete_ne | done].
    + intros u Hu. apply Hgone. rewrite Hv. destruct err; [| done].
      destruct (decide (u = v)) as [-> |]; [apply lookup_delete_eq | by rewrite lookup_delete_ne].
    + intros u Hu. apply elem_of_cons in Hu as [-> | Hu].
      * destruct err; [left | right; left]. apply Hgone. rewrite Hv. apply lookup_delete_eq.
      * destruct (Hin u Hu); [by left | right]. destruct err; [done | by right].
Qed.

(** a round of cleaning decides on the ids that the meta store listed: a volume
    listed there keeps its directory and its quota, unless an earlier round failed
    to release it; a volume with a directory and not listed there is released or
    kept for the next round, and so is every volume of the retry list. *)
Theorem cleanOrphanQuotaPath_spec infos s s' :
  cleanOrphanQuotaPath infos s = (Ok tt, s') ->
  exists metaInfos w1 w2, ListMetaInfos w1 = (Ok metaInfos, w2) /\
    (forall v, is_Some (metaInfos !! v) -> v ∉ shouldDeleteVolIds s.1 -> volumes s' !! v = volumes s !! v) /\
    (forall info, info ∈ infos -> metaInfos !! path_VolumeId info = None ->
       volumes s' !! path_VolumeId info = None \/ path_VolumeId info ∈ shouldDeleteVolIds s'.1) /\
    (forall v, v ∈ shouldDeleteVolIds s.1 -> volumes s' !! v = None \/ v ∈ shouldDeleteVolIds s'.1).
Proof.
  intros E. apply bind_Ok in E as (ids & s0 & E0 & E). injection E0 as <- <-.
  apply bind_Ok in E as (nextLoop & s1 & E1 & E). apply bind_Ok in E as (metaInfos & s2 & E2 & E).
  apply bind_Ok in E as (failed & s3 & E3 & E).
  assert (Hs' : volumes s' = volumes s3 /\ shouldDeleteVolIds s'.1 = nextLoop ++ failed)
    by (injection E as <-; done).
  destruct Hs' as [-> ->].
  apply release_all_spec in E1 as (_ & Hf1 & Hg1 & Hi1). apply release_all_spec in E3 as (_ & Hf3 & Hg3 & Hi3).
  unfold sw_world, zoom in E2. destruct (ListMetaInfos s1.2) as [r w2] eqn:El. injection E2 as -> <-.
  exists metaInfos, s1.2, w2. split; [done |].
  change (volumes (s1.1, w2)) with (volumes s1) in *.
  split_and!.
  - intros v Hv Hnot. rewrite Hf3, Hf1; [done | done |]. unfold orphans.
    rewrite list_elem_of_filter. intros [Hnone _]. rewrite Hnone in Hv. by destruct Hv.
  - intros info Hin Hnone. destruct (Hi3 (path_VolumeId info)) as [|]; [| by left | right; set_solver].
    unfold orphans. rewrite list_elem_of_filter. split; [done |]. apply list_elem_of_fmap. eauto.
  - intros v Hv. destruct (Hi1 v Hv) as [Hn | Hn]; [left; by apply Hg3 | right; set_solver].
Qed.
End clean.

(** ** The retry list *)

Section retry.
Context {Q W : Type} `{QuotaManagerInterface Q W} `{MetaStoreInterFace W} `{HostPathClientInterface W}.
Implicit Types s : SyncWorker Q * W.

Lemma release_all_failing v n s :
  (forall t, exists e, sw_manager (ReleaseVolumePath v) t = (Fail e, t)) ->
  release_all (replicate n v) s = (Ok (replicate n v), s).
Proof.
  intros Hfail. induction n as [|n IH]; [done |]. simpl. unfold bind, attempt, ret.
  destruct (Hfail s) as [e ->]. by rewrite IH.
Qed.

(** an orphan that cannot be released is entered in the retry list once more in
    every round: the list grows without bound, and each round tries the same
    volume as many times as there were rounds. *)
Theorem retry_list_grows v n info metaInfos s :
  (forall t, exists e, sw_manager (ReleaseVolumePath v) t = (Fail e, t)) ->
  path_VolumeId info = v -> ListMetaInfos s.2 = (Ok metaInfos, s.2) -> metaInfos !! v = None ->
  shouldDeleteVolIds s.1 = replicate n v ->
  shouldDeleteVolIds (cleanOrphanQuotaPath [info] s).2.1 = replicate (S n) v.
Proof.
  intros Hfail Hv Hlist Hnone Hids. unfold cleanOrphanQuotaPath, bind, gets. rewrite Hids.
  rewrite release_all_failing by done. unfold sw_world, zoom. rewrite Hlist. unfold orphans. simpl.
  rewrite Hv, filter_cons_True by done. change (filter _ []) with (@nil string).
  pose proof (release_all_failing v 1 (s.1, s.2) Hfail) as H1x. simpl replicate in H1x. rewrite H1x. simpl.
  by rewrite <- replicate_S_end.
Qed.
End retry.

(** ** Reports of a node *)

(** Two disks that the comparison does not tell apart. *)
Definition same_disk (x y : DiskInfo) : Prop :=
  di_MountPoint x = di_MountPoint y /\ RoundOffBytes (di_Used x) = RoundOffBytes (di_Used y).
Definition same_totals (x y : NodeUsageInfo) : Prop :=
  nu_Capacity x = nu_Capacity y /\ nu_QuotaSize x = nu_QuotaSize y /\
  RoundOffBytes (nu_Used x) = RoundOffBytes (nu_Used y).

Lemma disks_differ_same old : forall new pre rest,
  Forall2 same_disk old new -> disks_differ (length pre) old (pre ++ new ++ rest) = Ok false.
Proof.
  induction old as [|o old IH]; intros new pre rest Hall; [done |].
  inversion Hall as [| ? n ? new' [Hm Hu] Hrest]; subst. cbn [disks_differ].
  rewrite <- app_comm_cons, list_lookup_middle by done. rewrite bool_decide_eq_false_2 by (rewrite Hm; tauto).
  rewrite Hu, !Z.eqb_refl. simpl.
  replace (pre ++ n :: new' ++ rest) with ((pre ++ [n]) ++ new' ++ rest) by (by rewrite <- app_assoc).
  replace (S (length pre)) with (length (pre ++ [n])) by (rewrite length_app; simpl; lia). by apply IH.
Qed.

Lemma disks_differ_short old : forall new pre o old',
  Forall2 same_disk old new -> disks_differ (length pre) (old ++ o :: old') (pre ++ new) = Panic "index out of range".
Proof.
  induction old as [|o old IH]; intros new pre o' old' Hall; inversion Hall as [| ? n ? new' [Hm Hu] Hrest]; subst.
  - simpl. rewrite app_nil_r. by rewrite lookup_ge_None_2.
  - simpl. rewrite list_lookup_middle by done. rewrite bool_decide_eq_false_2 by (rewrite Hm; tauto).
    rewrite Hu, !Z.eqb_refl. simpl.
    replace (pre ++ n :: new') with ((pre ++ [n]) ++ new') by (by rewrite <- app_assoc).
    replace (S (length pre)) with (length (pre ++ [n])) by (rewrite length_app; simpl; lia). by apply IH.
Qed.

(** the comparison that decides whether a node is reported overlooks changes of
    the allocatable size and of the disabled flag, since it compares the old
    allocatable size with itself, and disks that were added; with the totals
    unchanged and a disk gone, it panics. *)
Theorem shouldNodeUpdate_blind old new :
  same_totals old new ->
  (forall l rest, nu_DiskStatus new = l ++ rest -> Forall2 same_disk (nu_DiskStatus old) l ->
     shouldNodeUpdate old new = Ok false) /\
  (forall l d rest, nu_DiskStatus old = l ++ d :: rest -> Forall2 same_disk l (nu_DiskStatus new) ->
     shouldNodeUpdate old new = Panic "index out of range").
Proof.
  intros (Hc & Hq & Hu). unfold shouldNodeUpdate. rewrite Hc, Hq, Hu, !Z.eqb_refl. simpl. split.
  - intros l rest -> Hall. by apply (disks_differ_same _ l [] rest).
  - intros l d rest -> Hall. by apply (disks_differ_short _ _ [] d rest).
Qed.

(** ** Runs *)

#[local] Instance sim_list : MetaStoreInterFace sim := {
  ListMetaInfos := ret {[ "live" := "" ]};
  AddMetaInfo _ := ret tt;
  UnsetMetaInfo _ := ret tt
}.

(** A worker that finds volume "v1" on disk, which the meta store does not list. *)
Definition sim_worker : SyncWorker manager * sim :=
  (mkSyncWorker [] "node1" ∅ empty_usage placed.1, placed.2).
Definition v1_info : PathQuotaInfo :=
  mkPathQuotaInfo "/pool/d1/k8squota_v1" "/dev/vdb" (mkQuota 3000000 3000000 0) 1 "v1".
Definition cleaned : SyncWorker manager * sim := (cleanOrphanQuotaPath [v1_info] sim_worker).2.

Lemma cleaned_eq : cleanOrphanQuotaPath [v1_info] sim_worker = (Ok tt, cleaned).
Proof. vm_compute; reflexivity. Qed.

Lemma cleanOrphanQuotaPath_spec_witness :
  exists metaInfos w1 w2, ListMetaInfos (W := sim) w1 = (Ok metaInfos, w2) /\
    (metaInfos !! "v1" = None -> volumes cleaned !! "v1" = None \/ "v1" ∈ shouldDeleteVolIds cleaned.1).
Proof.
  destruct (cleanOrphanQuotaPath_spec [v1_info] sim_worker cleaned cleaned_eq)
    as (metaInfos & w1 & w2 & El & _ & Horphan & _).
  exists metaInfos, w1, w2. split; [exact El |]. intros Hn. apply (Horphan v1_info); [left | exact Hn].
Defined.

(** The manager of a node without a quota root fails every release. *)
Definition fake_worker (n : nat) : SyncWorker FakeQuotaManager * sim :=
  (mkSyncWorker (replicate n "v1") "node1" ∅ empty_usage mkFakeQuotaManager, sim_empty).

Lemma retry_list_grows_witness :
  shouldDeleteVolIds (cleanOrphanQuotaPath [v1_info] (fake_worker 3)).2.1 = ["v1"; "v1"; "v1"; "v1"].
Proof.
  apply (retry_list_grows "v1" 3 v1_info {[ "live" := "" ]} (fake_worker 3)); try reflexivity.
  intros [[? ? ? ? []] w]. exists errUnimplemented. reflexivity.
Defined.

Definition usage_of (disks : list DiskInfo) : NodeUsageInfo := mkNodeUsageInfo 100 60 0 100 40 disks.

Lemma shouldNodeUpdate_blind_witness :
  shouldNodeUpdate (usage_of [mkDiskInfo "/d1" 100 60 0 40 false]) (usage_of [mkDiskInfo "/d1" 100 60 0 0 true]) = Ok false /\
  shouldNodeUpdate (usage_of [mkDiskInfo "/d1" 100 60 0 40 false]) (usage_of []) = Panic "index out of range".
Proof.
  split.
  - apply (proj1 (shouldNodeUpdate_blind _ (usage_of [mkDiskInfo "/d1" 100 60 0 0 true]) ltac:(repeat split))
      [mkDiskInfo "/d1" 100 60 0 0 true] [] eq_refl).
    repeat constructor.
  - apply (proj2 (shouldNodeUpdate_blind (usage_of [mkDiskInfo "/d1" 100 60 0 40 false]) (usage_of []) ltac:(repeat split))
      [] (mkDiskInfo "/d1" 100 60 0 40 false) [] eq_refl).
    constructor.
Defined.
