(* ===== verification/SyncLoop.v ===== *)
(** * The worker's loop: pkg/csi-plugin/hostpath/syncworker.go (JitterUntil, Start)

    The loop runs a function, waits for a timer, and runs it again until a channel is
    closed.  What the runtime decides - whether the channel is closed when it is
    looked at, which of two ready channels [select] takes - is an event stream; the
    timer is modelled with its channel, so that a receive that would block for ever is
    seen.  The rest of the file is about what the rounds achieve. *)

From S2P Require Import Prelude IdLocker GoStrings VolId Os SimOs Util Allocator QuotaProvider QuotaManager HeldVolumes.
From S2P Require Import MetaStore HostPathApi SyncWorker.
Open Scope Z_scope.
Open Scope go_scope.

(** ** time.Timer *)

(** Whether the timer is active, and whether its channel of capacity one holds a time. *)
Record Timer := mkTimer { t_active : bool; t_full : bool }.

Definition NewTimer : Timer := mkTimer true false.
(** [Stop]: whether the call stopped an active timer *)
Definition timer_Stop (t : Timer) : bool * Timer := (t_active t, mkTimer false (t_full t)).
Definition timer_Reset (t : Timer) : Timer := mkTimer true (t_full t).
(** The timer expires: the runtime sends on the channel, unless it is full. *)
Definition timer_fire (t : Timer) : Timer := if t_active t then mkTimer false true else t.
(** [<-t.C] of a stopped timer: [None] when the goroutine waits for ever *)
Definition timer_drain (t : Timer) : option Timer := if t_full t then Some (mkTimer (t_active t) false) else None.

(** [resetOrReuseTimer]; [None]: it never returns *)
Definition resetOrReuseTimer (t : option Timer) (sawTimeout : bool) : option Timer :=
  match t with
  | None => Some NewTimer
  | Some t =>
      let '(stopped, t) := timer_Stop t in
      match (if negb stopped && negb sawTimeout then timer_drain t else Some t) with
      | Some t => Some (timer_Reset t)
      | None => None
      end
  end.

(** ** The loop *)

(** One turn of the loop: whether [stopCh] is closed at its head, and which case the
    second [select] takes. *)
Inductive wake := StopClosed | TimerFired.
Record turn := mkTurn { head_closed : bool; turn_wake : wake }.

Inductive loop_end := Returned | Waiting | BlockedForEver.

Section loop.
Context {S : Type} (f : M S unit).

Fixpoint jitter_loop (t : option Timer) (sawTimeout : bool) (turns : list turn) : M S loop_end :=
  match turns with
  | [] => ret Waiting
  | u :: turns' =>
      if head_closed u then ret Returned
      else
        f ;;
        match resetOrReuseTimer t sawTimeout with
        | None => ret BlockedForEver
        | Some t =>
            match turn_wake u with
            | StopClosed => ret Returned
            | TimerFired =>
                match timer_drain (timer_fire t) with
                | Some t => jitter_loop (Some t) true turns'
                | None => ret BlockedForEver
                end
            end
        end
  end.

Definition JitterUntil (turns : list turn) : M S loop_end := jitter_loop None false turns.
End loop.

(** [Start]: the channel that it makes is never closed, and its period only sets the
    timer. *)
Definition Start {S} (f : M S unit) (firings : nat) : M S loop_end :=
  JitterUntil f (replicate firings (mkTurn false TimerFired)).

(** ** What the loop does *)

(** How often [f] is run: up to the first turn at whose head the channel is closed, or
    in which the second [select] sees it closed. *)
Fixpoint runs (turns : list turn) : nat :=
  match turns with
  | [] => 0
  | u :: turns' => if head_closed u then 0 else match turn_wake u with StopClosed => 1 | TimerFired => Datatypes.S (runs turns') end
  end.

Definition ends (turns : list turn) : loop_end :=
  if existsb (fun u => head_closed u || match turn_wake u with StopClosed => true | TimerFired => false end) turns
  then Returned else Waiting.

(** [f] run [n] times, one after the other. *)
Fixpoint times {S} (n : nat) (f : M S unit) : M S unit :=
  match n with O => ret tt | Datatypes.S n' => f ;; times n' f end.

(** The timer that the loop reuses is one that has expired and was received from, so
    that the drain is never reached. *)
Lemma reuse_never_blocks : forall sawTimeout t,
  (t = None \/ (sawTimeout = true /\ t = Some (mkTimer false false))) ->
  exists t', resetOrReuseTimer t sawTimeout = Some t' /\ timer_drain (timer_fire t') = Some (mkTimer false false).
Proof. intros saw t [-> | [-> ->]]; by eexists. Qed.

Lemma jitter_loop_runs {S} (f : M S unit) turns : forall t sawTimeout s,
  (t = None \/ (sawTimeout = true /\ t = Some (mkTimer false false))) ->
  jitter_loop f t sawTimeout turns s = (let! _ := times (runs turns) f in ret (ends turns)) s.
Proof.
  induction turns as [|[closed w] turns IH]; intros t saw s Ht; [done |]. cbn [jitter_loop runs head_closed turn_wake].
  unfold ends. cbn [existsb head_closed turn_wake]. destruct closed; [done |].
  destruct (reuse_never_blocks saw t Ht) as (t' & -> & Hd). destruct w; cbn [orb times].
  - unfold bind, ret. by destruct (f s) as [[[] | e | y] s1].
  - rewrite Hd. fold (ends turns). unfold bind at 1 2 3. destruct (f s) as [[[] | e | y] s1]; [| done..].
    rewrite (IH (Some (mkTimer false false)) true s1) by by right. done.
Qed.

(** C40: The loop does what its comment says, for every behaviour of the channel and the
    timer: it runs [f] once per turn until it finds the channel closed, and then
    returns - at once when the channel is closed from the start, without a run; a turn
    without a close is one more run; and it never waits for a timer
    that will not fire.  The channel that [Start] makes is never closed: after any
    number of firings of the timer the worker has run that many rounds and waits for
    the next, unless a round panics, which ends the process. *)
Theorem JitterUntil_spec {S} (f : M S unit) turns s :
  JitterUntil f turns s = (let! _ := times (runs turns) f in ret (ends turns)) s /\
  (forall n, Start f n s = (let! _ := times n f in ret Waiting) s) /\
  (forall u turns', turns = u :: turns' -> head_closed u = true -> JitterUntil f turns s = (Ok Returned, s)) /\
  (JitterUntil f turns s).1 <> Ok BlockedForEver.
Proof.
  assert (Hrun : forall us t, JitterUntil f us t = (let! _ := times (runs us) f in ret (ends us)) t)
    by (intros us t; apply jitter_loop_runs; by left).
  split_and!.
  - apply Hrun.
  - intros n. unfold Start. rewrite Hrun.
    assert (En : runs (replicate n (mkTurn false TimerFired)) = n) by (induction n; cbn; congruence).
    assert (Ee : ends (replicate n (mkTurn false TimerFired)) = Waiting).
    { unfold ends. clear. induction n as [|n IH]; [done |]. cbn [replicate existsb head_closed turn_wake orb]. exact IH. }
    by rewrite En, Ee.
  - intros u turns' -> Hu. unfold JitterUntil. cbn [jitter_loop]. by rewrite Hu.
  - rewrite Hrun. unfold bind. destruct (times (runs turns) f s) as [[[] | e | y] s']; [| done..].
    unfold ret, ends. cbn. by destruct (existsb _ turns).
Qed.

Example three_turns :
  JitterUntil (modify (fun n : nat => Datatypes.S n)) [mkTurn false TimerFired; mkTurn false TimerFired; mkTurn true TimerFired] 0%nat
    = (Ok Returned, 2%nat).
Proof. reflexivity. Qed.

(** ** What the rounds achieve *)

Section rounds.
Context {Q W : Type} `{QuotaManagerLists Q W} `{MetaStoreInterFace W} `{HostPathClientInterface W}.
Implicit Types s : SyncWorker Q * W.

Definition sw_held s : gset string := held (sw_quotaMng s.1).
Definition sw_ok s : Prop := ids_ok (sw_quotaMng s.1).

Lemma sw_manager_run {A} (m : M (Q * W) A) s r s' :
  sw_manager m s = (r, s') -> m (sw_quotaMng s.1, s.2) = (r, (sw_quotaMng s'.1, s'.2)) /\
    shouldDeleteVolIds s'.1 = shouldDeleteVolIds s.1.
Proof. unfold sw_manager, zoom. destruct (m _) as [r1 [q w]]. by intros [= <- <-]. Qed.

(** Neither the volumes held nor the retry list changes. *)
Definition calm {A} (m : M (SyncWorker Q * W) A) : Prop :=
  forall D l, preserves (fun s => sw_ok s /\ sw_held s = D /\ shouldDeleteVolIds s.1 = l) m.

Lemma calm_manager {A} (m : M (Q * W) A) :
  (forall q w r q' w', ids_ok q -> m (q, w) = (r, (q', w')) -> ids_ok q' /\ held q' = held q) -> calm (sw_manager m).
Proof.
  intros Hm D l s (Hok & Hd & Hl). destruct (sw_manager m s) as [r s'] eqn:E. apply sw_manager_run in E as [E Hr].
  apply Hm in E as [Hi Hh]; [| exact Hok]. cbn. unfold sw_ok, sw_held. rewrite Hh, Hr. done.
Qed.

Lemma calm_world {A} (m : M W A) : calm (sw_world m).
Proof. intros D l s Hs. unfold sw_world, zoom. by destruct (m s.2). Qed.

Lemma calm_bind {A B} (m : M (SyncWorker Q * W) A) (f : A -> M (SyncWorker Q * W) B) :
  calm m -> (forall a, calm (f a)) -> calm (bind m f).
Proof. intros Hm Hf D l. apply preserves_bind; [apply Hm | intros a; apply Hf]. Qed.

Lemma calm_attempt {A} (m : M (SyncWorker Q * W) A) : calm m -> calm (attempt m).
Proof. intros Hm D l. apply preserves_attempt, Hm. Qed.

Lemma calm_ret {A} (a : A) : calm (ret a).
Proof. by intros D l s Hs. Qed.
Lemma calm_gets {A} (g : SyncWorker Q * W -> A) : calm (gets g).
Proof. by intros D l s Hs. Qed.
Lemma calm_lift {A} (o : outcome A) : calm (lift o).
Proof. by intros D l s Hs. Qed.
Lemma calm_for_each {A} (xs : list A) f : (forall x, calm (f x)) -> calm (for_each xs f).
Proof. intros Hf D l. apply preserves_for_each. intros x _. apply Hf. Qed.

#[local] Create HintDb calm.
#[local] Hint Resolve calm_world calm_bind calm_attempt calm_ret calm_gets calm_lift calm_for_each : calm.

Lemma calm_usage infos : calm (syncQuotaPathUsage infos).
Proof.
  induction infos as [|info infos IH]; cbn [syncQuotaPathUsage]; [auto with calm |].
  apply calm_bind; [auto with calm |]. intros cache. apply calm_bind; [| intros _; exact IH].
  destruct (shouldUpdate cache info); [| auto with calm].
  apply calm_bind; [auto with calm |]. intros [hpv|]; [| auto with calm].
  apply calm_bind; [auto with calm |]. intros node. apply calm_bind; [auto with calm |]. intros _.
  intros D l s Hs. exact Hs.
Qed.

Lemma calm_disabled disks disk : calm (sync_disabled disks disk).
Proof.
  assert (Hset : forall b, calm (attempt (sw_manager (SetQuotaDiskDisabledState (disk_MountPoint disk) b)) ;; ret tt)).
  { intros b. apply calm_bind; [| auto with calm]. apply calm_attempt, calm_manager. intros. by eapply disable_law. }
  unfold sync_disabled. case_decide; destruct (disk_Disabled disk); auto with calm.
Qed.

Lemma calm_node_status disks : calm (syncNodeQuotaStatus disks).
Proof.
  apply calm_bind; [auto with calm |]. intros name. apply calm_bind; [auto with calm |]. intros node.
  apply calm_bind; [apply calm_for_each; intros; apply calm_disabled |]. intros _.
  apply calm_bind; [auto with calm |]. intros old. apply calm_bind; [auto with calm |]. intros b.
  destruct b; [| auto with calm]. apply calm_bind; [auto with calm |]. intros _ D l s Hs. exact Hs.
Qed.

(** A loop of releases: fewer volumes are held, and each one tried is gone or failed. *)
Lemma release_all_held vs : forall s failed s', sw_ok s -> release_all vs s = (Ok failed, s') ->
  sw_ok s' /\ sw_held s' ⊆ sw_held s /\ (forall v, v ∈ vs -> v ∈ sw_held s' -> v ∈ failed).
Proof.
  induction vs as [|v vs IH]; intros s failed s' Hok E; cbn [release_all] in E.
  - injection E as <- <-. split_and!; [done | done |]. intros v Hv. by apply not_elem_of_nil in Hv.
  - apply bind_Ok in E as (err & s1 & E1 & E). apply bind_Ok in E as (fl & s2 & E2 & E). injection E as <- <-.
    unfold attempt in E1. destruct (sw_manager (ReleaseVolumePath v) s) as [r t] eqn:Er.
    apply sw_manager_run in Er as [Er _]. apply release_law in Er as [Hi Hh]; [| exact Hok].
    destruct r as [[] | e | y]; [| | done]; injection E1 as <- <-; (destruct (IH _ _ _ Hi E2) as (Hok2 & Hsub & Hin));
      unfold sw_held in *; rewrite Hh in Hsub; (split; [done |]).
    + split; [set_solver |]. intros u [-> | Hu]%elem_of_cons Hheld; [set_solver | by apply Hin].
    + split; [done |]. intros u [-> | Hu]%elem_of_cons Hheld; [by left | right; by apply Hin].
Qed.

Lemma calm_run {A} (m : M (SyncWorker Q * W) A) s r s' : calm m -> sw_ok s -> m s = (r, s') ->
  sw_ok s' /\ sw_held s' = sw_held s /\ shouldDeleteVolIds s'.1 = shouldDeleteVolIds s.1.
Proof.
  intros Hm Hok E. specialize (Hm (sw_held s) (shouldDeleteVolIds s.1) s (conj Hok (conj eq_refl eq_refl))).
  by rewrite E in Hm.
Qed.

(** What a cleaning that begins in [s] reads from the meta store, after its retries. *)
Definition listed_by s (metaInfos : gmap string string) : Prop :=
  exists w', ListMetaInfos (release_all (shouldDeleteVolIds s.1) s).2.2 = (Ok metaInfos, w').

(** A cleaning, whether it succeeds or not. *)
Lemma clean_held infos s r s' : sw_ok s -> cleanOrphanQuotaPath infos s = (r, s') -> (forall y, r <> Panic y) ->
  sw_ok s' /\ sw_held s' ⊆ sw_held s /\
  (r = Ok tt -> exists metaInfos, listed_by s metaInfos /\
     forall v, v ∈ sw_held s' ->
       (v ∈ shouldDeleteVolIds s.1 -> v ∈ shouldDeleteVolIds s'.1) /\
       ((exists info, info ∈ infos /\ path_VolumeId info = v) -> is_Some (metaInfos !! v) \/ v ∈ shouldDeleteVolIds s'.1)).
Proof.
  intros Hok E Hnp. unfold cleanOrphanQuotaPath, bind at 1, gets in E. unfold bind at 1 in E.
  destruct (release_all (shouldDeleteVolIds s.1) s) as [[failed1 | e | y] s1] eqn:E1.
  2: { by destruct (release_all_no_fail _ _ _ _ E1). }
  2: { injection E as <- _. by destruct (Hnp y). }
  destruct (release_all_held _ _ _ _ Hok E1) as (Hok1 & Hsub1 & Hin1).
  unfold bind at 1 in E. destruct (sw_world ListMetaInfos s1) as [rm s2] eqn:Em.
  destruct (calm_run _ _ _ _ (calm_world ListMetaInfos) Hok1 Em) as (Hok2 & Hh2 & _).
  unfold sw_world, zoom in Em. destruct (ListMetaInfos s1.2) as [rm' w2] eqn:El. injection Em as -> <-.
  destruct rm as [metaInfos | e | y].
  2: { injection E as <- <-. split_and!; [done | set_solver | done]. }
  2: { injection E as <- _. by destruct (Hnp y). }
  unfold bind in E. destruct (release_all (orphans metaInfos infos) _) as [[failed3 | e | y] s3] eqn:E3.
  2: { by destruct (release_all_no_fail _ _ _ _ E3). }
  2: { injection E as <- _. by destruct (Hnp y). }
  destruct (release_all_held _ _ _ _ Hok2 E3) as (Hok3 & Hsub3 & Hin3).
  unfold set_shouldDelete, modify in E. injection E as <- <-.
  split; [done |]. unfold sw_held in *. cbn [fst snd sw_quotaMng shouldDeleteVolIds] in *. split; [set_solver |].
  intros _. exists metaInfos. split; [exists w2; by rewrite E1 |]. intros v Hv. split.
  - intros Hr. apply elem_of_app. left. apply Hin1; [done | set_solver].
  - intros (info & Hinfo & Hid). destruct (metaInfos !! v) eqn:Hm; [by left |]. right. apply elem_of_app. right.
    apply Hin3; [| done]. unfold orphans. apply list_elem_of_filter. split; [done |]. apply list_elem_of_fmap.
    by exists info.
Qed.

Lemma populator_tail infos s r s' : sw_ok s ->
  (attempt (syncQuotaPathUsage infos) ;;
   (let! diskInfo := attempt (sw_manager ListQuotaDiskInfos) in
    let diskInfo := match diskInfo with inl l => l | inr _ => [] end in
    attempt (syncNodeQuotaStatus diskInfo) ;; ret tt)) s = (r, s') ->
  sw_ok s' /\ sw_held s' = sw_held s /\ shouldDeleteVolIds s'.1 = shouldDeleteVolIds s.1.
Proof.
  apply calm_run. apply calm_bind; [apply calm_attempt, calm_usage |]. intros _.
  apply calm_bind; [apply calm_attempt, calm_manager; intros; by eapply disks_law |]. intros disks.
  apply calm_bind; [apply calm_attempt, calm_node_status |]. auto with calm.
Qed.

(** A round without a panic: what is held can only become less, and when the two lists
    could be read, whatever is still held is recorded or on the retry list. *)
Lemma round_held s s' : sw_ok s -> populatorLoopFunc s = (Ok tt, s') ->
  sw_ok s' /\ sw_held s' ⊆ sw_held s /\
  forall infos s1 s2, sw_manager ListPathQuotaInfos s = (Ok infos, s1) -> cleanOrphanQuotaPath infos s1 = (Ok tt, s2) ->
    exists metaInfos, listed_by s1 metaInfos /\
      forall v, v ∈ sw_held s' -> is_Some (metaInfos !! v) \/ v ∈ shouldDeleteVolIds s'.1.
Proof.
  intros Hok E. unfold populatorLoopFunc in E. unfold bind at 1, attempt at 1 in E.
  destruct (sw_manager ListPathQuotaInfos s) as [r1 s1] eqn:E1. pose proof E1 as E1'. apply sw_manager_run in E1' as [E1' Hr1].
  pose proof (list_law _ _ _ _ _ Hok E1') as (Hok1 & Hh1 & _).
  assert (Htail : forall infos, (attempt (cleanOrphanQuotaPath infos) ;;
      attempt (syncQuotaPathUsage infos) ;;
      (let! diskInfo := attempt (sw_manager ListQuotaDiskInfos) in
       let diskInfo := match diskInfo with inl l => l | inr _ => [] end in
       attempt (syncNodeQuotaStatus diskInfo) ;; ret tt)) s1 = (Ok tt, s') ->
    sw_ok s' /\ sw_held s' ⊆ sw_held s /\
    forall s2, cleanOrphanQuotaPath infos s1 = (Ok tt, s2) -> exists metaInfos, listed_by s1 metaInfos /\
      forall v, v ∈ sw_held s' -> (exists info, info ∈ infos /\ path_VolumeId info = v) ->
        is_Some (metaInfos !! v) \/ v ∈ shouldDeleteVolIds s'.1).
  { intros infos Et. unfold bind at 1, attempt at 1 in Et. destruct (cleanOrphanQuotaPath infos s1) as [rc s2] eqn:Ec.
    destruct rc as [[] | e | y]; [| | done].
    - apply (clean_held infos s1 _ s2 Hok1) in Ec as (Hok2 & Hsub & Hclean); [| done].
      apply populator_tail in Et as (Hok3 & Hh3 & Hr3); [| done]. unfold sw_held in *. rewrite Hh3, Hr3.
      split_and!; [done | set_solver |]. intros s2' [= <-]. destruct (Hclean eq_refl) as (mi & Hl & Hv).
      exists mi. split; [done |]. intros v Hheld Hex. by apply (Hv v Hheld).
    - apply (clean_held infos s1 _ s2 Hok1) in Ec as (Hok2 & Hsub & _); [| done].
      apply populator_tail in Et as (Hok3 & Hh3 & Hr3); [| done]. unfold sw_held in *. rewrite Hh3.
      split_and!; [done | set_solver | done]. }
  destruct r1 as [infos | e | y]; [| | done].
  - apply Htail in E as (H1x & H2x & H3x). split_and!; [done | done |]. intros infos' s1' s2 [= <- <-] Ec.
    destruct (H3x s2 Ec) as (mi & Hl & Hv). exists mi. split; [done |]. intros v Hheld.
    apply Hv; [done |]. eapply list_complete; [exact Hok | exact E1' |]. unfold sw_held in *. set_solver.
  - apply Htail in E as (H1x & H2x & _). split_and!; [done | done |]. done.
Qed.

Lemma times_held n : forall s s', sw_ok s -> times n populatorLoopFunc s = (Ok tt, s') -> sw_ok s' /\ sw_held s' ⊆ sw_held s.
Proof.
  induction n as [|n IH]; intros s s' Hok E; cbn [times] in E; [by injection E as <- |].
  apply bind_Ok in E as ([] & s1 & E1 & E). destruct (round_held s s1 Hok E1) as (Hok1 & Hsub & _).
  destruct (IH s1 s' Hok1 E) as [? ?]. split; [done | set_solver].
Qed.

(** A round that could read both lists and released everything it tried. *)
Definition clean_round s (metaInfos : gmap string string) s' : Prop :=
  populatorLoopFunc s = (Ok tt, s') /\ shouldDeleteVolIds s'.1 = [] /\
  exists infos s1 s2, sw_manager ListPathQuotaInfos s = (Ok infos, s1) /\ cleanOrphanQuotaPath infos s1 = (Ok tt, s2) /\
    listed_by s1 metaInfos.

(** C19: The node converges to the meta store: among any number of rounds, once one of
    them can read the directories and the meta store and releases what it tries, no
    directory of a volume that is not recorded is left, and no later round brings one
    back - whatever the other rounds, before and after, succeeded in, and whatever the
    rounds report. *)
Theorem rounds_converge k m s0 s1 s2 s3 metaInfos :
  sw_ok s0 -> times k populatorLoopFunc s0 = (Ok tt, s1) -> clean_round s1 metaInfos s2 ->
  times m populatorLoopFunc s2 = (Ok tt, s3) ->
  forall v, v ∈ sw_held s3 -> is_Some (metaInfos !! v).
Proof.
  intros Hok E1 (E2 & Hretry & infos & t1 & t2 & El & Ec & Hmeta) E3 v Hv.
  destruct (times_held _ _ _ Hok E1) as [Hok1 _]. destruct (round_held _ _ Hok1 E2) as (Hok2 & _ & Hround).
  destruct (Hround _ _ _ El Ec) as (mi & [w Hl] & Hheld). destruct Hmeta as [w' Hmeta].
  rewrite Hl in Hmeta. injection Hmeta as -> _.
  destruct (times_held _ _ _ Hok2 E3) as [_ Hsub]. destruct (Hheld v) as [? | Hin]; [set_solver | done |].
  rewrite Hretry in Hin. by apply not_elem_of_nil in Hin.
Qed.
End rounds.

(** ** A run: a round that fails to read the store, a clean one, and two more *)

#[local] Instance loop_store : MetaStoreInterFace sim := {
  ListMetaInfos w := if decide (sim_clock w < 5) then (Fail (Errorf "timeout"), w) else (Ok {[ "live" := "" ]}, w);
  AddMetaInfo _ := ret tt;
  UnsetMetaInfo _ := ret tt
}.
#[local] Instance loop_client : HostPathClientInterface sim := {
  GetHostPathPVByVolumeId v := ret None;
  GetNodeByName n := ret (mkNode "1" n "" true empty_usage ∅ "Ready");
  UpdateHostPathPVUsageInfo _ _ := ret tt;
  UpdateNodeHostPathPVUsageInfo _ _ := ret tt;
  SetHostPathDiskDisableState _ _ _ := ret tt
}.

Definition loop_worker : SyncWorker manager * sim := (mkSyncWorker [] "node1" ∅ empty_usage placed.1, placed.2).
Definition loop1 : SyncWorker manager * sim := (populatorLoopFunc loop_worker).2.
Definition loop2 : SyncWorker manager * sim := (populatorLoopFunc loop1).2.
Definition loop4 : SyncWorker manager * sim := (times 2 populatorLoopFunc loop2).2.
Definition loop_infos : list PathQuotaInfo := match (sw_manager ListPathQuotaInfos loop1).1 with Ok l => l | _ => [] end.
Definition loop_listed : SyncWorker manager * sim := (sw_manager ListPathQuotaInfos loop1).2.
Definition loop_cleaned : SyncWorker manager * sim := (cleanOrphanQuotaPath loop_infos loop_listed).2.

Lemma placed_keyed : keyed (quotas placed.1).
Proof.
  assert (E : quotas placed.1 = {[ "v1" := mkPathQuotaInfo "/pool/d1/k8squota_v1" "/dev/vdb" (mkQuota 3000000 3000000 0) 1 "v1" ]})
    by (vm_compute; reflexivity).
  rewrite E. by apply map_Forall_singleton.
Qed.

Lemma loop_clean : clean_round loop1 {[ "live" := "" ]} loop2.
Proof.
  unfold clean_round. split; [vm_compute; reflexivity |]. split; [vm_compute; reflexivity |].
  exists loop_infos, loop_listed, loop_cleaned. split; [vm_compute; reflexivity |]. split; [vm_compute; reflexivity |].
  exists loop_listed.2. vm_compute; reflexivity.
Qed.

Lemma rounds_converge_witness :
  quotas (sw_quotaMng loop1.1) !! "v1" <> None /\
  forall v, v ∈ sw_held loop4 -> is_Some (({[ "live" := "" ]} : gmap string string) !! v).
Proof.
  split; [by vm_compute |].
  apply (rounds_converge 1 2 loop_worker loop1 loop2 loop4 {[ "live" := "" ]}).
  - exact placed_keyed.
  - vm_compute; reflexivity.
  - exact loop_clean.
  - vm_compute; reflexivity.
Defined.

(** A round can end in a panic, and with it the process: a disk that is gone from an
    unchanged total. *)
Definition loop_panics : SyncWorker manager * sim :=
  (mkSyncWorker [] "node1" ∅ (mkNodeUsageInfo 0 0 0 0 0 [mkDiskInfo "/pool/d9" 0 0 0 0 false]) no_manager, sim_empty).
Example round_panics : exists y, (populatorLoopFunc loop_panics).1 = Panic y.
Proof. eexists. vm_compute. reflexivity. Qed.
