(* ===== verification/LifeCycle.v ===== *)
(** * The life of a volume across the processes

    The controller server, the node server and the sync worker of a node work on a
    volume concurrently: the controller records it, the node server gives it a
    directory, the controller forgets it, and the worker, which lists directories and
    recorded volumes at different moments, releases the directory.  This file puts
    them into one system, in which the worker's cleaning advances one call at a time,
    and shows that it refines a small abstract machine on sets of volumes. *)

From S2P Require Import Prelude IdLocker GoStrings VolId Os SimOs Util Allocator QuotaProvider QuotaManager HeldVolumes.
From S2P Require Import Csi CsiCommon Locked MetaStore ControllerServer HostPathApi NodeServer SyncWorker.
Open Scope Z_scope.
Open Scope go_scope.

(** ** The abstract machine *)

(** The volumes that exist, those that have a directory on the node, and those that
    were deleted. *)
Record volumes_state := mkVolumes { live : gset string; placed : gset string; gone : gset string }.

(** [NodeUnpublishVolume] releases volumes whose id says so. *)
Definition ephemeral_id (v : string) : bool :=
  match DecomposeCSIID v (mkCSIIdentifier 0 false "") with (Ok _, vi) => Ephemeral vi | _ => false end.

Inductive vol_step : volumes_state -> volumes_state -> Prop :=
  | vol_create v a : v ∉ gone a -> vol_step a (mkVolumes ({[ v ]} ∪ live a) (placed a) (gone a))
  | vol_delete v a : vol_step a (mkVolumes (live a ∖ {[ v ]}) (placed a) ({[ v ]} ∪ gone a))
  | vol_place v a : v ∈ live a -> vol_step a (mkVolumes (live a) ({[ v ]} ∪ placed a) (gone a))
  | vol_drop v a : ephemeral_id v = true -> vol_step a (mkVolumes (live a) (placed a ∖ {[ v ]}) (gone a))
  | vol_collect v a : v ∈ gone a -> vol_step a (mkVolumes (live a) (placed a ∖ {[ v ]}) (gone a))
  | vol_stutter a : vol_step a a.

Definition vol_ok (a : volumes_state) : Prop := live a ## gone a /\ placed a ⊆ live a ∪ gone a.

Lemma vol_step_ok a a' : vol_ok a -> vol_step a a' -> vol_ok a'.
Proof.
  intros [Hd Hp] Hs. destruct Hs; split; cbn; try set_solver.
  intros x Hx. destruct (decide (x = v)) as [-> |]; set_solver.
Qed.

(** What the abstract machine is for: a durable volume that exists keeps its directory. *)
Lemma vol_step_keeps a a' v :
  vol_ok a -> vol_step a a' -> ephemeral_id v = false -> v ∈ live a -> v ∈ placed a -> v ∈ placed a'.
Proof.
  intros [Hd _] Hs He Hl Hp. destruct Hs; cbn; [done | done | set_solver | | | done].
  - apply elem_of_difference. split; [done |]. intros ->%elem_of_singleton. congruence.
  - apply elem_of_difference. split; [done |]. intros ->%elem_of_singleton. set_solver.
Qed.

(** ** The system *)

(** Where the worker is in [cleanOrphanQuotaPath]: before it, in the loop over the
    retry list, before the list of the meta store, in the loop over the orphans. *)
Inductive worker_phase :=
  | Resting
  | Retrying (infos : list PathQuotaInfo) (todo failed : list string)
  | Listing (infos : list PathQuotaInfo) (failed : list string)
  | Cleaning (todo failed : list string).

Record system (Q Wn Wm : Type) := mkSystem {
  sys_controller : ControllerServer * Wm;
  sys_node : NodeServer Q * Wn;
  sys_retry : list string;
  sys_phase : worker_phase;
  (** the ids for which [DeleteVolume] succeeded *)
  sys_deleted : gset string
}.
Arguments mkSystem {Q Wn Wm}.
Arguments sys_controller {Q Wn Wm}.
Arguments sys_node {Q Wn Wm}.
Arguments sys_retry {Q Wn Wm}.
Arguments sys_phase {Q Wn Wm}.
Arguments sys_deleted {Q Wn Wm}.

Section system.
Context {Q Wn Wm : Type} `{QuotaManagerInterface Q Wn} `{OS Wn} `{HostPathClientInterface Wn} `{MetaStoreLaws Wm}.

(** The volume that a [NodePublishVolume] finds in the cluster, if it gets that far. *)
Definition publishes (req : NodePublishVolumeRequest) (node : NodeServer Q * Wn) (volume : PersistentVolume) : Prop :=
  exists s1 s2, target_notMnt (np_TargetPath req) (with_lock (np_VolumeId req) node) = (Ok true, s1) /\
    srv_world (GetHostPathPVByVolumeId (np_VolumeId req)) s1 = (Ok (Some volume), s2).

(** A call of the worker on the node's quota manager. *)
Definition manager_call {A} (m : M (Q * Wn) A) (node : NodeServer Q * Wn) : outcome A * (NodeServer Q * Wn) :=
  srv_manager m node.

(** What a release leaves in the list of failures; a panic ends the process. *)
Definition note_failure (v : string) (r : outcome unit) (failed : list string) : option (list string) :=
  match r with Ok _ => Some failed | Fail _ => Some (failed ++ [v]) | Panic _ => None end.

(** The volumes that the controller has recorded. *)
Definition existing (c : ControllerServer * Wm) : gset string := dom (default ∅ (meta c)).

(** The calls of the three servers.  The environment deletes what it likes, does not
    create an id again after deleting it, and publishes volumes that exist. *)
Inductive sys_step : system Q Wn Wm -> system Q Wn Wm -> Prop :=
  | step_create req c n rt ph dl r c' :
      CreateVolume req c = (r, c') ->
      (forall vol, r = Ok vol -> vol_VolumeId vol ∉ dl) ->
      sys_step (mkSystem c n rt ph dl) (mkSystem c' n rt ph dl)
  | step_delete req c n rt ph dl r c' :
      DeleteVolume req c = (r, c') ->
      sys_step (mkSystem c n rt ph dl)
        (mkSystem c' n rt ph (match r with Ok _ => {[ dv_VolumeId req ]} ∪ dl | _ => dl end))
  | step_publish req c n rt ph dl r n' :
      NodePublishVolume req n = (r, n') ->
      (forall volume, publishes req n volume -> pv_volId volume ∈ existing c) ->
      sys_step (mkSystem c n rt ph dl) (mkSystem c n' rt ph dl)
  | step_unpublish req c n rt ph dl r n' :
      NodeUnpublishVolume req n = (r, n') ->
      sys_step (mkSystem c n rt ph dl) (mkSystem c n' rt ph dl)
  | step_expand req c n rt ph dl r n' :
      NodeExpandVolume req n = (r, n') ->
      sys_step (mkSystem c n rt ph dl) (mkSystem c n' rt ph dl)
  | step_list c n rt dl r n' :
      manager_call ListPathQuotaInfos n = (r, n') ->
      (forall y, r <> Panic y) ->
      sys_step (mkSystem c n rt Resting dl)
        (mkSystem c n' rt (Retrying (match r with Ok infos => infos | _ => [] end) rt []) dl)
  | step_retry infos v todo failed failed' c n rt dl r n' :
      manager_call (ReleaseVolumePath v) n = (r, n') -> note_failure v r failed = Some failed' ->
      sys_step (mkSystem c n rt (Retrying infos (v :: todo) failed) dl)
        (mkSystem c n' rt (Retrying infos todo failed') dl)
  | step_retried infos failed c n rt dl :
      sys_step (mkSystem c n rt (Retrying infos [] failed) dl) (mkSystem c n rt (Listing infos failed) dl)
  | step_meta infos failed c n rt dl m w :
      ListMetaInfos c.2 = (Ok m, w) ->
      sys_step (mkSystem c n rt (Listing infos failed) dl)
        (mkSystem (c.1, w) n rt (Cleaning (orphans m infos) failed) dl)
  | step_meta_error infos failed c n rt dl e w :
      ListMetaInfos c.2 = (Fail e, w) ->
      sys_step (mkSystem c n rt (Listing infos failed) dl) (mkSystem (c.1, w) n rt Resting dl)
  | step_clean v todo failed failed' c n rt dl r n' :
      manager_call (ReleaseVolumePath v) n = (r, n') -> note_failure v r failed = Some failed' ->
      sys_step (mkSystem c n rt (Cleaning (v :: todo) failed) dl)
        (mkSystem c n' rt (Cleaning todo failed') dl)
  | step_cleaned failed c n rt dl :
      sys_step (mkSystem c n rt (Cleaning [] failed) dl) (mkSystem c n failed Resting dl)
  | step_disks c n rt ph dl r n' :
      manager_call ListQuotaDiskInfos n = (r, n') ->
      sys_step (mkSystem c n rt ph dl) (mkSystem c n' rt ph dl)
  | step_disable mountPoint disabled c n rt ph dl r n' :
      manager_call (SetQuotaDiskDisabledState mountPoint disabled) n = (r, n') ->
      sys_step (mkSystem c n rt ph dl) (mkSystem c n' rt ph dl).
End system.

(** ** What the handlers of a node do to the quota manager *)

Section node_calls.
Context {Q W : Type} `{QuotaManagerInterface Q W} `{OS W} `{HostPathClientInterface W}.
Implicit Types s : NodeServer Q * W.

Definition mgr s : Q := srv_quotaMng s.1.

Lemma srv_world_mgr {A} (m : M W A) s r s' : srv_world m s = (r, s') -> mgr s' = mgr s.
Proof. unfold srv_world, zoom. destruct (m s.2). by intros [= _ <-]. Qed.

Lemma srv_manager_run {A} (m : M (Q * W) A) s r s' :
  srv_manager m s = (r, s') -> m (mgr s, s.2) = (r, (mgr s', s'.2)) /\ get_locks s' = get_locks s.
Proof. unfold srv_manager, zoom, mgr. destruct (m _) as [r1 [q w]]. by intros [= <- <-]. Qed.

Lemma locked_mgr {A} id (body : M (NodeServer Q * W) A) s r s' :
  locked id body s = (r, s') -> mgr s' = mgr s \/ exists s1, body (with_lock id s) = (r, s1) /\ mgr s' = mgr s1.
Proof.
  destruct (decide (id ∈ vl_locks (get_locks s))).
  - rewrite locked_busy by done. intros [= _ <-]. by left.
  - rewrite locked_free by done. destruct (body _) as [r1 s1]. intros [= <- <-]. right. by exists s1.
Qed.

Lemma map_error_run {S A} (f : error -> error) (m : M S A) (t : S) r (t' : S) :
  map_error f m t = (r, t') -> exists r0, m t = (r0, t') /\ (forall y, r0 = Panic y <-> r = Panic y) /\ (forall a, r0 = Ok a <-> r = Ok a).
Proof.
  unfold map_error. destruct (m t) as [[a | e | y] s1]; intros [= <- <-]; eexists; (split; [done |]); by split.
Qed.

(** Keeps the manager, whatever happens. *)
Definition keeps_mgr {A} (m : M (NodeServer Q * W) A) : Prop := forall s r s', m s = (r, s') -> mgr s' = mgr s.

Lemma keeps_mgr_world {A} (m : M W A) : keeps_mgr (srv_world m).
Proof. intros s r s'. apply srv_world_mgr. Qed.

Lemma keeps_mgr_ret {A} (a : A) : keeps_mgr (ret a).
Proof. by intros s r s' [= _ <-]. Qed.

Lemma keeps_mgr_fail {A} e : keeps_mgr (fail (A := A) e).
Proof. by intros s r s' [= _ <-]. Qed.

Lemma keeps_mgr_bind {A B} (m : M (NodeServer Q * W) A) (f : A -> M (NodeServer Q * W) B) :
  keeps_mgr m -> (forall a, keeps_mgr (f a)) -> keeps_mgr (bind m f).
Proof.
  intros Hm Hf s r s'. unfold bind. destruct (m s) as [[a | e | y] s1] eqn:E.
  - intros E'. rewrite (Hf _ _ _ _ E'). by eapply Hm.
  - intros [= _ <-]. by eapply Hm.
  - intros [= _ <-]. by eapply Hm.
Qed.

Lemma keeps_mgr_target p : keeps_mgr (target_notMnt p).
Proof.
  apply keeps_mgr_bind; [apply keeps_mgr_world |]. intros [b | e]; [apply keeps_mgr_ret |].
  destruct (IsNotExist e); [| apply keeps_mgr_fail].
  apply keeps_mgr_bind; [apply keeps_mgr_world |]. intros _. apply keeps_mgr_ret.
Qed.

(** A sequence either ends in its first part or runs its second. *)
Lemma bind_cases {A B} (m : M (NodeServer Q * W) A) (f : A -> M (NodeServer Q * W) B) s r s' :
  bind m f s = (r, s') -> (m s).2 = s' \/ exists a s1, m s = (Ok a, s1) /\ f a s1 = (r, s').
Proof.
  unfold bind. destruct (m s) as [[a | e | y] s1]; [right; by exists a, s1 | intros [= _ <-]; by left..].
Qed.

Lemma keeps_mgr_run {A} (m : M (NodeServer Q * W) A) s : keeps_mgr m -> mgr (m s).2 = mgr s.
Proof. intros Hm. destruct (m s) as [r s'] eqn:E. by eapply Hm. Qed.

(** Publishing is at most one placement, of the volume found. *)
Lemma publish_calls req s r s' :
  NodePublishVolume req s = (r, s') ->
  mgr s' = mgr s \/
  exists volume w1 rr w2, publishes req s volume /\
    GetVolumeQuotaPath (pv_volId volume) (pv_capacity volume) (mgr s, w1) = (rr, (mgr s', w2)).
Proof.
  unfold NodePublishVolume, bind at 1. destruct (ValidateNodePublishVolumeRequest req) as [e|]; cbn [reject];
    [by intros [= _ <-]; left |].
  unfold ret at 1. intros E. apply locked_mgr in E as [E | (s1 & E & Hs1)]; [by left |]. rewrite Hs1. clear Hs1 s'.
  assert (Hlock : mgr (with_lock (np_VolumeId req) s) = mgr s) by done. rewrite <- Hlock.
  unfold publishes. set (s0 := with_lock _ s) in *.
  unfold bind at 1 in E. destruct (target_notMnt _ s0) as [[b | e | y] s2] eqn:Et;
    pose proof (keeps_mgr_target _ _ _ _ Et) as Hs2; [| injection E as <- <-; by left..].
  destruct b; cbn [negb] in E; [| injection E as <- <-; by left].
  unfold bind at 1 in E. destruct (srv_world (GetHostPathPVByVolumeId _) s2) as [[[volume|] | e | y] s3] eqn:Ev;
    pose proof (srv_world_mgr _ _ _ _ Ev) as Hs3; [| injection E as <- <-; left; congruence..].
  unfold bind at 1 in E. destruct (srv_manager _ s3) as [[path | e | y] s4] eqn:Em;
    apply srv_manager_run in Em as [Em _]; right.
  - apply srv_world_mgr in E. exists volume, s3.2, (Ok path), s4.2. split; [by exists s2, s3 |].
    rewrite E, <- Hs2, <- Hs3. exact Em.
  - injection E as <- <-. exists volume, s3.2, (Fail e), s4.2. split; [by exists s2, s3 |]. by rewrite <- Hs2, <- Hs3.
  - injection E as <- <-. exists volume, s3.2, (Panic y), s4.2. split; [by exists s2, s3 |]. by rewrite <- Hs2, <- Hs3.
Qed.

(** Unpublishing is at most one release, of an ephemeral volume. *)
Lemma unpublish_calls req s r s' :
  NodeUnpublishVolume req s = (r, s') ->
  mgr s' = mgr s \/
  ephemeral_id (un_VolumeId req) = true /\
  exists w1 rr w2, ReleaseVolumePath (un_VolumeId req) (mgr s, w1) = (rr, (mgr s', w2)).
Proof.
  unfold NodeUnpublishVolume, bind at 1. destruct (ValidateNodeUnpublishVolumeRequest req) as [e|]; cbn [reject];
    [by intros [= _ <-]; left |].
  unfold ret at 1. unfold bind at 1, decode_volume_id, ephemeral_id.
  destruct (DecomposeCSIID _ _) as [[[] | e | y] vi]; [| by intros [= _ <-]; left..].
  intros E. apply locked_mgr in E as [E | (s1 & E & Hs1)]; [by left |]. rewrite Hs1. clear Hs1 s'.
  assert (Hlock : mgr (with_lock (un_VolumeId req) s) = mgr s) by done. rewrite <- Hlock.
  set (s0 := with_lock _ s) in *. unfold bind at 1 in E.
  destruct (srv_world (attempt _) s0) as [[b | e | y] s2] eqn:Et; pose proof (srv_world_mgr _ _ _ _ Et) as Hs2;
    [| injection E as <- <-; by left..].
  destruct b as [b | e]; [| left; destruct (IsNotExist e); injection E as <- <-; done].
  unfold unpublish_existing in E.
  assert (Hum : keeps_mgr (if negb b then srv_world (map_error internal (sys_write (mount_Unmount (un_TargetPath req))))
                           else ret tt)) by (destruct (negb b); [apply keeps_mgr_world | apply keeps_mgr_ret]).
  apply bind_cases in E as [<- | ([] & s3 & Eu & E)]; [left; by rewrite keeps_mgr_run |]. apply Hum in Eu.
  destruct (Ephemeral vi).
  - right. split; [done |]. rewrite <- Hs2, <- Eu.
    unfold bind in E. destruct (map_error internal _ s3) as [r4 s4] eqn:Er. apply map_error_run in Er as (r0 & Er & Hp & Ho).
    apply srv_manager_run in Er as [Er _]. exists s3.2, r0, s4.2.
    destruct r4 as [[] | e | y]; [| by injection E as <- <-..]. apply srv_world_mgr in E. by rewrite E.
  - left. unfold bind, ret in E. apply srv_world_mgr in E. congruence.
Qed.

Lemma expand_calls req s r s' :
  NodeExpandVolume req s = (r, s') ->
  mgr s' = mgr s \/
  exists capacity w1 rr w2, ExpandVolume (ne_VolumeId req) capacity (mgr s, w1) = (rr, (mgr s', w2)).
Proof.
  unfold NodeExpandVolume. destruct (_ =? 0); [by intros [= _ <-]; left |]. destruct (_ =? 0); [by intros [= _ <-]; left |].
  intros E. apply locked_mgr in E as [E | (s1 & E & Hs1)]; [by left |]. rewrite Hs1.
  destruct (ne_CapacityRange req) as [range|]; [| injection E as <- <-; by left].
  apply map_error_run in E as (r0 & E & _). apply srv_manager_run in E as [E _]. right.
  eexists _, _, r0, _. exact E.
Qed.
End node_calls.

(** ** The system refines the abstract machine *)

Section refinement.
Context {Q Wn Wm : Type} `{QuotaManagerLaws Q Wn} `{OS Wn} `{HostPathClientInterface Wn} `{MetaStoreLaws Wm}.
Implicit Types s : system Q Wn Wm.

(** What the abstract machine sees of the system. *)
Definition abstraction s : volumes_state :=
  mkVolumes (existing (sys_controller s)) (held (mgr (sys_node s))) (sys_deleted s).

(** The worker has only deleted volumes on its lists, and saw only directories of
    volumes that exist or existed. *)
Definition deleted_ids (l : list string) (a : volumes_state) : Prop := Forall (fun v => v ∈ gone a) l.
Definition known_infos (infos : list PathQuotaInfo) (a : volumes_state) : Prop :=
  Forall (fun info => path_VolumeId info ∈ live a ∪ gone a) infos.
Definition phase_ok (p : worker_phase) (a : volumes_state) : Prop :=
  match p with
  | Resting => True
  | Retrying infos todo failed => known_infos infos a /\ deleted_ids todo a /\ deleted_ids failed a
  | Listing infos failed => known_infos infos a /\ deleted_ids failed a
  | Cleaning todo failed => deleted_ids todo a /\ deleted_ids failed a
  end.
Definition sys_ok s : Prop :=
  ids_ok (mgr (sys_node s)) /\ vol_ok (abstraction s) /\ deleted_ids (sys_retry s) (abstraction s) /\
  phase_ok (sys_phase s) (abstraction s).

(** What the worker knows stays true. *)
Lemma deleted_ids_mono l a a' : gone a ⊆ gone a' -> deleted_ids l a -> deleted_ids l a'.
Proof. intros Hg Hl. eapply Forall_impl; [exact Hl |]. set_solver. Qed.
Lemma known_infos_mono l a a' : live a ∪ gone a ⊆ live a' ∪ gone a' -> known_infos l a -> known_infos l a'.
Proof. intros Hg Hl. eapply Forall_impl; [exact Hl |]. set_solver. Qed.
Lemma phase_ok_mono p a a' :
  gone a ⊆ gone a' -> live a ∪ gone a ⊆ live a' ∪ gone a' -> phase_ok p a -> phase_ok p a'.
Proof.
  intros Hg Hl. destruct p; cbn; [done | | |]; intuition eauto using deleted_ids_mono, known_infos_mono.
Qed.

Lemma vol_step_mono a a' : vol_step a a' -> gone a ⊆ gone a' /\ live a ∪ gone a ⊆ live a' ∪ gone a'.
Proof.
  intros Hs; destruct Hs; cbn; split; try set_solver.
  intros x Hx. destruct (decide (x = v)); set_solver.
Qed.

(** A step that leaves the worker's lists as they are. *)
Lemma sys_ok_step c n rt ph dl c' n' dl' :
  sys_ok (mkSystem c n rt ph dl) -> ids_ok (mgr n') ->
  vol_step (abstraction (mkSystem c n rt ph dl)) (abstraction (mkSystem c' n' rt ph dl')) ->
  vol_step (abstraction (mkSystem c n rt ph dl)) (abstraction (mkSystem c' n' rt ph dl')) /\ sys_ok (mkSystem c' n' rt ph dl').
Proof.
  intros (_ & Hv & Hr & Hp) Hi Hs. split; [done |]. apply vol_step_mono in Hs as Hm. destruct Hm as [Hg Hl].
  split; [done |]. split; [by eapply vol_step_ok |]. cbn [sys_retry sys_phase] in *.
  split; [by eapply deleted_ids_mono | by eapply phase_ok_mono].
Qed.

Lemma create_abstract req c r c' : CreateVolume req c = (r, c') ->
  existing c' = match r with Ok vol => {[ vol_VolumeId vol ]} ∪ existing c | _ => existing c end.
Proof.
  intros E. apply CreateVolume_created in E as [_ E]. unfold existing.
  destruct r as [vol | e | y]; [| by rewrite E | done].
  destruct E as (_ & _ & _ & m & -> & ->). cbn. by rewrite dom_insert_L.
Qed.

Lemma delete_abstract req c r c' : DeleteVolume req c = (r, c') ->
  existing c' = match r with Ok _ => existing c ∖ {[ dv_VolumeId req ]} | _ => existing c end.
Proof.
  intros E. apply DeleteVolume_cases in E as [_ E]. unfold existing.
  destruct r as [[] | e | y]; [| by rewrite E | done]. destruct E as (m & -> & ->). cbn. by rewrite dom_delete_L.
Qed.

(** A release of a volume that may go. *)
Lemma release_abstract v n r n' :
  ids_ok (mgr n) -> manager_call (ReleaseVolumePath v) n = (r, n') ->
  ids_ok (mgr n') /\ held (mgr n') = match r with Ok _ => held (mgr n) ∖ {[ v ]} | _ => held (mgr n) end.
Proof. intros Hi E. apply srv_manager_run in E as [E _]. by apply release_law in E. Qed.

Lemma collect_step v c n rt ph dl r n' :
  sys_ok (mkSystem c n rt ph dl) -> v ∈ dl -> manager_call (ReleaseVolumePath v) n = (r, n') ->
  vol_step (abstraction (mkSystem c n rt ph dl)) (abstraction (mkSystem c n' rt ph dl)) /\ sys_ok (mkSystem c n' rt ph dl).
Proof.
  intros Hok Hv E. apply release_abstract in E as [Hi Hh]; [| apply Hok]. apply sys_ok_step; [done | done |].
  unfold abstraction. cbn. rewrite Hh. destruct r as [[] | e | y]; [| apply vol_stutter..].
  by apply (vol_collect v (abstraction (mkSystem c n rt ph dl))).
Qed.

(** Only the worker's place in its program changes. *)
Lemma sys_ok_phase c n rt ph dl c' rt' ph' :
  sys_ok (mkSystem c n rt ph dl) -> existing c' = existing c ->
  deleted_ids rt' (abstraction (mkSystem c n rt ph dl)) -> phase_ok ph' (abstraction (mkSystem c n rt ph dl)) ->
  vol_step (abstraction (mkSystem c n rt ph dl)) (abstraction (mkSystem c' n rt' ph' dl)) /\ sys_ok (mkSystem c' n rt' ph' dl).
Proof.
  intros (Hi & Hv & _ & _) Hc Hr Hp.
  assert (E : abstraction (mkSystem c' n rt' ph' dl) = abstraction (mkSystem c n rt ph dl))
    by (unfold abstraction; cbn; by rewrite Hc).
  unfold sys_ok. rewrite E. split; [apply vol_stutter |]. by split_and!.
Qed.

Lemma note_failure_ids v r failed failed' a :
  note_failure v r failed = Some failed' -> v ∈ gone a -> deleted_ids failed a -> deleted_ids failed' a.
Proof.
  intros E Hv Hf. destruct r; cbn in E; simplify_eq; [done |]. by apply Forall_app_2; [| apply Forall_singleton].
Qed.

Lemma List_same w r w' : ListMetaInfos w = (r, w') ->
  w' = w /\ forall m, r = Ok m -> stored w = Some m.
Proof.
  intros E. destruct (List_law w) as [Hl Hn]. rewrite E in Hl, Hn. destruct (stored w) as [m|] eqn:Hs.
  - injection Hl as -> ->. split; [done |]. by intros m' [= ->].
  - cbn in Hl. injection Hl as ->. split; [done |]. intros m ->. destruct (Hn eq_refl) as [e He]. done.
Qed.

(** Every step of the system is one of the abstract machine, or none. *)
Lemma sys_step_simulates s s' : sys_ok s -> sys_step s s' -> vol_step (abstraction s) (abstraction s') /\ sys_ok s'.
Proof.
  intros Hok Hs. destruct Hs as
    [req c n rt ph dl r c' E Hnew | req c n rt ph dl r c' E | req c n rt ph dl r n' E Hpub | req c n rt ph dl r n' E
    | req c n rt ph dl r n' E | c n rt dl r n' E Hp | infos v todo failed failed' c n rt dl r n' E Hf
    | infos failed c n rt dl | infos failed c n rt dl m w E | infos failed c n rt dl e w E
    | v todo failed failed' c n rt dl r n' E Hf | failed c n rt dl | c n rt ph dl r n' E | mp b c n rt ph dl r n' E].
  - apply sys_ok_step; [done | apply Hok |]. unfold abstraction. cbn. rewrite (create_abstract _ _ _ _ E).
    destruct r as [vol | e | y]; [| apply vol_stutter..].
    by apply (vol_create (vol_VolumeId vol) (abstraction (mkSystem c n rt ph dl))), Hnew.
  - apply sys_ok_step; [done | apply Hok |]. unfold abstraction. cbn. rewrite (delete_abstract _ _ _ _ E).
    destruct r as [[] | e | y]; [| apply vol_stutter..].
    apply (vol_delete (dv_VolumeId req) (abstraction (mkSystem c n rt ph dl))).
  - destruct (publish_calls _ _ _ _ E) as [Hm | (volume & w1 & rr & w2 & Hv & Hg)].
    + apply sys_ok_step; [done | rewrite Hm; apply Hok |]. unfold abstraction. cbn. rewrite Hm. apply vol_stutter.
    + apply place_law in Hg as [Hi Hh]; [| apply Hok]. apply sys_ok_step; [done | done |].
      unfold abstraction. cbn. rewrite Hh. destruct rr; [| apply vol_stutter..].
      by apply (vol_place (pv_volId volume) (abstraction (mkSystem c n rt ph dl))), Hpub.
  - destruct (unpublish_calls _ _ _ _ E) as [Hm | (He & w1 & rr & w2 & Hr)].
    + apply sys_ok_step; [done | rewrite Hm; apply Hok |]. unfold abstraction. cbn. rewrite Hm. apply vol_stutter.
    + apply release_law in Hr as [Hi Hh]; [| apply Hok]. apply sys_ok_step; [done | done |].
      unfold abstraction. cbn. rewrite Hh. destruct rr as [[] | |]; [| apply vol_stutter..].
      by apply (vol_drop (un_VolumeId req) (abstraction (mkSystem c n rt ph dl))).
  - destruct (expand_calls _ _ _ _ E) as [Hm | (cap & w1 & rr & w2 & Hx)].
    + apply sys_ok_step; [done | rewrite Hm; apply Hok |]. unfold abstraction. cbn. rewrite Hm. apply vol_stutter.
    + apply expand_law in Hx as [Hi Hh]; [| apply Hok]. apply sys_ok_step; [done | done |].
      unfold abstraction. cbn. rewrite Hh. apply vol_stutter.
  - apply srv_manager_run in E as [E _]. apply list_law in E as (Hi & Hh & Hin); [| apply Hok].
    destruct (sys_ok_step c n rt Resting dl c n' dl Hok Hi) as [Hst Hok'].
    { unfold abstraction. cbn. rewrite Hh. apply vol_stutter. }
    assert (Ea : abstraction (mkSystem c n' rt Resting dl) = abstraction (mkSystem c n rt Resting dl))
      by (unfold abstraction; cbn; by rewrite Hh).
    rewrite <- Ea. apply sys_ok_phase; [done | done | apply Hok' |]. split_and!; [| apply Hok' | constructor].
    apply Forall_forall. intros info Hinfo. destruct r as [infos | e | y]; [| by apply not_elem_of_nil in Hinfo..].
    specialize (Hin infos info eq_refl Hinfo). destruct Hok as (_ & [_ Hpl] & _). unfold abstraction in *. cbn in *.
    rewrite ?Hh. set_solver.
  - pose proof Hok as (Hi & Hv & Hr & Hinfos & Htodo & Hfailed). apply Forall_cons in Htodo as [Hgone Htodo].
    edestruct (collect_step v c n rt (Retrying infos (v :: todo) failed) dl) as [Hst Hok'];
      [exact Hok | exact Hgone | exact E |].
    split; [exact Hst |]. eapply sys_ok_phase; [exact Hok' | done | apply Hok' |].
    destruct Hok' as (_ & _ & _ & Hinfos' & Htodo' & Hfailed'). apply Forall_cons in Htodo' as [_ Htodo'].
    split_and!; [done | done | by eapply note_failure_ids].
  - pose proof Hok as (Hi & Hv & Hr & Hinfos & Htodo & Hfailed). eapply sys_ok_phase; done.
  - apply List_same in E as [-> Hm]. specialize (Hm m eq_refl).
    pose proof Hok as (Hi & Hv & Hr & Hinfos & Hfailed).
    eapply sys_ok_phase; [exact Hok | by destruct c | done |]. split; [| done].
    apply Forall_forall. intros v Hvin. unfold orphans in Hvin. apply list_elem_of_filter in Hvin as [Hnone Hvin].
    apply list_elem_of_fmap in Hvin as (info & -> & Hinfo). unfold known_infos in Hinfos. rewrite Forall_forall in Hinfos.
    specialize (Hinfos info Hinfo). unfold abstraction, existing, meta in *. cbn in *. rewrite Hm in Hinfos. cbn in Hinfos.
    apply not_elem_of_dom in Hnone. set_solver.
  - apply List_same in E as [-> _]. pose proof Hok as (Hi & Hv & Hr & Hph).
    eapply sys_ok_phase; [exact Hok | by destruct c | done | done].
  - pose proof Hok as (Hi & Hv & Hr & Htodo & Hfailed). apply Forall_cons in Htodo as [Hgone Htodo].
    edestruct (collect_step v c n rt (Cleaning (v :: todo) failed) dl) as [Hst Hok'];
      [exact Hok | exact Hgone | exact E |].
    split; [exact Hst |]. eapply sys_ok_phase; [exact Hok' | done | apply Hok' |].
    destruct Hok' as (_ & _ & _ & Htodo' & Hfailed'). apply Forall_cons in Htodo' as [_ Htodo'].
    split; [done | by eapply note_failure_ids].
  - pose proof Hok as (Hi & Hv & Hr & Htodo & Hfailed). eapply sys_ok_phase; [exact Hok | done | done | done].
  - apply srv_manager_run in E as [E _]. apply disks_law in E as [Hi Hh]; [| apply Hok].
    apply sys_ok_step; [done | done |]. unfold abstraction. cbn. rewrite Hh. apply vol_stutter.
  - apply srv_manager_run in E as [E _]. apply disable_law in E as [Hi Hh]; [| apply Hok].
    apply sys_ok_step; [done | done |]. unfold abstraction. cbn. rewrite Hh. apply vol_stutter.
Qed.

Lemma reachable_simulates s0 s :
  sys_ok s0 -> reachable sys_step s0 s -> reachable vol_step (abstraction s0) (abstraction s) /\ sys_ok s.
Proof.
  intros Hinit. induction 1 as [| s s' Hr [IHr IHok] Hs]; [split; [constructor | done] |].
  destruct (sys_step_simulates s s' IHok Hs) as [Hv Hok]. split; [by eapply reachable_next | done].
Qed.

(** The system at its start: the worker has not begun, and the manager holds only
    volumes that exist or were deleted before - none, on a node that is new. *)
Definition sys_init s : Prop :=
  ids_ok (mgr (sys_node s)) /\
  held (mgr (sys_node s)) ⊆ existing (sys_controller s) ∪ sys_deleted s /\
  existing (sys_controller s) ## sys_deleted s /\
  sys_retry s = [] /\ sys_phase s = Resting.

Lemma sys_init_ok s : sys_init s -> sys_ok s.
Proof.
  intros (Hi & Hh & Hd & Hr & Hp). unfold sys_ok. rewrite Hr, Hp. by split_and!; [done | split | constructor |].
Qed.

(** C2: The three servers, interleaved call by call with the worker's cleaning, refine
    the abstract machine: whatever state they reach, the recorded volumes, the volumes
    with a directory and the deleted volumes are a state that the machine reaches from
    where they began - volumes get a directory only while they exist, and lose it only
    when they were deleted or are ephemeral and unpublished. *)
Theorem lifecycle_refines s0 s :
  sys_init s0 -> reachable sys_step s0 s -> reachable vol_step (abstraction s0) (abstraction s).
Proof. intros Hinit Hr. by apply reachable_simulates, Hr; apply sys_init_ok. Qed.

(** A durable volume that exists never loses its directory: however the calls of
    the servers interleave with the cleaning - which decides on a list of directories
    and a list of recorded volumes read at different moments, and retries what failed
    in earlier rounds - a volume that has a directory and is recorded still has it
    after the next step, provided ids are not created again after they were deleted
    and only recorded volumes are published. *)
Theorem live_volume_kept s0 s s' v :
  sys_init s0 -> reachable sys_step s0 s -> sys_step s s' ->
  ephemeral_id v = false -> v ∈ existing (sys_controller s) -> v ∈ held (mgr (sys_node s)) ->
  v ∈ held (mgr (sys_node s')).
Proof.
  intros Hinit Hr Hs He Hx Hh. destruct (reachable_simulates s0 s (sys_init_ok _ Hinit) Hr) as [_ Hok].
  apply (vol_step_keeps (abstraction s) (abstraction s')); [apply Hok | | done..].
  by apply sys_step_simulates.
Qed.
End refinement.

(** ** The worker's steps are the worker's program *)

Section adequacy.
Context {Q Wn Wm : Type} `{QuotaManagerInterface Q Wn} `{OS Wn} `{HostPathClientInterface Wn} `{MetaStoreLaws Wm}.

(** The worker sees the node and the cluster as one world. *)
Definition on_node {A} (m : M (Q * Wn) A) : M (Q * (Wn * Wm)) A :=
  zoom (fun s => (s.1, s.2.1)) (fun t s => (t.1, (t.2, s.2.2))) m.

#[local] Instance manager_of_node : QuotaManagerInterface Q (Wn * Wm) := {
  ListQuotaDiskInfos := on_node ListQuotaDiskInfos;
  ListPathQuotaInfos := on_node ListPathQuotaInfos;
  SetQuotaDiskDisabledState mp b := on_node (SetQuotaDiskDisabledState mp b);
  GetVolumeQuotaPath v c := on_node (GetVolumeQuotaPath v c);
  ExpandVolume v c := on_node (ExpandVolume v c);
  ReleaseVolumePath v := on_node (ReleaseVolumePath v)
}.
#[local] Instance store_of_cluster : MetaStoreInterFace (Wn * Wm) := {
  ListMetaInfos := zoom snd (fun w s => (s.1, w)) ListMetaInfos;
  AddMetaInfo v := zoom snd (fun w s => (s.1, w)) (AddMetaInfo v);
  UnsetMetaInfo v := zoom snd (fun w s => (s.1, w)) (UnsetMetaInfo v)
}.

Implicit Types sw : SyncWorker Q * (Wn * Wm).

(** The system in which the worker [sw] is at phase [ph]. *)
Definition system_of (cs : ControllerServer) (locks : VolumeLocks) (dl : gset string) (ph : worker_phase)
    (retry : list string) sw : system Q Wn Wm :=
  mkSystem (cs, sw.2.2) (mkNodeServer locks (sw_quotaMng sw.1), sw.2.1) retry ph dl.

(** A loop of releases, in either phase. *)
Lemma release_all_steps cs locks dl retry (phase : list string -> list string -> worker_phase) :
  (forall v todo failed failed' c n r n',
     manager_call (ReleaseVolumePath v) n = (r, n') -> note_failure v r failed = Some failed' ->
     sys_step (mkSystem c n retry (phase (v :: todo) failed) dl) (mkSystem c n' retry (phase todo failed') dl)) ->
  forall vs sw failed acc sw', release_all vs sw = (Ok failed, sw') ->
  shouldDeleteVolIds sw'.1 = shouldDeleteVolIds sw.1 /\
  reachable sys_step (system_of cs locks dl (phase vs acc) retry sw) (system_of cs locks dl (phase [] (acc ++ failed)) retry sw').
Proof.
  intros Hphase. induction vs as [|v vs IH]; intros sw failed acc sw' E; cbn [release_all] in E.
  - injection E as <- <-. rewrite app_nil_r. split; [done | constructor].
  - apply bind_Ok in E as (err & sw1 & E1 & E). apply bind_Ok in E as (fl & sw2 & E2 & E). injection E as <- <-.
    unfold attempt, sw_manager, zoom in E1. cbn [ReleaseVolumePath manager_of_node] in E1. unfold on_node, zoom in E1.
    cbn [fst snd] in E1. destruct sw as [k [wn wm]]. cbn [fst snd] in *.
    destruct (ReleaseVolumePath v (sw_quotaMng k, wn)) as [r [q' wn']] eqn:Er.
    assert (Hrest : forall o fl', match r with Ok a => Some (inl a) | Fail e => Some (inr e) | Panic _ => None end = Some o ->
      err = o -> sw1 = (mkSyncWorker (shouldDeleteVolIds k) (nodeName k) (lastSyncQuotaInfoCache k) (lastNodeUsageInfo k) q', (wn', wm)) ->
      note_failure v r acc = Some fl' ->
      shouldDeleteVolIds sw2.1 = shouldDeleteVolIds k /\
      reachable sys_step (system_of cs locks dl (phase (v :: vs) acc) retry (k, (wn, wm)))
        (system_of cs locks dl (phase [] (fl' ++ fl)) retry sw2)).
    { intros o fl' Ho -> -> Hf. destruct (IH _ _ fl' _ E2) as [Hsd Hreach]. split; [exact Hsd |].
      eapply reachable_trans; [| exact Hreach]. apply reachable_one. unfold system_of. cbn [fst snd sw_quotaMng].
      eapply Hphase; [| exact Hf]. unfold manager_call, srv_manager, zoom. cbn. by rewrite Er. }
    destruct r as [[] | e | y]; cbn in E1; [| | done]; injection E1 as <- <-.
    + by eapply Hrest.
    + edestruct Hrest as [Hsd Hreach]; [done | done | done | done |]. split; [done |].
      by rewrite <- app_assoc in Hreach.
Qed.

(** The worker's program is a run of the system: when [cleanOrphanQuotaPath] returns,
    whether with or without an error, steps of the system lead from its start to exactly
    the manager, the cluster and the retry list that it leaves.  So what holds of all runs
    of the system holds of runs in which the worker is not interrupted. *)
Theorem worker_steps_complete cs locks dl infos sw r sw' :
  cleanOrphanQuotaPath infos sw = (r, sw') -> (forall y, r <> Panic y) ->
  reachable sys_step (system_of cs locks dl (Retrying infos (shouldDeleteVolIds sw.1) []) (shouldDeleteVolIds sw.1) sw)
    (system_of cs locks dl Resting (shouldDeleteVolIds sw'.1) sw').
Proof.
  intros E Hnp. unfold cleanOrphanQuotaPath in E. cbn [bind gets] in E. unfold bind at 1, gets in E.
  set (rt := shouldDeleteVolIds sw.1) in *.
  unfold bind at 1 in E. destruct (release_all rt sw) as [[failed | e | y] sw1] eqn:E1.
  2: { by destruct (release_all_no_fail _ _ _ _ E1). }
  2: { injection E as <- _. by destruct (Hnp y). }
  apply (release_all_steps cs locks dl rt (Retrying infos)) with (acc := []) in E1 as [Hsd1 R1];
    [| intros; by eapply step_retry]. cbn [app] in R1.
  eapply reachable_trans; [exact R1 |]. eapply reachable_trans; [apply reachable_one, step_retried |].
  unfold bind at 1, sw_world, zoom in E. cbn [ListMetaInfos store_of_cluster] in E. unfold zoom in E.
  destruct sw1 as [k1 [wn1 wm1]]. cbn [fst snd] in *.
  destruct (ListMetaInfos wm1) as [[m | e | y] wm2] eqn:El.
  2: { injection E as <- <-. cbn. unfold rt in *. rewrite Hsd1. apply reachable_one. by eapply step_meta_error. }
  2: { injection E as <- _. by destruct (Hnp y). }
  eapply reachable_trans; [by apply reachable_one; eapply step_meta |].
  unfold bind in E. destruct (release_all (orphans m infos) _) as [[failed2 | e | y] sw2] eqn:E2.
  2: { by destruct (release_all_no_fail _ _ _ _ E2). }
  2: { injection E as <- _. by destruct (Hnp y). }
  apply (release_all_steps cs locks dl rt Cleaning) with (acc := failed) in E2 as [_ R2]; [| intros; by eapply step_clean].
  unfold set_shouldDelete, modify in E. injection E as <- <-. eapply reachable_trans; [exact R2 |].
  apply reachable_one. apply step_cleaned.
Qed.
End adequacy.

(** ** A run: create, publish, list, delete, list again, clean *)

#[local] Instance run_meta : MetaStoreInterFace sim_api := ConfigMapMetaStore_interface sim_store.
#[local] Instance run_meta_laws : MetaStoreLaws sim_api := ConfigMapMetaStore_laws sim_store.

Definition durable_id : string := "0001-0000-0005-pvc-2".
#[local] Instance run_client : HostPathClientInterface sim := {
  GetHostPathPVByVolumeId v :=
    ret (if decide (v = durable_id)
         then Some (mkPersistentVolume "7" "pvc-2" "" "default/claim" durable_id true "" false 2097152 "" 0) else None);
  GetNodeByName n := ret (mkNode "1" n "" true empty_usage ∅ "Ready");
  UpdateHostPathPVUsageInfo _ _ := ret tt;
  UpdateNodeHostPathPVUsageInfo _ _ := ret tt;
  SetHostPathDiskDisableState _ _ _ := ret tt
}.

Definition run_create : CreateVolumeRequest :=
  mkCreateVolumeRequest "pvc-2" (Some (mkCapacityRange 2097152 0))
    [mkVolumeCapability (MountVolume []) AM_SINGLE_NODE_WRITER] {[ "ephemeral" := "false" ]} None.
Definition run_publish : NodePublishVolumeRequest :=
  mkNodePublishVolumeRequest durable_id "/stage" "/pods/t" (Some (mkVolumeCapability (MountVolume []) AM_SINGLE_NODE_WRITER)) false.
Definition run_delete : DeleteVolumeRequest := mkDeleteVolumeRequest durable_id.

Abbreviation sim_system := (system manager sim sim_api).

Definition run0 : sim_system :=
  mkSystem sim_controller (mkNodeServer NewVolumeLocks started.1, started.2) [] Resting ∅.
Definition run1 : sim_system := mkSystem (CreateVolume run_create (sys_controller run0)).2 (sys_node run0) [] Resting ∅.
Definition run2 : sim_system := mkSystem (sys_controller run1) (NodePublishVolume run_publish (sys_node run1)).2 [] Resting ∅.
Definition run_infos (s : sim_system) : list PathQuotaInfo :=
  match (manager_call ListPathQuotaInfos (sys_node s)).1 with Ok infos => infos | _ => [] end.
(** the worker lists the directory of the volume while it exists *)
Definition run3 : sim_system :=
  mkSystem (sys_controller run2) (manager_call ListPathQuotaInfos (sys_node run2)).2 [] (Retrying (run_infos run2) [] []) ∅.
Definition run4 : sim_system := mkSystem (sys_controller run3) (sys_node run3) [] (Listing (run_infos run2) []) ∅.
(** the controller deletes it, and the worker learns of it and releases the directory *)
Definition run5 : sim_system :=
  mkSystem (DeleteVolume run_delete (sys_controller run4)).2 (sys_node run4) [] (Listing (run_infos run2) [])
    ({[ durable_id ]} ∪ ∅).
Definition run6 : sim_system :=
  mkSystem (sys_controller run5) (sys_node run5) [] (Cleaning [durable_id] []) ({[ durable_id ]} ∪ ∅).
Definition run7 : sim_system :=
  mkSystem (sys_controller run6) (manager_call (ReleaseVolumePath durable_id) (sys_node run6)).2 [] (Cleaning [] [])
    ({[ durable_id ]} ∪ ∅).

Lemma started_quotas : quotas started.1 = ∅.
Proof. vm_compute; reflexivity. Qed.

Lemma run_starts : sys_init run0.
Proof.
  unfold sys_init. change (mgr (sys_node run0)) with started.1.
  change (held started.1) with (dom (quotas started.1)). change (ids_ok started.1) with (keyed (quotas started.1)).
  rewrite started_quotas. split; [apply map_Forall_empty |]. split; [rewrite dom_empty; apply empty_subseteq |].
  split; [apply disjoint_empty_r |]. by split.
Qed.

Lemma run_step1 : sys_step run0 run1.
Proof.
  eapply (step_create run_create); [apply surjective_pairing |]. intros vol _. set_solver.
Qed.

Lemma run_step2 : sys_step run1 run2.
Proof.
  eapply (step_publish run_publish); [apply surjective_pairing |]. intros volume (s1 & s2 & _ & E).
  unfold srv_world, zoom in E. cbn in E. injection E as <- _. by vm_compute.
Qed.

Lemma run_step3 : sys_step run2 run3.
Proof. eapply (step_list); [apply surjective_pairing | by vm_compute]. Qed.

Lemma run_step4 : sys_step run3 run4.
Proof. apply step_retried. Qed.

Lemma run_step5 : sys_step run4 run5.
Proof. apply (step_delete run_delete _ _ _ _ _ (Ok tt)). by vm_compute. Qed.

Lemma run_step6 : sys_step run5 run6.
Proof.
  assert (E : run6 = mkSystem ((sys_controller run5).1, (sys_controller run5).2) (sys_node run5) []
                       (Cleaning (orphans ∅ (run_infos run2)) []) ({[ durable_id ]} ∪ ∅)) by (vm_compute; reflexivity).
  rewrite E. apply step_meta. vm_compute; reflexivity.
Qed.

Lemma run_step7 : sys_step run6 run7.
Proof. eapply (step_clean durable_id [] [] [] _ _ [] _ (Ok tt)); [vm_compute; reflexivity | done]. Qed.

Lemma run_reach2 : reachable sys_step run0 run2.
Proof. eapply reachable_next; [apply reachable_one, run_step1 | apply run_step2]. Qed.

Lemma run_reach7 : reachable sys_step run0 run7.
Proof.
  repeat (eapply reachable_next; [| first [apply run_step7 | apply run_step6 | apply run_step5 | apply run_step4 | apply run_step3]]).
  apply run_reach2.
Qed.

Lemma lifecycle_refines_witness :
  quotas (mgr (sys_node run7)) = ∅ /\ reachable vol_step (abstraction run0) (abstraction run7).
Proof. split; [vm_compute; reflexivity | apply (lifecycle_refines run0 run7 run_starts run_reach7)]. Defined.

Lemma live_volume_kept_witness : durable_id ∈ held (mgr (sys_node run3)).
Proof.
  apply (live_volume_kept run0 run2 run3 durable_id run_starts run_reach2 run_step3).
  - reflexivity.
  - by vm_compute.
  - by vm_compute.
Defined.

#[local] Existing Instance manager_of_node.
#[local] Existing Instance store_of_cluster.

Definition run_worker : SyncWorker manager * (sim * sim_api) :=
  (mkSyncWorker ["0001-0000-0005-old"] "node1" ∅ empty_usage (mgr (sys_node run4)),
   ((sys_node run4).2, (sys_controller run5).2)).
Definition worker_done : SyncWorker manager * (sim * sim_api) := (cleanOrphanQuotaPath (run_infos run2) run_worker).2.

Lemma worker_steps_complete_witness :
  reachable (sys_step (Q := manager) (Wn := sim) (Wm := sim_api))
    (system_of sim_controller.1 NewVolumeLocks ∅ (Retrying (run_infos run2) ["0001-0000-0005-old"] []) ["0001-0000-0005-old"] run_worker)
    (system_of sim_controller.1 NewVolumeLocks ∅ Resting (shouldDeleteVolIds worker_done.1) worker_done).
Proof.
  apply (worker_steps_complete sim_controller.1 NewVolumeLocks ∅ (run_infos run2) run_worker (Ok tt) worker_done);
    [vm_compute; reflexivity | done].
Defined.
