(* ===== verification/Survival.v ===== *)
(** * Volumes survive in the cluster

    [LifeCycle] follows the sets of volumes while the processes run, [Restart] follows the
    disks of a node while its manager is called and started again.  Here they are put
    together: the three servers and the worker, interleaved call by call, with starts of
    the node process and of the controller process in between.  A durable volume that
    exists keeps not only a directory but its own one, through all of this. *)

From S2P Require Import Prelude IdLocker GoStrings VolId Os SimOs Util FileSystem Allocator QuotaProvider QuotaManager HeldVolumes.
From S2P Require Import Recovery Tidy Restart Csi CsiCommon Locked MetaStore ControllerServer HostPathApi HostPathClient NodeServer SyncWorker LifeCycle.
Open Scope Z_scope.
Open Scope go_scope.

(** What the node server relies on of its client: looking a volume up changes no file of
    the node. *)
Class LookupLaws (W : Type) `{FileLaws W} `{HostPathClientInterface W} := {
  lookup_quiet v (w : W) : quiet w (GetHostPathPVByVolumeId v w).2
}.

(** The client of the program only reads from the server. *)
#[export] Program Instance client_lookup {W} `{FileLaws W} `{KubeApi W} : LookupLaws W.
Next Obligation.
  intros W ? ? ? ? v w. cbn. unfold hp_GetHostPathPVByVolumeId. destruct (DecomposeCSIID v _) as [[[] | e | y] vi]; [| done..].
  unfold bind, attempt, sys_read, lift, ret. destruct (pv_Get (VolumeName vi) w) as [pv | e]; [| done].
  by destruct (toPersistentVolume pv).
Qed.

(** ** The calls of a node *)

Section node.
Context {R W : Type} `{RandLaws R} `{LookupLaws W}.
Context (re : list string) (re_ne : re <> []) (re_normal : Forall normal_elem re).
Abbreviation Mgr := (XFSQuotaManager (QuotaVolumeProvider (ProjectIDAllocator R))).
Implicit Types (n : NodeServer (XFSQuotaManager (QuotaVolumeProvider (ProjectIDAllocator R))) * W) (w : W).
Implicit Types (vols : gmap string KernelVolume).

(** A target path that has nothing to do with the pool *)
Definition foreign (p : string) : Prop := normal_path p /\ apart p (abs_path re).

(** The calls of the node server and of the worker on the manager.  The kubelet's target
    paths are not in the pool, and the ids of volumes are names of directories. *)
Inductive node_call : NodeServer Mgr * W -> NodeServer Mgr * W -> Prop :=
  | call_none n : node_call n n
  | call_publish req n :
      foreign (np_TargetPath req) -> (forall volume, publishes req n volume -> no_char slash (pv_volId volume)) ->
      node_call n (NodePublishVolume req n).2
  | call_unpublish req n : foreign (un_TargetPath req) -> node_call n (NodeUnpublishVolume req n).2
  | call_expand req n : node_call n (NodeExpandVolume req n).2
  | call_list n : node_call n (manager_call ListPathQuotaInfos n).2
  | call_disks n : node_call n (manager_call ListQuotaDiskInfos n).2
  | call_disable mountPoint disabled n : node_call n (manager_call (SetQuotaDiskDisabledState mountPoint disabled) n).2
  | call_release v n : node_call n (manager_call (ReleaseVolumePath v) n).2.

(** The manager of the node has the volumes that are on its disks. *)
Definition at_node vols n : Prop := tied re vols (mgr n, n.2).
Definition moved vols n : Prop := exists vols', at_node vols' n /\ steadfast vols vols'.

Lemma at_moved vols n : at_node vols n -> moved vols n.
Proof. intros Hn. exists vols. split; [done | apply steadfast_refl]. Qed.

Lemma tied_elsewhere vols p m w w' :
  foreign p -> elsewhere p w w' -> tied (R := R) re vols (m, w) -> tied re vols (m, w').
Proof.
  intros [_ Hp] Hw Ht. pose proof Ht as ([K1 K2 K3 K4 K5 K6 K7 K8 K9] & Hc & Ha). cbn in *.
  destruct (elsewhere_tidy re re_ne re_normal p vols w w' Hp Hw K2) as [Ht' Hs].
  split; [| split; [by apply Hs | by apply (all_disks_settled re m w)]]. split; try done; cbn.
  - intros dev d. by eapply settled_disk.
  - by eapply settled_root.
Qed.

(** A change of the world that does not touch the pool *)
Definition harmless w w' : Prop := quiet w w' \/ exists p, foreign p /\ elsewhere p w w'.

Lemma frames_world {B} vols (c : M W B) : (forall w, harmless w (c w).2) -> frames (at_node vols) (srv_world (Q := Mgr) c).
Proof.
  intros Hc n Hn. unfold srv_world, zoom. pose proof (Hc n.2) as Hw. destruct (c n.2) as [r w']. cbn in Hw.
  assert (Hn' : at_node vols (n.1, w')).
  { destruct Hw as [Hq | (p & Hp & Hw)]; unfold at_node in *; [by eapply tied_steady | by eapply tied_elsewhere]. }
  by destruct r.
Qed.

Lemma moved_world {B} vols (c : M W B) : (forall w, harmless w (c w).2) -> frames (moved vols) (srv_world (Q := Mgr) c).
Proof.
  intros Hc n (vols' & Hn & Hs). pose proof (frames_world vols' c Hc n Hn) as Hf.
  destruct (srv_world c n) as [[b | e | y] n']; by exists vols'.
Qed.

Lemma harmless_read {B} (f : W -> B + error) w : harmless w (sys_read f w).2.
Proof. left. unfold sys_read. by destruct (f w). Qed.

Lemma harmless_write p (f : W -> option error * W) w : foreign p -> elsewhere p w (f w).2 -> harmless w (map_error internal (sys_write f) w).2.
Proof.
  intros Hp Hw. right. exists p. split; [done |]. unfold map_error, sys_write. by destruct (f w) as [[e|] w'].
Qed.

Lemma harmless_attempt {B} (c : M W B) w : harmless w (c w).2 -> harmless w (attempt c w).2.
Proof. unfold attempt. by destruct (c w) as [[b | e | y] w']. Qed.

(** A call of the manager *)
Lemma manager_moves {B} vols (c : M (Mgr * W) B) :
  (forall s r s', tied re vols s -> c s = (r, s') -> exists vols', tied re vols' s' /\ steadfast vols vols') ->
  hoare (at_node vols) (srv_manager c) (fun _ => moved vols) (fun _ => moved vols).
Proof.
  intros Hc n Hn. destruct (srv_manager c n) as [r n'] eqn:E. apply srv_manager_run in E as [E _].
  destruct (Hc _ _ _ Hn E) as (vols' & Ht & Hs). assert (moved vols n') by by exists vols'. by destruct r.
Qed.

Lemma frames_moves {B} vols (c : M (Mgr * W) B) :
  frames (tied re vols) c -> hoare (at_node vols) (srv_manager c) (fun _ => moved vols) (fun _ => moved vols).
Proof.
  intros Hc. apply manager_moves. intros s r s' Hs E. exists vols. split; [| apply steadfast_refl].
  pose proof (hoare_run _ _ _ _ _ _ _ Hc E Hs). by destruct r.
Qed.

Lemma moves_run {B} vols (c : M (NodeServer Mgr * W) B) n :
  hoare (at_node vols) c (fun _ => moved vols) (fun _ => moved vols) -> at_node vols n -> moved vols (c n).2.
Proof. intros Hc Hn. specialize (Hc n Hn). by destruct (c n) as [[b | e | y] n']. Qed.

(** The lock of a handler is not part of what moves. *)
Lemma locked_moves {B} vols id (body : M (NodeServer Mgr * W) B) :
  hoare (at_node vols) body (fun _ => moved vols) (fun _ => moved vols) ->
  hoare (at_node vols) (locked id body) (fun _ => moved vols) (fun _ => moved vols).
Proof.
  intros Hb n Hn. destruct (decide (id ∈ vl_locks (get_locks n))).
  - rewrite locked_busy by done. by apply at_moved.
  - rewrite locked_free by done. specialize (Hb (with_lock id n) Hn). by destruct (body _) as [[b | e | y] n'].
Qed.

Lemma reject_moves {B} vols err (k : M (NodeServer Mgr * W) B) :
  hoare (at_node vols) k (fun _ => moved vols) (fun _ => moved vols) ->
  hoare (at_node vols) (reject err ;; k) (fun _ => moved vols) (fun _ => moved vols).
Proof.
  intros Hk. destruct err as [e|]; [| exact Hk]. intros n Hn. by apply at_moved.
Qed.

Lemma fail_moves {B} vols e : hoare (at_node vols) (fail (A := B) e) (fun _ => moved vols) (fun _ => moved vols).
Proof. apply hoare_fail. intros n. apply at_moved. Qed.

Lemma ret_moves {B} vols (b : B) : hoare (at_node vols) (ret b) (fun _ => moved vols) (fun _ => moved vols).
Proof. apply hoare_ret. intros n. apply at_moved. Qed.

(** A call of the world first, what moves after it *)
Lemma world_then {B C} vols (c : M W B) (k : B -> M (NodeServer Mgr * W) C) :
  (forall w, harmless w (c w).2) -> (forall b, hoare (at_node vols) (k b) (fun _ => moved vols) (fun _ => moved vols)) ->
  hoare (at_node vols) (let! b := srv_world c in k b) (fun _ => moved vols) (fun _ => moved vols).
Proof.
  intros Hc Hk. eapply hoare_bind; [| exact Hk].
  eapply hoare_frames; [by apply frames_world | done | done |]. intros o n. apply at_moved.
Qed.

Lemma target_frames vols p : foreign p -> frames (at_node vols) (target_notMnt (Q := Mgr) p).
Proof.
  intros Hp. eapply hoare_bind; [apply frames_world; intros w; apply harmless_attempt, harmless_read |].
  intros [b | e]; [by apply hoare_ret |]. destruct (IsNotExist e); [| by apply hoare_fail].
  eapply hoare_bind; [apply frames_world | intros u; by apply hoare_ret].
  intros w. apply (harmless_write p); [done | apply mkdir_elsewhere, Hp].
Qed.

(** What a computation from one state returns, next to what holds of it *)
Lemma hoare_from {S B} I (m : M S B) Q E s0 :
  hoare I m Q E -> hoare (fun s => I s /\ s = s0) m (fun b s => Q b s /\ m s0 = (Ok b, s)) E.
Proof.
  intros Hm s [Hs ->]. specialize (Hm s0 Hs). by destruct (m s0) as [[b | e | y] s'].
Qed.

Lemma lookup_frames vols v : frames (at_node vols) (srv_world (GetHostPathPVByVolumeId v)).
Proof. apply frames_world. intros w. left. apply lookup_quiet. Qed.

Lemma locked_moves_at {B} vols id (body : M (NodeServer Mgr * W) B) n :
  at_node vols n ->
  hoare (fun n' => at_node vols n' /\ n' = with_lock id n) body (fun _ => moved vols) (fun _ => moved vols) ->
  moved vols (locked id body n).2.
Proof.
  intros Hn Hb. destruct (decide (id ∈ vl_locks (get_locks n))).
  - rewrite locked_busy by done. by apply at_moved.
  - rewrite locked_free by done. specialize (Hb (with_lock id n) (conj Hn eq_refl)). by destruct (body _) as [[b | e | y] n'].
Qed.

Lemma publish_moves vols req n :
  foreign (np_TargetPath req) -> (forall volume, publishes req n volume -> no_char slash (pv_volId volume)) ->
  at_node vols n -> moved vols (NodePublishVolume req n).2.
Proof.
  intros Hp Hname Hn. unfold NodePublishVolume, bind at 1. destruct (ValidateNodePublishVolumeRequest req); cbn [reject]; [by apply at_moved |].
  apply (locked_moves_at vols); [done |]. unfold publishes in Hname. set (n0 := with_lock (np_VolumeId req) n) in *.
  eapply (hoare_bind _ _ _ (fun b n1 => at_node vols n1 /\ target_notMnt (np_TargetPath req) n0 = (Ok b, n1))).
  { apply hoare_from. eapply hoare_frames; [by apply (target_frames vols (np_TargetPath req)) | done | done |]. intros o n1. apply at_moved. }
  intros [|]; cbn [negb]; [| apply hoare_ret; intros n1 [Hn1 _]; by apply at_moved].
  eapply (hoare_bind _ _ _ (fun o n2 => at_node vols n2 /\ forall volume, o = Some volume -> no_char slash (pv_volId volume))).
  { intros n1 [Hn1 Et]. pose proof (lookup_frames vols (np_VolumeId req) n1 Hn1) as Hf.
    destruct (srv_world _ n1) as [[o | e | y] n2] eqn:El; [| by apply at_moved..].
    split; [done |]. intros volume ->. apply Hname. by exists n1, n2. }
  intros [volume|]; [| apply hoare_fail; intros n2 [Hn2 _]; by apply at_moved].
  apply hoare_pure with (phi := forall v, Some volume = Some v -> no_char slash (pv_volId v)). intros Hv. specialize (Hv volume eq_refl).
  eapply hoare_bind; [apply (manager_moves vols); intros s r s' Hs E; exact (tied_place re re_ne re_normal vols _ _ r s s' Hs Hv E) |].
  intros path. apply moved_world. intros w. apply (harmless_write (np_TargetPath req)); [done | apply mount_elsewhere, Hp].
Qed.

Lemma unpublish_moves vols req :
  foreign (un_TargetPath req) -> hoare (at_node vols) (NodeUnpublishVolume req) (fun _ => moved vols) (fun _ => moved vols).
Proof.
  intros Hp. apply reject_moves.
  eapply (hoare_bind (at_node vols) _ _ (fun _ => at_node vols)).
  { intros n Hn. unfold decode_volume_id. destruct (DecomposeCSIID _ _) as [[[] | e | y] vi]; [done | by apply at_moved..]. }
  intros vi. apply locked_moves, world_then; [intros w; apply harmless_attempt, harmless_read |].
  intros [notMnt | e]; [| destruct (IsNotExist e); [apply ret_moves | apply fail_moves]].
  unfold unpublish_existing. eapply (hoare_bind (at_node vols) _ _ (fun _ => at_node vols)).
  { destruct (negb notMnt); [| by apply hoare_ret]. eapply hoare_frames; [apply frames_world | done | done | intros o n; apply at_moved].
    intros w. apply (harmless_write (un_TargetPath req)); [done | apply unmount_elsewhere, Hp]. }
  intros u. eapply hoare_bind.
  { destruct (Ephemeral vi); [| apply ret_moves]. apply hoare_map_error, (manager_moves vols). intros s r s' Hs E.
    exact (proj2 (tied_release re re_ne re_normal vols _ r s s' Hs E)). }
  intros u2. apply moved_world. intros w. apply (harmless_write (un_TargetPath req)); [done | apply removeall_elsewhere, Hp].
Qed.

Lemma expand_moves vols req : hoare (at_node vols) (NodeExpandVolume req) (fun _ => moved vols) (fun _ => moved vols).
Proof.
  unfold NodeExpandVolume. destruct (_ =? 0); [apply fail_moves |]. destruct (_ =? 0); [apply fail_moves |].
  apply locked_moves. destruct (ne_CapacityRange req) as [range|]; [| apply fail_moves].
  apply hoare_map_error, frames_moves, tied_ExpandVolume; done.
Qed.

(** Whatever the node is called for, its volumes keep their directories. *)
Lemma node_call_moves vols n n' : at_node vols n -> node_call n n' -> moved vols n'.
Proof.
  intros Hn Hc. destruct Hc as [n | req n Hp Hname | req n Hp | req n | n | n | mp b n | v n].
  - by apply at_moved.
  - by apply publish_moves.
  - by apply moves_run; [apply unpublish_moves |].
  - by apply moves_run; [apply expand_moves |].
  - by apply moves_run; [apply frames_moves, total_frames, (tied_ListPathQuotaInfos re) |].
  - by apply moves_run; [apply frames_moves, (tied_ListQuotaDiskInfos re) |].
  - by apply moves_run; [apply frames_moves, (tied_SetDisabled re) |].
  - apply moves_run; [| done]. apply manager_moves. intros s r s' Hs E.
    exact (proj2 (tied_release re re_ne re_normal vols v r s s' Hs E)).
Qed.

Lemma harmless_at_node vols n w' : at_node vols n -> harmless n.2 w' -> at_node vols (n.1, w').
Proof.
  intros Hn [Hq | (p & Hp & Hw)]; unfold at_node in *; [by eapply tied_steady | by eapply tied_elsewhere].
Qed.

(** A start of the node process *)
Lemma start_at_node vols n seed m' w' locks :
  at_node vols n -> NewXfsQuotaManager seed (abs_path re) n.2 = (Ok (inl m'), w') ->
  at_node vols (mkNodeServer locks m', w') /\ held (W := W) m' = held (W := W) (mgr n) /\ ids_ok (W := W) m'.
Proof.
  intros Hn E. destruct (tied_restarts re re_ne re_normal vols (mgr n) n.2 Hn seed) as (m2 & w2 & E2 & Ht & Hw).
  rewrite E in E2. injection E2 as <- <-. split_and!; [done | |].
  - change (dom (quotas m') = dom (quotas (mgr n))). rewrite <- (dom_fmap_L (fun q => (path_Path q, path_DeviceName q)) (quotas m')).
    rewrite <- (dom_fmap_L (fun q => (path_Path q, path_DeviceName q)) (quotas (mgr n))). by f_equal.
  - intros v info Hv. by apply (wf_volume _ _ (start_well_formed _ _ _ _ _ E)).
Qed.
End node.

(** ** The cluster *)

Section cluster.
Context {R Wn Wm : Type} `{RandLaws R} `{LookupLaws Wn} `{MetaStoreLaws Wm}.
Context (re : list string) (re_ne : re <> []) (re_normal : Forall normal_elem re).
Abbreviation Mgr := (XFSQuotaManager (QuotaVolumeProvider (ProjectIDAllocator R))).
Implicit Types s : system (XFSQuotaManager (QuotaVolumeProvider (ProjectIDAllocator R))) Wn Wm.

(** The calls of [LifeCycle]; what other processes of the node do outside the pool; and
    starts: a node process that starts again has new locks, the manager that it restores
    from the disks, and a worker that has not begun; a controller process that starts again
    has new locks. *)
Inductive cluster_step : system Mgr Wn Wm -> system Mgr Wn Wm -> Prop :=
  | cl_call s s' : sys_step s s' -> node_call re (sys_node s) (sys_node s') -> cluster_step s s'
  | cl_outside c n rt ph dl w' :
      harmless re n.2 w' -> cluster_step (mkSystem c n rt ph dl) (mkSystem c (n.1, w') rt ph dl)
  | cl_node_start seed c n rt ph dl m' w' :
      NewXfsQuotaManager seed (abs_path re) n.2 = (Ok (inl m'), w') ->
      cluster_step (mkSystem c n rt ph dl) (mkSystem c (mkNodeServer NewVolumeLocks m', w') [] Resting dl)
  | cl_controller_start driver c n rt ph dl :
      cluster_step (mkSystem c n rt ph dl) (mkSystem (mkControllerServer driver NewVolumeLocks, c.2) n rt ph dl).

Definition cluster_ok s : Prop := sys_ok s /\ exists vols, at_node re vols (sys_node s).

Lemma cluster_step_ok vols s s' :
  sys_ok s -> at_node re vols (sys_node s) -> cluster_step s s' ->
  vol_step (abstraction s) (abstraction s') /\ sys_ok s' /\ moved re vols (sys_node s').
Proof.
  intros Hok Hn Hs. destruct Hs as [s s' Hs Hc | c n rt ph dl w' Hw | seed c n rt ph dl m' w' E | driver c n rt ph dl].
  - destruct (sys_step_simulates s s' Hok Hs) as [Hv Hok']. split_and!; [done | done |]. by eapply node_call_moves.
  - split; [constructor |]. split; [exact Hok | by apply at_moved, (harmless_at_node re re_ne re_normal)].
  - destruct (start_at_node re re_ne re_normal vols n seed m' w' NewVolumeLocks Hn E) as (Hn' & Hheld & Hids).
    assert (Ha : abstraction (mkSystem c (mkNodeServer NewVolumeLocks m', w') [] Resting dl) = abstraction (mkSystem c n rt ph dl)).
    { unfold abstraction. cbn -[held]. by f_equal. }
    rewrite Ha. split; [constructor |]. split; [| by apply at_moved].
    destruct Hok as (_ & Hv & _). unfold sys_ok. rewrite Ha. by split_and!; [| | constructor |].
  - split; [constructor |]. split; [exact Hok | by apply at_moved].
Qed.

(** No step moves a durable volume that exists. *)
Lemma stays_put vols s s' v :
  sys_ok s -> at_node re vols (sys_node s) -> cluster_step s s' -> ephemeral_id v = false ->
  v ∈ existing (sys_controller s) -> v ∈ held (W := Wn) (mgr (sys_node s)) ->
  is_Some (whereabouts (mgr (sys_node s)) !! v) /\ whereabouts (mgr (sys_node s')) !! v = whereabouts (mgr (sys_node s)) !! v.
Proof.
  intros Hs Hn Hst He Hx Hh. destruct (cluster_step_ok vols s s' Hs Hn Hst) as (Hstep & _ & vols2 & Hn2 & Hfast).
  assert (Hh' : v ∈ held (W := Wn) (mgr (sys_node s'))).
  { apply (vol_step_keeps (abstraction s) (abstraction s')); [apply Hs | done..]. }
  change (v ∈ dom (quotas (mgr (sys_node s)))) in Hh. change (v ∈ dom (quotas (mgr (sys_node s')))) in Hh'.
  apply elem_of_dom in Hh as [q Hq], Hh' as [q' Hq'].
  destruct (tied_cached re vols _ _ v q Hn Hq) as (kv & Hkv & Hp & Hd & _).
  destruct (tied_cached re vols2 _ _ v q' Hn2 Hq') as (kv' & Hkv' & Hp' & Hd' & _).
  rewrite (Hfast v kv kv' Hkv Hkv') in Hp', Hd'. unfold whereabouts. rewrite !lookup_fmap, Hq, Hq'. cbn.
  split; [by eexists |]. by rewrite Hp, Hd, Hp', Hd'.
Qed.

Lemma cluster_reaches s0 s :
  cluster_ok s0 -> reachable cluster_step s0 s -> reachable vol_step (abstraction s0) (abstraction s) /\ cluster_ok s.
Proof.
  intros Hinit. induction 1 as [| s s' Hr [IHr [IHok [vols IHn]]] Hs]; [split; [constructor | done] |].
  destruct (cluster_step_ok vols s s' IHok IHn Hs) as (Hv & Hok & vols' & Hn & _).
  split; [by eapply reachable_next |]. split; [done | by exists vols'].
Qed.

Lemma cluster_start seed w vols s0 :
  CheckDirExists (abs_path re) w = true -> tidy re w vols -> clearable re w ->
  NewXfsQuotaManager seed (abs_path re) w = (Ok (inl (mgr (sys_node s0))), (sys_node s0).2) -> sys_init s0 -> cluster_ok s0.
Proof.
  intros Hroot Ht Hc E Hinit. split; [by apply sys_init_ok |]. exists vols. unfold at_node.
  destruct (restart_tied re re_ne re_normal seed vols w Hroot Ht Hc) as (m2 & w2 & E2 & Ht2).
  rewrite E in E2. by injection E2 as -> ->.
Qed.

(** *** The worker gets through *)

(** A release of the worker succeeds. *)
Lemma release_step vols n v :
  at_node re vols n -> ids_ok (W := Wn) (mgr n) ->
  exists n' vols', manager_call (ReleaseVolumePath v) n = (Ok tt, n') /\ at_node re vols' n' /\ ids_ok (W := Wn) (mgr n') /\
    held (W := Wn) (mgr n') = held (W := Wn) (mgr n) ∖ {[ v ]}.
Proof.
  intros Hn Hok. destruct (manager_call (ReleaseVolumePath v) n) as [r n'] eqn:E. apply srv_manager_run in E as [E _].
  destruct (tied_release re re_ne re_normal vols v r _ _ Hn E) as [-> (vols' & Hn' & _)].
  destruct (release_law v _ _ _ _ _ Hok E) as [Hok' Hheld]. by exists n', vols'.
Qed.

(** A loop of the worker over a list of volumes; [phase] is the phase it is in. *)
Lemma releases (phase : list string -> worker_phase) c rt dl :
  (forall v todo (n n' : NodeServer Mgr * Wn), manager_call (ReleaseVolumePath v) n = (Ok tt, n') ->
     sys_step (mkSystem c n rt (phase (v :: todo)) dl) (mkSystem c n' rt (phase todo) dl)) ->
  forall todo vols n, at_node re vols n -> ids_ok (W := Wn) (mgr n) ->
  exists n' vols', reachable cluster_step (mkSystem c n rt (phase todo) dl) (mkSystem c n' rt (phase []) dl) /\
    at_node re vols' n' /\ ids_ok (W := Wn) (mgr n') /\ held (W := Wn) (mgr n') = held (W := Wn) (mgr n) ∖ list_to_set todo.
Proof.
  intros Hstep. induction todo as [|v todo IH]; intros vols n Hn Hok.
  - exists n, vols. split_and!; [constructor | done | done | set_solver].
  - destruct (release_step vols n v Hn Hok) as (n1 & vols1 & E & Hn1 & Hok1 & Hh1).
    destruct (IH vols1 n1 Hn1 Hok1) as (n2 & vols2 & Hr & Hn2 & Hok2 & Hh2). exists n2, vols2.
    split_and!; [| done | done | rewrite Hh2, Hh1; set_solver].
    eapply reachable_trans; [| exact Hr]. apply reachable_one, cl_call; [by apply Hstep |].
    cbn. replace n1 with (manager_call (ReleaseVolumePath v) n).2 by (by rewrite E). apply call_release.
Qed.

Lemma meta_listed (c : ControllerServer * Wm) m : stored c.2 = Some m -> ListMetaInfos c.2 = (Ok m, c.2).
Proof. intros Hm. destruct (List_law c.2) as [E _]. by rewrite Hm in E. Qed.

(** The worker comes to rest from the loop over the orphans, from the listing of the
    store and from the loop over the retry list; it releases what it had to. *)
Lemma cleaning_rests c rt dl todo failed vols n :
  at_node re vols n -> ids_ok (W := Wn) (mgr n) ->
  exists n' vols', reachable cluster_step (mkSystem c n rt (Cleaning todo failed) dl) (mkSystem c n' failed Resting dl) /\
    at_node re vols' n' /\ ids_ok (W := Wn) (mgr n') /\ held (W := Wn) (mgr n') = held (W := Wn) (mgr n) ∖ list_to_set todo.
Proof.
  intros Hn Hok.
  destruct (releases (fun todo => Cleaning todo failed) c rt dl ltac:(intros; by eapply step_clean) todo vols n Hn Hok)
    as (n1 & vols1 & R1 & Hn1 & Hok1 & Hh1).
  exists n1, vols1. split_and!; [| done..]. eapply reachable_trans; [exact R1 |].
  apply reachable_one, cl_call; [apply step_cleaned | apply call_none].
Qed.

Lemma listing_rests c rt dl m infos failed vols n :
  stored c.2 = Some m -> at_node re vols n -> ids_ok (W := Wn) (mgr n) ->
  exists n' vols', reachable cluster_step (mkSystem c n rt (Listing infos failed) dl) (mkSystem c n' failed Resting dl) /\
    at_node re vols' n' /\ ids_ok (W := Wn) (mgr n') /\
    held (W := Wn) (mgr n') = held (W := Wn) (mgr n) ∖ list_to_set (orphans m infos).
Proof.
  intros Hm Hn Hok. destruct (cleaning_rests c rt dl (orphans m infos) failed vols n Hn Hok) as (n1 & vols1 & R1 & Hrest).
  exists n1, vols1. split; [| done]. destruct c as [cs w].
  eapply reachable_trans; [apply reachable_one, cl_call; [by apply step_meta, meta_listed | apply call_none] |]. exact R1.
Qed.

Lemma retrying_rests c rt dl m infos todo failed vols n :
  stored c.2 = Some m -> at_node re vols n -> ids_ok (W := Wn) (mgr n) ->
  exists n' vols', reachable cluster_step (mkSystem c n rt (Retrying infos todo failed) dl) (mkSystem c n' failed Resting dl) /\
    at_node re vols' n' /\ ids_ok (W := Wn) (mgr n') /\
    held (W := Wn) (mgr n') = held (W := Wn) (mgr n) ∖ list_to_set todo ∖ list_to_set (orphans m infos).
Proof.
  intros Hm Hn Hok.
  destruct (releases (fun todo => Retrying infos todo failed) c rt dl ltac:(intros; by eapply step_retry) todo vols n Hn Hok)
    as (n1 & vols1 & R1 & Hn1 & Hok1 & Hh1).
  destruct (listing_rests c rt dl m infos failed vols1 n1 Hm Hn1 Hok1) as (n2 & vols2 & R2 & Hn2 & Hok2 & Hh2).
  exists n2, vols2. split_and!; [| done | done | by rewrite Hh2, Hh1].
  eapply reachable_trans; [exact R1 |]. eapply reachable_trans; [| exact R2].
  apply reachable_one, cl_call; [apply step_retried | apply call_none].
Qed.

Lemma orphans_unrecorded m infos : list_to_set (orphans m infos) ## (dom m : gset string).
Proof.
  intros v Hv Hd. apply elem_of_list_to_set in Hv. unfold orphans in Hv. apply list_elem_of_filter in Hv as [Hv _].
  apply elem_of_dom in Hd as [x Hx]. congruence.
Qed.

Lemma deleted_unrecorded (s : system Mgr Wn Wm) todo :
  sys_ok s -> deleted_ids todo (abstraction s) -> list_to_set todo ## existing (sys_controller s).
Proof.
  intros (_ & [Hd _] & _) Hdel v Hv Hx. apply elem_of_list_to_set in Hv.
  unfold deleted_ids in Hdel. rewrite Forall_forall in Hdel. by apply (Hd v Hx), Hdel.
Qed.

(** Wherever the worker is, it comes to rest and releases no recorded volume. *)
Lemma comes_to_rest c n rt ph dl m :
  stored c.2 = Some m -> cluster_ok (mkSystem c n rt ph dl) ->
  exists n' rt', reachable cluster_step (mkSystem c n rt ph dl) (mkSystem c n' rt' Resting dl) /\
    held (W := Wn) (mgr n') ⊆ held (W := Wn) (mgr n) /\
    held (W := Wn) (mgr n) ∩ existing c ⊆ held (W := Wn) (mgr n').
Proof.
  intros Hm [Hok [vols Hn]]. pose proof Hok as (Hids & _ & _ & Hph). cbn [sys_node sys_phase] in *.
  assert (Hdom : existing c = dom m) by (unfold existing, meta; by rewrite Hm).
  destruct ph as [| infos todo failed | infos failed | todo failed]; cbn [phase_ok] in Hph.
  - exists n, rt. split_and!; [constructor | done | set_solver].
  - destruct Hph as (_ & Hdel & _). apply (deleted_unrecorded _ _ Hok) in Hdel. cbn in Hdel.
    destruct (retrying_rests c rt dl m infos todo failed vols n Hm Hn Hids) as (n' & vols' & Rr & _ & _ & Hh).
    pose proof (orphans_unrecorded m infos). exists n', failed. split_and!; [done | set_solver.. ].
  - destruct (listing_rests c rt dl m infos failed vols n Hm Hn Hids) as (n' & vols' & Rr & _ & _ & Hh).
    pose proof (orphans_unrecorded m infos). exists n', failed. split_and!; [done | set_solver.. ].
  - destruct Hph as [Hdel _]. apply (deleted_unrecorded _ _ Hok) in Hdel. cbn in Hdel.
    destruct (cleaning_rests c rt dl todo failed vols n Hn Hids) as (n' & vols' & Rr & _ & _ & Hh).
    exists n', failed. split_and!; [done | set_solver.. ].
Qed.

(** A full round of the worker leaves the recorded volumes. *)
Lemma round_collects c n rt dl m :
  stored c.2 = Some m -> cluster_ok (mkSystem c n rt Resting dl) ->
  exists n', reachable cluster_step (mkSystem c n rt Resting dl) (mkSystem c n' [] Resting dl) /\
    held (W := Wn) (mgr n') = held (W := Wn) (mgr n) ∩ existing c.
Proof.
  intros Hm [Hok [vols Hn]]. pose proof Hok as (Hids & _ & Hrt & _). cbn [sys_node sys_phase sys_retry] in *.
  assert (Hdom : existing c = dom m) by (unfold existing, meta; by rewrite Hm).
  destruct (manager_call ListPathQuotaInfos n) as [r n1] eqn:El. pose proof El as Erun. apply srv_manager_run in Erun as [Erun _].
  pose proof (hoare_run _ _ _ _ _ _ _ (tied_ListPathQuotaInfos re re_normal vols) Erun Hn) as Hn1.
  destruct r as [infos | e | y]; [| done..].
  destruct (list_law _ _ _ _ _ Hids Erun) as (Hids1 & Hh1 & _).
  assert (Hall : forall v, v ∈ held (W := Wn) (mgr n) -> exists info, info ∈ infos /\ path_VolumeId info = v)
    by (intros v Hv; exact (list_complete (mgr n) n.2 infos (mgr n1) n1.2 v Hids Erun Hv)).
  destruct (retrying_rests c rt dl m infos rt [] vols n1 Hm Hn1 Hids1) as (n2 & vols2 & Rr & _ & _ & Hh2).
  exists n2. split.
  - eapply reachable_trans; [| exact Rr]. apply reachable_one, cl_call; [by apply (step_list c n rt dl (Ok infos) n1) |].
    cbn. replace n1 with (manager_call ListPathQuotaInfos n).2 by (by rewrite El). apply call_list.
  - apply (deleted_unrecorded _ _ Hok) in Hrt. cbn in Hrt. pose proof (orphans_unrecorded m infos) as Ho.
    rewrite Hh2, Hh1, Hdom in *. apply set_eq. intros v. rewrite elem_of_intersection, !elem_of_difference. split.
    + intros [[Hv Hnr] Hno]. split; [done |]. destruct (Hall v Hv) as (info & Hin & Hid).
      apply elem_of_dom. destruct (m !! v) as [x|] eqn:Hmv; [by eexists |]. exfalso. apply Hno, elem_of_list_to_set.
      unfold orphans. apply list_elem_of_filter. split; [done |]. apply list_elem_of_fmap. by exists info.
    + intros [Hv Hd]. split_and!; [done | |]; intros Hx; [by apply (Hrt v) | by apply (Ho v)].
Qed.

(** C3: Durable data survives: from a start on disks that hold volumes only, whose
    directories can be removed, through all interleavings of the servers' calls - whichever
    of them fail - of the worker's cleaning, and of new starts of the node and the
    controller process, the volumes are as the abstract machine has them; a durable volume
    that exists and is placed is after the next step in the same directory on the same
    device; and at any time a start of the node process succeeds and finds every volume
    where it is. *)
Theorem durable_data_survives seed w vols s0 s :
  CheckDirExists (abs_path re) w = true -> tidy re w vols -> clearable re w ->
  NewXfsQuotaManager seed (abs_path re) w = (Ok (inl (mgr (sys_node s0))), (sys_node s0).2) -> sys_init s0 ->
  reachable cluster_step s0 s ->
  reachable vol_step (abstraction s0) (abstraction s) /\
  (forall s' v, cluster_step s s' -> ephemeral_id v = false -> v ∈ existing (sys_controller s) ->
     v ∈ held (W := Wn) (mgr (sys_node s)) ->
     is_Some (whereabouts (mgr (sys_node s)) !! v) /\ whereabouts (mgr (sys_node s')) !! v = whereabouts (mgr (sys_node s)) !! v) /\
  (forall seed', exists m' w', NewXfsQuotaManager seed' (abs_path re) (sys_node s).2 = (Ok (inl m'), w') /\
     whereabouts m' = whereabouts (mgr (sys_node s))).
Proof.
  intros Hroot Ht Hc E Hinit Hr. pose proof (cluster_start seed w vols s0 Hroot Ht Hc E Hinit) as Hok.
  destruct (cluster_reaches s0 s Hok Hr) as [Hv [Hs [vols' Hn]]]. split_and!; [done | |].
  - intros s' v Hst He Hx Hh. by apply (stays_put vols').
  - intros seed'. destruct (tied_restarts re re_ne re_normal vols' _ _ Hn seed') as (m' & w' & E' & _ & Hw). by exists m', w'.
Qed.

(** C9: No directory is stuck: in every state that the cluster of [durable_data_survives]
    reaches, wherever the worker is in its round, if the config map can be read, a state is
    reachable, with the same records, in which the worker is at rest with nothing to retry
    and the node holds exactly those of its volumes that are recorded. *)
Theorem garbage_collectable seed w vols s0 s m :
  CheckDirExists (abs_path re) w = true -> tidy re w vols -> clearable re w ->
  NewXfsQuotaManager seed (abs_path re) w = (Ok (inl (mgr (sys_node s0))), (sys_node s0).2) -> sys_init s0 ->
  reachable cluster_step s0 s -> stored (sys_controller s).2 = Some m ->
  exists s', reachable cluster_step s s' /\ sys_controller s' = sys_controller s /\ sys_phase s' = Resting /\ sys_retry s' = [] /\
    held (W := Wn) (mgr (sys_node s')) = held (W := Wn) (mgr (sys_node s)) ∩ existing (sys_controller s).
Proof.
  intros Hroot Ht Hc E Hinit Hr Hm. pose proof (cluster_start seed w vols s0 Hroot Ht Hc E Hinit) as Hok0.
  destruct (cluster_reaches s0 s Hok0 Hr) as [_ Hok]. destruct s as [c n rt ph dl]. cbn [sys_controller sys_node] in *.
  destruct (comes_to_rest c n rt ph dl m Hm Hok) as (n1 & rt1 & R1 & Hsub & Hkeep).
  destruct (cluster_reaches _ _ Hok R1) as [_ Hok1].
  destruct (round_collects c n1 rt1 dl m Hm Hok1) as (n2 & R2 & Hh).
  exists (mkSystem c n2 [] Resting dl). split; [by eapply reachable_trans |]. split_and!; [done..|]. cbn [sys_node]. set_solver.
Qed.
End cluster.

(** ** A cluster whose node process is started again *)

#[local] Existing Instance run_client.
#[local] Existing Instance run_meta.
#[local] Existing Instance run_meta_laws.

#[local] Program Instance run_lookup : LookupLaws sim.
Next Obligation. intros v w. cbn. reflexivity. Qed.

Lemma found_named volume : publishes run_publish (sys_node run1) volume -> no_char slash (pv_volId volume).
Proof. intros (s1 & s2 & _ & E). unfold srv_world, zoom in E. cbn in E. injection E as <- _. by vm_compute. Qed.

Lemma pods_foreign : foreign the_root "/pods/t".
Proof.
  split; [exists ["pods"; "t"]; split_and!; [done | | done]; repeat (apply Forall_cons; split; [by vm_compute |]); constructor |].
  split_and!; [done | |]; intros [t E]; by destruct t.
Qed.

(** The node process is killed after the volume was published, and starts again. *)
Definition node_again : manager * sim := start (sys_node run2).2.
Definition run2_again : sim_system :=
  mkSystem (sys_controller run2) (mkNodeServer NewVolumeLocks node_again.1, node_again.2) [] Resting ∅.

Lemma node_again_eq : NewXfsQuotaManager 7 "/pool" (sys_node run2).2 = (Ok (inl node_again.1), node_again.2).
Proof. vm_compute. reflexivity. Qed.

Lemma run2_reached : reachable (cluster_step the_root) run0 run2.
Proof.
  eapply reachable_next; [apply reachable_one |]; apply cl_call.
  - exact run_step1.
  - apply call_none.
  - exact run_step2.
  - apply (call_publish the_root run_publish (sys_node run1) pods_foreign found_named).
Qed.

Lemma run2_restarts : cluster_step the_root run2 run2_again.
Proof. apply (cl_node_start the_root 7 (sys_controller run2) (sys_node run2) [] Resting ∅). exact node_again_eq. Qed.

Lemma durable_data_survives_witness :
  whereabouts (mgr (sys_node run2_again)) !! durable_id = whereabouts (mgr (sys_node run2)) !! durable_id.
Proof.
  apply (durable_data_survives the_root ltac:(done) root_normal 7 sim_empty ∅ run0 run2 eq_refl empty_tidy empty_clearable
    started_eq run_starts run2_reached).
  - exact run2_restarts.
  - reflexivity.
  - by vm_compute.
  - by vm_compute.
Defined.

(** The volume is deleted while the worker is between its two lists. *)
Lemma run5_reached : reachable (cluster_step the_root) run0 run5.
Proof.
  eapply reachable_trans; [exact run2_reached |].
  eapply reachable_next; [eapply reachable_next; [apply reachable_one |] |]; apply cl_call.
  - exact run_step3.
  - apply (call_list the_root (sys_node run2)).
  - exact run_step4.
  - apply call_none.
  - exact run_step5.
  - apply call_none.
Qed.

Lemma garbage_collectable_witness :
  held (mgr (sys_node run5)) <> ∅ /\
  exists s', reachable (cluster_step the_root) run5 s' /\ held (mgr (sys_node s')) = ∅.
Proof.
  split; [by vm_compute |].
  destruct (garbage_collectable the_root ltac:(done) root_normal 7 sim_empty ∅ run0 run5 ∅ eq_refl empty_tidy empty_clearable
    started_eq run_starts run5_reached) as (s' & Hr & _ & _ & _ & Hh).
  - vm_compute. reflexivity.
  - exists s'. split; [exact Hr |]. rewrite Hh.
    assert (Hx : existing (sys_controller run5) = ∅) by (vm_compute; reflexivity). rewrite Hx. apply intersection_empty_r_L.
Defined.
