(* ===== verification/Driver.v ===== *)
(** * The driver: hostpath/driver.go, identityserver.go, util/config.go, cmd/csi-plugin

    [Run] makes the servers that the flags ask for, starts the sync worker on a node,
    and hands the servers to the gRPC server.  The server pointers of a role that the
    process does not have are nil, and a nil pointer is a value of the interface it is
    converted to.  The three services are total functions on the pointers; what the
    clients see of them is what the interceptors make of the handlers ([answer]). *)

From S2P Require Import Prelude IdLocker GoStrings VolId Os SimOs Util FileSystem Beside Allocator QuotaProvider QuotaManager.
From S2P Require Import Csi CsiCommon GrpcServer Locked MetaStore ControllerServer HostPathApi Annotations HostPathClient NodeServer SyncWorker.
Open Scope Z_scope.
Open Scope go_scope.

(** ** config.go and the flags of cmd/csi-plugin/main.go *)

Record Config := mkConfig {
  KubeConfig : string;
  Endpoint : string;
  DriverName : string;
  NodeID : string;
  PluginPath : string;
  MetaConfigMapName : string;
  MetaConfigMapNamespace : string;
  MetricsPath : string;
  HistogramOption : string;
  PollTime : Z;
  PoolTimeout : Z;
  IsControllerServer : bool;
  IsNodeServer : bool
}.

(** [conf] when no flag is given *)
Definition default_config : Config :=
  mkConfig "" "unix://tmp/csi.sock" "" "" "/var/lib/kubelet/plugins/" "hostpath-meta-store" ""
    "" "0.5,2,6" 0 0 false false.

(** ** identityserver.go *)

Record IdentityServer := mkIdentityServer { is_Default : DefaultIdentityServer }.

Definition GetPluginCapabilities (ids : IdentityServer) : list PluginCap :=
  [Service_CONTROLLER_SERVICE; VolumeExpansion_ONLINE; Service_VOLUME_ACCESSIBILITY_CONSTRAINTS].

Definition identity_rpc {S A} (ids : IdentityServer) (c : IdentityCall A) : M S A :=
  match c in IdentityCall A return M S A with
  | CallGetPluginCapabilities => ret (GetPluginCapabilities ids)
  | c => default_identity (is_Default ids) c
  end.

(** ** The methods of a server pointer *)

Definition nil_dereference : string := "runtime error: invalid memory address or nil pointer dereference".

Section receiver.
Context {P W A : Type}.

(** A method with a pointer receiver: on an object it is [m]; on a nil pointer it runs
    until it first reads the receiver, which is [before]. *)
Definition on_receiver (before : M W unit) (m : M (P * W) A) : M (option P * W) A := fun s =>
  match s.1 with
  | Some p => let '(r, (p', w)) := m (p, s.2) in (r, (Some p', w))
  | None => let '(r, w) := (before ;; panic nil_dereference) s.2 in (r, (None, w))
  end.

(** A method that never reads its receiver. *)
Definition any_receiver (m : M W A) : M (option P * W) A := zoom snd (fun w s => (s.1, w)) m.
End receiver.

Definition stop_if {W} (err : option error) : M W unit :=
  match err with Some e => fail e | None => ret tt end.

Section controller_service.
Context {W : Type} `{MetaStoreInterFace W}.

(** The methods of [ControllerServer]; those of the embedded [DefaultControllerServer]
    read the pointer to it. *)
Definition controller_rpc {A} (c : ControllerCall A) : M (option ControllerServer * W) A :=
  match c in ControllerCall A return M (option ControllerServer * W) A with
  | CallCreateVolume req => on_receiver (ret tt) (CreateVolume req)
  | CallDeleteVolume req => on_receiver (ret tt) (DeleteVolume req)
  | CallControllerExpandVolume req => on_receiver (ret tt) (ControllerExpandVolume req)
  | CallValidateVolumeCapabilities req => any_receiver (lift (ValidateVolumeCapabilities req))
  | CallControllerGetCapabilities => on_receiver (ret tt) (gets (fun s => ControllerGetCapabilities (cs_Driver s.1)))
  | CallControllerPublishVolume => on_receiver (ret tt) ControllerPublishVolume
  | CallControllerUnpublishVolume => on_receiver (ret tt) ControllerUnpublishVolume
  | CallListVolumes => on_receiver (ret tt) ListVolumes
  | CallGetCapacity => on_receiver (ret tt) GetCapacity
  | CallCreateSnapshot name => on_receiver (ret tt) (CreateSnapshot name)
  | CallDeleteSnapshot id => on_receiver (ret tt) (DeleteSnapshot id)
  | CallListSnapshots => on_receiver (ret tt) ListSnapshots
  | CallControllerGetVolume => on_receiver (ret tt) ControllerGetVolume
  end.
End controller_service.

Section node_service.
Context {Q W : Type} `{QuotaManagerInterface Q W} `{OS W} `{HostPathClientInterface W} `{MetricsStatFS W}.

(** A node server with the default server that is embedded in it. *)
Abbreviation NodePtr := (option (DefaultNodeServer * NodeServer Q)).
Abbreviation NodeObj := ((DefaultNodeServer * NodeServer Q) * W)%type.

Definition of_node {A} (m : M (NodeServer Q * W) A) : M NodeObj A :=
  zoom (fun s : NodeObj => (s.1.2, s.2)) (fun t s => ((s.1.1, t.1), t.2)) m.
Definition of_world {A} (m : M W A) : M NodeObj A := zoom snd (fun w s => (s.1, w)) m.

(** What the methods do before they read the node server. *)
Definition before_publish (req : NodePublishVolumeRequest) : M W unit :=
  stop_if (ValidateNodePublishVolumeRequest req).
Definition before_unpublish (req : NodeUnpublishVolumeRequest) : M W unit :=
  stop_if (ValidateNodeUnpublishVolumeRequest req) ;;
  lift (match DecomposeCSIID (un_VolumeId req) (mkCSIIdentifier 0 false "") with
        | (Fail _, _) => Fail (StatusError Internal ("failed decode volId " +:+ un_VolumeId req +:+ " "))
        | (r, _) => r
        end).
Definition before_expand (req : NodeExpandVolumeRequest) : M W unit :=
  if go_len (ne_VolumeId req) =? 0 then fail (StatusError InvalidArgument "volume ID must be provided")
  else if go_len (ne_VolumePath req) =? 0 then fail (StatusError InvalidArgument "volume path must be provided")
  else ret tt.

Definition node_rpc {A} (c : NodeCall A) : M (NodePtr * W) A :=
  match c in NodeCall A return M (NodePtr * W) A with
  | CallNodeStageVolume req => any_receiver (let! err := gets (ValidateNodeStageVolumeRequest req) in stop_if err)
  | CallNodeUnstageVolume req => any_receiver (stop_if (ValidateNodeUnstageVolumeRequest req))
  | CallNodePublishVolume req => on_receiver (before_publish req) (of_node (NodePublishVolume req))
  | CallNodeUnpublishVolume req => on_receiver (before_unpublish req) (of_node (NodeUnpublishVolume req))
  | CallNodeExpandVolume req => on_receiver (before_expand req) (of_node (NodeExpandVolume req))
  | CallNodeGetVolumeStats req => on_receiver (ret tt) (of_world (NodeGetVolumeStats (gs_VolumePath req)))
  | CallNodeGetCapabilities => any_receiver (ret NodeGetCapabilities)
  | CallNodeGetInfo => on_receiver (ret tt) (gets (fun s => NodeGetInfo s.1.1))
  end.
End node_service.

(** ** driver.go *)

(** A variable of the interface type [QuotaManagerInterface] holds one of two managers. *)
Section dynamic.
Context {Q1 Q2 W : Type} `{QuotaManagerInterface Q1 W} `{QuotaManagerInterface Q2 W}.

Definition either {A} (m1 : M (Q1 * W) A) (m2 : M (Q2 * W) A) : M ((Q1 + Q2) * W) A := fun s =>
  match s.1 with
  | inl q => let '(r, (q', w)) := m1 (q, s.2) in (r, (inl q', w))
  | inr q => let '(r, (q', w)) := m2 (q, s.2) in (r, (inr q', w))
  end.

#[export] Instance dynamic_manager : QuotaManagerInterface (Q1 + Q2) W := {
  ListQuotaDiskInfos := either ListQuotaDiskInfos ListQuotaDiskInfos;
  ListPathQuotaInfos := either ListPathQuotaInfos ListPathQuotaInfos;
  SetQuotaDiskDisabledState p b := either (SetQuotaDiskDisabledState p b) (SetQuotaDiskDisabledState p b);
  GetVolumeQuotaPath v c := either (GetVolumeQuotaPath v c) (GetVolumeQuotaPath v c);
  ExpandVolume v c := either (ExpandVolume v c) (ExpandVolume v c);
  ReleaseVolumePath v := either (ReleaseVolumePath v) (ReleaseVolumePath v)
}.
End dynamic.

Section run.
Context {R W : Type} `{Rand R} `{OS W} `{ConfigMaps W} `{KubeApi W}.

Definition Manager : Type := XFSQuotaManager (QuotaVolumeProvider (ProjectIDAllocator R)) + FakeQuotaManager.

Record Driver := mkDriver {
  hp_cd : option CSIDriver;
  hp_ids : option IdentityServer;
  hp_ns : option (DefaultNodeServer * NodeServer Manager);
  hp_cs : option ControllerServer
}.
Definition NewDriver : Driver := mkDriver None None None None.

Definition NewIdentityServer (d : CSIDriver) : IdentityServer := mkIdentityServer (NewDefaultIdentityServer d).
Definition NewControllerServer (d : CSIDriver) : ControllerServer :=
  mkControllerServer (dcs_Driver (NewDefaultControllerServer d)) NewVolumeLocks.
Definition NewNodeServer (seed : R) (d : CSIDriver) (nodeName : string) : M W (DefaultNodeServer * NodeServer Manager) :=
  let! quotaMng := NewXfsQuotaManager seed "/xfs" in
  ret (NewDefaultNodeServer d nodeName None, mkNodeServer NewVolumeLocks quotaMng).

(** What [Run] has started when it waits: the driver with its servers, the worker - its
    quota manager is the object of the node server - and the arguments of
    [NonBlockingGRPCServer.Start]. *)
Record launched := mkLaunched {
  l_hp : Driver;
  l_worker : option (SyncWorker Manager);
  l_args : ServeArgs
}.

(** A pointer as a value of an interface *)
Definition as_interface {A} (p : option A) : iface := match p with Some _ => Object | None => NilPointer end.

Definition meta_store (conf : Config) : ConfigMapMetaStore :=
  mkConfigMapMetaStore (MetaConfigMapName conf) (MetaConfigMapNamespace conf).

(** [if err != nil { util.FatalLogMsg("failed to start node server, err %v\n", err) }] *)
Definition or_fatal {A} (m : M W A) : M W A :=
  map_error (fun err => Errorf ("failed to start node server, err " +:+ error_text err +:+ String "010" "")) m.

Definition driver_caps : list ControllerCap := [CC_CREATE_DELETE_VOLUME; CC_EXPAND_VOLUME].
Definition driver_modes : list AccessMode := [AM_SINGLE_NODE_READER_ONLY; AM_SINGLE_NODE_WRITER].

Definition Run (DriverVersion : string) (seed : R) (conf : Config) : M W launched :=
  match NewCSIDriver HostPathCsiDriverName DriverVersion (NodeID conf) with
  | None => fatal "Failed to initialize CSI Driver."
  | Some cd =>
      let cd := AddControllerServiceCapabilities driver_caps cd in
      let cd := (AddVolumeCapabilityAccessModes driver_modes cd).2 in
      let ids := NewIdentityServer cd in
      (if IsNodeServer conf || IsControllerServer conf
       then or_fatal (NewConfigMapMetaStore (meta_store conf)) ;; ret tt else ret tt) ;;
      (let! ns := if IsNodeServer conf
                  then let! ns := or_fatal (NewNodeServer seed cd (NodeID conf)) in ret (Some ns)
                  else ret None in
       let worker := option_map (fun p : DefaultNodeServer * NodeServer Manager =>
                       mkSyncWorker [] (NodeID conf) ∅ empty_usage (srv_quotaMng p.2)) ns in
       let cs := if IsControllerServer conf then Some (NewControllerServer cd) else None in
       let hp := mkDriver (Some cd) (Some ids) ns cs in
       ret (mkLaunched hp worker
         (mkServeArgs (Endpoint conf) (HistogramOption conf)
            (as_interface (Some ids)) (as_interface cs) (as_interface ns) false)))
  end.

(** cmd/csi-plugin/main.go: the client, whose library functions are arguments, and the
    driver; a [util.FatalLogMsg] ends the process. *)
Definition getK8sClient {Cfg Client} (BuildConfigFromFlags : string -> string -> Cfg + error)
    (InClusterConfig : Cfg + error) (NewForConfig : Cfg -> Client + error) (kubeConfig : string) : outcome Client :=
  let cfg := if decide (kubeConfig <> "") then BuildConfigFromFlags "" kubeConfig else InClusterConfig in
  match cfg with
  | inr err => Fail (Errorf ("Failed to get cluster config with error: " +:+ error_text err +:+ String "010" ""))
  | inl cfg =>
      match NewForConfig cfg with
      | inr err => Fail (Errorf ("Failed to create client with error: " +:+ error_text err +:+ String "010" ""))
      | inl client => Ok client
      end
  end.

Definition main {Client} (client : outcome Client) (DriverVersion : string) (seed : R) (conf : Config) : M W launched :=
  lift client ;; Run DriverVersion seed conf.
End run.
Arguments Manager : clear implicits.
Arguments Driver : clear implicits.
Arguments launched : clear implicits.

(** ** What the clients of the process see *)

(** A call of one of the three services *)
Inductive Call : Type -> Type :=
  | ToIdentity {A} (c : IdentityCall A) : Call A
  | ToController {A} (c : ControllerCall A) : Call A
  | ToNode {A} (c : NodeCall A) : Call A.

Definition call_request {A} (c : Call A) : Request :=
  match c with ToIdentity _ => ReqOther | ToController c => controller_request c | ToNode c => node_request c end.

(** The server that is registered for the call *)
Definition receiver {A} (sv : grpcServer) (c : Call A) : option iface :=
  match c with ToIdentity _ => sv_identity sv | ToController _ => sv_controller sv | ToNode _ => sv_node sv end.

Section answers.
Context {R W : Type} `{Rand R} `{OS W} `{ConfigMaps W} `{KubeApi W} `{MetricsStatFS W}.
Context (conf : Config).

#[local] Instance driver_store : MetaStoreInterFace W := ConfigMapMetaStore_interface (meta_store conf).

Abbreviation Process := (Driver R * W)%type.

Definition driver_rpc {A} (c : Call A) : M Process A :=
  match c in Call A return M Process A with
  | ToIdentity c => fun s =>
      match hp_ids s.1 with Some ids => identity_rpc ids c s | None => (Panic nil_dereference, s) end
  | ToController c =>
      zoom (fun s => (hp_cs s.1, s.2)) (fun t s => (mkDriver (hp_cd s.1) (hp_ids s.1) (hp_ns s.1) t.1, t.2))
        (controller_rpc c)
  | ToNode c =>
      zoom (fun s => (hp_ns s.1, s.2)) (fun t s => (mkDriver (hp_cd s.1) (hp_ids s.1) t.1 (hp_cs s.1), t.2))
        (node_rpc c)
  end.

(** The answer to a call, behind the interceptors; [None] when the library answers
    because the service is not registered. *)
Definition answer {A} (sv : grpcServer) (c : Call A) (ctx : Ctx) : option (M (Z * Process) A) :=
  match receiver sv c with
  | None => None
  | Some _ => Some (served (fun _ _ => zoom snd (fun t s => (s.1, t)) (driver_rpc c)) ctx (call_request c))
  end.
End answers.

(** ** The start of the process *)

Section driver_proofs.
Context {R W : Type} `{Rand R} `{OS W} `{ConfigMaps W} `{KubeApi W}.
Implicit Types (conf : Config) (w : W) (l : launched R).

Definition has_role conf : bool := IsNodeServer conf || IsControllerServer conf.

(** The driver object of a process *)
Definition driver_object (version : string) conf : CSIDriver :=
  mkCSIDriver HostPathCsiDriverName (NodeID conf) version None driver_caps driver_modes.

(** What [Run] has started *)
Definition started_as (version : string) conf l : Prop :=
  hp_cd (l_hp l) = Some (driver_object version conf) /\
  hp_ids (l_hp l) = Some (NewIdentityServer (driver_object version conf)) /\
  hp_cs (l_hp l) = (if IsControllerServer conf then Some (NewControllerServer (driver_object version conf)) else None) /\
  (if IsNodeServer conf
   then exists manager : Manager R,
     hp_ns (l_hp l) = Some (NewDefaultNodeServer (driver_object version conf) (NodeID conf) None,
                            mkNodeServer NewVolumeLocks manager) /\
     l_worker l = Some (mkSyncWorker [] (NodeID conf) ∅ empty_usage manager)
   else hp_ns (l_hp l) = None /\ l_worker l = None) /\
  l_args l = mkServeArgs (Endpoint conf) (HistogramOption conf) Object
               (as_interface (hp_cs (l_hp l))) (as_interface (hp_ns (l_hp l))) false.

Lemma NewCSIDriver_named version conf :
  NewCSIDriver HostPathCsiDriverName version (NodeID conf) =
  if decide (NodeID conf = "" \/ version = "") then None
  else Some (mkCSIDriver HostPathCsiDriverName (NodeID conf) version None [] []).
Proof.
  unfold NewCSIDriver. destruct (decide (HostPathCsiDriverName = "")) as [E | _]; [discriminate E |].
  destruct (decide (NodeID conf = "")), (decide (version = "")), (decide (_ \/ _)); naive_solver.
Qed.

(** The quota manager of the node server *)
Definition manager_of l : option (Manager R) := (fun p => srv_quotaMng p.2) <$> hp_ns (l_hp l).

(** The way of [Run] once the driver object is made. *)
Lemma Run_steps version seed conf w r w' :
  Run version seed conf w = (r, w') ->
  (NodeID conf = "" \/ version = "") /\ (exists e, r = Fail e) /\ w' = w \/
  NodeID conf <> "" /\ version <> "" /\
  exists o w1, (if has_role conf then Init (meta_store conf) w = (o, w1) else o = Ok tt /\ w1 = w) /\
  match o with
  | Fail e => exists e', r = Fail e' /\ w' = w1
  | Panic y => r = Panic y /\ w' = w1
  | Ok _ =>
      if IsNodeServer conf
      then match NewXfsQuotaManager seed "/xfs" w1 with
           | (Ok m, w2) => exists l, r = Ok l /\ w' = w2 /\ started_as version conf l /\ manager_of l = Some m
           | (Panic y, w2) => r = Panic y /\ w' = w2
           | (Fail _, w2) => exists e, r = Fail e /\ w' = w2
           end
      else exists l, r = Ok l /\ w' = w1 /\ started_as version conf l
  end.
Proof.
  unfold Run. rewrite NewCSIDriver_named. destruct (decide _) as [Hd | Hd].
  { intros [= <- <-]. left. split_and!; [done | by eexists | done]. }
  apply Decidable.not_or in Hd as [Hn Hv]. intros E. right. split; [done |]. split; [done |].
  unfold AddControllerServiceCapabilities, AddVolumeCapabilityAccessModes in E.
  cbn [snd drv_name drv_nodeID drv_version drv_topology drv_cap drv_vc] in E.
  unfold bind at 1 in E. fold (has_role conf) in E.
  assert (Hinit : exists o w1, (if has_role conf then Init (meta_store conf) w = (o, w1) else o = Ok tt /\ w1 = w) /\
    (if has_role conf then or_fatal (NewConfigMapMetaStore (meta_store conf)) ;; ret tt else ret tt) w =
      (match o with Ok _ => Ok tt | Fail e => Fail (Errorf ("failed to start node server, err " +:+ error_text e +:+ String "010" ""))
                  | Panic y => Panic y end, w1)).
  { destruct (has_role conf); [| by exists (Ok tt), w].
    destruct (Init (meta_store conf) w) as [o w1] eqn:Ei. exists o, w1. split; [done |].
    unfold or_fatal, NewConfigMapMetaStore, map_error, bind, ret. rewrite Ei. by destruct o. }
  destruct Hinit as (o & w1 & Ho & Hi). rewrite Hi in E. exists o, w1. split; [exact Ho |].
  destruct o as [[] | e | y]; [| by injection E as <- <-; eexists | by injection E as <- <-].
  destruct (IsNodeServer conf) eqn:En.
  - unfold or_fatal, NewNodeServer, map_error, bind, ret in E.
    destruct (NewXfsQuotaManager seed "/xfs" w1) as [[m | e | y] w2]; injection E as <- <-;
      [| by eexists | done].
    eexists. split; [done |]. split; [done |]. split; [| done]. unfold started_as. cbn. split_and!; try done.
    rewrite En. by exists m.
  - unfold bind, ret in E. injection E as <- <-. eexists. split; [done |]. split; [done |].
    unfold started_as. cbn. split_and!; try done. by rewrite En.
Qed.

Lemma Run_started version seed conf w l w' : Run version seed conf w = (Ok l, w') -> started_as version conf l.
Proof.
  intros E. apply Run_steps in E as [(_ & (e & [=]) & _) | (_ & _ & o & w1 & _ & E)].
  destruct o as [[] | e | y]; [| by destruct E as (? & ? & ?) | by destruct E].
  destruct (IsNodeServer conf); [| by destruct E as (? & [= <-] & _ & ?)].
  destruct (NewXfsQuotaManager seed "/xfs" w1) as [[] ?]; [by destruct E as (? & [= <-] & _ & ? & _) | | by destruct E].
  by destruct E as (? & ? & ?).
Qed.

Lemma NewXfsQuotaManager_no_fail (seed : R) root w e : (NewXfsQuotaManager seed root w).1 <> Fail e.
Proof.
  unfold NewXfsQuotaManager. destruct (negb _); [done |].
  by destruct (restoreQuotaInfo _) as [[[] | |] [m w']].
Qed.

Lemma Init_no_panic c w y : (Init c w).1 <> Panic y.
Proof.
  apply (safe_no_panic _ (fun _ => True)). unfold Init. intros u. unfold bind, attempt, sys_read.
  destruct (cm_Get _ _ u) as [cm | e]; [done |]. destruct (IsNotExist e); [apply sys_write_safe | done].
Qed.

(** C32: [Run] starts what the flags ask for, or the process exits: without a node id
    or a version, or when the config map of the meta store can neither be read nor made
    - the only way a process of a role does not start, short of a panic of the quota
    manager's recovery on a node.  A process without a role needs no config map and
    touches nothing.  A node gets the manager of the disks under /xfs, or the manager
    that refuses everything when there is no such directory, and the worker works on
    the manager of the node server. *)
Theorem Run_spec version seed conf w r w' :
  Run version seed conf w = (r, w') ->
  match r with
  | Ok l =>
      started_as version conf l /\ NodeID conf <> "" /\ version <> "" /\
      (has_role conf = true -> exists w1, Init (meta_store conf) w = (Ok tt, w1)) /\
      (has_role conf = false -> w' = w) /\
      (IsNodeServer conf = true -> exists m w1,
         manager_of l = Some m /\ NewXfsQuotaManager seed "/xfs" w1 = (Ok m, w') /\
         (CheckDirExists "/xfs" w1 = false -> m = inr mkFakeQuotaManager))
  | Fail _ =>
      NodeID conf = "" \/ version = "" \/
      has_role conf = true /\ exists e w1, Init (meta_store conf) w = (Fail e, w1)
  | Panic _ => IsNodeServer conf = true
  end.
Proof.
  intros E. apply Run_steps in E as [(Hd & (e & ->) & _) | (Hn & Hv & o & w1 & Ho & E)]; [tauto |].
  assert (Hstore : has_role conf = true -> Init (meta_store conf) w = (o, w1)) by (intros Hr; by rewrite Hr in Ho).
  assert (Hnone : has_role conf = false -> o = Ok tt /\ w1 = w) by (intros Hr; by rewrite Hr in Ho). clear Ho.
  destruct o as [[] | e | y].
  - destruct (IsNodeServer conf) eqn:En.
    + destruct (NewXfsQuotaManager seed "/xfs" w1) as [[m | e | y] w2] eqn:Em.
      * destruct E as (l & -> & -> & Hl & Hm). split_and!; try done; [eauto | |].
        -- intros Hr. unfold has_role in Hr. by rewrite En in Hr.
        -- intros _. exists m, w1. split_and!; [done | done |]. intros Hx. unfold NewXfsQuotaManager in Em.
           rewrite Hx in Em. by injection Em as <- _.
      * destruct E as (e' & -> & ->). by destruct (NewXfsQuotaManager_no_fail seed "/xfs" w1 e); rewrite Em.
      * by destruct E as [-> ->].
    + destruct E as (l & -> & -> & Hl). split_and!; try done; [eauto |]. intros Hr. by apply Hnone.
  - destruct E as (e' & -> & ->). right. right. destruct (has_role conf); [eauto |]. by destruct Hnone.
  - exfalso. destruct (has_role conf); [| by destruct Hnone].
    apply (Init_no_panic (meta_store conf) w y). by rewrite Hstore.
Qed.
End driver_proofs.

(** ** What a started process answers *)

Section answer_proofs.
Context {R W : Type} `{Rand R} `{OS W} `{ConfigMaps W} `{KubeApi W} `{MetricsStatFS W}.
Context (conf : Config).

(** Whatever the request counter, the call is answered with [r], and leaves [s']. *)
Definition answers {A} (sv : grpcServer) (c : Call A) (ctx : Ctx) (s : Driver R * W) (r : outcome A) (s' : Driver R * W) : Prop :=
  exists m, answer conf sv c ctx = Some m /\ forall id, m (id, s) = (r, (u64 (id + 1), s')).

(** A panic of a handler is an error of the call. *)
Definition recovered {A} (r : outcome A) : outcome A :=
  match r with Panic y => Fail (StatusError Internal ("panic " +:+ y)) | r => r end.

Lemma answers_rpc {A} sv (c : Call A) ctx s r s' :
  receiver sv c <> None -> driver_rpc conf c s = (r, s') -> answers sv c ctx s (recovered r) s'.
Proof.
  intros Hr E. unfold answers, answer. destruct (receiver sv c); [| done]. eexists. split; [done |]. intros id.
  unfold served, middleWare, contextIDInjector, logGRPC, panicHandler. cbn [foldr]. go_unfold. cbn [fst snd].
  rewrite E. by destruct r.
Qed.

Definition needs_controller {A} (c : ControllerCall A) : bool :=
  match c with CallValidateVolumeCapabilities _ => false | _ => true end.
Definition needs_node {A} (c : NodeCall A) : bool :=
  match c with CallNodeStageVolume _ | CallNodeUnstageVolume _ | CallNodeGetCapabilities => false | _ => true end.

(** What a process of another role answers *)
Definition crash : error := StatusError Internal ("panic " +:+ nil_dereference).
Definition refusal (e : error) : Prop := exists c msg, e = StatusError c msg /\ (c = Internal \/ c = InvalidArgument).

Lemma nil_controller_rpc {A} (c : ControllerCall A) (u : W) :
  let '(r, s) := controller_rpc (H := driver_store conf) c (None, u) in
  s = (None, u) /\ (needs_controller c = true -> r = Panic nil_dereference) /\ r <> Fail unimplemented.
Proof.
  destruct c; cbn; try (by split_and!). split_and!; [done | done |].
  unfold ValidateVolumeCapabilities. by repeat case_match.
Qed.

Lemma refused_panic {A} y : exists e, recovered (@Panic A y) = Fail e /\ refusal e.
Proof. eexists. split; [done |]. eexists _, _. split; [done |]. by left. Qed.

Lemma refused {A} c msg : c = Internal \/ c = InvalidArgument -> exists e, @recovered A (Fail (StatusError c msg)) = Fail e /\ refusal e.
Proof. intros Hc. eexists. split; [done |]. by exists c, msg. Qed.

(** The checks of a method before it reads its receiver *)
Lemma checked_then_nil {A} (before : M W unit) (m : M ((DefaultNodeServer * NodeServer (Manager R)) * W) A) u r s :
  (before u).2 = u -> (forall e, (before u).1 = Fail e -> refusal e) ->
  on_receiver before m (None, u) = (r, s) -> s = (None, u) /\ exists e, recovered r = Fail e /\ refusal e.
Proof.
  unfold on_receiver. cbn [fst snd]. unfold bind. destruct (before u) as [[[] | e | y] u'] eqn:Eb; cbn; intros -> He [= <- <-];
    (split; [done |]); [apply refused_panic | eauto | apply refused_panic].
Qed.

Lemma validate_publish req e : ValidateNodePublishVolumeRequest req = Some e -> refusal e.
Proof. unfold ValidateNodePublishVolumeRequest. repeat case_match; intros [= <-]; eexists _, _; auto. Qed.
Lemma validate_unpublish req e : ValidateNodeUnpublishVolumeRequest req = Some e -> refusal e.
Proof. unfold ValidateNodeUnpublishVolumeRequest. repeat case_match; intros [= <-]; eexists _, _; auto. Qed.

Lemma nil_node_rpc {A} (c : NodeCall A) (u : W) r s :
  node_rpc (Q := Manager R) c (None, u) = (r, s) ->
  s = (None, u) /\ (needs_node c = true -> exists e, recovered r = Fail e /\ refusal e).
Proof.
  destruct c as [req | req | req | req | req | req | |]; cbn [node_rpc needs_node]; intros E.
  - unfold any_receiver, zoom, bind, gets in E. cbn in E. destruct (ValidateNodeStageVolumeRequest req u); by injection E as <- <-.
  - unfold any_receiver, zoom in E. cbn in E. destruct (ValidateNodeUnstageVolumeRequest req); by injection E as <- <-.
  - eapply checked_then_nil in E as [Hs Hr]; [by split | |]; unfold before_publish, stop_if.
    + by destruct (ValidateNodePublishVolumeRequest req).
    + intros e. destruct (ValidateNodePublishVolumeRequest req) eqn:Ev; [intros [= <-] | done]. by eapply validate_publish.
  - eapply checked_then_nil in E as [Hs Hr]; [by split | |]; unfold before_unpublish, stop_if, bind, lift;
      destruct (ValidateNodeUnpublishVolumeRequest req) eqn:Ev; try done.
    + intros e' [= <-]. by eapply validate_unpublish.
    + intros e. cbn. destruct (DecomposeCSIID _ _) as [[] ?]; [done | | done]. intros [= <-]. eexists _, _. auto.
  - eapply checked_then_nil in E as [Hs Hr]; [by split | |]; done.
  - eapply checked_then_nil in E as [Hs Hr]; [by split | |]; unfold before_expand; repeat case_match; try done;
      intros e [= <-]; eexists _, _; auto.
  - by injection E as <- <-.
  - eapply checked_then_nil in E as [Hs Hr]; [by split | |]; done.
Qed.

(** A process registers all three services whatever its role, since a nil server
    pointer is not a nil interface: a controller process claims the capabilities of a
    node server, and the library never answers that a service is unknown.  The calls of
    the role that the process does not have are answered, change nothing, and fail -
    with Internal for the recovered nil dereference, or with the InvalidArgument or
    Internal of the checks that precede it, and never with Unimplemented - but for the
    few methods that do not read their receiver. *)
Theorem absent_role_answers version seed w l w' :
  Run version seed conf w = (Ok l, w') ->
  let sv := registered_services (l_args l) in
  sv_identity sv = Some Object /\
  sv_controller sv = Some (if IsControllerServer conf then Object else NilPointer) /\
  sv_node sv = Some (if IsNodeServer conf then Object else NilPointer) /\
  (forall A (c : ControllerCall A) ctx hp u, hp_cs hp = None -> needs_controller c = true ->
     answers sv (ToController c) ctx (hp, u) (Fail (StatusError Internal ("panic " +:+ nil_dereference))) (hp, u)) /\
  (forall A (c : NodeCall A) ctx hp u, hp_ns hp = None -> needs_node c = true ->
     exists e, answers sv (ToNode c) ctx (hp, u) (Fail e) (hp, u) /\ refusal e) /\
  (forall ctx hp u, hp_ns hp = None ->
     answers sv (ToNode CallNodeGetCapabilities) ctx (hp, u) (Ok NodeGetCapabilities) (hp, u)).
Proof.
  intros E. apply Run_started in E as (_ & _ & Hcs & Hns & Ha). intros sv.
  assert (Hn : as_interface (hp_ns (l_hp l)) = if IsNodeServer conf then Object else NilPointer).
  { destruct (IsNodeServer conf); [by destruct Hns as (? & -> & _) | by destruct Hns as [-> _]]. }
  assert (Hc : as_interface (hp_cs (l_hp l)) = if IsControllerServer conf then Object else NilPointer)
    by (by rewrite Hcs; destruct (IsControllerServer conf)).
  assert (Hsv : sv = mkGrpcServer false (Some Object) (Some (if IsControllerServer conf then Object else NilPointer))
                       (Some (if IsNodeServer conf then Object else NilPointer))).
  { unfold sv. rewrite Ha, Hn, Hc. unfold registered_services. cbn.
    by destruct (IsControllerServer conf), (IsNodeServer conf). }
  clearbody sv. subst sv. split_and!; try done.
  - intros A c ctx [cd ids ns cs] u Hno Hneeds. cbn in Hno. subst cs.
    pose proof (nil_controller_rpc c u) as Hrpc. destruct (controller_rpc c (None, u)) as [r s] eqn:Er.
    destruct Hrpc as (-> & Hr & _). specialize (Hr Hneeds). subst r.
    apply (answers_rpc _ _ ctx _ (Panic nil_dereference)); [done |]. cbn [driver_rpc]. unfold zoom. cbn. by rewrite Er.
  - intros A c ctx [cd ids ns cs] u Hno Hneeds. cbn in Hno. subst ns.
    destruct (node_rpc (Q := Manager R) c (None, u)) as [r s] eqn:Er. apply nil_node_rpc in Er as Hr.
    destruct Hr as [-> Hr]. destruct (Hr Hneeds) as (e & Ee & He). exists e. split; [| done]. rewrite <- Ee.
    apply (answers_rpc _ _ ctx); [done |]. cbn [driver_rpc]. unfold zoom. cbn. by rewrite Er.
  - intros ctx [cd ids ns cs] u Hno. cbn in Hno. subst ns.
    by apply (answers_rpc _ _ ctx _ (Ok NodeGetCapabilities)).
Qed.

(** The capability that the specification of the interface asks for a method *)
Definition cap_of {A} (c : ControllerCall A) : option ControllerCap :=
  match c with
  | CallCreateVolume _ | CallDeleteVolume _ => Some CC_CREATE_DELETE_VOLUME
  | CallControllerPublishVolume | CallControllerUnpublishVolume => Some CC_PUBLISH_UNPUBLISH_VOLUME
  | CallListVolumes => Some CC_LIST_VOLUMES
  | CallGetCapacity => Some CC_GET_CAPACITY
  | CallCreateSnapshot _ | CallDeleteSnapshot _ => Some CC_CREATE_DELETE_SNAPSHOT
  | CallListSnapshots => Some CC_LIST_SNAPSHOTS
  | CallControllerExpandVolume _ => Some CC_EXPAND_VOLUME
  | CallControllerGetVolume => Some CC_GET_VOLUME
  | CallValidateVolumeCapabilities _ | CallControllerGetCapabilities => None
  end.

(** A handler that never answers Unimplemented. *)
Definition implemented {P A} (m : M P A) : Prop := forall s, (m s).1 <> Fail unimplemented.

Lemma implemented_locked {S A} `{HasVolumeLocks S} id (body : M S A) : implemented body -> implemented (locked id body).
Proof.
  intros Hb s. destruct (decide (id ∈ vl_locks (get_locks s))) as [Hn | Hn].
  - rewrite locked_busy by done. done.
  - rewrite locked_free by done. specialize (Hb (with_lock id s)). by destruct (body _).
Qed.

#[local] Instance conf_store : MetaStoreInterFace W := driver_store conf.

Lemma validate_driver version c : c ∈ driver_caps -> ValidateControllerServiceRequest c (driver_object version conf) = None.
Proof. intros Hc. apply list_elem_of_In in Hc as [<- | [<- | []]]; by vm_compute. Qed.

Lemma create_implemented version req cs (u : W) :
  cs_Driver cs = driver_object version conf -> (CreateVolume req (cs, u)).1 <> Fail unimplemented.
Proof.
  intros Hd. unfold CreateVolume, bind at 1, gets. cbn [fst]. rewrite Hd. unfold validateCreateVolumeRequest.
  rewrite validate_driver by (by left). unfold check, bind at 1.
  destruct (decide (cv_Name req = "")); [done |]. destruct (decide (cv_VolumeCapabilities req = [])); [done |].
  destruct (existsb GetBlock _); [done |]. apply implemented_locked. intros s.
  destruct (ParseBool _); [| done..]. destruct (ComposeCSIID _); [| done..].
  unfold bind, attempt, on_store, zoom. by destruct (AddMetaInfo _ s.2) as [[] ?].
Qed.

Lemma delete_implemented version req cs (u : W) :
  cs_Driver cs = driver_object version conf -> (DeleteVolume req (cs, u)).1 <> Fail unimplemented.
Proof.
  intros Hd. unfold DeleteVolume, bind at 1, gets. cbn [fst]. rewrite Hd. rewrite validate_driver by (by left).
  unfold check, bind at 1. cbn. destruct (decide (dv_VolumeId req = "")); [done |].
  unfold bind, attempt, on_store, zoom. cbn. by destruct (cm_UnsetMetaInfo _ _ u) as [[] ?].
Qed.

Lemma expand_implemented version req cs (u : W) :
  cs_Driver cs = driver_object version conf -> (ControllerExpandVolume req (cs, u)).1 <> Fail unimplemented.
Proof.
  intros Hd. unfold ControllerExpandVolume, bind at 1, gets. cbn [fst]. rewrite Hd. rewrite validate_driver by (by right; left).
  unfold check, bind at 1. cbn [ret]. destruct (decide (ce_VolumeId req = "")); [done |].
  destruct (ce_CapacityRange req); [| done]. by apply implemented_locked.
Qed.

(** The driver claims exactly the capabilities that it implements: on a controller
    server with the driver object that [Run] makes, a method whose capability is claimed
    passes the driver's check and is never answered Unimplemented, a method whose
    capability is not claimed is answered Unimplemented and changes nothing, and volume
    expansion is claimed by the plugin as it is by the controller. *)
Theorem advertised_iff_implemented version A (c : ControllerCall A) ids :
  let d := driver_object version conf in
  (VolumeExpansion_ONLINE ∈ GetPluginCapabilities ids <-> CC_EXPAND_VOLUME ∈ ControllerGetCapabilities d) /\
  forall cs (u : W), cs_Driver cs = d ->
    match cap_of c with
    | Some cap =>
        if bool_decide (cap ∈ ControllerGetCapabilities d)
        then ValidateControllerServiceRequest cap d = None /\ (controller_rpc c (Some cs, u)).1 <> Fail unimplemented
        else controller_rpc c (Some cs, u) = (Fail unimplemented, (Some cs, u))
    | None => (controller_rpc c (Some cs, u)).1 <> Fail unimplemented
    end.
Proof.
  intros d. split; [split; intros _; right; by left |]. intros cs u Hd.
  assert (Hrun : forall B (m : M (ControllerServer * W) B), (m (cs, u)).1 <> Fail unimplemented ->
                   (on_receiver (ret tt) m (Some cs, u)).1 <> Fail unimplemented).
  { intros B m Hm. unfold on_receiver. cbn [fst snd]. by destruct (m (cs, u)) as [? []]. }
  assert (Hcap : forall cap, cap ∈ driver_caps -> ValidateControllerServiceRequest cap d = None)
    by (intros; by apply validate_driver).
  destruct c; cbn [cap_of]; try done.
  - split; [apply Hcap; by left |]. apply Hrun. by eapply create_implemented.
  - split; [apply Hcap; by left |]. apply Hrun. by eapply delete_implemented.
  - unfold controller_rpc, any_receiver, zoom, lift, ValidateVolumeCapabilities. cbn. by repeat case_match.
  - split; [apply Hcap; by right; left |]. apply Hrun. by eapply expand_implemented.
Qed.

(** The parts are wired so that a started controller process does its work: the
    first valid [CreateVolume] sent to it, through the registered service and the
    interceptors, whose id the config map of the meta store named by the flags accepts,
    is answered with the volume, and the process is as it was but for the config map and
    the request counter. *)
Theorem started_controller_creates version seed w l w' req ephemeral volumeId u ctx :
  Run version seed conf w = (Ok l, w') -> IsControllerServer conf = true ->
  cv_Name req <> "" -> cv_VolumeCapabilities req <> [] -> existsb GetBlock (cv_VolumeCapabilities req) = false ->
  ParseBool (default "" (cv_Parameters req !! "ephemeral")) = Ok ephemeral ->
  ComposeCSIID (mkCSIIdentifier VolIDVersion ephemeral (cv_Name req)) = Ok volumeId ->
  cm_AddMetaInfo (meta_store conf) volumeId w' = (Ok tt, u) ->
  answers (registered_services (l_args l)) (ToController (CallCreateVolume req)) ctx (l_hp l, w')
    (Ok (mkVolume volumeId (create_size req) (cv_Parameters req) (cv_VolumeContentSource req))) (l_hp l, u).
Proof.
  intros E Hc Hname Hcaps Hblock Hep Hid Hadd.
  apply Run_started in E as (_ & _ & Hcs & _ & Ha). rewrite Hc in Hcs.
  apply (answers_rpc _ _ ctx _ (Ok _)); [by rewrite Ha, Hcs |].
  destruct (l_hp l) as [cd ids ns cs]. cbn in Hcs. subst cs. cbn [driver_rpc]. unfold zoom, on_receiver. cbn [fst snd hp_cs].
  unfold controller_rpc, on_receiver. cbn [fst snd].
  assert (Erun : CreateVolume req (NewControllerServer (driver_object version conf), w') =
    (Ok (mkVolume volumeId (create_size req) (cv_Parameters req) (cv_VolumeContentSource req)),
     (NewControllerServer (driver_object version conf), u))).
  { unfold CreateVolume, bind at 1, gets. cbn [fst]. unfold validateCreateVolumeRequest.
    change (cs_Driver _) with (driver_object version conf). rewrite validate_driver by (by left).
    rewrite decide_False, decide_False, Hblock by done. unfold check, bind at 1, ret at 1.
    rewrite Hep, Hid, locked_free by set_solver. unfold bind, attempt, on_store, zoom.
    change (with_lock _ _).2 with w'.
    change (AddMetaInfo volumeId w') with (cm_AddMetaInfo (meta_store conf) volumeId w'). rewrite Hadd.
    unfold ret, Release, with_lock. cbn. unfold NewControllerServer, NewVolumeLocks. repeat f_equal. set_solver. }
  unfold conf_store in Erun. by rewrite Erun.
Qed.
End answer_proofs.

(** ** A process on a small cluster *)

(** The node's machine, the config maps and the other objects of the API server. *)
Definition world : Type := sim * (sim_api * sim_cluster).

Definition upd_api {A} (f : sim_api -> A * sim_api) : world -> A * world :=
  fun w => let '(a, s) := f w.2.1 in (a, (w.1, (s, w.2.2))).
Definition upd_cluster {A} (f : sim_cluster -> A * sim_cluster) : world -> A * world :=
  fun w => let '(a, s) := f w.2.2 in (a, (w.1, (w.2.1, s))).

#[local] Instance world_os : OS world := os_beside.
#[local] Instance world_configmaps : ConfigMaps world := {
  cm_Get ns name w := cm_Get ns name w.2.1;
  cm_Create ns cm := upd_api (cm_Create ns cm);
  cm_Update ns cm := upd_api (cm_Update ns cm)
}.
#[local] Instance world_kube : KubeApi world := {
  pv_Get name w := pv_Get name w.2.2;
  pv_Patch name p := upd_cluster (pv_Patch name p);
  node_Get name w := node_Get name w.2.2;
  node_Patch name p := upd_cluster (node_Patch name p);
  pod_Bind ns name uid node := upd_cluster (pod_Bind ns name uid node);
  map_order ks w := map_order ks w.2.2
}.
#[local] Instance world_stats : MetricsStatFS world := {
  GetMetrics p w := inl (mkVolumeMetrics (Some 1) (Some 2) (Some 1) (Some 8) (Some 7) (Some 1))
}.

Definition fresh_world : world := (mkSim ["/dev/vdb"; "/xfs"; "/xfs/d1"] ∅ ∅ [("/xfs/d1", "/dev/vdb")]
    ["36 35 0:1 / /xfs/d1 rw - xfs /dev/vdb rw"]
    {[ "/xfs/d1" := mkStatfs LinuxXfsMagic 1000 1000 4096 ]} ∅ 0 [], (None, cluster)).
Definition controller_conf : Config :=
  mkConfig "" "unix://csi/csi.sock" "" "n1" "" "meta" "kube-system" "" "0.5,2,6" 0 0 true false.
Definition node_conf : Config :=
  mkConfig "" "unix://csi/csi.sock" "" "n1" "" "meta" "kube-system" "" "0.5,2,6" 0 0 false true.
Definition run_controller := Run (R := Z) "v2.0.1" 7 controller_conf fresh_world.
Definition run_node := Run (R := Z) "v2.0.1" 7 node_conf fresh_world.
Definition unstarted : launched Z := mkLaunched NewDriver None (mkServeArgs "" "" NilInterface NilInterface NilInterface false).
Definition launched_of (r : outcome (launched Z)) : launched Z := match r with Ok l => l | _ => unstarted end.
Definition the_controller : launched Z := launched_of run_controller.1.
Definition the_node : launched Z := launched_of run_node.1.

Lemma run_controller_eq :
  Run (R := Z) "v2.0.1" 7 controller_conf fresh_world = (Ok the_controller, run_controller.2).
Proof. vm_compute. reflexivity. Qed.
Lemma run_node_eq :
  Run (R := Z) "v2.0.1" 7 node_conf fresh_world = (Ok the_node, run_node.2).
Proof. vm_compute. reflexivity. Qed.

(** The node process finds the disk of 4096000 bytes; the config map is made. *)
Lemma Run_spec_witness :
  started_as "v2.0.1" node_conf the_node /\
  match manager_of the_node with Some (inl m) => size (diskQuotaInfos m) | _ => 0%nat end = 1%nat /\
  run_node.2.2.1 = Some (1%N, ∅).
Proof.
  split; [exact (proj1 (Run_spec "v2.0.1" 7 node_conf fresh_world (Ok the_node) run_node.2 run_node_eq)) |].
  split; vm_compute; reflexivity.
Defined.

Lemma absent_role_answers_witness :
  answers controller_conf (registered_services (l_args the_controller))
    (ToNode CallNodeGetCapabilities) (mkCtx None None) (l_hp the_controller, fresh_world)
    (Ok NodeGetCapabilities) (l_hp the_controller, fresh_world) /\
  exists e, answers controller_conf (registered_services (l_args the_controller))
    (ToNode CallNodeGetInfo) (mkCtx None None) (l_hp the_controller, fresh_world)
    (Fail e) (l_hp the_controller, fresh_world) /\ refusal e.
Proof.
  destruct (absent_role_answers controller_conf "v2.0.1" 7 fresh_world the_controller run_controller.2 run_controller_eq)
    as (_ & _ & _ & _ & Hn & Hg).
  split; [apply Hg | apply Hn]; vm_compute; reflexivity.
Defined.

Definition stored_pvc : world := (cm_AddMetaInfo (meta_store controller_conf) "0001-0001-0005-pvc-1" run_controller.2).2.

Lemma started_controller_creates_witness :
  answers controller_conf (registered_services (l_args the_controller)) (ToController (CallCreateVolume pvc_request))
    (mkCtx None None) (l_hp the_controller, run_controller.2) (Ok pvc_volume) (l_hp the_controller, stored_pvc) /\
  stored_pvc.2.1 = Some (2%N, {[ "0001-0001-0005-pvc-1" := "" ]}).
Proof.
  split; [| vm_compute; reflexivity].
  apply (started_controller_creates controller_conf "v2.0.1" 7 fresh_world the_controller run_controller.2 pvc_request true
    "0001-0001-0005-pvc-1" stored_pvc (mkCtx None None)); [exact run_controller_eq |..]; vm_compute; (reflexivity || discriminate).
Defined.

(** A directory whose name is the prefix alone stops the node process. *)
Example bare_prefix_directory :
  (Run (R := Z) "v2.0.1" 7 node_conf
     (with_dirs (fun d => d ++ ["/xfs/d1/k8squota"]) fresh_world.1, fresh_world.2)).1 =
  Panic "slice bounds out of range".
Proof. vm_compute. reflexivity. Qed.
