(* ===== verification/Deployment.v ===== *)
(** * Started processes: the driver's [Run] and the life of volumes

    [LifeCycle] speaks of any controller server, node server and worker; [Driver] of
    what [Run] starts.  Here the processes that [Run] starts on a node and for a
    controller are put together: the manager behind the interface variable of the node
    server keeps the promises of its clients, whichever manager it is, and from the
    first moment the started processes are a system of [LifeCycle].  The second half
    follows them over the disks: [Run] on the disks of any state that the cluster of
    [Survival] reaches is a start of that cluster's node. *)

From S2P Require Import Prelude IdLocker GoStrings Os SimOs Util FileSystem Beside Allocator QuotaProvider QuotaManager HeldVolumes Recovery Tidy Restart.
From S2P Require Import Csi CsiCommon GrpcServer MetaStore ControllerServer HostPathApi HostPathClient NodeServer SyncWorker LifeCycle Survival Driver.
Open Scope Z_scope.
Open Scope go_scope.

(** ** The managers behind the interface *)

(** The fake manager refuses every call and holds nothing. *)
#[export] Program Instance FakeQuotaManager_laws {W} : QuotaManagerLaws FakeQuotaManager W := {
  held _ := ∅;
  ids_ok _ := True
}.
Next Obligation. by intros W v c q w r q' w' _ [= <- _]. Qed.
Next Obligation. by intros W v q w r q' w' _ [= <- _]. Qed.
Next Obligation. by intros W v c q w r q' w' _ [= <- _]. Qed.
Next Obligation. intros W q w r q' w' _ [= <- _]. by split_and!. Qed.
Next Obligation. by intros W q w r q' w' _ [= <- _]. Qed.
Next Obligation. by intros W mp b q w r q' w' _ [= <- _]. Qed.

Section dynamic_laws.
Context {Q1 Q2 W : Type} `{QuotaManagerLaws Q1 W} `{QuotaManagerLaws Q2 W}.

Definition either_held (q : Q1 + Q2) : gset string := match q with inl q => held q | inr q => held q end.
Definition either_ok (q : Q1 + Q2) : Prop := match q with inl q => ids_ok q | inr q => ids_ok q end.

(** A call on the manager that the variable holds. *)
Lemma either_law {A} (m1 : M (Q1 * W) A) (m2 : M (Q2 * W) A) (law : gset string -> outcome A -> gset string -> Prop) :
  (forall q w r q' w', ids_ok q -> m1 (q, w) = (r, (q', w')) -> ids_ok q' /\ law (held q) r (held q')) ->
  (forall q w r q' w', ids_ok q -> m2 (q, w) = (r, (q', w')) -> ids_ok q' /\ law (held q) r (held q')) ->
  forall q w r q' w', either_ok q -> either m1 m2 (q, w) = (r, (q', w')) ->
    either_ok q' /\ law (either_held q) r (either_held q').
Proof.
  intros H1' H2' [q | q] w r q' w' Hok; unfold either; cbn [fst snd].
  - destruct (m1 (q, w)) as [r0 [q0 w0]] eqn:E. intros [= <- <- <-]. by eapply H1'.
  - destruct (m2 (q, w)) as [r0 [q0 w0]] eqn:E. intros [= <- <- <-]. by eapply H2'.
Qed.

#[export] Program Instance dynamic_laws : QuotaManagerLaws (Q1 + Q2) W := {
  held := either_held;
  ids_ok := either_ok
}.
Next Obligation.
  intros v c. apply (either_law _ _ (fun h r h' => h' = match r with Ok _ => {[ v ]} ∪ h | _ => h end));
    intros q w r q' w'; apply place_law.
Qed.
Next Obligation.
  intros v. apply (either_law _ _ (fun h r h' => h' = match r with Ok _ => h ∖ {[ v ]} | _ => h end));
    intros q w r q' w'; apply release_law.
Qed.
Next Obligation.
  intros v c. apply (either_law _ _ (fun h _ h' => h' = h)); intros q w r q' w'; apply expand_law.
Qed.
Next Obligation.
  apply (either_law _ _ (fun h r h' => h' = h /\ forall infos info, r = Ok infos -> info ∈ infos -> path_VolumeId info ∈ h));
    intros q w r q' w'; apply list_law.
Qed.
Next Obligation. apply (either_law _ _ (fun h _ h' => h' = h)); intros q w r q' w'; apply disks_law. Qed.
Next Obligation.
  intros mp b. apply (either_law _ _ (fun h _ h' => h' = h)); intros q w r q' w'; apply disable_law.
Qed.
End dynamic_laws.

(** ** The processes of a cluster with one node *)

#[global] Instance meta_store_eq_dec : EqDecision ConfigMapMetaStore.
Proof. solve_decision. Defined.

Section deployment.
Context {R Wn Wc : Type} `{Rand R} `{OS Wn} `{ConfigMaps Wn} `{KubeApi Wn}.
Context `{OS Wc} `{ConfigMapsLaws Wc} `{KubeApi Wc}.
Context (confc confn : Config).

#[local] Instance the_store : MetaStoreInterFace Wc := ConfigMapMetaStore_interface (meta_store confc).
#[local] Instance the_store_laws : MetaStoreLaws Wc := ConfigMapMetaStore_laws (meta_store confc).

(** The system of a controller process and a node process that share the config map.
    The directories without a record are of volumes that were deleted before. *)
Definition deployed (lc : launched R) (wc : Wc) (ln : launched R) (wn : Wn) : option (system (Manager R) Wn Wc) :=
  match hp_cs (l_hp lc), hp_ns (l_hp ln), l_worker ln with
  | Some cs, Some (_, ns), Some sw =>
      if decide (meta_store confn = meta_store confc)
      then Some (mkSystem (cs, wc) (ns, wn) (shouldDeleteVolIds sw) Resting
                   (held (W := Wn) (srv_quotaMng ns) ∖ existing (cs, wc)))
      else None
  | _, _, _ => None
  end.

(** The manager of a node that was started keeps its entries in order. *)
Lemma started_manager_ok seed (w : Wn) (q : Manager R) w' : NewXfsQuotaManager seed "/xfs" w = (Ok q, w') -> ids_ok (W := Wn) q.
Proof.
  intros E. destruct q as [m | f]; [| done].
  intros v info Hv. by apply (wf_volume _ _ (start_well_formed _ _ _ _ _ E)).
Qed.

Lemma deployed_init vc vn sc sn (wc : Wc) (wn : Wn) lc wc' ln wn' :
  Run vc sc confc wc = (Ok lc, wc') -> IsControllerServer confc = true ->
  Run vn sn confn wn = (Ok ln, wn') -> IsNodeServer confn = true ->
  meta_store confn = meta_store confc ->
  exists s0, deployed lc wc' ln wn' = Some s0 /\ sys_init s0.
Proof.
  intros Ec Hc En Hn Hs. apply Run_started in Ec as (_ & _ & Hcs & _). rewrite Hc in Hcs.
  apply Run_steps in En as [(_ & (e & [=]) & _) | (_ & _ & o & w1 & _ & E)].
  destruct o as [[] | e | y]; [| by destruct E as (? & ? & ?) | by destruct E].
  rewrite Hn in E. destruct (NewXfsQuotaManager sn "/xfs" w1) as [[q | e | y] w2] eqn:Eq;
    [| by destruct E as (? & ? & ?) | by destruct E].
  destruct E as (l & [= <-] & -> & (_ & _ & _ & Hns & _) & Hm). rewrite Hn in Hns.
  destruct Hns as (q' & Hns & Hw). unfold manager_of in Hm. rewrite Hns in Hm. injection Hm as ->.
  unfold deployed. rewrite Hcs, Hns, Hw, decide_True by done. eexists. split; [done |].
  unfold sys_init. cbn -[held ids_ok]. split; [by eapply started_manager_ok |].
  split_and!; [| | done..]; [| set_solver].
  intros v Hv. destruct (decide (v ∈ existing (NewControllerServer (driver_object vc confc), wc'))); set_solver.
Qed.

(** C8: The running plugin keeps volumes: a controller process and a node process that
    [Run] has started on the same config map are, whatever directories the node's start
    recovered and whichever manager it got, the beginning of the system above; in every
    state that the calls of the servers and of the worker reach from there, the volumes
    are as the abstract machine has them, and a durable volume that is recorded and has
    a directory still has it after the next call. *)
Theorem deployment_keeps_volumes vc vn sc sn (wc : Wc) (wn : Wn) lc wc' ln wn' :
  Run vc sc confc wc = (Ok lc, wc') -> IsControllerServer confc = true ->
  Run vn sn confn wn = (Ok ln, wn') -> IsNodeServer confn = true ->
  meta_store confn = meta_store confc ->
  exists s0, deployed lc wc' ln wn' = Some s0 /\
  forall s, reachable sys_step s0 s ->
    reachable vol_step (abstraction s0) (abstraction s) /\
    forall s' v, sys_step s s' -> ephemeral_id v = false -> v ∈ existing (sys_controller s) ->
      v ∈ held (W := Wn) (mgr (sys_node s)) -> v ∈ held (W := Wn) (mgr (sys_node s')).
Proof.
  intros Ec Hc En Hn Hs. destruct (deployed_init _ _ _ _ _ _ _ _ _ _ Ec Hc En Hn Hs) as (s0 & Hd & Hi).
  exists s0. split; [done |]. intros s Hr. destruct (reachable_simulates s0 s (sys_init_ok _ Hi) Hr) as [Hv Hok].
  split; [done |]. intros s' v Hst He Hx Hh.
  apply (vol_step_keeps (abstraction s) (abstraction s')); [apply Hok | by apply sys_step_simulates | done..].
Qed.
End deployment.

(** ** Nodes that are started again *)

(** Making a config map writes no file of the node. *)
Class ConfigMapsElsewhere (W : Type) `{OS W} `{ConfigMaps W} := {
  create_quiet ns cm (w : W) : quiet w (cm_Create ns cm w).2
}.

Section restarts.
Context {R Wn Wm : Type} `{RandLaws R} `{FileLaws Wn} `{ConfigMaps Wn} `{!ConfigMapsElsewhere Wn} `{KubeApi Wn} `{MetaStoreLaws Wm}.
Abbreviation Mgr := (XFSQuotaManager (QuotaVolumeProvider (ProjectIDAllocator R))).
Implicit Types s : system (XFSQuotaManager (QuotaVolumeProvider (ProjectIDAllocator R))) Wn Wm.

(** The pool of the driver *)
Definition xfs_pool : list string := ["xfs"].

Lemma xfs_pool_ne : xfs_pool <> [].
Proof. done. Qed.
Lemma xfs_pool_normal : Forall normal_elem xfs_pool.
Proof. constructor; [by vm_compute | constructor]. Qed.

Lemma Init_quiet c (w : Wn) : quiet w (Init c w).2.
Proof.
  unfold Init, bind, attempt, sys_read. destruct (cm_Get _ _ w) as [cm | e]; [done |]. destruct (IsNotExist e); [| done].
  pose proof (create_quiet (cmNamespace c) (mkConfigMap (cmName c) "" None) w) as Hq. unfold sys_write.
  by destruct (cm_Create _ _ w) as [[e'|] w'].
Qed.

(** What [Run] does at a node: the config map, which leaves the disks alone, and the
    manager of the volumes that are on them. *)
Lemma Run_at_node vols vn sn conf s r w' :
  at_node xfs_pool vols (sys_node s) -> Run vn sn conf (sys_node s).2 = (r, w') -> IsNodeServer conf = true ->
  exists w1, quiet (sys_node s).2 w1 /\
  match r with
  | Ok l => exists m', manager_of l = Some (inl m') /\ whereabouts m' = whereabouts (mgr (sys_node s)) /\
      NewXfsQuotaManager sn "/xfs" w1 = (Ok (inl m'), w')
  | Fail e => w' = w1 /\ (NodeID conf = "" \/ vn = "" \/ exists e', (Init (meta_store conf) (sys_node s).2).1 = Fail e')
  | Panic _ => False
  end.
Proof.
  intros Hn E Hrole. apply Run_steps in E as [(Hd & (e & ->) & ->) | (Hid & Hv & o & w1 & Ho & E)].
  { exists (sys_node s).2. split; [done |]. split; [done | tauto]. }
  unfold has_role in Ho. rewrite Hrole in Ho, E. cbn [orb] in Ho.
  pose proof (Init_quiet (meta_store conf) (sys_node s).2) as Hq. rewrite Ho in Hq. cbn in Hq. exists w1. split; [done |].
  destruct o as [[] | e | y].
  - assert (Hn1 : tied xfs_pool vols (mgr (sys_node s), w1)) by (exact (tied_steady xfs_pool xfs_pool_normal vols _ _ _ Hq Hn)).
    destruct (tied_restarts xfs_pool xfs_pool_ne xfs_pool_normal vols (mgr (sys_node s)) w1 Hn1 sn) as (m2 & w2 & E2 & _ & Hw).
    change (abs_path xfs_pool) with "/xfs" in E2. rewrite E2 in E. destruct E as (l & -> & -> & _ & Hm). exists m2. by split_and!.
  - destruct E as (e' & -> & ->). split; [done |]. right. right. rewrite Ho. by exists e.
  - destruct (Init_no_panic (meta_store conf) (sys_node s).2 y). by rewrite Ho.
Qed.

(** C4: [Run] can always start a node again: on the disks of any state that the cluster of
    [durable_data_survives] reaches, with the pool under /xfs, it does not panic, it exits
    only for want of a node id, a version or the config map, leaving the disks alone, and
    otherwise it serves, with the manager of the disks - not the one that refuses
    everything - which has every volume where it was; the cluster goes on from there. *)
Theorem Run_restarts_node seed w vols s0 s vn sn conf r w' :
  CheckDirExists "/xfs" w = true -> tidy xfs_pool w vols -> clearable xfs_pool w ->
  NewXfsQuotaManager seed "/xfs" w = (Ok (inl (mgr (sys_node s0))), (sys_node s0).2) -> sys_init s0 ->
  reachable (cluster_step xfs_pool) s0 s ->
  Run vn sn conf (sys_node s).2 = (r, w') -> IsNodeServer conf = true ->
  match r with
  | Ok l => exists m', manager_of l = Some (inl m') /\ whereabouts m' = whereabouts (mgr (sys_node s)) /\
      reachable (cluster_step xfs_pool) s
        (mkSystem (sys_controller s) (mkNodeServer NewVolumeLocks m', w') [] Resting (sys_deleted s))
  | Fail e => (NodeID conf = "" \/ vn = "" \/ exists e', (Init (meta_store conf) (sys_node s).2).1 = Fail e') /\
      reachable (cluster_step xfs_pool) s
        (mkSystem (sys_controller s) ((sys_node s).1, w') (sys_retry s) (sys_phase s) (sys_deleted s))
  | Panic _ => False
  end.
Proof.
  intros Hroot Ht Hc E0 Hinit Hr E Hrole.
  pose proof (cluster_start xfs_pool xfs_pool_ne xfs_pool_normal seed w vols s0 Hroot Ht Hc E0 Hinit) as Hok0.
  destruct (cluster_reaches xfs_pool xfs_pool_ne xfs_pool_normal s0 s Hok0 Hr) as [_ [_ [vols' Hn]]].
  destruct (Run_at_node vols' vn sn conf s r w' Hn E Hrole) as (w1 & Hq & Hcase).
  assert (Hout : reachable (cluster_step xfs_pool) s (mkSystem (sys_controller s) ((sys_node s).1, w1) (sys_retry s) (sys_phase s) (sys_deleted s)))
    by (apply reachable_one; destruct s as [c n rt ph dl]; apply cl_outside; by left).
  destruct r as [l | e | y]; [| destruct Hcase as [-> Hwhy]; by split | done].
  destruct Hcase as (m' & Hm & Hw & Em). exists m'. split_and!; [done | done |].
  eapply reachable_next; [exact Hout |]. by apply (cl_node_start xfs_pool sn).
Qed.
End restarts.

(** ** A cluster with one node *)

#[local] Existing Instance world_os.
#[local] Existing Instance world_configmaps.
#[local] Existing Instance world_kube.

Lemma upd_api_run {A} (f : sim_api -> A * sim_api) (w : world) a w' : upd_api f w = (a, w') -> f w.2.1 = (a, w'.2.1).
Proof. unfold upd_api. destruct (f w.2.1). by intros [= <- <-]. Qed.

#[local] Program Instance world_configmaps_laws : ConfigMapsLaws world := {| later w w' := sim_later w.2.1 w'.2.1 |}.
Next Obligation. by left. Qed.
Next Obligation.
  intros ns name cm data w0 w1 w2 Hget Hlater E. apply upd_api_run in E.
  exact (update_ok (W := sim_api) ns name cm data w0.2.1 w1.2.1 w2.2.1 Hget Hlater E).
Qed.
Next Obligation.
  intros ns name cm w1 w2 e E. apply upd_api_run in E.
  exact (update_refused (W := sim_api) ns name cm w1.2.1 w2.2.1 e E).
Qed.

(** The node process placed a volume in an earlier life; the record is gone. *)
Definition used_world : world :=
  match manager_of the_node with
  | Some q => (GetVolumeQuotaPath "old" 1000000 (q, run_node.2)).2.2
  | None => fresh_world
  end.
Definition run_used := Run (R := Z) "v2.0.1" 7 node_conf used_world.
Definition used_node : launched Z := launched_of run_used.1.

Lemma run_used_eq : Run (R := Z) "v2.0.1" 7 node_conf used_world = (Ok used_node, run_used.2).
Proof. vm_compute. reflexivity. Qed.

Definition sys0_option := deployed controller_conf node_conf the_controller run_controller.2 used_node run_used.2.
Definition no_system : system (Manager Z) world world :=
  mkSystem (mkControllerServer (driver_object "" controller_conf) NewVolumeLocks, used_world)
    (mkNodeServer NewVolumeLocks (inr mkFakeQuotaManager), used_world) [] Resting ∅.
Definition sys0 : system (Manager Z) world world := default no_system sys0_option.
#[local] Instance store_of_controller : MetaStoreInterFace world := the_store controller_conf.
#[local] Instance store_of_controller_laws : MetaStoreLaws world := the_store_laws controller_conf.
Definition sys1 : system (Manager Z) world world :=
  mkSystem (CreateVolume pvc_request (sys_controller sys0)).2 (sys_node sys0) (sys_retry sys0) (sys_phase sys0) (sys_deleted sys0).

Lemma sys0_eq : deployed controller_conf node_conf the_controller run_controller.2 used_node run_used.2 = Some sys0.
Proof. vm_compute. reflexivity. Qed.

Example sys0_volumes :
  elements (live (abstraction sys0)) = [] /\ elements (placed (abstraction sys0)) = ["old"] /\
  elements (gone (abstraction sys0)) = ["old"].
Proof. by vm_compute. Qed.

Lemma sys1_created : (CreateVolume pvc_request (sys_controller sys0)).1 = Ok pvc_volume.
Proof. vm_compute. reflexivity. Qed.

Lemma pvc_is_new : vol_VolumeId pvc_volume ∉ sys_deleted sys0.
Proof. by vm_compute. Qed.

Lemma sys1_step : sys_step sys0 sys1.
Proof.
  assert (E : sys0 = mkSystem (sys_controller sys0) (sys_node sys0) (sys_retry sys0) (sys_phase sys0) (sys_deleted sys0))
    by (by destruct sys0).
  rewrite E at 1. eapply (step_create pvc_request); [apply surjective_pairing |].
  intros vol Ev. rewrite sys1_created in Ev. injection Ev as <-. exact pvc_is_new.
Qed.

Lemma deployment_keeps_volumes_witness :
  reachable vol_step (abstraction sys0) (abstraction sys1) /\
  elements (live (abstraction sys1)) = ["0001-0001-0005-pvc-1"].
Proof.
  split; [| by vm_compute].
  destruct (deployment_keeps_volumes controller_conf node_conf "v2.0.1" "v2.0.1" 7 7 fresh_world used_world
    the_controller run_controller.2 used_node run_used.2 run_controller_eq eq_refl run_used_eq eq_refl eq_refl)
    as (s0 & Hd & Hs).
  rewrite sys0_eq in Hd. apply Some_inj in Hd. subst s0. apply (Hs sys1). exact (reachable_one _ _ _ sys1_step).
Defined.

(** The node process of [used_world] is started again by [Run], and finds the volume. *)
#[local] Instance world_os_laws : OSLaws world := os_laws_beside.
#[local] Instance world_file_laws : FileLaws world := file_laws_beside.
#[local] Program Instance world_elsewhere : ConfigMapsElsewhere world.
Next Obligation.
  intros ns cm w. apply quiet_beside. change ((upd_api (cm_Create ns cm) w).2.1 = w.1). unfold upd_api. by destruct (cm_Create ns cm w.2.1).
Qed.

Definition old_volume : KernelVolume := mkKernelVolume "d1" "/dev/vdb" 1000007 (1953, 1953).

Lemma used_disk : one_disk xfs_pool "d1" "/dev/vdb" used_world.
Proof. split; vm_compute; try reflexivity. by eexists. Qed.

Lemma used_stored : Recovery.stored xfs_pool "old" old_volume used_world.
Proof.
  split; [exact (one_disk_mounted xfs_pool "d1" "/dev/vdb" _ used_disk) | vm_compute; reflexivity.. | |].
  - by vm_compute.
  - vm_compute. by split.
Qed.

Lemma used_tidy : tidy xfs_pool used_world {[ "old" := old_volume ]}.
Proof.
  apply (one_disk_tidy xfs_pool "d1" "/dev/vdb" _ _ [mkFileInfo "k8squota_old" true]);
    [exact used_disk | by vm_compute | vm_compute; reflexivity | | |].
  - apply Forall_singleton. split; [done |]. by exists "old", old_volume.
  - intros v kv. rewrite lookup_singleton_Some. intros [<- <-]. exact used_stored.
  - intros v v' kv kv'. rewrite !lookup_singleton_Some. by intros [<- _] [<- _].
Qed.

Lemma used_clearable : clearable xfs_pool used_world.
Proof. intros q _ _. apply removable_beside, removable_sim. reflexivity. Qed.

(** The start before this one *)
Definition run_before : outcome (Manager Z) * world := NewXfsQuotaManager 7 "/xfs" used_world.
Definition manager_before : XFSQuotaManager (QuotaVolumeProvider (ProjectIDAllocator Z)) :=
  match run_before.1 with Ok (inl m) => m | _ => started.1 end.
Definition before : system (XFSQuotaManager (QuotaVolumeProvider (ProjectIDAllocator Z))) world world :=
  mkSystem (sys_controller sys0) (mkNodeServer NewVolumeLocks manager_before, run_before.2) [] Resting {[ "old" ]}.
Definition run_relaunched := Run (R := Z) "v2.0.1" 7 node_conf (sys_node before).2.
Definition node_relaunched : launched Z := launched_of run_relaunched.1.

Lemma run_before_eq : NewXfsQuotaManager 7 "/xfs" used_world = (Ok (inl (mgr (sys_node before))), (sys_node before).2).
Proof. vm_compute. reflexivity. Qed.
Lemma run_relaunched_eq : Run (R := Z) "v2.0.1" 7 node_conf (sys_node before).2 = (Ok node_relaunched, run_relaunched.2).
Proof. vm_compute. reflexivity. Qed.

Lemma before_holds : held (W := world) manager_before = {[ "old" ]}.
Proof. vm_compute. reflexivity. Qed.
Lemma before_records : existing (sys_controller before) = ∅.
Proof. vm_compute. reflexivity. Qed.

Lemma before_ok : ids_ok (W := world) (mgr (sys_node before)).
Proof. intros v info Hv. by apply (wf_volume _ _ (start_well_formed _ _ _ _ _ run_before_eq)). Qed.

Lemma before_starts : sys_init before.
Proof.
  unfold sys_init. rewrite before_records. split_and!; [exact before_ok | | | done | done];
    change (mgr (sys_node before)) with manager_before; rewrite ?before_holds; set_solver.
Qed.

Lemma Run_restarts_node_witness :
  exists m', manager_of node_relaunched = Some (inl m') /\ whereabouts m' !! "old" = Some ("/xfs/d1/k8squota_old", "/dev/vdb").
Proof.
  destruct (Run_restarts_node 7 used_world {[ "old" := old_volume ]} before before "v2.0.1" 7 node_conf (Ok node_relaunched) run_relaunched.2)
    as (m' & Hm & Hw & _); [by vm_compute | exact used_tidy | exact used_clearable | exact run_before_eq | exact before_starts
    | constructor | exact run_relaunched_eq | done |].
  exists m'. split; [exact Hm |]. rewrite Hw. by vm_compute.
Defined.
