(* ===== verification/Liveness.v ===== *)
(** * The liveness probe: pkg/csi-plugin/liveness/liveness.go

    A gauge follows the answers of the driver to a periodic [Probe].  The registry of
    metrics, the connection and the probe call are third-party: what they return are
    the arguments; a [Fail] is a [klog.Fatal], which ends the process. *)

From S2P Require Import Prelude GrpcServer Driver.
Open Scope Z_scope.
Open Scope go_scope.

(** [rpc.Probe]: whether the driver is ready, or an error (a timeout is one) *)
Abbreviation ProbeResult := (bool + error)%type.

(** The value of the gauge [liveness]; a new gauge is 0. *)
Definition Gauge : Type := Z.
Definition new_gauge : Gauge := 0.
Definition Set_ (x : Z) : M Gauge unit := modify (fun _ => x).

Definition getLiveness (probe : ProbeResult) : M Gauge unit :=
  match probe with
  | inr err => Set_ 0
  | inl ready => if negb ready then Set_ 0 else Set_ 1
  end.

(** [time.NewTicker] *)
Definition NewTicker (d : Z) : outcome unit :=
  if d <=? 0 then Panic "non-positive interval for NewTicker" else Ok tt.

(** [recordLiveness], the endpoint, name and timeout being those of the connection and
    the probe, up to the wait for a tick after the given ones *)
Definition recordLiveness (pollTime : Z) (register connect : option error) (ticks : list ProbeResult) : M Gauge unit :=
  match register with
  | Some err => fatal (error_text err)
  | None =>
      match connect with
      | Some err => fatal ("failed to establish connection to CSI driver: " +:+ error_text err)
      | None => lift (NewTicker pollTime) ;; for_each ticks getLiveness
      end
  end.

(** The goroutine that [Run] starts *)
Definition Run (conf : Config) : option error -> option error -> list ProbeResult -> M Gauge unit :=
  recordLiveness (PollTime conf).

Lemma for_each_app {S A} (l1 l2 : list A) (f : A -> M S unit) s :
  for_each (l1 ++ l2) f s = (for_each l1 f ;; for_each l2 f) s.
Proof.
  revert s. induction l1 as [|x l1 IH]; intros s; [done |]. cbn [for_each app]. unfold bind in *.
  destruct (f x s) as [[[] | e | y] s1]; [apply IH | done..].
Qed.

(** The gauge is up exactly when the last answer of the driver was that it is
    ready: an error, a timeout and a driver that is not ready take it down again, and the
    next good answer brings it back; the loop itself never fails.  With a period that is
    not positive - that of a configuration no flag has set - the probe panics instead. *)
Theorem gauge_follows_probe conf ticks last g :
  if 0 <? PollTime conf
  then Run conf None None (ticks ++ [last]) g = (Ok tt, match last with inl true => 1 | _ => 0 end)
  else exists y, Run conf None None ticks g = (Panic y, g).
Proof.
  unfold Run, recordLiveness, NewTicker. rewrite Z.leb_antisym. destruct (0 <? PollTime conf); cbn [negb];
    [| by eexists].
  unfold bind at 1, lift. rewrite for_each_app. unfold bind.
  assert (Hok : forall l g, exists g', for_each l getLiveness g = (Ok tt, g')).
  { clear. induction l as [|p l IH]; intros g; [by exists g |]. cbn [for_each]. unfold bind.
    assert (Hp : exists g1, getLiveness p g = (Ok tt, g1)) by (destruct p as [[] |]; by eexists).
    destruct Hp as [g1 ->]. apply IH. }
  destruct (Hok ticks g) as [g1 ->]. by destruct last as [[] |].
Qed.

Example unset_period : (Run default_config None None [] new_gauge).1 = Panic "non-positive interval for NewTicker".
Proof. reflexivity. Qed.
