(* ===== verification/HostPathController.v ===== *)
(** * The scheduler's view of the cluster: pkg/hostpathclient/{controller,informer,object}.go

    Three caches - pending pods, nodes and bound volumes - that informers keep up to
    date, the lookups in them, and the two writes to the API server.  What the
    scheduler extender needs of it is the class [HostPathController]. *)

From S2P Require Import Prelude GoStrings VolId Os HostPathApi Base64 Json Annotations HostPathClient.
Open Scope Z_scope.
Open Scope go_scope.

(** The Go interface [HostPathController]. *)
Class HostPathController (W : Type) := {
  GetPod : string -> string -> M W (option Pod);
  GetNode : string -> M W (option Node);
  GetPersistentVolumeByClaim : string -> string -> M W (option PersistentVolume);
  BindHostPathPV : string -> string -> M W unit;
  BindPod : Pod -> string -> M W unit
}.

(** ** informer.go *)

(** An object as the watch delivers it. *)
Inductive KObject := KPod (p : CorePod) | KNode (n : CoreNode) | KPV (pv : CorePV) | KOther.

Inductive DeltaType := Added | Updated | Deleted | Sync.

(** [Tombstone]: [cache.DeletedFinalStateUnknown], with the key of the object *)
Inductive DeltaObject := Live (o : KObject) | Tombstone (key : string).
Record Delta := mkDelta { d_Type : DeltaType; d_Object : DeltaObject }.

Definition unexpected : error := Errorf "unexpected object".

Definition ToPod (o : KObject) : outcome Pod :=
  match o with KPod p => Ok (toPod p) | _ => Fail unexpected end.
Definition ToNode (o : KObject) : outcome Node :=
  match o with KNode n => Ok (toHostPathNode n) | _ => Fail unexpected end.
Definition ToPV (o : KObject) : outcome PersistentVolume :=
  match o with KPV pv => ToPersistentVolume pv | _ => Fail unexpected end.

(** [cache.MetaNamespaceKeyFunc] *)
Definition store_key (namespace name : string) : string :=
  if decide (namespace = "") then name else namespace +:+ "/" +:+ name.
Definition pod_key (p : Pod) : string := store_key (pod_namespace p) (pod_name p).
Definition node_key (n : Node) : string := store_key (nd_namespace n) (nd_name n).
Definition pv_key (p : PersistentVolume) : string := store_key (pv_namespace p) (pv_name p).

Section processor.
Context {O : Type} (convert : KObject -> outcome O) (key : O -> string).

(** One delta.  [indexer.Update] and [indexer.Add] both store the object under its
    key; the handlers of events only log. *)
Definition process_delta (d : Delta) : M (gmap string O) unit :=
  match d_Type d with
  | Sync | Added | Updated =>
      match d_Object d with
      | Live o => let! obj := lift (convert o) in modify (fun store => <[key obj := obj]> store)
      | Tombstone _ => fail unexpected
      end
  | Deleted =>
      match d_Object d with
      | Live o => let! obj := lift (convert o) in modify (fun store => delete (key obj) store)
      | Tombstone k => modify (fun store => delete k store)
      end
  end.

Definition DefaultProcessor (deltas : list Delta) : M (gmap string O) unit := for_each deltas process_delta.

(** [cache.Indexer.ByIndex]: the objects of an index value, in the order of a loop
    over a map. *)
Definition ByIndex (order : gset string -> list string) (index : O -> string) (value : string)
    (store : gmap string O) : list O :=
  omap (fun k => store !! k) (order (dom (filter (fun ko => index ko.2 = value) store))).
End processor.

(** ** controller.go *)

Record HostPathControl := mkHostPathControl {
  podLister : gmap string Pod;
  nodeLister : gmap string Node;
  pvLister : gmap string PersistentVolume
}.

(** The informers begin with empty caches. *)
Definition NewHostPathControl : HostPathControl := mkHostPathControl ∅ ∅ ∅.

Definition podNamespaceIndexFunc (p : Pod) : string := pod_namespace p.
Definition pvClaimNameNamespaceIndexFunc (p : PersistentVolume) : string := pv_index p.

(** [podListFunc]: the field selector *)
Definition pod_selector (FieldSelector : string) : string :=
  (if go_len FieldSelector >? 0 then FieldSelector +:+ "," else FieldSelector) +:+ "status.phase==Pending".

(** [waitForResourceSynced] over the events of its [select]: at a tick, which of
    the informers have synced. *)
Inductive WaitEvent := Timeout | Tick (pods nodes pvs : bool).
Fixpoint waitForResourceSynced (events : list WaitEvent) : option (outcome unit) :=
  match events with
  | [] => None
  | Timeout :: _ => Some (Fail (Errorf "timeout waiting for initialization"))
  | Tick pods nodes pvs :: events' =>
      if pods && nodes && pvs then Some (Ok tt) else waitForResourceSynced events'
  end.

Section control.
Context {W : Type} `{KubeApi W}.

Abbreviation St := (HostPathControl * W)%type.

Definition c_GetPod (name namespace : string) : M St (option Pod) :=
  gets (fun s => List.find (fun p => String.eqb (pod_name p) name)
                   (ByIndex (fun ks => map_order ks s.2) podNamespaceIndexFunc namespace (podLister s.1))).

Definition c_GetNode (name : string) : M St (option Node) :=
  gets (fun s => List.find (fun n => String.eqb (nd_name n) name)
                   (ByIndex (fun ks => map_order ks s.2) (fun _ => "") "" (nodeLister s.1))).

Definition c_GetPersistentVolumeByClaim (name namespace : string) : M St (option PersistentVolume) :=
  gets (fun s => head (ByIndex (fun ks => map_order ks s.2) pvClaimNameNamespaceIndexFunc
                         (PersistentVolumeKey name namespace) (pvLister s.1))).

Definition on_api {B} (m : M W B) : M St B := zoom snd (fun w s => (s.1, w)) m.

Definition c_BindHostPathPV (pvName nodeName : string) : M St unit :=
  on_api (sys_write (pv_Patch pvName (getHostPathPVBindNodePatchBytes nodeName))).

Definition c_BindPod (pod : Pod) (nodeName : string) : M St unit :=
  on_api (sys_write (pod_Bind (pod_namespace pod) (pod_name pod) (pod_UID pod) nodeName)).

#[export] Instance HostPathControl_interface : HostPathController St := {
  GetPod := c_GetPod;
  GetNode := c_GetNode;
  GetPersistentVolumeByClaim := c_GetPersistentVolumeByClaim;
  BindHostPathPV := c_BindHostPathPV;
  BindPod := c_BindPod
}.
End control.

(** ** The caches follow the watch *)

Section processor_proofs.
Context {O : Type} (convert : KObject -> outcome O) (key : O -> string).

(** The object a delta leaves in the cache under [k]; [None]: it does not apply to
    [k] or is not converted. *)
Definition delta_result (k : string) (d : Delta) : option (option O) :=
  match d_Type d, d_Object d with
  | Deleted, Tombstone k' => if decide (k' = k) then Some None else None
  | Deleted, Live o => match convert o with Ok obj => if decide (key obj = k) then Some None else None | _ => None end
  | _, Live o => match convert o with Ok obj => if decide (key obj = k) then Some (Some obj) else None | _ => None end
  | _, Tombstone _ => None
  end.

Lemma process_delta_result k d r store :
  delta_result k d = Some r ->
  process_delta convert key d store = (Ok tt, match r with Some obj => <[k := obj]> store | None => delete k store end).
Proof.
  unfold delta_result, process_delta, bind, lift, modify. destruct d as [[] [o|k']]; cbn; try done;
    repeat case_match; intros; simplify_eq; done.
Qed.

(** an informer's cache follows the watch: after a batch of deltas of one object
    - whose objects are all converted - the cache holds the object of the last delta,
    or nothing if that was a deletion, and the rest of the cache is unchanged. *)
Theorem cache_follows k deltas last r store :
  Forall (fun d => is_Some (delta_result k d)) deltas -> delta_result k last = Some r ->
  exists store', DefaultProcessor convert key (deltas ++ [last]) store = (Ok tt, store') /\
    store' !! k = r /\ forall other, other <> k -> store' !! other = store !! other.
Proof.
  intros Hds Hlast. revert store. induction Hds as [|d ds [rd Hd] _ IH]; intros store.
  - unfold DefaultProcessor. cbn [app for_each]. unfold bind. rewrite (process_delta_result _ _ _ _ Hlast).
    eexists. split; [done |]. split; [| intros other Hne]; destruct r;
      rewrite ?lookup_insert_eq, ?lookup_delete_eq, ?lookup_insert_ne, ?lookup_delete_ne; done.
  - unfold DefaultProcessor. cbn [app for_each]. unfold bind at 1. rewrite (process_delta_result _ _ _ _ Hd).
    destruct (IH (match rd with Some obj => <[k := obj]> store | None => delete k store end)) as (store' & Hrun & Hk & Hrest).
    exists store'. split; [done |]. split; [done |]. intros other Hne. rewrite Hrest by done.
    destruct rd; by rewrite ?lookup_insert_ne, ?lookup_delete_ne.
Qed.
End processor_proofs.

Section control_proofs.
Context {W : Type} `{KubeApiLaws W}.

Lemma elem_of_ByIndex {O} (w : W) (index : O -> string) value (store : gmap string O) o :
  o ∈ ByIndex (fun ks => map_order ks w) index value store <-> exists k, store !! k = Some o /\ index o = value.
Proof.
  unfold ByIndex. rewrite list_elem_of_omap. split.
  - intros (k & Hk & Ho). rewrite map_order_perm, elem_of_elements, elem_of_dom in Hk. destruct Hk as [o' Hk].
    apply map_lookup_filter_Some in Hk as [Hk Hi]. rewrite Hk in Ho. injection Ho as ->. by exists k.
  - intros (k & Hk & Hi). exists k. split; [| done]. rewrite map_order_perm, elem_of_elements, elem_of_dom.
    exists o. by apply map_lookup_filter_Some.
Qed.

(** the caches are searched completely: a pod is found exactly when the cache has
    one with that name in that namespace, and a volume by its claim exactly when the
    cache has one with that claim. *)
Theorem lookups_complete name namespace s :
  (exists r, c_GetPod name namespace s = (Ok r, s) /\
     match r with
     | Some p => pod_name p = name /\ pod_namespace p = namespace /\ exists k, podLister s.1 !! k = Some p
     | None => forall k p, podLister s.1 !! k = Some p -> pod_name p = name -> pod_namespace p <> namespace
     end) /\
  (exists r, c_GetPersistentVolumeByClaim name namespace s = (Ok r, s) /\
     match r with
     | Some p => pv_index p = PersistentVolumeKey name namespace /\ exists k, pvLister s.1 !! k = Some p
     | None => forall k p, pvLister s.1 !! k = Some p -> pv_index p <> PersistentVolumeKey name namespace
     end).
Proof.
  split.
  - unfold c_GetPod, gets. eexists. split; [done |].
    destruct (List.find _ _) as [p|] eqn:Hf.
    + apply List.find_some in Hf as [Hin Hn%String.eqb_eq].
      apply list_elem_of_In, elem_of_ByIndex in Hin as (k & Hk & Hns). split_and!; [done | done | by exists k].
    + intros k p Hk Hn Hns.
      assert (Hin : p ∈ ByIndex (fun ks => map_order ks s.2) podNamespaceIndexFunc namespace (podLister s.1))
        by (apply elem_of_ByIndex; by exists k).
      apply list_elem_of_In in Hin. apply (List.find_none _ _ Hf), String.eqb_neq in Hin. by apply Hin.
  - unfold c_GetPersistentVolumeByClaim, gets. eexists. split; [done |].
    pose proof (elem_of_ByIndex s.2 pvClaimNameNamespaceIndexFunc (PersistentVolumeKey name namespace) (pvLister s.1)) as Hin.
    destruct (ByIndex _ _ _ _) as [|p l]; cbn [head].
    + intros k p Hk Hi. destruct (Hin p) as [_ Hp]. specialize (Hp (ex_intro _ k (conj Hk Hi))). set_solver.
    + destruct (Hin p) as [Hp _]. destruct Hp as (k & Hk & Hi); [set_solver |]. split; [done | by exists k].
Qed.

(** binding a volume to a node writes the node into its annotation, where the
    conversion of the volume finds it; everything else of the volume stays. *)
Theorem BindHostPathPV_binds pvName nodeName s s' :
  c_BindHostPathPV pvName nodeName s = (Ok tt, s') -> plain nodeName = true ->
  forall pv old, pv_Get pvName s.2 = inl pv -> ToHostPathVolume pv = Ok old -> pv_isHostPathPv old = true ->
  s'.1 = s.1 /\
  exists pv' version, pv_Get pvName s'.2 = inl pv' /\
    ToHostPathVolume pv' =
    Ok (mkPersistentVolume version (pv_name old) (pv_namespace old) (pv_index old) (pv_volId old) true nodeName
          (pv_ephemeral old) (pv_capacity old) (pv_volumePath old) (pv_usage old)).
Proof.
  intros Hb Hplain pv old Hget Hold Hhost.
  unfold c_BindHostPathPV, on_api, zoom in Hb.
  destruct (sys_write _ s.2) as [[[]| |] w'] eqn:Hw; try done. injection Hb as <-. split; [done |].
  apply sys_write_Ok in Hw as Hp. unfold getHostPathPVBindNodePatchBytes in Hp.
  destruct (pv_annotated _ HostPathPvBindInfoAnn _ _ _ eq_refl Hplain Hp) as (pv0 & version & Hg & Hg' & _).
  rewrite Hget in Hg. injection Hg as <-. eexists _, version. split; [exact Hg' |].
  unfold ToHostPathVolume, getHostPathPVBindNode, isHostPathPV in *.
  cbn [cpv_ClaimRef cpv_CSI cpv_meta cpv_storage] in *.
  change (om_anns (with_annotations ?c version ?m)) with c.
  destruct (cpv_ClaimRef pv) as [claim|]; [| done]. destruct (cpv_CSI pv) as [csi|]; [| done].
  destruct (bool_decide _); [| by injection Hold as <-].
  assert (Hu : getHostPathPVUsageInfo (<[HostPathPvBindInfoAnn := nodeName]> (om_anns (cpv_meta pv))) =
               getHostPathPVUsageInfo (om_anns (cpv_meta pv))).
  { unfold getHostPathPVUsageInfo, annotation. by rewrite lookup_insert_ne. }
  assert (Hn : annotation HostPathPvBindInfoAnn (<[HostPathPvBindInfoAnn := nodeName]> (om_anns (cpv_meta pv))) = nodeName).
  { unfold annotation. by rewrite lookup_insert_eq. }
  rewrite Hu, Hn. destruct (match getHostPathPVUsageInfo _ with Ok _ => _ | _ => _ end) as [path used].
  by injection Hold as <-.
Qed.

(** A watch: batches of deltas, whose errors are dropped. *)
Definition pv_watch (batches : list (list Delta)) : M (gmap string PersistentVolume) unit :=
  for_each batches (fun ds => attempt (DefaultProcessor ToPV pv_key ds) ;; ret tt).

Definition unbound_delta (d : Delta) : Prop :=
  exists pv, d_Object d = Live (KPV pv) /\ cpv_Phase pv <> VolumeBound.

Lemma unbound_kept ds store : Forall unbound_delta ds ->
  exists r, DefaultProcessor ToPV pv_key ds store = (r, store) /\ (r = Ok tt \/ exists e, r = Fail e).
Proof.
  destruct 1 as [|d ds (pv & Hd & Hp) _]; [by exists (Ok tt); split; [| left] |].
  exists (Fail (Errorf ("persistentVolume " +:+ om_Name (cpv_meta pv) +:+ " is not bound,skip"))).
  split; [| right; by eexists]. unfold DefaultProcessor. cbn [for_each]. unfold bind at 1, process_delta.
  rewrite Hd. unfold ToPV, ToPersistentVolume. rewrite decide_True by done. by destruct (d_Type d).
Qed.

(** a volume that was bound stays in the cache when it is released and deleted:
    whatever the watch delivers of volumes that are not bound, changes and deletions
    included, leaves the cache as it is, so that its claim still finds it. *)
Theorem released_volume_stays batches store k pv order :
  Forall (Forall unbound_delta) batches ->
  pv_watch batches store = (Ok tt, store) /\
  ((forall ks : gset string, order ks ≡ₚ elements ks) -> store !! k = Some pv ->
   ByIndex order pvClaimNameNamespaceIndexFunc (pv_index pv) (pv_watch batches store).2 <> []).
Proof.
  intros Hb.
  assert (Hw : pv_watch batches store = (Ok tt, store)).
  { unfold pv_watch. induction Hb as [|ds batches Hds _ IH]; [done |]. cbn [for_each].
    unfold bind at 1 2, attempt. destruct (unbound_kept ds store Hds) as (r & -> & [-> | [e ->]]); apply IH. }
  split; [done |]. rewrite Hw. intros Horder Hk E.
  assert (Hin : pv ∈ ByIndex order pvClaimNameNamespaceIndexFunc (pv_index pv) store).
  { unfold ByIndex. apply list_elem_of_omap. exists k. split; [| done].
    rewrite Horder, elem_of_elements, elem_of_dom. exists pv. by apply map_lookup_filter_Some. }
  cbn [snd] in E. rewrite E in Hin. set_solver.
Qed.
End control_proofs.

(** ** Witnesses *)

Definition control : HostPathControl * sim_cluster :=
  (mkHostPathControl {[ "default/p1" := mkPod "u1" "1" "p1" "default" ["c1"] ]} ∅ {[ "pvc-1" := found_pv ]}, cluster).
Definition bound_control : HostPathControl * sim_cluster := (c_BindHostPathPV "pvc-1" "n1" control).2.

Lemma cache_follows_witness :
  exists store', DefaultProcessor ToNode node_key
    ([mkDelta Added (Live (KNode (core_node "n1")))] ++ [mkDelta Deleted (Tombstone "n1")]) ∅ = (Ok tt, store') /\
    store' !! "n1" = None /\ forall other, other <> "n1" -> store' !! other = (∅ : gmap string Node) !! other.
Proof.
  apply (cache_follows ToNode node_key "n1" [mkDelta Added (Live (KNode (core_node "n1")))]
           (mkDelta Deleted (Tombstone "n1")) None ∅).
  - apply Forall_singleton. by eexists.
  - done.
Defined.

Lemma BindHostPathPV_binds_witness :
  bound_control.1 = control.1 /\
  exists pv' version, pv_Get "pvc-1" bound_control.2 = inl pv' /\
    ToHostPathVolume pv' =
    Ok (mkPersistentVolume version "pvc-1" "" "default/c1" "0001-0001-0005-pvc-1" true "n1" true 1000 "" 0).
Proof.
  apply (BindHostPathPV_binds "pvc-1" "n1" control bound_control) with (pv := core_pv "pvc-1" "c1" "" 1000) (old := found_pv);
    by vm_compute.
Defined.

Definition released_pv : CorePV :=
  mkCorePV (cpv_meta (core_pv "pvc-1" "c1" "n1" 1000)) (Some (mkObjectReference "c1" "default"))
    (cpv_CSI (core_pv "pvc-1" "c1" "n1" 1000)) 1000 VolumeReleased.
Definition release_and_delete : list (list Delta) :=
  [[mkDelta Updated (Live (KPV released_pv))]; [mkDelta Deleted (Live (KPV released_pv))]].

Lemma released_volume_stays_witness :
  pv_watch release_and_delete {[ "pvc-1" := found_pv ]} = (Ok tt, {[ "pvc-1" := found_pv ]}) /\
  ((forall ks : gset string, elements ks ≡ₚ elements ks) ->
   ({[ "pvc-1" := found_pv ]} : gmap string PersistentVolume) !! "pvc-1" = Some found_pv ->
   ByIndex elements pvClaimNameNamespaceIndexFunc "default/c1"
     (pv_watch release_and_delete {[ "pvc-1" := found_pv ]}).2 <> []).
Proof.
  apply (released_volume_stays release_and_delete {[ "pvc-1" := found_pv ]} "pvc-1" found_pv elements).
  unfold release_and_delete. repeat apply Forall_cons_2; try apply Forall_nil_2; by exists released_pv.
Defined.
