(* ===== verification/Objects.v ===== *)
(** * Cached objects as API objects: pkg/hostpathclient/object.go

    client-go handles what is in the caches through the interface [metav1.Object].  The
    plugin's pods, nodes and volumes embed [Empty], which implements the whole interface
    with constants, and define the few methods that the caches need. *)

From S2P Require Import Prelude GoStrings HostPathApi Base64 Json Annotations HostPathClient HostPathController.
Open Scope Z_scope.
Open Scope go_scope.

Section objects.
(** Types of the API machinery, of which the code has no value but [nil] *)
Context {OwnerReference ManagedFieldsEntry : Type}.

(** [metav1.Time]; a pointer may be nil. *)
Definition Time : Type := Z.
Definition zero_Time : Time := -62135596800 * 10 ^ 9.

(** The Go interface [metav1.Object]; a setter returns the object afterwards. *)
Class Object (T : Type) := {
  GetNamespace : T -> string;
  SetNamespace : string -> T -> T;
  GetName : T -> string;
  SetName : string -> T -> T;
  GetGenerateName : T -> string;
  SetGenerateName : string -> T -> T;
  GetUID : T -> string;
  SetUID : string -> T -> T;
  GetResourceVersion : T -> string;
  SetResourceVersion : string -> T -> T;
  GetGeneration : T -> Z;
  SetGeneration : Z -> T -> T;
  GetSelfLink : T -> string;
  SetSelfLink : string -> T -> T;
  GetCreationTimestamp : T -> Time;
  SetCreationTimestamp : Time -> T -> T;
  GetDeletionTimestamp : T -> option Time;
  SetDeletionTimestamp : option Time -> T -> T;
  GetDeletionGracePeriodSeconds : T -> option Z;
  SetDeletionGracePeriodSeconds : option Z -> T -> T;
  GetLabels : T -> option (gmap string string);
  SetLabels : option (gmap string string) -> T -> T;
  GetAnnotations : T -> option (gmap string string);
  SetAnnotations : option (gmap string string) -> T -> T;
  GetFinalizers : T -> list string;
  SetFinalizers : list string -> T -> T;
  GetOwnerReferences : T -> list OwnerReference;
  SetOwnerReferences : list OwnerReference -> T -> T;
  GetClusterName : T -> string;
  SetClusterName : string -> T -> T;
  GetManagedFields : T -> list ManagedFieldsEntry;
  SetManagedFields : list ManagedFieldsEntry -> T -> T
}.

(** A struct that embeds [*Empty] and defines the methods for namespace, name, UID and
    version: the others are promoted from [Empty], whose methods read nothing. *)
Definition embed_Empty {T} (namespace name uid version : T -> string) : Object T := {|
  GetNamespace := namespace;
  SetNamespace _ x := x;
  GetName := name;
  SetName _ x := x;
  GetGenerateName _ := "";
  SetGenerateName _ x := x;
  GetUID := uid;
  SetUID _ x := x;
  GetResourceVersion := version;
  SetResourceVersion _ x := x;
  GetGeneration _ := 0;
  SetGeneration _ x := x;
  GetSelfLink _ := "";
  SetSelfLink _ x := x;
  GetCreationTimestamp _ := zero_Time;
  SetCreationTimestamp _ x := x;
  GetDeletionTimestamp _ := Some zero_Time;
  SetDeletionTimestamp _ x := x;
  GetDeletionGracePeriodSeconds _ := None;
  SetDeletionGracePeriodSeconds _ x := x;
  GetLabels _ := None;
  SetLabels _ x := x;
  GetAnnotations _ := None;
  SetAnnotations _ x := x;
  GetFinalizers _ := [];
  SetFinalizers _ x := x;
  GetOwnerReferences _ := [];
  SetOwnerReferences _ x := x;
  GetClusterName _ := "";
  SetClusterName _ x := x;
  GetManagedFields _ := [];
  SetManagedFields _ x := x
|}.

Instance Pod_object : Object Pod := embed_Empty pod_namespace pod_name pod_UID pod_version.
Instance Node_object : Object Node := embed_Empty nd_namespace nd_name (fun _ => "") nd_version.
Instance PersistentVolume_object : Object PersistentVolume := embed_Empty pv_namespace pv_name (fun _ => "") pv_version.

(** [cache.MetaNamespaceKeyFunc] *)
Definition MetaNamespaceKeyFunc {T} `{Object T} (x : T) : string := store_key (GetNamespace x) (GetName x).

(** ** The keys of the caches *)

Lemma pod_key_meta p : MetaNamespaceKeyFunc p = pod_key p.
Proof. done. Qed.
Lemma node_key_meta n : MetaNamespaceKeyFunc n = node_key n.
Proof. done. Qed.
Lemma pv_key_meta pv : MetaNamespaceKeyFunc pv = pv_key pv.
Proof. done. Qed.

(** A copy has the key of the original, but not its identity: a pod's UID, with which it
    would be bound, and a volume's mark that it is one of the plugin's are lost. *)
Lemma copies_keep_keys p n pv :
  pod_key (pod_DeepCopyObject p) = pod_key p /\ node_key (node_DeepCopyObject n) = node_key n /\
  pv_key (pv_DeepCopyObject pv) = pv_key pv /\
  GetUID (pod_DeepCopyObject p) = "" /\ pv_isHostPathPv (pv_DeepCopyObject pv) = false.
Proof. done. Qed.
End objects.
