(* ===== verification/Informers.v ===== *)
(** * The informers: pkg/hostpathclient/informer.go and the wiring of controller.go

    An informer lists and watches one kind of object; what the API server reports goes
    through a queue of deltas into the indexed cache.  The queue is client-go's, whose
    code the repository carries (vendor/k8s.io/client-go/tools/cache/delta_fifo.go); the
    repository gives it its configuration and the function that processes a batch.  The
    reports of the server and the turns of the queue interleave freely. *)

From S2P Require Import Prelude GoStrings VolId Os HostPathApi Base64 Json Annotations HostPathClient HostPathController.
Open Scope Z_scope.
Open Scope go_scope.

(** ** delta_fifo.go *)

Definition object_meta (o : KObject) : option ObjectMeta :=
  match o with
  | KPod p => Some (cpod_meta p)
  | KNode n => Some (cn_meta n)
  | KPV pv => Some (cpv_meta pv)
  | KOther => None
  end.

(** [MetaNamespaceKeyFunc] *)
Definition object_key (o : KObject) : option string :=
  (fun m => store_key (om_Namespace m) (om_Name m)) <$> object_meta o.

#[global] Instance delta_type_eq_dec : EqDecision DeltaType.
Proof. solve_decision. Defined.

Definition KeyOf (o : DeltaObject) : option string :=
  match o with Live o => object_key o | Tombstone k => Some k end.

Record DeltaFIFO := mkDeltaFIFO {
  fifo_items : gmap string (list Delta);
  fifo_queue : list string;
  fifo_populated : bool;
  initialPopulationCount : Z
}.
Definition NewDeltaFIFO : DeltaFIFO := mkDeltaFIFO ∅ [] false 0.

Definition isDeletionDup (a b : Delta) : option Delta :=
  match d_Type b, d_Type a with
  | Deleted, Deleted => match d_Object b with Tombstone _ => Some a | Live _ => Some b end
  | _, _ => None
  end.

(** [dedupDeltas] of the deltas of a key with a new one at their end *)
Definition dedupDeltas (ds : list Delta) (a : Delta) : list Delta :=
  match last ds with
  | None => [a]
  | Some b => match isDeletionDup a b with
              | Some out => removelast ds ++ [out]
              | None => ds ++ [a]
              end
  end.

Definition enqueue (id : string) (d : Delta) (f : DeltaFIFO) : DeltaFIFO :=
  mkDeltaFIFO (<[id := dedupDeltas (default [] (fifo_items f !! id)) d]> (fifo_items f))
    (match fifo_items f !! id with Some _ => fifo_queue f | None => fifo_queue f ++ [id] end)
    (fifo_populated f) (initialPopulationCount f).

(** [queueActionLocked]; an object without a key is refused. *)
Definition queueAction (t : DeltaType) (o : DeltaObject) (f : DeltaFIFO) : DeltaFIFO :=
  match KeyOf o with Some id => enqueue id (mkDelta t o) f | None => f end.

Definition populate (f : DeltaFIFO) : DeltaFIFO :=
  mkDeltaFIFO (fifo_items f) (fifo_queue f) true (initialPopulationCount f).
Definition fifo_Add (o : KObject) (f : DeltaFIFO) : DeltaFIFO := queueAction Added (Live o) (populate f).
Definition fifo_Update (o : KObject) (f : DeltaFIFO) : DeltaFIFO := queueAction Updated (Live o) (populate f).

(** [known]: whether the indexer has the key *)
Definition fifo_Delete (known : string -> bool) (o : KObject) (f : DeltaFIFO) : DeltaFIFO :=
  match object_key o with
  | None => f
  | Some id =>
      let f := populate f in
      if negb (known id) && bool_decide (fifo_items f !! id = None) then f
      else queueAction Deleted (Live o) f
  end.

(** [knownKeys]: the keys of the indexer, in any order.  A list with an object without
    key stops there; the informers list objects of one kind, which have keys. *)
Definition fifo_Replace (knownKeys : list string) (list : list KObject) (f : DeltaFIFO) : DeltaFIFO :=
  let keys := omap object_key list in
  let gone := filter (fun k => k ∉ keys) knownKeys in
  let f1 := foldl (fun f o => queueAction Sync (Live o) f) f list in
  let f2 := foldl (fun f k => queueAction Deleted (Tombstone k) f) f1 gone in
  if fifo_populated f2 then f2
  else mkDeltaFIFO (fifo_items f2) (fifo_queue f2) true (Z.of_nat (length list + length gone)).

Definition HasSynced (f : DeltaFIFO) : bool := fifo_populated f && (initialPopulationCount f =? 0).

(** ** An informer *)

Record Informer (O : Type) := mkInformer { in_fifo : DeltaFIFO; in_indexer : gmap string O }.
Arguments mkInformer {O}.
Arguments in_fifo {O}.
Arguments in_indexer {O}.

(** [cache.Config], as far as it differs between informers; objects that the processor
    refuses are not tried again ([RetryOnError]), and there is no resync
    ([FullResyncPeriod]). *)
Record cache_Config (O : Type) := mkCacheConfig {
  cfg_ObjectType : KObject -> bool;
  cfg_FullResyncPeriod : Z;
  cfg_RetryOnError : bool;
  cfg_Process : list Delta -> M (gmap string O) unit
}.
Arguments mkCacheConfig {O}.
Arguments cfg_ObjectType {O}.
Arguments cfg_FullResyncPeriod {O}.
Arguments cfg_RetryOnError {O}.
Arguments cfg_Process {O}.

Definition defaultResyncPeriod : Z := 0.

(** The indexer and the controller, which begin empty *)
Definition NewIndexerInformer {O} (objType : KObject -> bool) (builder : list Delta -> M (gmap string O) unit) :
    Informer O * cache_Config O :=
  (mkInformer NewDeltaFIFO ∅, mkCacheConfig objType defaultResyncPeriod false builder).

(** What the API server reports to the reflector of an informer. *)
Inductive WatchEvent :=
  | Relist (items : list KObject)
  | WatchAdded (o : KObject)
  | WatchModified (o : KObject)
  | WatchDeleted (o : KObject).

Section informer.
Context {O : Type} (cfg : cache_Config O) (order : gset string -> list string).

Definition on_fifo (g : DeltaFIFO -> DeltaFIFO) (s : Informer O) : Informer O := mkInformer (g (in_fifo s)) (in_indexer s).

(** [watchHandler] and [syncWith]: an object of another type is dropped. *)
Definition reflect (ev : WatchEvent) (s : Informer O) : Informer O :=
  match ev with
  | Relist items => on_fifo (fifo_Replace (order (dom (in_indexer s))) items) s
  | WatchAdded o => if cfg_ObjectType cfg o then on_fifo (fifo_Add o) s else s
  | WatchModified o => if cfg_ObjectType cfg o then on_fifo (fifo_Update o) s else s
  | WatchDeleted o =>
      if cfg_ObjectType cfg o
      then on_fifo (fifo_Delete (fun k => bool_decide (is_Some (in_indexer s !! k))) o) s
      else s
  end.

(** A turn of [processLoop]: [Pop] of the first key; on an empty queue it blocks.  An
    error of the processor is dropped, as [RetryOnError] is false; a panic ends the
    process. *)
Definition processOne (s : Informer O) : option (outcome unit * Informer O) :=
  match fifo_queue (in_fifo s) with
  | [] => None
  | id :: queue =>
      let f := in_fifo s in
      let n := if initialPopulationCount f >? 0 then initialPopulationCount f - 1 else initialPopulationCount f in
      match fifo_items f !! id with
      | None => Some (Ok tt, mkInformer (mkDeltaFIFO (fifo_items f) queue (fifo_populated f) n) (in_indexer s))
      | Some item =>
          let '(r, store) := attempt (cfg_Process cfg item) (in_indexer s) in
          Some (match r with Panic y => Panic y | _ => Ok tt end,
                mkInformer (mkDeltaFIFO (delete id (fifo_items f)) queue (fifo_populated f) n) store)
      end
  end.
End informer.

(** ** The three informers of controller.go *)

Record ListOptions := mkListOptions { lo_FieldSelector : string; lo_ResourceVersion : string }.

(** List and Watch of the API server, with a namespace where the kind has one; a watch
    is a stream of events. *)
Class ListWatchApi (W Stream : Type) := {
  Pods_List : string -> ListOptions -> W -> list CorePod + error;
  Pods_Watch : string -> ListOptions -> W -> Stream + error;
  Nodes_List : ListOptions -> W -> list CoreNode + error;
  Nodes_Watch : ListOptions -> W -> Stream + error;
  PersistentVolumes_List : ListOptions -> W -> list CorePV + error;
  PersistentVolumes_Watch : ListOptions -> W -> Stream + error
}.

Record ListWatch (W Stream : Type) := mkListWatch {
  lw_List : ListOptions -> M W (list KObject);
  lw_Watch : ListOptions -> M W Stream
}.
Arguments mkListWatch {W Stream}.
Arguments lw_List {W Stream}.
Arguments lw_Watch {W Stream}.

Section wiring.
Context {W Stream : Type} `{ListWatchApi W Stream}.

Definition NamespaceAll : string := "".

Definition select_pending (options : ListOptions) : ListOptions :=
  mkListOptions (pod_selector (lo_FieldSelector options)) (lo_ResourceVersion options).

Definition listed {A} (kind : A -> KObject) (m : M W (list A)) : M W (list KObject) :=
  let! items := m in ret (map kind items).

Definition podListFunc (namespace : string) (options : ListOptions) : M W (list CorePod) :=
  sys_read (Pods_List namespace (select_pending options)).
Definition podWatchFunc (namespace : string) (options : ListOptions) : M W Stream :=
  sys_read (Pods_Watch namespace (select_pending options)).
Definition nodeListFunc (options : ListOptions) : M W (list CoreNode) := sys_read (Nodes_List options).
Definition nodeWatchFunc (options : ListOptions) : M W Stream := sys_read (Nodes_Watch options).
Definition pvListFunc (options : ListOptions) : M W (list CorePV) := sys_read (PersistentVolumes_List options).
Definition pvWatchFunc (options : ListOptions) : M W Stream := sys_read (PersistentVolumes_Watch options).

Definition pod_list_watch : ListWatch W Stream :=
  mkListWatch (fun o => listed KPod (podListFunc NamespaceAll o)) (podWatchFunc NamespaceAll).
Definition node_list_watch : ListWatch W Stream := mkListWatch (fun o => listed KNode (nodeListFunc o)) nodeWatchFunc.
Definition pv_list_watch : ListWatch W Stream := mkListWatch (fun o => listed KPV (pvListFunc o)) pvWatchFunc.
End wiring.

Definition is_pod (o : KObject) : bool := match o with KPod _ => true | _ => false end.
Definition is_node (o : KObject) : bool := match o with KNode _ => true | _ => false end.
Definition is_pv (o : KObject) : bool := match o with KPV _ => true | _ => false end.

Definition NewPodInformer : Informer Pod * cache_Config Pod := NewIndexerInformer is_pod (DefaultProcessor ToPod pod_key).
Definition NewNodeInformer : Informer Node * cache_Config Node := NewIndexerInformer is_node (DefaultProcessor ToNode node_key).
Definition NewPVInformer : Informer PersistentVolume * cache_Config PersistentVolume :=
  NewIndexerInformer is_pv (DefaultProcessor ToPV pv_key).

(** The running informers of a [HostPathControl] *)
Record Informers := mkInformers {
  podController : Informer Pod;
  nodeController : Informer Node;
  pvController : Informer PersistentVolume
}.
Definition NewInformers : Informers := mkInformers NewPodInformer.1 NewNodeInformer.1 NewPVInformer.1.
Definition caches (i : Informers) : HostPathControl :=
  mkHostPathControl (in_indexer (podController i)) (in_indexer (nodeController i)) (in_indexer (pvController i)).

(** A tick of [waitForResourceSynced] *)
Definition tick (i : Informers) : WaitEvent :=
  Tick (HasSynced (in_fifo (podController i))) (HasSynced (in_fifo (nodeController i))) (HasSynced (in_fifo (pvController i))).

(** [Run], over the states of the informers at the ticks before the timeout *)
Definition informers_Run (ticks : list Informers) : option (outcome unit) :=
  waitForResourceSynced (map tick ticks ++ [Timeout]).

(** ** The cache mirrors what was reported *)

(** What the server has reported to exist. *)
Definition note_object (m : gmap string KObject) (o : KObject) : gmap string KObject :=
  match object_key o with Some k => <[k := o]> m | None => m end.
Definition report (objType : KObject -> bool) (ev : WatchEvent) (m : gmap string KObject) : gmap string KObject :=
  match ev with
  | Relist items => foldl note_object ∅ items
  | WatchAdded o | WatchModified o => if objType o then note_object m o else m
  | WatchDeleted o => if objType o then match object_key o with Some k => delete k m | None => m end else m
  end.

(** The objects of an event *)
Definition event_objects (ev : WatchEvent) : list KObject :=
  match ev with Relist items => items | WatchAdded o | WatchModified o | WatchDeleted o => [o] end.

Section mirror.
Context {O : Type} (convert : KObject -> outcome O) (key : O -> string).
Context (objType : KObject -> bool) (order : gset string -> list string).
Context (convert_key : forall o obj, convert o = Ok obj -> object_key o = Some (key obj)).
Context (order_perm : forall ks, order ks ≡ₚ elements ks).

Definition the_config : cache_Config O := mkCacheConfig objType defaultResyncPeriod false (DefaultProcessor convert key).

Definition converted (o : KObject) : option O := match convert o with Ok obj => Some obj | _ => None end.

(** An object that the processor takes up, and a key for which no delta waits that would
    end its batch *)
Definition convertible (o : KObject) : bool := bool_decide (is_Some (converted o)).
Definition clean (k : string) (f : DeltaFIFO) : bool :=
  forallb (fun d => bool_decide (is_Some (delta_result convert key k d))) (default [] (fifo_items f !! k)).

(** The keys of which the queue and the cache together do not know what was reported
    last.  An object that is not convertible ends its batch, so its key is unsettled; the
    next convertible object of the key that finds no such delta waiting settles it.  A
    list leaves the deltas of a key alone that it does not have and the cache does not
    have yet ([Replace] looks for deletions in the cache only). *)
Definition settle (settled : bool) (o : KObject) (U : gset string) : gset string :=
  match object_key o with Some k => if settled then U ∖ {[ k ]} else {[ k ]} ∪ U | None => U end.
Definition settles (o : KObject) (f : DeltaFIFO) : bool :=
  match object_key o with Some k => convertible o && clean k f | None => true end.
Definition unsettled (ev : WatchEvent) (s : Informer O) (U : gset string) : gset string :=
  let f := in_fifo s in
  match ev with
  | Relist items =>
      let keys : gset string := list_to_set (omap object_key items) in
      filter (fun k => clean k f = false) (dom (fifo_items f)) ∪
      list_to_set (omap object_key (filter (fun o => convertible o = false) items)) ∪
      (dom (fifo_items f) ∖ keys ∖ dom (in_indexer s))
  | WatchAdded o | WatchModified o | WatchDeleted o => if objType o then settle (settles o f) o U else U
  end.

(** The turns of one informer, with what was reported so far and the keys that are
    unsettled.  [Fine]: the objects that the server reports. *)
Record informed := mkInformed { if_informer : Informer O; if_reported : gmap string KObject; if_unsettled : gset string }.

Inductive informer_step (Fine : KObject -> Prop) : informed -> informed -> Prop :=
  | inf_report ev s m U :
      Forall Fine (event_objects ev) ->
      informer_step Fine (mkInformed s m U) (mkInformed (reflect the_config order ev s) (report objType ev m) (unsettled ev s U))
  | inf_process s m U s' :
      processOne the_config s = Some (Ok tt, s') -> informer_step Fine (mkInformed s m U) (mkInformed s' m U).

(** The queue is in order: its keys are those with deltas, each once, and the deltas of
    a key are about that key. *)
Record queue_ok (f : DeltaFIFO) : Prop := {
  queue_items k : k ∈ fifo_queue f <-> is_Some (fifo_items f !! k);
  queue_nodup : NoDup (fifo_queue f);
  queue_keys k ds : fifo_items f !! k = Some ds -> ds <> [] /\ Forall (fun d => KeyOf (d_Object d) = Some k) ds
}.

(** The cache has [v] for [k], or will have once the waiting deltas are processed. *)
Definition mirrors (k : string) (f : DeltaFIFO) (store : gmap string O) (v : option O) : Prop :=
  match fifo_items f !! k with
  | Some ds => Forall (fun d => is_Some (delta_result convert key k d)) ds /\
               (last ds ≫= delta_result convert key k) = Some v
  | None => store !! k = v
  end.

Lemma isDeletionDup_cases a b out :
  isDeletionDup a b = Some out -> (out = a \/ out = b) /\ d_Type a = Deleted /\ d_Type b = Deleted.
Proof. unfold isDeletionDup. intros E. repeat case_match; simplify_eq; tauto. Qed.

Lemma dedup_keys k ds a :
  Forall (fun d => KeyOf (d_Object d) = Some k) ds -> KeyOf (d_Object a) = Some k ->
  dedupDeltas ds a <> [] /\ Forall (fun d => KeyOf (d_Object d) = Some k) (dedupDeltas ds a).
Proof.
  intros Hds Ha. unfold dedupDeltas. destruct (last ds) as [b|] eqn:Hl.
  - apply last_Some in Hl as [ds' ->]. apply Forall_app in Hds as [Hds Hb]. apply Forall_cons in Hb as [Hb _].
    destruct (isDeletionDup a b) as [out|] eqn:Hd.
    + rewrite removelast_last. split; [by destruct ds' |]. apply Forall_app_2; [done |]. apply Forall_singleton.
      apply isDeletionDup_cases in Hd as [Hout _]. destruct Hout; by subst out.
    + split; [by destruct ds' |]. apply Forall_app_2; [by apply Forall_app_2; [| apply Forall_singleton] | by apply Forall_singleton].
  - split; [done |]. by apply Forall_singleton.
Qed.

Lemma enqueue_ok k d f : KeyOf (d_Object d) = Some k -> queue_ok f -> queue_ok (enqueue k d f).
Proof.
  intros Hd [Hq Hn Hk]. unfold enqueue.
  assert (Hds : forall ds, default [] (fifo_items f !! k) = ds -> Forall (fun d => KeyOf (d_Object d) = Some k) ds).
  { intros ds <-. destruct (fifo_items f !! k) as [ds|] eqn:E; [by apply (Hk k) | constructor]. }
  specialize (Hds _ eq_refl). split; cbn.
  - intros j. rewrite lookup_insert_is_Some'. destruct (fifo_items f !! k) as [ds|] eqn:E.
    + rewrite Hq. split; [tauto |]. intros [<- | Hj]; [by rewrite E; eexists | done].
    + rewrite elem_of_app, list_elem_of_singleton, Hq. naive_solver.
  - destruct (fifo_items f !! k) as [ds|] eqn:E; [done |]. apply NoDup_app. split; [done |]. split; [| apply NoDup_singleton].
    intros x Hx%Hq ->%list_elem_of_singleton. rewrite E in Hx. by destruct Hx.
  - intros j ds. rewrite lookup_insert_Some. intros [[<- <-] | [_ Hj]]; [by apply dedup_keys | by apply Hk].
Qed.

Lemma queueAction_ok t o f : queue_ok f -> queue_ok (queueAction t o f).
Proof. intros Hf. unfold queueAction. destruct (KeyOf o) as [k|] eqn:E; [| done]. by apply enqueue_ok. Qed.

Lemma populate_ok f : queue_ok f -> queue_ok (populate f).
Proof. by intros []. Qed.

Lemma foldl_inv {A B} (I : A -> Prop) (g : A -> B -> A) (xs : list B) a :
  (forall a b, I a -> I (g a b)) -> I a -> I (foldl g a xs).
Proof. intros Hg. revert a. induction xs as [|x xs IH]; intros a Ha; [done |]. by apply IH, Hg. Qed.

Lemma reflect_ok ev s : queue_ok (in_fifo s) -> queue_ok (in_fifo (reflect the_config order ev s)).
Proof.
  intros Hq. destruct ev as [items | o | o | o]; cbn.
  - unfold fifo_Replace. set (f2 := foldl _ _ _).
    assert (Hf : queue_ok f2).
    { apply foldl_inv; [intros; by apply queueAction_ok |]. apply foldl_inv; [intros; by apply queueAction_ok | done]. }
    by destruct (fifo_populated f2), f2, Hf.
  - destruct (objType o); [| done]. by apply queueAction_ok, populate_ok.
  - destruct (objType o); [| done]. by apply queueAction_ok, populate_ok.
  - destruct (objType o); [| done]. cbn. unfold fifo_Delete. destruct (object_key o); [| done].
    destruct (_ && _); [by apply populate_ok | by apply queueAction_ok, populate_ok].
Qed.

(** Deltas and the mirrored value *)
Lemma live_result k t o obj :
  object_key o = Some k -> converted o = Some obj ->
  delta_result convert key k (mkDelta t (Live o)) = Some (if decide (t = Deleted) then None else Some obj).
Proof.
  unfold converted. destruct (convert o) as [obj' | |] eqn:E; [| done..]. intros Hk [= ->].
  apply convert_key in E as E'. rewrite Hk in E'. injection E' as ->.
  unfold delta_result. cbn. rewrite E. rewrite !decide_True by done. by destruct t.
Qed.

Lemma deleted_result k d r : d_Type d = Deleted -> delta_result convert key k d = Some r -> r = None.
Proof. unfold delta_result. intros ->. repeat case_match; naive_solver. Qed.

Lemma dedup_mirrors k ds a r :
  Forall (fun d => is_Some (delta_result convert key k d)) ds -> delta_result convert key k a = Some r ->
  Forall (fun d => is_Some (delta_result convert key k d)) (dedupDeltas ds a) /\
  (last (dedupDeltas ds a) ≫= delta_result convert key k) = Some r.
Proof.
  intros Hds Ha. unfold dedupDeltas. destruct (last ds) as [b|] eqn:Hl.
  2: { cbn. split; [| done]. apply Forall_singleton. by exists r. }
  apply last_Some in Hl as [ds' ->]. pose proof Hds as Hds2. apply Forall_app in Hds2 as [Hds' Hb].
  apply Forall_cons in Hb as [[rb Hb] _]. destruct (isDeletionDup a b) as [out|] eqn:Hd.
  - rewrite removelast_last. assert (Hout : delta_result convert key k out = Some r).
    { apply isDeletionDup_cases in Hd as ([-> | ->] & Hta & Htb); [done |].
      rewrite (deleted_result _ _ _ Hta Ha). by rewrite Hb, (deleted_result _ _ _ Htb Hb). }
    rewrite last_snoc. split; [| done]. apply Forall_app_2; [done |]. apply Forall_singleton. by exists r.
  - rewrite last_snoc. split; [| done]. apply Forall_app_2; [done |]. apply Forall_singleton. by exists r.
Qed.

Lemma enqueue_mirrors k id d f store v v' :
  mirrors k f store v -> (id = k -> delta_result convert key k d = Some v') -> (id <> k -> v' = v) ->
  mirrors k (enqueue id d f) store v'.
Proof.
  intros Hm Heq Hne. unfold mirrors, enqueue in *. cbn. destruct (decide (id = k)) as [-> | Hid].
  - rewrite lookup_insert_eq. apply dedup_mirrors; [| by apply Heq]. destruct (fifo_items f !! k); [by apply Hm | constructor].
  - rewrite lookup_insert_ne by done. by rewrite Hne.
Qed.

(** Where no delta waits that would end the batch, the cache will have some value. *)
Lemma clean_mirrors k f store : queue_ok f -> clean k f = true -> exists v, mirrors k f store v.
Proof.
  unfold clean, mirrors. intros Hq Hc. destruct (fifo_items f !! k) as [ds|] eqn:E; [| by eexists].
  destruct (queue_keys _ Hq k ds E) as [Hne _]. cbn [default id] in Hc. apply Is_true_eq_left, forallb_True in Hc.
  assert (Hgood : Forall (fun d => is_Some (delta_result convert key k d)) ds)
    by (eapply Forall_impl; [exact Hc |]; intros d Hd; by apply bool_decide_unpack in Hd).
  destruct (last ds) as [d|] eqn:El; [| by apply last_None in El]. apply last_Some in El as [ds' ->].
  apply Forall_app in Hgood as Hd. destruct Hd as [_ Hd]. apply Forall_cons in Hd as [[v Hv] _]. exists v. by split.
Qed.

(** The value of [k] by the objects in [m], [v0] when they have none. *)
Definition value_or (v0 : option O) (k : string) (m : gmap string KObject) : option O :=
  match m !! k with Some o => converted o | None => v0 end.

Definition fine_at (k : string) (o : KObject) : Prop := object_key o = Some k -> is_Some (converted o).

Lemma note_mirrors v0 k t o f store m :
  fine_at k o -> t <> Deleted -> mirrors k f store (value_or v0 k m) ->
  mirrors k (queueAction t (Live o) f) store (value_or v0 k (note_object m o)).
Proof.
  intros Hfine Ht Hm. unfold queueAction, note_object. cbn [KeyOf]. destruct (object_key o) as [id|] eqn:Hk; [| done].
  eapply enqueue_mirrors; [exact Hm | |].
  - intros ->. destruct (Hfine Hk) as [obj Hobj]. rewrite (live_result _ _ _ _ Hk Hobj), decide_False by done.
    unfold value_or. by rewrite lookup_insert_eq, Hobj.
  - intros Hne. unfold value_or. by rewrite lookup_insert_ne.
Qed.

(** A list: every listed object is noted. *)
Lemma list_mirrors v0 k items : forall f store m,
  Forall (fine_at k) items -> mirrors k f store (value_or v0 k m) ->
  mirrors k (foldl (fun f o => queueAction Sync (Live o) f) f items) store (value_or v0 k (foldl note_object m items)).
Proof.
  induction items as [|o items IH]; intros f store m Hfine Hm; [done |].
  apply Forall_cons in Hfine as [Ho Hitems]. by apply IH, note_mirrors.
Qed.

Lemma noted_dom k items : forall m,
  is_Some (foldl note_object m items !! k) <-> is_Some (m !! k) \/ k ∈ omap object_key items.
Proof.
  induction items as [|o items IH]; intros m; cbn [foldl]; [set_solver |].
  rewrite IH, !list_elem_of_omap. unfold note_object.
  assert (Hcons : (exists y, y ∈ o :: items /\ object_key y = Some k) <->
                  object_key o = Some k \/ exists y, y ∈ items /\ object_key y = Some k)
    by (setoid_rewrite elem_of_cons; naive_solver).
  rewrite Hcons. destruct (object_key o) as [id|]; [rewrite lookup_insert_is_Some' |]; naive_solver.
Qed.

(** The keys that a list does not have are deleted. *)
Lemma gone_mirrors k gone : forall f store v,
  mirrors k f store v ->
  mirrors k (foldl (fun f k => queueAction Deleted (Tombstone k) f) f gone) store (if decide (k ∈ gone) then None else v).
Proof.
  induction gone as [|g gone IH]; intros f store v Hm; cbn [foldl]; [by rewrite decide_False by apply not_elem_of_nil |].
  specialize (IH (queueAction Deleted (Tombstone g) f) store (if decide (g = k) then None else v)).
  assert (Hstep : mirrors k (queueAction Deleted (Tombstone g) f) store (if decide (g = k) then None else v)).
  { unfold queueAction. cbn [KeyOf]. eapply enqueue_mirrors; [exact Hm | |].
    - intros ->. unfold delta_result. cbn. by rewrite !decide_True.
    - intros Hne. by rewrite decide_False. }
  specialize (IH Hstep). destruct (decide (k ∈ gone)).
  - rewrite decide_True; [done |]. by right.
  - destruct (decide (g = k)) as [-> |]; [rewrite decide_True by left; done |].
    rewrite decide_False; [done |]. rewrite elem_of_cons. naive_solver.
Qed.

Lemma replace_mirrors k items f store v :
  Forall (fine_at k) items -> mirrors k f store v ->
  (is_Some (fifo_items f !! k) -> k ∈ omap object_key items \/ is_Some (store !! k)) ->
  mirrors k (fifo_Replace (order (dom store)) items f) store (value_or None k (foldl note_object ∅ items)).
Proof.
  intros Hfine Hm Hrelist. unfold fifo_Replace.
  set (gone := filter _ _). set (f1 := foldl _ f items). set (f2 := foldl _ f1 gone).
  assert (H2 : mirrors k f2 store (value_or None k (foldl note_object ∅ items))).
  { assert (H1 : mirrors k f1 store (value_or v k (foldl note_object ∅ items)))
      by (apply list_mirrors; [done | unfold value_or; by rewrite lookup_empty]).
    apply (gone_mirrors k gone) in H1. fold f2 in H1. revert H1. unfold value_or.
    pose proof (noted_dom k items ∅) as Hdom.
    destruct (foldl note_object ∅ items !! k) as [o|] eqn:Ho.
    - rewrite decide_False; [done |]. unfold gone. rewrite list_elem_of_filter. intros [Hn _].
      destruct Hdom as [Hd _]. destruct Hd as [Hd | Hd]; [eauto | | done]. rewrite lookup_empty in Hd. by destruct Hd.
    - assert (Hno : k ∉ omap object_key items).
      { intros Hin. destruct Hdom as [_ Hd]. destruct Hd as [? Hd]; [by right | done]. }
      destruct (decide (k ∈ gone)) as [| Hg]; [done |].
      assert (Hs : store !! k = None).
      { apply eq_None_not_Some. intros Hs. apply Hg. unfold gone. rewrite list_elem_of_filter, order_perm, elem_of_elements.
        split; [done | by apply elem_of_dom]. }
      unfold mirrors in Hm. destruct (fifo_items f !! k) as [ds|]; [| by rewrite <- Hm, Hs].
      destruct Hrelist as [? | [? Hx]]; [eauto | done | congruence]. }
  by destruct (fifo_populated f2).
Qed.

(** An event of the watch about an object of another key leaves the key as it was; one
    that settles the key gives it the value of the object. *)
Lemma settle_cases k o f U :
  k ∉ settle (settles o f) o U ->
  object_key o <> Some k /\ k ∉ U \/ object_key o = Some k /\ is_Some (converted o) /\ clean k f = true.
Proof.
  unfold settle, settles. destruct (object_key o) as [id|]; [| left; by split]. destruct (decide (id = k)) as [-> | Hne].
  - intros Hk. right. split; [done |]. destruct (convertible o && clean k f) eqn:E; [| set_solver].
    apply andb_true_iff in E as [Hc%bool_decide_eq_true Hcl]. by split.
  - intros Hk. left. split; [congruence |]. destruct (convertible o && clean id f); set_solver.
Qed.

Lemma event_mirrors k t o f store m U :
  queue_ok f -> (k ∉ U -> mirrors k f store (value_or None k m)) -> k ∉ settle (settles o f) o U -> t <> Deleted ->
  mirrors k (queueAction t (Live o) f) store (value_or None k (note_object m o)).
Proof.
  intros Hq Hm [[Hk HU] | (Hk & [obj Hobj] & Hc)]%settle_cases Ht.
  - apply note_mirrors; [| done | by apply Hm]. intros Hk'. by destruct Hk.
  - destruct (clean_mirrors k f store Hq Hc) as [v Hv]. unfold queueAction, note_object. cbn [KeyOf]. rewrite Hk.
    eapply enqueue_mirrors; [exact Hv | | by intros []]. intros _.
    rewrite (live_result _ _ _ _ Hk Hobj), decide_False by done. unfold value_or. by rewrite lookup_insert_eq, Hobj.
Qed.

Lemma delete_mirrors k o s m U :
  queue_ok (in_fifo s) -> (k ∉ U -> mirrors k (in_fifo s) (in_indexer s) (value_or None k m)) -> k ∉ settle (settles o (in_fifo s)) o U ->
  mirrors k (fifo_Delete (fun k => bool_decide (is_Some (in_indexer s !! k))) o (in_fifo s)) (in_indexer s)
    (value_or None k (match object_key o with Some k => delete k m | None => m end)).
Proof.
  intros Hq Hm [[Hk HU] | (Hk & [obj Hobj] & Hc)]%settle_cases; unfold fifo_Delete.
  - specialize (Hm HU). destruct (object_key o) as [id|] eqn:Ek; [| done].
    assert (Hne : id <> k) by congruence. unfold value_or. rewrite lookup_delete_ne by done.
    destruct (_ && _); [done |]. unfold queueAction. cbn [KeyOf]. rewrite Ek. by eapply enqueue_mirrors.
  - rewrite Hk. unfold value_or. rewrite lookup_delete_eq. destruct (negb _ && _) eqn:Hskip.
    + apply andb_true_iff in Hskip as [Hn%negb_true_iff%bool_decide_eq_false Hi%bool_decide_eq_true]. cbn in Hi.
      unfold mirrors. cbn [populate fifo_items]. rewrite Hi. by apply eq_None_not_Some.
    + destruct (clean_mirrors k (in_fifo s) (in_indexer s) Hq Hc) as [v Hv]. unfold queueAction. cbn [KeyOf]. rewrite Hk.
      apply (enqueue_mirrors k k _ (populate (in_fifo s)) (in_indexer s) v); [exact Hv | | by intros []]. intros _.
      by rewrite (live_result _ _ _ _ Hk Hobj), decide_True.
Qed.

(** What a list settles *)
Lemma relist_settles k items s U :
  k ∉ unsettled (Relist items) s U ->
  clean k (in_fifo s) = true /\ Forall (fine_at k) items /\
  (is_Some (fifo_items (in_fifo s) !! k) -> k ∈ omap object_key items \/ is_Some (in_indexer s !! k)).
Proof.
  unfold unsettled. rewrite !not_elem_of_union, elem_of_filter, elem_of_list_to_set, !elem_of_difference, elem_of_list_to_set, !elem_of_dom.
  intros ((Hc & Hf) & Hw). split_and!.
  - destruct (clean k (in_fifo s)) eqn:E; [done |]. destruct Hc. split; [done |]. unfold clean in E.
    by destruct (fifo_items (in_fifo s) !! k).
  - apply Forall_forall. intros o Ho Hk. destruct (convertible o) eqn:E; [by apply bool_decide_eq_true in E |].
    destruct Hf. apply list_elem_of_omap. exists o. split; [| done]. by apply list_elem_of_filter.
  - intros Hwait. destruct (decide (k ∈ omap object_key items)); [by left |]. right.
    destruct (decide (is_Some (in_indexer s !! k))); [done |]. destruct Hw. by split.
Qed.

(** A report of the server *)
Lemma reflect_mirrors k ev s m U :
  queue_ok (in_fifo s) -> (k ∉ U -> mirrors k (in_fifo s) (in_indexer s) (value_or None k m)) -> k ∉ unsettled ev s U ->
  mirrors k (in_fifo (reflect the_config order ev s)) (in_indexer (reflect the_config order ev s))
    (value_or None k (report objType ev m)).
Proof.
  intros Hq Hm HU. destruct ev as [items | o | o | o].
  - apply relist_settles in HU as (Hc & Hfine & Hwait). destruct (clean_mirrors k (in_fifo s) (in_indexer s) Hq Hc) as [v Hv].
    by apply (replace_mirrors k items _ _ v).
  - cbn [reflect report unsettled the_config cfg_ObjectType] in *. destruct (objType o); [| by apply Hm].
    by apply (event_mirrors k Added o (populate (in_fifo s)) _ m U (populate_ok _ Hq)).
  - cbn [reflect report unsettled the_config cfg_ObjectType] in *. destruct (objType o); [| by apply Hm].
    by apply (event_mirrors k Updated o (populate (in_fifo s)) _ m U (populate_ok _ Hq)).
  - cbn [reflect report unsettled the_config cfg_ObjectType] in *. destruct (objType o); [| by apply Hm].
    by apply (delete_mirrors k o s m U Hq).
Qed.

(** A turn of the queue *)
Lemma batch_other k id ds store :
  Forall (fun d => KeyOf (d_Object d) = Some id) ds -> id <> k ->
  (DefaultProcessor convert key ds store).2 !! k = store !! k.
Proof.
  intros Hds Hne. revert store. induction Hds as [|d ds Hd _ IH]; intros store; [done |].
  unfold DefaultProcessor. cbn [for_each]. unfold bind.
  assert (H1 : forall r s, process_delta convert key d store = (r, s) -> s !! k = store !! k).
  { unfold process_delta, lift, bind, modify. destruct d as [t [o | j]]; cbn in Hd.
    - assert (Hconv : forall obj, convert o = Ok obj -> key obj <> k).
      { intros obj E. apply convert_key in E. congruence. }
      destruct (convert o) as [obj | |] eqn:E.
      2-3: intros r s Er; destruct t; cbn in Er; rewrite E in Er; by injection Er as _ <-.
      specialize (Hconv obj eq_refl).
      destruct t; cbn; rewrite E; intros r s Er; injection Er as _ <-; by rewrite ?lookup_insert_ne, ?lookup_delete_ne.
    - injection Hd as ->. destruct t; cbn; intros r s Er; injection Er as _ <-; try done. by rewrite lookup_delete_ne. }
  destruct (process_delta convert key d store) as [[[] | e | y] s1] eqn:E; cbn; [| by eapply H1..].
  specialize (IH s1). unfold DefaultProcessor in IH. rewrite IH. by eapply H1.
Qed.

Lemma process_ok s s' : queue_ok (in_fifo s) -> processOne the_config s = Some (Ok tt, s') -> queue_ok (in_fifo s').
Proof.
  intros Hq. unfold processOne. destruct (fifo_queue (in_fifo s)) as [|id queue] eqn:Eq; [done |].
  destruct (queue_items _ Hq id) as [Hid _]. rewrite Eq in Hid. destruct Hid as [ds Hds]; [by left |]. rewrite Hds.
  destruct (attempt _ (in_indexer s)) as [r store]. intros [= _ <-].
  pose proof (queue_nodup _ Hq) as Hn. rewrite Eq in Hn. apply NoDup_cons in Hn as [Hnin Hn]. split; cbn; [| done |].
  - intros j. pose proof (queue_items _ Hq j) as Hj. rewrite Eq, elem_of_cons in Hj. destruct (decide (j = id)) as [-> | Hji].
    + rewrite lookup_delete_eq. split; [done | by intros []].
    + rewrite lookup_delete_ne by done. rewrite <- Hj. naive_solver.
  - intros j dj [_ Hj]%lookup_delete_Some. by apply (queue_keys _ Hq).
Qed.

Lemma process_mirrors k s s' v :
  queue_ok (in_fifo s) -> mirrors k (in_fifo s) (in_indexer s) v -> processOne the_config s = Some (Ok tt, s') ->
  mirrors k (in_fifo s') (in_indexer s') v.
Proof.
  intros Hq Hm. unfold processOne. destruct (fifo_queue (in_fifo s)) as [|id queue] eqn:Eq; [done |].
  destruct (queue_items _ Hq id) as [Hid _]. rewrite Eq in Hid. destruct Hid as [ds Hds]; [by left |]. rewrite Hds.
  destruct (queue_keys _ Hq id ds Hds) as [Hne Hkeys].
  destruct (attempt _ (in_indexer s)) as [r store] eqn:Ea. intros [= Hr <-]. unfold mirrors in *. cbn.
  destruct (decide (id = k)) as [-> | Hik].
  - rewrite lookup_delete_eq. rewrite Hds in Hm. destruct Hm as [Hgood Hlast].
    destruct (last ds) as [d|] eqn:El; [| done]. apply last_Some in El as [ds' ->]. cbn in Hlast.
    apply Forall_app in Hgood as [Hgood _].
    destruct (cache_follows convert key k ds' d v (in_indexer s) Hgood Hlast) as (store' & Hrun & Hk & _).
    unfold attempt in Ea. cbn in Ea. rewrite Hrun in Ea. injection Ea as _ <-. exact Hk.
  - rewrite lookup_delete_ne by done.
    assert (Hstore : store !! k = in_indexer s !! k).
    { rewrite <- (batch_other k id ds (in_indexer s) Hkeys Hik). unfold attempt in Ea. cbn in Ea.
      destruct (DefaultProcessor convert key ds (in_indexer s)) as [[] ?]; by injection Ea as _ <-. }
    by rewrite Hstore.
Qed.

Lemma new_queue_ok : queue_ok NewDeltaFIFO.
Proof.
  split; cbn.
  - intros k. rewrite lookup_empty. split; [by intros ?%not_elem_of_nil | by intros []].
  - apply NoDup_nil_2.
  - intros k ds. by rewrite lookup_empty.
Qed.

(** In every state of an informer, the cache mirrors what was reported of [k], once
    nothing waits for it and nothing about it is unsettled. *)
Lemma informer_mirrors Fine k t :
  reachable (informer_step Fine) (mkInformed (mkInformer NewDeltaFIFO ∅) ∅ ∅) t ->
  k ∉ if_unsettled t -> k ∉ fifo_queue (in_fifo (if_informer t)) -> in_indexer (if_informer t) !! k = if_reported t !! k ≫= converted.
Proof.
  intros Hr HU Hk.
  pose (I := fun t => queue_ok (in_fifo (if_informer t)) /\
    (k ∉ if_unsettled t -> mirrors k (in_fifo (if_informer t)) (in_indexer (if_informer t)) (value_or None k (if_reported t)))).
  assert (HI : I t).
  { revert Hr. apply reachable_invariant.
    - split; [exact new_queue_ok |]. intros _. unfold mirrors, value_or. cbn. by rewrite !lookup_empty.
    - intros t1 t2 [Hq Hm] Hs. destruct Hs as [ev s1 m1 U1 _ | s1 m1 U1 s' Hp]; cbn [if_informer if_reported if_unsettled] in *.
      + split; [by apply reflect_ok |]. intros HU1. by eapply reflect_mirrors.
      + split; [by eapply (process_ok s1 s') |]. intros HU1. by apply (process_mirrors k s1 s' _ Hq (Hm HU1) Hp). }
  destruct HI as [Hq Hm]. specialize (Hm HU). unfold mirrors in Hm.
  destruct (fifo_items _ !! k) as [ds|] eqn:E; [| by rewrite Hm; unfold value_or; destruct (if_reported t !! k)].
  destruct Hk. apply (queue_items _ Hq). by rewrite E.
Qed.

(** Where every object is convertible, no delta ever ends its batch. *)
Lemma clean_iff k f : clean k f = true <-> Forall (fun d => is_Some (delta_result convert key k d)) (default [] (fifo_items f !! k)).
Proof.
  unfold clean. rewrite <- Is_true_true, forallb_True. split; intros Hf; (eapply Forall_impl; [exact Hf |]); cbv beta; intros d;
    by rewrite bool_decide_spec.
Qed.

Lemma queueAction_clean t o f :
  (forall k, KeyOf o = Some k -> is_Some (delta_result convert key k (mkDelta t o))) ->
  (forall k, clean k f = true) -> forall k, clean k (queueAction t o f) = true.
Proof.
  intros Ho Hf k. unfold queueAction. destruct (KeyOf o) as [id|] eqn:Hk; [| apply Hf].
  rewrite clean_iff. unfold enqueue. cbn. destruct (decide (id = k)) as [-> | Hne]; [| rewrite lookup_insert_ne by done; by apply clean_iff].
  rewrite lookup_insert_eq. cbn. destruct (Ho k eq_refl) as [r Hr]. by apply (dedup_mirrors k _ _ r); [apply clean_iff |].
Qed.

Lemma live_clean t o f : convertible o = true -> (forall k, clean k f = true) -> forall k, clean k (queueAction t (Live o) f) = true.
Proof.
  intros [obj Hobj]%bool_decide_eq_true. apply queueAction_clean. intros k Hk. rewrite (live_result k t o obj Hk Hobj). by eexists.
Qed.

Lemma all_clean Fine t :
  (forall o, Fine o -> convertible o = true) ->
  reachable (informer_step Fine) (mkInformed (mkInformer NewDeltaFIFO ∅) ∅ ∅) t -> forall k, clean k (in_fifo (if_informer t)) = true.
Proof.
  intros Hfine Hr. revert Hr. apply (reachable_invariant _ (fun t => forall k, clean k (in_fifo (if_informer t)) = true)).
  { intros k. apply clean_iff. cbn. by rewrite lookup_empty. }
  intros t1 t2 Hc Hs. destruct Hs as [ev s m U Hev | s m U s' Hp]; cbn [if_informer] in *.
  - destruct ev as [items | o | o | o]; cbn [event_objects] in Hev; cbn; [| apply Forall_cons in Hev as [Ho%Hfine _]; destruct (objType o); [| done]..].
    + unfold fifo_Replace. set (f2 := foldl _ _ (filter _ _)). assert (H2 : forall k, clean k f2 = true).
      { unfold f2. apply (foldl_inv (fun f => forall k, clean k f = true)).
        - intros f g Hf. apply queueAction_clean; [| done]. intros k [= ->]. unfold delta_result. cbn. rewrite decide_True by done. by eexists.
        - clear f2. revert Hc. generalize (in_fifo s). induction Hev as [| o items Ho%Hfine _ IH]; intros f Hf; [done |].
          cbn [foldl]. by apply IH, live_clean. }
      by destruct (fifo_populated f2).
    + by apply live_clean.
    + by apply live_clean.
    + cbn. unfold fifo_Delete. destruct (object_key o); [| done]. destruct (_ && _); [done |]. by apply live_clean.
  - intros k. specialize (Hc k). rewrite clean_iff in *. unfold processOne in Hp. destruct (fifo_queue (in_fifo s)) as [|id queue]; [done |].
    destruct (fifo_items (in_fifo s) !! id) as [ds|] eqn:Eds; [| by injection Hp as <-]. destruct (attempt _ _) as [r store]. injection Hp as _ <-. cbn.
    destruct (decide (id = k)) as [-> | Hne]; [by rewrite lookup_delete_eq | by rewrite lookup_delete_ne].
Qed.

(** Then only a list can leave a key unsettled. *)
Lemma watch_settles Fine t ev :
  (forall o, Fine o -> convertible o = true) ->
  reachable (informer_step Fine) (mkInformed (mkInformer NewDeltaFIFO ∅) ∅ ∅) t ->
  Forall Fine (event_objects ev) -> (forall items, ev <> Relist items) ->
  unsettled ev (if_informer t) (if_unsettled t) ⊆ if_unsettled t.
Proof.
  intros Hfine Hr Hev Hno. pose proof (all_clean Fine t Hfine Hr) as Hc.
  assert (Hset : forall o, Fine o -> settle (settles o (in_fifo (if_informer t))) o (if_unsettled t) ⊆ if_unsettled t).
  { intros o Ho%Hfine. unfold settle, settles. destruct (object_key o) as [k|]; [| done]. rewrite Ho, Hc. set_solver. }
  destruct ev as [items | o | o | o]; [by destruct (Hno items) | ..]; apply Forall_cons in Hev as [Ho _];
    cbn; (destruct (objType o); [by apply Hset | done]).
Qed.

(** What is in the cache was reported at some time. *)
Definition live_fine (Fine : KObject -> Prop) (d : Delta) : Prop := forall o, d_Object d = Live o -> Fine o.

Definition entries_fine (Fine : KObject -> Prop) (store : gmap string O) : Prop :=
  forall k obj, store !! k = Some obj -> exists o, Fine o /\ object_key o = Some k /\ convert o = Ok obj.

Record all_fine (Fine : KObject -> Prop) (s : Informer O) : Prop := {
  fine_items k ds : fifo_items (in_fifo s) !! k = Some ds -> Forall (live_fine Fine) ds;
  fine_entries : entries_fine Fine (in_indexer s)
}.

Lemma enqueue_fine Fine id d f :
  (forall k ds, fifo_items f !! k = Some ds -> Forall (live_fine Fine) ds) -> live_fine Fine d ->
  forall k ds, fifo_items (enqueue id d f) !! k = Some ds -> Forall (live_fine Fine) ds.
Proof.
  intros Hf Hd k ds. unfold enqueue. cbn. rewrite lookup_insert_Some. intros [[<- <-] | [_ Hk]]; [| by eapply Hf].
  assert (Hds : Forall (live_fine Fine) (default [] (fifo_items f !! id))) by (destruct (fifo_items f !! id) eqn:E; [by eapply Hf | constructor]).
  unfold dedupDeltas. destruct (last _) as [b|] eqn:El; [| by apply Forall_singleton].
  apply last_Some in El as [ds' El]. rewrite El in *. apply Forall_app in Hds as [Hds' Hb].
  destruct (isDeletionDup d b) as [out|] eqn:Ed.
  - rewrite removelast_last. apply Forall_app_2; [done |]. apply isDeletionDup_cases in Ed as [[-> | ->] _]; [by apply Forall_singleton | done].
  - by apply Forall_app_2; [apply Forall_app_2 | apply Forall_singleton].
Qed.

Lemma queueAction_fine Fine t o f :
  (forall k ds, fifo_items f !! k = Some ds -> Forall (live_fine Fine) ds) -> live_fine Fine (mkDelta t o) ->
  forall k ds, fifo_items (queueAction t o f) !! k = Some ds -> Forall (live_fine Fine) ds.
Proof. intros Hf Hd. unfold queueAction. destruct (KeyOf o); [by apply enqueue_fine | done]. Qed.

Lemma foldl_fine {B} Fine (g : DeltaFIFO -> B -> DeltaFIFO) (xs : list B) f :
  (forall f x, x ∈ xs -> (forall k ds, fifo_items f !! k = Some ds -> Forall (live_fine Fine) ds) ->
     forall k ds, fifo_items (g f x) !! k = Some ds -> Forall (live_fine Fine) ds) ->
  (forall k ds, fifo_items f !! k = Some ds -> Forall (live_fine Fine) ds) ->
  forall k ds, fifo_items (foldl g f xs) !! k = Some ds -> Forall (live_fine Fine) ds.
Proof.
  revert f. induction xs as [|x xs IH]; intros f Hg Hf; [done |]. cbn [foldl]. apply IH.
  - intros f' y Hy. apply Hg. by right.
  - apply Hg; [by left | done].
Qed.

Lemma reflect_fine Fine ev s : Forall Fine (event_objects ev) -> all_fine Fine s -> all_fine Fine (reflect the_config order ev s).
Proof.
  intros Hev [Hi He]. assert (Hlive : forall t o, Fine o -> live_fine Fine (mkDelta t (Live o))) by (intros t o Ho o' [= <-]; done).
  destruct ev as [items | o | o | o]; cbn [event_objects] in Hev; cbn; repeat case_match; try done; (split; [| done]); cbn.
  - unfold fifo_Replace. set (f2 := foldl _ _ (filter _ _)).
    assert (H2 : forall k ds, fifo_items f2 !! k = Some ds -> Forall (live_fine Fine) ds).
    { unfold f2. apply foldl_fine; [intros f k _ Hf; by apply queueAction_fine |].
      apply foldl_fine; [| done]. intros f o Ho Hf. apply queueAction_fine; [done |]. apply Hlive. rewrite Forall_forall in Hev. auto. }
    by destruct (fifo_populated f2).
  - apply queueAction_fine; [done |]. apply Hlive. by apply Forall_cons in Hev as [? _].
  - apply queueAction_fine; [done |]. apply Hlive. by apply Forall_cons in Hev as [? _].
  - unfold fifo_Delete. repeat case_match; try done. apply queueAction_fine; [done |]. apply Hlive.
    by apply Forall_cons in Hev as [? _].
Qed.

Lemma processor_fine Fine ds store :
  Forall (live_fine Fine) ds -> entries_fine Fine store -> entries_fine Fine (DefaultProcessor convert key ds store).2.
Proof.
  intros Hds Hst. apply (preserves_for_each (entries_fine Fine) ds (process_delta convert key)); [| done].
  intros d Hd. rewrite Forall_forall in Hds. specialize (Hds d Hd). destruct d as [t [o | j]].
  - specialize (Hds o eq_refl).
    assert (Hput : preserves (entries_fine Fine)
      (let! obj := lift (convert o) in modify (fun store => <[key obj := obj]> store))).
    { intros st Hs. unfold bind, lift, modify. destruct (convert o) as [obj | |] eqn:E; [| done..]. cbn.
      intros k obj'. rewrite lookup_insert_Some. intros [[<- <-] | [_ Hk]]; [| by apply Hs].
      exists o. split_and!; [done | by apply convert_key | done]. }
    assert (Hdel : preserves (entries_fine Fine)
      (let! obj := lift (convert o) in modify (fun store => delete (key obj) store))).
    { intros st Hs. unfold bind, lift, modify. destruct (convert o) as [obj | |]; [| done..]. cbn.
      intros k obj' [_ Hk]%lookup_delete_Some. by apply Hs. }
    by destruct t.
  - intros st Hs. destruct t; cbn; try done. intros k obj' [_ Hk]%lookup_delete_Some. by apply Hs.
Qed.

Lemma process_fine Fine s r s' :
  processOne the_config s = Some (r, s') -> all_fine Fine s -> all_fine Fine s'.
Proof.
  unfold processOne. intros E [Hi He]. destruct (fifo_queue (in_fifo s)) as [|id queue]; [done |].
  destruct (fifo_items (in_fifo s) !! id) as [ds|] eqn:Eds; [| injection E as _ <-; by split].
  destruct (attempt _ (in_indexer s)) as [r0 store] eqn:Ea. injection E as _ <-. split; cbn.
  - intros k dk [_ Hk]%lookup_delete_Some. by eapply Hi.
  - assert (Hs : store = (DefaultProcessor convert key ds (in_indexer s)).2).
    { unfold attempt in Ea. cbn in Ea. destruct (DefaultProcessor convert key ds (in_indexer s)) as [[] ?]; by injection Ea as _ <-. }
    rewrite Hs. apply processor_fine; [by eapply Hi | done].
Qed.

Lemma informer_sound Fine t k obj :
  reachable (informer_step Fine) (mkInformed (mkInformer NewDeltaFIFO ∅) ∅ ∅) t -> in_indexer (if_informer t) !! k = Some obj ->
  exists o, Fine o /\ object_key o = Some k /\ convert o = Ok obj.
Proof.
  intros Hr Hk. assert (HI : all_fine Fine (if_informer t)).
  { revert Hr. apply (reachable_invariant _ (fun t => all_fine Fine (if_informer t))).
    - split; cbn; [intros j ds Hj | intros j obj' Hj]; by rewrite lookup_empty in Hj.
    - intros t1 t2 Ht Hs. destruct Hs as [ev s1 m1 U1 Hev | s1 m1 U1 s' Hp]; cbn [if_informer] in *;
        [by apply reflect_fine | by eapply process_fine]. }
  by apply (fine_entries _ _ HI).
Qed.
End mirror.
Arguments mkInformed {O}.
Arguments if_informer {O}.
Arguments if_reported {O}.
Arguments if_unsettled {O}.

(** An informer before its first report *)
Definition informer_start {O} (s : Informer O) : informed := mkInformed s ∅ ∅.

(** ** The caches of the scheduler *)

Section scheduler_caches.
Context (order : gset string -> list string) (order_perm : forall ks, order ks ≡ₚ elements ks).

Lemma ToPod_key o obj : ToPod o = Ok obj -> object_key o = Some (pod_key obj).
Proof. destruct o; [| done..]. by intros [= <-]. Qed.

Lemma ToNode_key o obj : ToNode o = Ok obj -> object_key o = Some (node_key obj).
Proof.
  destruct o as [| n | |]; [done | | done..]. intros [= <-]. unfold node_key, toHostPathNode, node_with_ready.
  by destruct (if IsHostPathNode n then _ else _).
Qed.

Lemma ToHostPathVolume_meta pv hpv : ToHostPathVolume pv = Ok hpv ->
  pv_name hpv = om_Name (cpv_meta pv) /\ pv_namespace hpv = om_Namespace (cpv_meta pv).
Proof. unfold ToHostPathVolume. intros E. repeat case_match; by simplify_eq. Qed.

Lemma ToHostPathVolume_total pv : is_Some (cpv_ClaimRef pv) -> is_Some (cpv_CSI pv) -> exists hpv, ToHostPathVolume pv = Ok hpv.
Proof.
  intros [claim Hc] [csi Hs]. unfold ToHostPathVolume. rewrite Hc, Hs. destruct (isHostPathPV pv); [| by eexists].
  case_match. by eexists.
Qed.

Lemma ToPV_Ok o hpv : ToPV o = Ok hpv ->
  exists pv, o = KPV pv /\ cpv_Phase pv = VolumeBound /\ ToHostPathVolume pv = Ok hpv.
Proof.
  destruct o as [| | pv |]; cbn; try done. unfold ToPersistentVolume, toPersistentVolume.
  destruct (decide _) as [| Hp]; [done |]. intros E. exists pv. split_and!; [done | | done].
  by destruct (decide (cpv_Phase pv = VolumeBound)).
Qed.

Lemma ToPV_key o hpv : ToPV o = Ok hpv -> object_key o = Some (pv_key hpv).
Proof.
  intros (pv & -> & _ & E)%ToPV_Ok. apply ToHostPathVolume_meta in E as [Hn Hns].
  unfold pv_key. by rewrite Hn, Hns.
Qed.

(** The steps of the three informers; [Fine]: the objects that the server reports *)
Definition pod_informer_step := informer_step ToPod pod_key is_pod order (fun o => is_pod o = true).
Definition node_informer_step := informer_step ToNode node_key is_node order (fun o => is_node o = true).
Definition pv_informer_step (Fine : CorePV -> Prop) :=
  informer_step ToPV pv_key is_pv order (fun o => exists pv, o = KPV pv /\ Fine pv).

(** C12: The scheduler's caches mirror the cluster, however the server's reports - lists
    after a broken watch included - and the turns of the queues interleave: while nothing
    waits for a key and the key is settled, the cache holds exactly the conversion of what
    was last reported of it, or nothing if it is not reported any more.  Of pods and nodes
    only a list can leave a key unsettled: one without the key that comes while the object
    waits in the queue and is not in the cache yet.  Of volumes also a report in a state
    other than bound does, until a bound one comes when no such report waits.  Whatever the volume cache holds was
    reported, bound, at some time. *)
Theorem caches_mirror_watch :
  (forall t, reachable pod_informer_step (informer_start NewPodInformer.1) t ->
     (forall k, k ∉ if_unsettled t -> k ∉ fifo_queue (in_fifo (if_informer t)) ->
        in_indexer (if_informer t) !! k = match if_reported t !! k with Some (KPod p) => Some (toPod p) | _ => None end) /\
     (forall ev, Forall (fun o => is_pod o = true) (event_objects ev) -> (forall items, ev <> Relist items) ->
        unsettled ToPod pod_key is_pod ev (if_informer t) (if_unsettled t) ⊆ if_unsettled t)) /\
  (forall t, reachable node_informer_step (informer_start NewNodeInformer.1) t ->
     (forall k, k ∉ if_unsettled t -> k ∉ fifo_queue (in_fifo (if_informer t)) ->
        in_indexer (if_informer t) !! k = match if_reported t !! k with Some (KNode n) => Some (toHostPathNode n) | _ => None end) /\
     (forall ev, Forall (fun o => is_node o = true) (event_objects ev) -> (forall items, ev <> Relist items) ->
        unsettled ToNode node_key is_node ev (if_informer t) (if_unsettled t) ⊆ if_unsettled t)) /\
  (forall Fine t k, reachable (pv_informer_step Fine) (informer_start NewPVInformer.1) t ->
     (k ∉ if_unsettled t -> k ∉ fifo_queue (in_fifo (if_informer t)) ->
        in_indexer (if_informer t) !! k = if_reported t !! k ≫= converted ToPV) /\
     (forall hpv, in_indexer (if_informer t) !! k = Some hpv ->
        exists pv, Fine pv /\ object_key (KPV pv) = Some k /\ cpv_Phase pv = VolumeBound /\ ToHostPathVolume pv = Ok hpv)).
Proof.
  assert (Hpod : forall o, is_pod o = true -> convertible ToPod o = true) by (by intros []).
  assert (Hnode : forall o, is_node o = true -> convertible ToNode o = true) by (by intros []).
  split_and!.
  - intros t Hr. split; [| intros ev; by apply (watch_settles ToPod pod_key is_pod order ToPod_key order_perm _ t ev Hpod)].
    intros k HU Hk. rewrite (informer_mirrors ToPod pod_key is_pod order ToPod_key order_perm _ k t Hr HU Hk).
    by destruct (if_reported t !! k) as [[] |].
  - intros t Hr. split; [| intros ev; by apply (watch_settles ToNode node_key is_node order ToNode_key order_perm _ t ev Hnode)].
    intros k HU Hk. rewrite (informer_mirrors ToNode node_key is_node order ToNode_key order_perm _ k t Hr HU Hk).
    by destruct (if_reported t !! k) as [[] |].
  - intros Fine t k Hr. split; [by apply (informer_mirrors ToPV pv_key is_pv order ToPV_key order_perm _ k t Hr) |].
    intros hpv Hh. destruct (informer_sound ToPV pv_key is_pv order ToPV_key _ t k hpv Hr Hh) as (o & (pv & -> & Hpv) & Ho & E).
    apply ToPV_Ok in E as (pv' & [= <-] & Hb & E). by exists pv.
Qed.

(** C20: What one turn of the volume informer does with the deltas that have gathered for
    a volume since its last turn: if the first one is of a volume that is not bound yet,
    the turn ends there and the later ones are lost - a volume that was created and
    bound before its turn is not in the cache, though nothing waits for it; if the first
    one is of a bound volume without a claim or a CSI source, as any other plugin's may
    be, the process panics. *)
Theorem volume_turn_cut_short t pv ds k queue s :
  object_key (KPV pv) = Some k ->
  fifo_queue (in_fifo s) = k :: queue -> fifo_items (in_fifo s) !! k = Some (mkDelta t (Live (KPV pv)) :: ds) ->
  (cpv_Phase pv <> VolumeBound -> exists s', processOne NewPVInformer.2 s = Some (Ok tt, s') /\
     in_indexer s' = in_indexer s /\ fifo_queue (in_fifo s') = queue /\ fifo_items (in_fifo s') !! k = None) /\
  (cpv_Phase pv = VolumeBound -> cpv_ClaimRef pv = None \/ cpv_CSI pv = None ->
     exists y s', processOne NewPVInformer.2 s = Some (Panic y, s')).
Proof.
  intros Hk Hq Hi. unfold processOne. rewrite Hq, Hi. cbn [NewPVInformer NewIndexerInformer snd cfg_Process].
  assert (Hrun : forall r st, process_delta ToPV pv_key (mkDelta t (Live (KPV pv))) (in_indexer s) = (r, st) ->
    (forall u, r <> Ok u) ->
    attempt (DefaultProcessor ToPV pv_key (mkDelta t (Live (KPV pv)) :: ds)) (in_indexer s) =
      (match r with Ok u => Ok (inl u) | Fail e => Ok (inr e) | Panic y => Panic y end, st)).
  { intros r st Er Hr. unfold attempt, DefaultProcessor. cbn [for_each]. unfold bind. rewrite Er.
    destruct r as [u | |]; [by destruct (Hr u) | done..]. }
  split.
  - intros Hp. rewrite (Hrun (Fail (Errorf ("persistentVolume " +:+ om_Name (cpv_meta pv) +:+ " is not bound,skip"))) (in_indexer s)).
    + eexists. split; [done |]. split_and!; [done | done |]. cbn. apply lookup_delete_eq.
    + unfold process_delta, bind, lift, ToPV, ToPersistentVolume. cbn. rewrite decide_True by done. by destruct t.
    + done.
  - intros Hb Hnil. rewrite (Hrun (Panic "invalid memory address or nil pointer dereference") (in_indexer s)).
    + by eexists _, _.
    + unfold process_delta, bind, lift, ToPV, ToPersistentVolume, toPersistentVolume, ToHostPathVolume. cbn.
      rewrite decide_False by (by intros Hn; destruct Hn). by destruct Hnil as [-> | ->]; destruct t, (cpv_ClaimRef pv).
    + done.
Qed.
End scheduler_caches.

(** ** Runs *)

Definition the_volume : CorePV := core_pv "pvc-1" "c1" "" 1000.
Definition pending_volume : CorePV := mkCorePV (cpv_meta the_volume) None (cpv_CSI the_volume) 1000 VolumePending.

(** A list with the volume, and the turn that takes it up. *)
Definition pv_listed : Informer PersistentVolume := reflect NewPVInformer.2 elements (Relist [KPV the_volume]) NewPVInformer.1.
Definition after_turn {O} (cfg : cache_Config O) (s : Informer O) : Informer O :=
  match processOne cfg s with Some (_, s') => s' | None => s end.
Definition pv_taken : Informer PersistentVolume := after_turn NewPVInformer.2 pv_listed.

Definition one_volume (pv : CorePV) : Prop := pv = the_volume \/ pv = pending_volume.

(** The volume is reported before it is bound, and taken up; the bound state settles it. *)
Definition pv_seen_pending : Informer PersistentVolume :=
  after_turn NewPVInformer.2 (reflect NewPVInformer.2 elements (WatchAdded (KPV pending_volume)) NewPVInformer.1).
Definition pv_seen_bound : Informer PersistentVolume :=
  reflect NewPVInformer.2 elements (WatchModified (KPV the_volume)) pv_seen_pending.
Definition pv_settled : Informer PersistentVolume := after_turn NewPVInformer.2 pv_seen_bound.
Definition pv_run_end : informed := mkInformed pv_settled {[ "pvc-1" := KPV the_volume ]} ∅.

Lemma pv_run_reached : reachable (pv_informer_step elements one_volume) (informer_start NewPVInformer.1) pv_run_end.
Proof.
  eapply reachable_next; [eapply reachable_next; [eapply reachable_next; [apply reachable_one |] |] |].
  - apply (inf_report ToPV pv_key is_pv elements _ (WatchAdded (KPV pending_volume)) NewPVInformer.1 ∅ ∅).
    apply Forall_singleton. exists pending_volume. split; [done | by right].
  - apply (inf_process ToPV pv_key is_pv elements _ _ _ _ pv_seen_pending). vm_compute. reflexivity.
  - apply (inf_report ToPV pv_key is_pv elements _ (WatchModified (KPV the_volume)) pv_seen_pending).
    apply Forall_singleton. exists the_volume. split; [done | by left].
  - assert (Hm : report is_pv (WatchModified (KPV the_volume)) (report is_pv (WatchAdded (KPV pending_volume)) ∅) =
      {[ "pvc-1" := KPV the_volume ]}) by by vm_compute.
    assert (HU : unsettled ToPV pv_key is_pv (WatchModified (KPV the_volume)) pv_seen_pending
      (unsettled ToPV pv_key is_pv (WatchAdded (KPV pending_volume)) NewPVInformer.1 ∅) = ∅) by by vm_compute.
    rewrite Hm, HU. apply (inf_process ToPV pv_key is_pv elements _ _ _ _ pv_settled). vm_compute. reflexivity.
Qed.

Lemma caches_mirror_watch_witness :
  HasSynced (in_fifo pv_listed) = false /\ HasSynced (in_fifo pv_taken) = true /\
  "pvc-1" ∈ unsettled ToPV pv_key is_pv (WatchAdded (KPV pending_volume)) NewPVInformer.1 ∅ /\
  in_indexer pv_seen_pending = ∅ /\ in_indexer pv_settled !! "pvc-1" = converted ToPV (KPV the_volume).
Proof.
  split; [done |]. split; [done |]. split; [by vm_compute |]. split; [by vm_compute |].
  destruct (caches_mirror_watch elements (fun ks => reflexivity (elements ks))) as (_ & _ & Hpv).
  destruct (Hpv one_volume pv_run_end "pvc-1" pv_run_reached) as [Hm _].
  apply Hm; [exact (not_elem_of_empty "pvc-1") | exact (not_elem_of_nil "pvc-1")].
Defined.

(** What a list overlooks: a pod that waits in the queue, is not in the cache and is gone
    from the server is taken up all the same and stays. *)
Definition the_pod : CorePod := mkCorePod (sim_meta "p1" "default" ∅) [Some "c1"].
Definition pod_waits : Informer Pod := reflect NewPodInformer.2 elements (WatchAdded (KPod the_pod)) NewPodInformer.1.
Definition pod_overlooked : Informer Pod := reflect NewPodInformer.2 elements (Relist []) pod_waits.

Example list_overlooks_waiting :
  if_reported (mkInformed pod_overlooked (report is_pod (Relist []) {[ "default/p1" := KPod the_pod ]}) ∅) = ∅ /\
  in_indexer (after_turn NewPodInformer.2 pod_overlooked) !! "default/p1" = Some (toPod the_pod) /\
  fifo_queue (in_fifo (after_turn NewPodInformer.2 pod_overlooked)) = [] /\
  unsettled ToPod pod_key is_pod (Relist []) pod_waits ∅ = {[ "default/p1" ]}.
Proof. by vm_compute. Qed.

(** The volume is created and bound before the turn. *)
Definition pv_bound_early : Informer PersistentVolume :=
  reflect NewPVInformer.2 elements (WatchModified (KPV the_volume))
    (reflect NewPVInformer.2 elements (WatchAdded (KPV pending_volume)) NewPVInformer.1).

Lemma volume_turn_cut_short_witness :
  exists s', processOne NewPVInformer.2 pv_bound_early = Some (Ok tt, s') /\
    in_indexer s' = ∅ /\ fifo_queue (in_fifo s') = [] /\ fifo_items (in_fifo s') !! "pvc-1" = None.
Proof.
  destruct (volume_turn_cut_short Added pending_volume [mkDelta Updated (Live (KPV the_volume))] "pvc-1" [] pv_bound_early)
    as [Hlost _]; [done | done | by vm_compute |].
  by apply Hlost.
Defined.
