(* ===== verification/Predicate.v ===== *)
(** * Filtering nodes: pkg/extender-scheduler/scheduler/predicate

    A node is suitable for a pod when the volumes of the pod that are bound to a
    node are bound to this one, and the capacities of the others can be placed on
    its disks. *)

From S2P Require Import Prelude GoStrings VolId Os HostPathApi Base64 Json Annotations HostPathClient.
From S2P Require Import HostPathController.
Open Scope Z_scope.
Open Scope go_scope.

(** ** hostpathpv_disk_pressure.go *)

Definition with_allocatable (a : Z) (d : DiskInfo) : DiskInfo :=
  mkDiskInfo (di_MountPoint d) (di_Capacity d) (di_QuotaSize d) (di_Used d) a (di_Disabled d).

(** The loop of [canNodeMatch]; it returns the final [ir]. *)
Fixpoint match_loop (fuel : nat) (requestList : list Z) (haveNow : list DiskInfo) (ir ih : nat) : option nat :=
  match fuel with
  | O => None
  | S fuel =>
      match requestList !! ir, haveNow !! ih with
      | Some r, Some d =>
          if r <=? di_Allocatable d
          then match_loop fuel requestList (<[ih := with_allocatable (i64 (di_Allocatable d - r)) d]> haveNow) (S ir) ih
          else match_loop fuel requestList haveNow ir (S ih)
      | _, _ => Some ir
      end
  end.

(** Every turn of the loop advances one of the two indices. *)
Definition match_fuel (requestList : list Z) (haveNow : list DiskInfo) : nat :=
  S (length requestList + length haveNow).

Definition canNodeMatch (requestList : list Z) (haveNow : list DiskInfo) : bool :=
  let requestList := sort_by Z.gtb requestList in
  match match_loop (match_fuel requestList haveNow) requestList haveNow 0 0 with
  | Some ir => (length requestList <=? ir)%nat
  | None => false
  end.

Section filter.
Context {W : Type} `{HostPathController W}.

(** The loop over the volumes of the pod: the requests and their sum, or [None] when
    the node is ruled out. *)
Fixpoint volume_requests (namespace : string) (hpNode : Node) (volumes : list (option string))
    (requests : list Z) (size : Z) : M W (option (list Z * Z)) :=
  match volumes with
  | [] => ret (Some (requests, size))
  | None :: volumes' => volume_requests namespace hpNode volumes' requests size
  | Some claimName :: volumes' =>
      let! pv := GetPersistentVolumeByClaim claimName namespace in
      match pv with
      | None => ret None
      | Some pv =>
          if negb (pv_isHostPathPv pv) then volume_requests namespace hpNode volumes' requests size
          else if negb (nd_hostPathNode hpNode) then ret None
          else if go_len (pv_bindNode pv) >? 0 then
            if decide (pv_bindNode pv <> nd_name hpNode) then ret None
            else volume_requests namespace hpNode volumes' requests size
          else
            volume_requests namespace hpNode volumes' (requests ++ [pv_capacity pv]) (i64 (size + pv_capacity pv))
      end
  end.

Definition FilterNode (pod : CorePod) (node : CoreNode) : M W bool :=
  let hpNode := ToHostPathNode node in
  let! r := volume_requests (om_Namespace (cpod_meta pod)) hpNode (cpod_claims pod) [] 0 in
  match r with
  | None => ret false
  | Some (requests, size) =>
      if (size =? 0) || (Z.of_nat (length requests) =? 0) then ret true
      else ret (canNodeMatch requests (nu_DiskStatus (nd_diskUsage hpNode)))
  end.

(** ** predicate.go *)

(** What the scheduler sends; a missing field is [None]. *)
Record ExtenderArgs := mkExtenderArgs { ea_Pod : option CorePod; ea_Nodes : option (list CoreNode) }.
Record ExtenderFilterResult := mkFilterResult {
  fr_Nodes : option (list CoreNode);
  fr_FailedNodes : option (gmap string string);
  fr_Error : string
}.

Definition nil_pointer : string := "invalid memory address or nil pointer dereference".

(** The loop of [Handler], over the nodes, for the predicate [filter]. *)
Fixpoint filter_nodes (filter : CoreNode -> M W bool) (nodes : list CoreNode)
    (canSchedule : list CoreNode) (canNotSchedule : gmap string string) : M W (list CoreNode * gmap string string) :=
  match nodes with
  | [] => ret (canSchedule, canNotSchedule)
  | node :: nodes' =>
      let! r := attempt (filter node) in
      match r with
      | inr err => filter_nodes filter nodes' canSchedule (<[om_Name (cn_meta node) := error_text err]> canNotSchedule)
      | inl true => filter_nodes filter nodes' (canSchedule ++ [node]) canNotSchedule
      | inl false => filter_nodes filter nodes' canSchedule canNotSchedule
      end
  end.

Definition filter_pod (pod : option CorePod) (node : CoreNode) : M W bool :=
  match pod with Some pod => FilterNode pod node | None => panic nil_pointer end.

Definition predicate_Handler (args : ExtenderArgs) : M W ExtenderFilterResult :=
  match ea_Nodes args with
  | None => panic nil_pointer
  | Some nodes =>
      let! '(canSchedule, canNotSchedule) := filter_nodes (filter_pod (ea_Pod args)) nodes [] ∅ in
      ret (mkFilterResult (Some canSchedule) (Some canNotSchedule) "")
  end.
End filter.

(** ** The match of requests and disks *)

(** The requests can be split among the disks, within what each has left. *)
Definition fits (requests : list Z) (disks : list DiskInfo) : Prop :=
  exists parts : list (list Z), concat parts ≡ₚ requests /\
    Forall2 (fun p d => p = [] \/ foldr Z.add 0 p <= di_Allocatable d) parts disks.

Lemma match_loop_total fuel requests : forall disks ir ih,
  ((length requests - ir) + (length disks - ih) < fuel)%nat -> is_Some (match_loop fuel requests disks ir ih).
Proof.
  induction fuel as [|fuel IH]; intros disks ir ih Hf; [lia |]. cbn [match_loop].
  destruct (requests !! ir) as [r|] eqn:Hr; [| by eexists]. destruct (disks !! ih) as [d|] eqn:Hd; [| by eexists].
  apply lookup_lt_Some in Hr, Hd. destruct (r <=? _); apply IH; rewrite ?length_insert; lia.
Qed.

Definition disk_range (d : DiskInfo) : Prop := in_i64 (di_Allocatable d).

(** What the loop has placed so far: [parts] of the first [ir] requests on the disks
    [disks0], which leaves [disks]. *)
Definition placed_on (requests : list Z) (ir : nat) (parts : list (list Z)) (disks0 disks : list DiskInfo) : Prop :=
  concat parts ≡ₚ take ir requests /\ length parts = length disks0 /\ length disks = length disks0 /\
  forall i p d0, parts !! i = Some p -> disks0 !! i = Some d0 ->
    exists d, disks !! i = Some d /\ di_Allocatable d = di_Allocatable d0 - foldr Z.add 0 p /\
      (p = [] \/ 0 <= di_Allocatable d) /\ disk_range d.

Lemma concat_insert (parts : list (list Z)) i p r :
  parts !! i = Some p -> concat (<[i := r :: p]> parts) ≡ₚ r :: concat parts.
Proof.
  revert i. induction parts as [|q parts IH]; intros [|i]; [done | done | |]; cbn.
  - by intros [= ->].
  - intros Hp. rewrite (IH i Hp). by rewrite Permutation_middle.
Qed.

Lemma place_request requests ir ih parts disks0 disks r d :
  placed_on requests ir parts disks0 disks -> requests !! ir = Some r -> disks !! ih = Some d ->
  0 <= r -> r <= di_Allocatable d ->
  exists parts', placed_on requests (S ir) parts' disks0 (<[ih := with_allocatable (i64 (di_Allocatable d - r)) d]> disks).
Proof.
  intros (Hc & Hlp & Hld & Hdisks) Hr Hd H0 Hle.
  pose proof (lookup_lt_Some _ _ _ Hd) as Hih. rewrite Hld in Hih.
  destruct (lookup_lt_is_Some_2 parts ih) as [p Hp]; [lia |].
  destruct (lookup_lt_is_Some_2 disks0 ih) as [d0 Hd0]; [lia |].
  destruct (Hdisks ih p d0 Hp Hd0) as (d' & Hd' & Ha & Hpos & Hrange). rewrite Hd in Hd'. injection Hd' as <-.
  unfold disk_range in Hrange.
  assert (Hi : i64 (di_Allocatable d - r) = di_Allocatable d - r) by (apply i64_small; unfold in_i64 in *; lia).
  exists (<[ih := r :: p]> parts). split; [| split; [| split]].
  - rewrite (concat_insert _ _ _ _ Hp), (take_S_r _ _ _ Hr), Hc. by rewrite Permutation_app_comm.
  - by rewrite length_insert.
  - by rewrite length_insert.
  - intros i q e Hq He. destruct (decide (i = ih)) as [-> | Hne].
    + rewrite list_lookup_insert_eq in Hq by lia. injection Hq as <-. rewrite Hd0 in He. injection He as <-.
      eexists. rewrite list_lookup_insert_eq by lia. split; [done |]. unfold disk_range. cbn. rewrite Hi.
      split; [lia |]. split; [right; lia |]. unfold in_i64 in *. lia.
    + rewrite list_lookup_insert_ne in Hq by done.
      destruct (Hdisks i q e Hq He) as (d1 & Hd1 & H1). exists d1. by rewrite list_lookup_insert_ne.
Qed.

Lemma match_loop_places requests fuel : forall disks0 disks ir ih parts k,
  Forall (fun r => 0 <= r) requests -> placed_on requests ir parts disks0 disks ->
  match_loop fuel requests disks ir ih = Some k ->
  exists parts' disks', placed_on requests k parts' disks0 disks'.
Proof.
  induction fuel as [|fuel IH]; intros disks0 disks ir ih parts k Hpos Hpl; [done |]. cbn [match_loop].
  destruct (requests !! ir) as [r|] eqn:Hr; [| intros [= <-]; by eexists _, _].
  destruct (disks !! ih) as [d|] eqn:Hd; [| intros [= <-]; by eexists _, _].
  destruct (Z.leb_spec r (di_Allocatable d)) as [Hle | _].
  - assert (H0 : 0 <= r) by (by apply (Forall_lookup_1 _ _ _ _ Hpos Hr)).
    destruct (place_request _ _ _ _ _ _ _ _ Hpl Hr Hd H0 Hle) as [parts' Hpl']. by apply IH with (parts := parts').
  - by apply IH with (parts := parts).
Qed.

Lemma placed_nothing requests disks : Forall disk_range disks ->
  placed_on requests 0 (replicate (length disks) []) disks disks.
Proof.
  intros Hr. split; [| split; [by rewrite length_replicate | split; [done |]]].
  - rewrite take_0. induction (length disks) as [|n IH]; [done | exact IH].
  - intros i p d0 Hp Hd. apply lookup_replicate in Hp as [-> _]. exists d0. split; [done |]. cbn.
    split; [lia |]. split; [by left | by apply (Forall_lookup_1 _ _ _ _ Hr Hd)].
Qed.

Lemma placed_fits requests ir parts disks0 disks :
  placed_on requests ir parts disks0 disks -> (length requests <= ir)%nat -> fits requests disks0.
Proof.
  intros (Hc & Hlp & _ & Hdisks) Hir. rewrite take_ge in Hc by done. exists parts. split; [done |].
  apply Forall2_same_length_lookup. split; [done |]. intros i p d0 Hp Hd0.
  destruct (Hdisks i p d0 Hp Hd0) as (d & _ & Ha & [-> | Hpos] & _); [by left | right; lia].
Qed.

Lemma canNodeMatch_run requests disks :
  exists k, match_loop (match_fuel requests disks) (sort_by Z.gtb requests) disks 0 0 = Some k /\
    canNodeMatch requests disks = (length requests <=? k)%nat.
Proof.
  pose proof (Permutation_length (sort_by_perm Z.gtb requests)) as Hlen.
  destruct (match_loop_total (match_fuel requests disks) (sort_by Z.gtb requests) disks 0 0) as [k Hk].
  { unfold match_fuel. lia. }
  exists k. split; [done |]. unfold canNodeMatch.
  assert (E : match_fuel (sort_by Z.gtb requests) disks = match_fuel requests disks) by (unfold match_fuel; by rewrite Hlen).
  by rewrite E, Hk, Hlen.
Qed.

Lemma canNodeMatch_fits requests disks :
  Forall (fun r => 0 <= r) requests -> Forall disk_range disks ->
  canNodeMatch requests disks = true -> fits requests disks.
Proof.
  intros Hpos Hrange. destruct (canNodeMatch_run requests disks) as (k & Hk & ->). intros Hle%Nat.leb_le.
  assert (Hpos' : Forall (fun r => 0 <= r) (sort_by Z.gtb requests)) by (by rewrite sort_by_perm).
  destruct (match_loop_places _ _ _ _ _ _ _ _ Hpos' (placed_nothing _ _ Hrange) Hk) as (parts & disks' & Hpl).
  rewrite <- (Permutation_length (sort_by_perm Z.gtb requests)) in Hle.
  destruct (placed_fits _ _ _ _ _ Hpl Hle) as (parts' & Hc & Hf). exists parts'. split; [| done].
  by rewrite Hc, sort_by_perm.
Qed.

Lemma match_loop_one fuel r : forall disks ih,
  (length disks - ih < fuel)%nat -> (ih <= length disks)%nat ->
  exists k, match_loop (S fuel) [r] disks 0 ih = Some k /\
    (k = 1%nat <-> exists i d, (ih <= i)%nat /\ disks !! i = Some d /\ r <= di_Allocatable d) /\ (k <= 1)%nat.
Proof.
  induction fuel as [|fuel IH]; intros disks ih Hf Hih; [lia |].
  change (match_loop (S (S fuel)) [r] disks 0 ih) with
    (match disks !! ih with
     | Some d => if r <=? di_Allocatable d
                 then match_loop (S fuel) [r] (<[ih := with_allocatable (i64 (di_Allocatable d - r)) d]> disks) 1 ih
                 else match_loop (S fuel) [r] disks 0 (S ih)
     | None => Some 0%nat
     end).
  destruct (disks !! ih) as [d|] eqn:Hd.
  - destruct (Z.leb_spec r (di_Allocatable d)) as [Hle | Hgt].
    + exists 1%nat. split; [done |]. split; [| done]. split; [| done]. intros _. by exists ih, d.
    + destruct (IH disks (S ih)) as (k & Hk & Hiff & Hk1).
      { apply lookup_lt_Some in Hd. lia. }
      { apply lookup_lt_Some in Hd. lia. }
      exists k. split; [done |]. split; [| done]. rewrite Hiff. split.
      * intros (i & e & Hi & He & Hr). exists i, e. split; [lia | done].
      * intros (i & e & Hi & He & Hr). exists i, e. split; [| done].
        destruct (decide (i = ih)) as [-> |]; [| lia]. rewrite Hd in He. injection He as <-. lia.
  - exists 0%nat. split; [done |]. split; [| lia]. split; [done |].
    intros (i & e & Hi & He & _). apply lookup_ge_None in Hd. apply lookup_lt_Some in He. lia.
Qed.

(** the match of a pod's requests and a node's disks is sound: when it succeeds,
    the requests can be split among the disks so that none gets more than it can
    still allocate; for a single request it succeeds exactly when some disk has room
    for it. *)
Theorem canNodeMatch_spec requests disks :
  Forall (fun r => 0 <= r) requests -> Forall disk_range disks ->
  (canNodeMatch requests disks = true -> fits requests disks) /\
  (forall r, requests = [r] -> canNodeMatch requests disks = true <-> Exists (fun d => r <= di_Allocatable d) disks).
Proof.
  intros Hpos Hrange. split; [by apply canNodeMatch_fits |].
  intros r ->. unfold canNodeMatch. change (sort_by Z.gtb [r]) with [r].
  destruct (match_loop_one (S (length disks)) r disks 0) as (k & Hk & Hiff & Hk1); [lia | lia |].
  unfold match_fuel. change (length [r] + length disks)%nat with (S (length disks)). rewrite Hk, Nat.leb_le.
  rewrite Exists_exists. change (length [r]) with 1%nat. split.
  - intros Hle. destruct (proj1 Hiff) as (i & d & _ & Hd & Hr); [lia |].
    exists d. split; [by apply (list_elem_of_lookup_2 _ i) | done].
  - intros (d & Hin & Hr). apply list_elem_of_lookup_1 in Hin as [i Hd].
    assert (k = 1%nat) as ->; [| done]. apply Hiff. exists i, d. split; [lia | done].
Qed.

(** ** The loop and next fit *)

Lemma match_loop_more fuel requests : forall disks ir ih k fuel',
  match_loop fuel requests disks ir ih = Some k -> (fuel <= fuel')%nat -> match_loop fuel' requests disks ir ih = Some k.
Proof.
  induction fuel as [|fuel IH]; intros disks ir ih k [|fuel'] Hk Hle; [done | done | lia |]. cbn [match_loop] in *.
  destruct (requests !! ir); [| done]. destruct (disks !! ih); [| done].
  destruct (_ <=? _); apply IH; (done || lia).
Qed.

(** C39: The loop of [canNodeMatch] ends: from the beginning it needs at most one turn
    per request and one per disk, and the result does not depend on any further turns
    that it would be allowed. *)
Theorem match_loop_terminates requests disks fuel :
  (match_fuel requests disks <= fuel)%nat ->
  exists k, (k <= length requests)%nat /\ match_loop fuel requests disks 0 0 = Some k /\
    match_loop (match_fuel requests disks) requests disks 0 0 = Some k.
Proof.
  intros Hf. destruct (match_loop_total (match_fuel requests disks) requests disks 0 0) as [k Hk]; [unfold match_fuel; lia |].
  exists k. split; [| split; [by eapply match_loop_more | done]].
  assert (Hgen : forall fuel disks ir ih k, (ir <= length requests)%nat ->
    match_loop fuel requests disks ir ih = Some k -> (k <= length requests)%nat).
  { clear. induction fuel as [|fuel IH]; intros disks ir ih k Hir; [done |]. cbn [match_loop].
    destruct (requests !! ir) as [r|] eqn:Hr; [| by intros [= <-]]. apply lookup_lt_Some in Hr.
    destruct (disks !! ih); [| intros [= <-]; lia]. destruct (_ <=? _); apply IH; lia. }
  by apply (Hgen (match_fuel requests disks) disks 0%nat 0%nat); [lia |].
Qed.

Lemma match_loop_terminates_witness :
  exists k, (k <= 2)%nat /\ match_loop 100 [5; 7] [no_disk_info; no_disk_info] 0 0 = Some k /\
    match_loop (match_fuel [5; 7] [no_disk_info; no_disk_info]) [5; 7] [no_disk_info; no_disk_info] 0 0 = Some k.
Proof. apply (match_loop_terminates [5; 7] [no_disk_info; no_disk_info] 100). vm_compute. lia. Defined.

(** The requests left over when a disk with this much room takes as many as it can,
    from the front. *)
Fixpoint fill (room : Z) (requests : list Z) : list Z :=
  match requests with
  | [] => []
  | r :: requests' => if r <=? room then fill (room - r) requests' else requests
  end.

(** Next fit: one disk after the other. *)
Definition next_fit (requests rooms : list Z) : list Z := foldl (fun rest room => fill room rest) requests rooms.

Lemma next_fit_nil rooms : next_fit [] rooms = [].
Proof. induction rooms; [done |]. exact IHrooms. Qed.

Lemma match_loop_next_fit fuel requests : forall disks ir ih k,
  Forall (Z.le 0) requests -> Forall disk_range disks -> (ir <= length requests)%nat ->
  match_loop fuel requests disks ir ih = Some k ->
  (length (next_fit (drop ir requests) (map di_Allocatable (drop ih disks))) + k = length requests)%nat.
Proof.
  induction fuel as [|fuel IH]; intros disks ir ih k Hpos Hrange Hir; [done |]. cbn [match_loop].
  destruct (requests !! ir) as [r|] eqn:Hr.
  2: { intros [= <-]. apply lookup_ge_None in Hr. rewrite drop_ge by done. rewrite next_fit_nil. cbn. lia. }
  destruct (disks !! ih) as [d|] eqn:Hd.
  2: { intros [= <-]. apply lookup_ge_None in Hd. rewrite (drop_ge disks) by done. cbn. rewrite length_drop. lia. }
  pose proof (lookup_lt_Some _ _ _ Hr) as Hirlt. pose proof (lookup_lt_Some _ _ _ Hd) as Hih.
  rewrite (drop_S _ _ _ Hr), (drop_S _ _ _ Hd). cbn [map]. unfold next_fit. cbn [foldl fill].
  destruct (Z.leb_spec r (di_Allocatable d)) as [Hle | Hgt].
  - assert (H0 : 0 <= r) by (by apply (Forall_lookup_1 _ _ _ _ Hpos Hr)).
    assert (Hdr : in_i64 (di_Allocatable d)) by (by apply (Forall_lookup_1 _ _ _ _ Hrange Hd)).
    assert (Hi : i64 (di_Allocatable d - r) = di_Allocatable d - r) by (apply i64_small; unfold in_i64 in *; lia).
    rewrite Hi. intros Hk. apply IH in Hk; [| done | | lia].
    2: { apply Forall_insert; [done |]. unfold disk_range, in_i64 in *. cbn. lia. }
    rewrite (drop_S (<[ih := _]> disks) (with_allocatable (di_Allocatable d - r) d)) in Hk
      by (by rewrite list_lookup_insert_eq).
    rewrite drop_insert_lt in Hk by lia. exact Hk.
  - intros Hk. apply IH in Hk; [| done | done | done].
    rewrite (drop_S _ _ _ Hr) in Hk. exact Hk.
Qed.

(** C24: The loop over two indices, which writes what is left into the disks, is the
    textbook algorithm next fit decreasing: [canNodeMatch] succeeds exactly when
    filling one disk after the other, each with as many of the remaining requests as
    fit, from the largest on, leaves no request over. *)
Theorem canNodeMatch_next_fit requests disks :
  Forall (Z.le 0) requests -> Forall disk_range disks ->
  canNodeMatch requests disks = true <-> next_fit (sort_by Z.gtb requests) (map di_Allocatable disks) = [].
Proof.
  intros Hpos Hrange. destruct (canNodeMatch_run requests disks) as (k & Hk & ->).
  pose proof (Permutation_length (sort_by_perm Z.gtb requests)) as Hlen.
  apply match_loop_next_fit in Hk; [| by rewrite sort_by_perm | done | lia]. rewrite !drop_0, Hlen in Hk.
  rewrite Nat.leb_le. rewrite <- length_zero_iff_nil. lia.
Qed.

Lemma canNodeMatch_next_fit_witness :
  next_fit (sort_by Z.gtb [3; 9; 4]) [10; 7] = [] /\
  (canNodeMatch [3; 9; 4] (map (with_allocatable 10) [no_disk_info] ++ map (with_allocatable 7) [no_disk_info]) = true <->
   next_fit (sort_by Z.gtb [3; 9; 4]) [10; 7] = []).
Proof.
  split; [reflexivity |].
  apply (canNodeMatch_next_fit [3; 9; 4] (map (with_allocatable 10) [no_disk_info] ++ map (with_allocatable 7) [no_disk_info])).
  - repeat constructor; discriminate.
  - repeat constructor; cbn; discriminate.
Defined.

Definition disk_with (mountPoint : string) (allocatable : Z) (disabled : bool) : DiskInfo :=
  mkDiskInfo mountPoint 100 0 0 allocatable disabled.

(** the match is not complete, because the loop never comes back to a disk it has
    passed: requests of 10, 6 and 5 fit on disks with 15 and 6 left, but are
    refused.  It counts disabled disks in, on which nothing is placed. *)
Theorem canNodeMatch_incomplete :
  (fits [10; 6; 5] [disk_with "/d1" 15 false; disk_with "/d2" 6 false] /\
   canNodeMatch [10; 6; 5] [disk_with "/d1" 15 false; disk_with "/d2" 6 false] = false) /\
  canNodeMatch [10] [disk_with "/d1" 15 true] = true.
Proof.
  split; [split |]; [| by vm_compute | by vm_compute].
  exists [[10; 5]; [6]]. split; [cbn; apply Permutation_skip, Permutation_swap |].
  constructor; [right; cbn; lia |]. constructor; [right; cbn; lia | constructor].
Qed.

(** ** Filtering *)

Section filter_proofs.
Context {W : Type} `{HostPathController W}.
(** The cluster while a pod is filtered: the volume of each claim. *)
Context (w : W) (namespace : string) (volume_of : string -> option PersistentVolume).
Context (Hvolumes : forall claim, GetPersistentVolumeByClaim claim namespace w = (Ok (volume_of claim), w)).

(** The volume is usable on the node. *)
Definition usable_on (node : Node) (pv : PersistentVolume) : Prop :=
  pv_isHostPathPv pv = true ->
  nd_hostPathNode node = true /\ (pv_bindNode pv = "" \/ pv_bindNode pv = nd_name node).

(** The volume needs a new directory. *)
Definition needs_room (pv : PersistentVolume) : Prop := pv_isHostPathPv pv = true /\ pv_bindNode pv = "".
#[export] Instance needs_room_dec pv : Decision (needs_room pv).
Proof. unfold needs_room. apply _. Defined.

Definition new_requests (pvs : list PersistentVolume) : list Z := map pv_capacity (filter needs_room pvs).
Definition request_size (size : Z) (requests : list Z) : Z := foldl (fun s r => i64 (s + r)) size requests.

Lemma volume_requests_spec node volumes : forall requests size,
  exists r, volume_requests namespace node volumes requests size w = (Ok r, w) /\
  match r with
  | Some (requests', size') =>
      exists pvs, Forall2 (fun claim pv => volume_of claim = Some pv) (omap id volumes) pvs /\
        Forall (usable_on node) pvs /\
        requests' = requests ++ new_requests pvs /\ size' = request_size size (new_requests pvs)
  | None => exists claim, claim ∈ omap id volumes /\
              (volume_of claim = None \/ exists pv, volume_of claim = Some pv /\ ~ usable_on node pv)
  end.
Proof.
  induction volumes as [|[claim|] volumes IH]; intros requests size; cbn [volume_requests omap list_omap id].
  - eexists. split; [done |]. exists []. by rewrite app_nil_r.
  - unfold bind. rewrite Hvolumes. destruct (volume_of claim) as [pv|] eqn:Hpv.
    2: { eexists. split; [done |]. exists claim. split; [by left | by left]. }
    assert (Hnext : usable_on node pv -> forall reqs sz, 
      reqs = requests ++ new_requests [pv] -> sz = request_size size (new_requests [pv]) ->
      exists r, volume_requests namespace node volumes reqs sz w = (Ok r, w) /\
      match r with
      | Some (requests', size') =>
          exists pvs, Forall2 (fun claim pv => volume_of claim = Some pv) (claim :: omap id volumes) pvs /\
            Forall (usable_on node) pvs /\
            requests' = requests ++ new_requests pvs /\ size' = request_size size (new_requests pvs)
      | None => exists claim', claim' ∈ claim :: omap id volumes /\
                  (volume_of claim' = None \/ exists pv, volume_of claim' = Some pv /\ ~ usable_on node pv)
      end).
    { intros Hus reqs sz Hreqs Hsz. destruct (IH reqs sz) as ([[r' s']|] & Hrun & Hr); eexists; (split; [exact Hrun |]).
      - destruct Hr as (pvs & Hf & Hu & -> & ->). exists (pv :: pvs). split; [by constructor |]. split; [by constructor |].
        assert (E : new_requests (pv :: pvs) = new_requests [pv] ++ new_requests pvs).
        { unfold new_requests. rewrite !filter_cons. by case_decide. }
        rewrite E, Hreqs, Hsz, app_assoc. split; [done |]. unfold request_size. by rewrite foldl_app.
      - destruct Hr as (c & Hc & Hrest). exists c. split; [by right | done]. }
    assert (Hout : ~ usable_on node pv -> exists claim', claim' ∈ claim :: omap id volumes /\
                  (volume_of claim' = None \/ exists pv, volume_of claim' = Some pv /\ ~ usable_on node pv)).
    { intros Hno. exists claim. split; [by left | right; by exists pv]. }
    assert (Hnone : ~ needs_room pv -> new_requests [pv] = []).
    { intros Hn. unfold new_requests. rewrite filter_cons. by case_decide. }
    destruct (pv_isHostPathPv pv) eqn:Hhp; cbn [negb].
    2: { apply Hnext; [congruence | |]; rewrite Hnone by (by intros [? _]; congruence); [by rewrite app_nil_r | done]. }
    destruct (nd_hostPathNode node) eqn:Hn; cbn [negb].
    2: { eexists. split; [done |]. apply Hout. intros Hu. destruct (Hu Hhp). congruence. }
    destruct (go_len (pv_bindNode pv) >? 0) eqn:Hb.
    + assert (Hne : pv_bindNode pv <> "") by (intros E; by rewrite E in Hb).
      case_decide as Hd.
      * eexists. split; [done |]. apply Hout. intros Hu. by destruct (Hu Hhp) as [_ [E | E]].
      * apply Hnext; [intros _; by split; [| right] | |]; rewrite Hnone by (by intros [_ ?]); [by rewrite app_nil_r | done].
    + assert (Hempty : pv_bindNode pv = "") by (by destruct (pv_bindNode pv)).
      assert (E : new_requests [pv] = [pv_capacity pv]).
      { unfold new_requests. rewrite filter_cons. case_decide as Hd; [done |]. by destruct Hd. }
      apply Hnext; [intros _; by split; [| left] | by rewrite E | by rewrite E].
  - apply IH.
Qed.

(** The volumes of the pod's claims are all there, usable on the node, and the new
    ones fit in the eyes of [canNodeMatch]. *)
Definition suitable (claims : list (option string)) (node : Node) : Prop :=
  exists pvs, Forall2 (fun claim pv => volume_of claim = Some pv) (omap id claims) pvs /\
    Forall (usable_on node) pvs /\
    (request_size 0 (new_requests pvs) = 0 \/
     canNodeMatch (new_requests pvs) (nu_DiskStatus (nd_diskUsage node)) = true).

Lemma same_volumes claims pvs pvs' :
  Forall2 (fun claim pv => volume_of claim = Some pv) claims pvs ->
  Forall2 (fun claim pv => volume_of claim = Some pv) claims pvs' -> pvs = pvs'.
Proof.
  intros H1. revert pvs'. induction H1 as [|c pv cs pvs Hc _ IH]; intros pvs' H2; inversion H2; subst; [done |].
  f_equal; [congruence | by apply IH].
Qed.

Lemma FilterNode_suitable pod node :
  om_Namespace (cpod_meta pod) = namespace ->
  exists b, FilterNode pod node w = (Ok b, w) /\ (b = true <-> suitable (cpod_claims pod) (ToHostPathNode node)).
Proof.
  intros Hns. unfold FilterNode, bind. rewrite Hns.
  destruct (volume_requests_spec (ToHostPathNode node) (cpod_claims pod) [] 0) as ([[reqs size]|] & -> & Hr).
  - destruct Hr as (pvs & Hf & Hu & -> & ->). cbn [app].
    set (n := ToHostPathNode node) in *. set (reqs := new_requests pvs).
    assert (Hiff : suitable (cpod_claims pod) n <->
      request_size 0 reqs = 0 \/ canNodeMatch reqs (nu_DiskStatus (nd_diskUsage n)) = true).
    { split; [| intros Hor; by exists pvs].
      intros (pvs' & Hf' & _ & Hor). unfold reqs. by rewrite (same_volumes _ _ _ Hf Hf'). }
    destruct (Z.eqb_spec (request_size 0 reqs) 0) as [H0 | H0]; cbn [orb].
    { exists true. split; [done |]. rewrite Hiff. split; [by left | done]. }
    destruct (Z.eqb_spec (Z.of_nat (length reqs)) 0) as [Hl | Hl].
    { destruct reqs; [done | cbn in Hl; lia]. }
    eexists. split; [done |]. rewrite Hiff. split; [by right | by intros [|]].
  - destruct Hr as (claim & Hc & Hbad). exists false. split; [done |]. split; [done |].
    intros (pvs & Hf & Hu & _). apply list_elem_of_lookup_1 in Hc as [i Hi].
    destruct (Forall2_lookup_l _ _ _ _ _ Hf Hi) as (pv & Hpv & Hv).
    pose proof (Forall_lookup_1 _ _ _ _ Hu Hpv) as Hus.
    destruct Hbad as [Hnone | (pv' & Hpv' & Hno)]; [congruence |]. rewrite Hv in Hpv'. by injection Hpv' as <-.
Qed.

Lemma request_size_sum requests : forall size,
  Forall (fun r => 0 <= r) requests -> 0 <= size -> size + foldr Z.add 0 requests < 2 ^ 63 ->
  request_size size requests = size + foldr Z.add 0 requests.
Proof.
  induction requests as [|r rs IH]; intros size Hpos Hs Hlt; cbn in *; [lia |].
  apply Forall_cons in Hpos as [Hr Hrs].
  assert (0 <= foldr Z.add 0 rs) by (clear -Hrs; induction Hrs; cbn; lia).
  rewrite i64_small by (unfold in_i64; lia).
  unfold request_size in IH. rewrite IH; [lia | done | lia | lia].
Qed.

(** C23: [FilterNode] always answers, and accepts a node exactly when every claim of
    the pod has a volume, each is usable on the node - a bound one only on its node -
    and the new ones are matched with the disks; an accepted node has room for the
    new volumes, if these have a size and their sum does not overflow. *)
Theorem FilterNode_spec pod node :
  om_Namespace (cpod_meta pod) = namespace ->
  exists b, FilterNode pod node w = (Ok b, w) /\
  (b = true <-> suitable (cpod_claims pod) (ToHostPathNode node)) /\
  (b = true -> forall pvs, Forall2 (fun claim pv => volume_of claim = Some pv) (omap id (cpod_claims pod)) pvs ->
   let requests := new_requests pvs in
   let disks := nu_DiskStatus (nd_diskUsage (ToHostPathNode node)) in
   Forall (fun r => 0 <= r) requests -> 0 < foldr Z.add 0 requests < 2 ^ 63 -> Forall disk_range disks ->
   fits requests disks).
Proof.
  intros Hns. destruct (FilterNode_suitable pod node Hns) as (b & Hrun & Hb). exists b. split; [done |]. split; [done |].
  intros Htrue pvs Hf requests disks Hpos Hsum Hrange.
  apply Hb in Htrue as (pvs' & Hf' & _ & Hor). rewrite <- (same_volumes _ _ _ Hf Hf') in Hor.
  destruct Hor as [H0 | Hm]; [| by apply canNodeMatch_fits].
  rewrite request_size_sum in H0; [fold requests in H0; lia | done | lia | fold requests; lia].
Qed.

(** the handler answers with the nodes that [FilterNode] accepts, in order.  The
    other nodes are in neither list: as [FilterNode] never fails, the map of failed
    nodes is always empty. *)
Theorem predicate_Handler_spec pod nodes :
  om_Namespace (cpod_meta pod) = namespace ->
  exists accepts, (forall node, FilterNode pod node w = (Ok (accepts node), w)) /\
    predicate_Handler (mkExtenderArgs (Some pod) (Some nodes)) w =
    (Ok (mkFilterResult (Some (List.filter accepts nodes)) (Some ∅) ""), w).
Proof.
  intros Hns. exists (fun node => match (FilterNode pod node w).1 with Ok b => b | _ => false end).
  assert (Hacc : forall node, FilterNode pod node w =
    (Ok (match (FilterNode pod node w).1 with Ok b => b | _ => false end), w)).
  { intros node. by destruct (FilterNode_suitable pod node Hns) as (b & -> & _). }
  split; [done |]. unfold predicate_Handler. cbn [ea_Nodes ea_Pod].
  assert (Hloop : forall ns acc, filter_nodes (filter_pod (Some pod)) ns acc ∅ w =
    (Ok (acc ++ List.filter (fun node => match (FilterNode pod node w).1 with Ok b => b | _ => false end) ns, ∅), w)).
  { induction ns as [|n ns IH]; intros acc; cbn [filter_nodes List.filter]; [by rewrite app_nil_r |].
    unfold bind, attempt, filter_pod. rewrite (Hacc n). cbn [fst].
    destruct (match (FilterNode pod n w).1 with Ok b => b | _ => false end); rewrite IH; [by rewrite <- app_assoc | done]. }
  unfold bind. by rewrite Hloop.
Qed.
End filter_proofs.

(** ** Witnesses *)

Lemma canNodeMatch_spec_witness :
  (canNodeMatch [10; 5] [disk_with "/d1" 10 false; disk_with "/d2" 6 false] = true ->
   fits [10; 5] [disk_with "/d1" 10 false; disk_with "/d2" 6 false]) /\
  (forall r, [10; 5] = [r] -> canNodeMatch [10; 5] [disk_with "/d1" 10 false; disk_with "/d2" 6 false] = true <->
   Exists (fun d => r <= di_Allocatable d) [disk_with "/d1" 10 false; disk_with "/d2" 6 false]).
Proof.
  apply (canNodeMatch_spec [10; 5] [disk_with "/d1" 10 false; disk_with "/d2" 6 false]).
  - repeat constructor; lia.
  - repeat constructor; cbn; lia.
Defined.

(** A pod with the claim of [found_pv], and a node that has reported its disks. *)
Definition sample_pod : CorePod := mkCorePod (sim_meta "p1" "default" ∅) [Some "c1"; None].
Definition claim_volume (claim : string) : option PersistentVolume := if decide (claim = "c1") then Some found_pv else None.

Lemma control_volumes claim : GetPersistentVolumeByClaim claim "default" control = (Ok (claim_volume claim), control).
Proof.
  cbn. unfold c_GetPersistentVolumeByClaim, gets. f_equal. f_equal. unfold ByIndex, claim_volume.
  set (m := filter _ _).
  assert (Hm : m = if decide (claim = "c1") then {[ "pvc-1" := found_pv ]} else ∅).
  { unfold m. cbn [control fst pvLister]. rewrite map_filter_singleton. cbn [snd].
    change (pvClaimNameNamespaceIndexFunc found_pv) with (PersistentVolumeKey "c1" "default").
    unfold PersistentVolumeKey. repeat case_decide; try done; simplify_eq/=. }
  rewrite Hm. by case_decide.
Qed.

Definition full_node : CoreNode :=
  mkCoreNode (with_annotations (<[NodeDiskQuotaInfoAnn := b64_encode (print (node_usage_json
     (mkNodeUsageInfo 2000 0 0 2000 2000 [disk_with "/d1" 2000 false])))]> ∅) "1" (cn_meta (core_node "n1")))
    [mkNodeCondition "Ready" "True"].

Lemma FilterNode_spec_witness :
  exists b, FilterNode sample_pod full_node control = (Ok b, control) /\
  (b = true <-> suitable claim_volume [Some "c1"; None] (ToHostPathNode full_node)) /\
  (b = true -> forall pvs, Forall2 (fun claim pv => claim_volume claim = Some pv) ["c1"] pvs ->
   let requests := new_requests pvs in
   let disks := nu_DiskStatus (nd_diskUsage (ToHostPathNode full_node)) in
   Forall (fun r => 0 <= r) requests -> 0 < foldr Z.add 0 requests < 2 ^ 63 -> Forall disk_range disks ->
   fits requests disks).
Proof. exact (FilterNode_spec control "default" claim_volume control_volumes sample_pod full_node eq_refl). Defined.

Example FilterNode_accepts : (FilterNode sample_pod full_node control).1 = Ok true.
Proof. by vm_compute. Qed.

Lemma predicate_Handler_spec_witness :
  exists accepts, (forall node, FilterNode sample_pod node control = (Ok (accepts node), control)) /\
    predicate_Handler (mkExtenderArgs (Some sample_pod) (Some [full_node; core_node "n2"])) control =
    (Ok (mkFilterResult (Some (List.filter accepts [full_node; core_node "n2"])) (Some ∅) ""), control).
Proof.
  exact (predicate_Handler_spec control "default" claim_volume control_volumes sample_pod [full_node; core_node "n2"] eq_refl).
Defined.
