(* ===== verification/Prioritize.v ===== *)
(** * Scoring nodes: pkg/extender-scheduler/scheduler/prioritize

    A node's score is the free share of its capacity in percent, scaled so that the
    best node gets 10.  When some node is no host-path node, all get 100. *)

From S2P Require Import Prelude GoStrings GoFloat HostPathApi Base64 Json Annotations HostPathClient HostPathController Predicate.
Open Scope Z_scope.
Open Scope go_scope.

Definition DefaultNodeScore : Z := 100.

Record HostPriority := mkHostPriority { hp_Host : string; hp_Score : Z }.

(** The score of a host-path node by its capacity and the quota allocated on it. *)
Definition usage_score (capacity allocated : Z) : Z :=
  if (capacity <=? 0) || (capacity <=? allocated) then 0
  else int64_of_f64 (f64_div (f64_mul (f64_of_int 100) (f64_of_int (i64 (capacity - allocated)))) (f64_of_int capacity)).

Definition mapScoringNode (hasHostPath : bool) (node : CoreNode) : HostPriority :=
  let count :=
    if negb hasHostPath then DefaultNodeScore
    else
      let usage := nd_diskUsage (ToHostPathNode node) in
      usage_score (nu_Capacity usage) (nu_QuotaSize usage) in
  mkHostPriority (om_Name (cn_meta node)) count.

Definition max_score (priorityList : list HostPriority) : Z :=
  foldl (fun maxCount p => if hp_Score p >? maxCount then hp_Score p else maxCount) 0 priorityList.

Definition scaled_score (maxCount score : Z) : Z :=
  let fScore := if maxCount >? 0
                then f64_mul (f64_of_int 10) (f64_div (f64_of_int score) (f64_of_int maxCount))
                else 0%Q in
  int64_of_f64 fScore.

Definition reduceScoringNode (hasHostPath : bool) (priorityList : list HostPriority) : list HostPriority :=
  if negb hasHostPath then priorityList
  else map (fun p => mkHostPriority (hp_Host p) (scaled_score (max_score priorityList) (hp_Score p))) priorityList.

(** The goroutines that score the nodes each write their own element of the list. *)
Definition ScoreNodes (nodes : list CoreNode) : list HostPriority :=
  let hasHostPath := forallb IsHostPathNode nodes in
  reduceScoringNode hasHostPath (map (mapScoringNode hasHostPath) nodes).

(** [Prioritize.Handler]; a pod that is missing is dereferenced as soon as there is
    a node. *)
Definition prioritize_Handler (args : ExtenderArgs) : outcome (list HostPriority) :=
  match ea_Nodes args with
  | None => Panic nil_pointer
  | Some nodes =>
      match ea_Pod args, nodes with
      | None, _ :: _ => Panic nil_pointer
      | _, _ => Ok (ScoreNodes nodes)
      end
  end.

(** ** Bounds *)

Lemma int64_floor q : (0 <= q)%Q -> int64_of_f64 q = Qfloor q.
Proof. intros Hq. unfold int64_of_f64. by rewrite (proj2 (Qle_bool_iff 0 q) Hq). Qed.

Lemma floor_le q z : (q < inject_Z (z + 1))%Q -> Qfloor q <= z.
Proof.
  intros Hq. assert (Qfloor q < z + 1); [| lia]. rewrite Zlt_Qlt.
  pose proof (Qfloor_le q). lra.
Qed.

Lemma f64_pos z : 0 < z -> (0 < f64_of_int z)%Q.
Proof.
  intros Hz. assert (Hq : (0 < inject_Z z)%Q) by (change 0%Q with (inject_Z 0); by rewrite <- Zlt_Qlt).
  pose proof (rnd_binade _ Hq). pose proof (pow2_pos (log2Q (inject_Z z))). unfold f64_of_int. lra.
Qed.

Lemma f64_mono x y : 0 <= x -> x <= y -> (f64_of_int x <= f64_of_int y)%Q.
Proof. intros. apply rnd_mono; [change 0%Q with (inject_Z 0) |]; by rewrite <- Zle_Qle. Qed.

Lemma f64_nonneg x : 0 <= x -> (0 <= f64_of_int x)%Q.
Proof. intros. apply rnd_nonneg. change 0%Q with (inject_Z 0). by rewrite <- Zle_Qle. Qed.

(** The free share in percent, from the rounded sizes. *)
Definition percent (x y : float64) : float64 := f64_div (f64_mul (f64_of_int 100) x) y.

Lemma percent_mono x x' y : (0 <= x)%Q -> (x <= x')%Q -> (0 < y)%Q -> (0 <= percent x y <= percent x' y)%Q.
Proof.
  intros Hx Hxx Hy. unfold percent, f64_div, f64_mul. change (f64_of_int 100) with 100%Q.
  assert (Hm : (0 <= rnd (100 * x) <= rnd (100 * x'))%Q) by (split; [apply rnd_nonneg; lra | apply rnd_mono; lra]).
  assert (Hd : (0 <= rnd (100 * x) / y)%Q) by (apply Qle_shift_div_l; lra).
  split; [by apply rnd_nonneg |]. apply rnd_mono; [done |].
  unfold Qdiv. apply Qmult_le_compat_r; [lra |]. apply Qlt_le_weak, Qinv_lt_0_compat, Hy.
Qed.

Lemma percent_full y : (0 < y)%Q -> (percent y y < 101)%Q.
Proof.
  intros Hy. unfold percent, f64_div, f64_mul. change (f64_of_int 100) with 100%Q.
  pose proof (rnd_error (100 * y) ltac:(lra)) as [_ Hm].
  assert (Hd : (rnd (100 * y) / y <= 100 + 100 * pow2 (-52))%Q).
  { apply Qle_shift_div_r; [done |]. lra. }
  assert (H0 : (0 <= rnd (100 * y) / y)%Q) by (apply Qle_shift_div_l; [done |]; pose proof (rnd_nonneg (100 * y)); lra).
  apply Qle_lt_trans with (rnd (100 + 100 * pow2 (-52))%Q); [by apply rnd_mono | by vm_compute].
Qed.

Lemma usage_score_percent c a :
  usage_score c a = if (c <=? 0) || (c <=? a) then 0
                    else int64_of_f64 (percent (f64_of_int (i64 (c - a))) (f64_of_int c)).
Proof. done. Qed.

Lemma usage_score_range c a a' :
  in_i64 c -> 0 <= a <= a' -> 0 <= usage_score c a' <= usage_score c a /\ usage_score c a <= 100.
Proof.
  intros Hc Ha. rewrite !usage_score_percent.
  assert (Hf : forall b, 0 <= b -> b < c ->
    (0 <= percent (f64_of_int (i64 (c - b))) (f64_of_int c))%Q /\
    (percent (f64_of_int (i64 (c - b))) (f64_of_int c) < 101)%Q).
  { intros b Hb Hbc. rewrite i64_small by (unfold in_i64 in *; lia).
    pose proof (f64_pos c ltac:(lia)) as Hy.
    destruct (percent_mono (f64_of_int (c - b)) (f64_of_int c) (f64_of_int c)) as [H1 H2];
      [apply f64_nonneg; lia | apply f64_mono; lia | done |].
    pose proof (percent_full _ Hy). split; lra. }
  assert (Hz : forall b, 0 <= b -> b < c -> 0 <= int64_of_f64 (percent (f64_of_int (i64 (c - b))) (f64_of_int c)) <= 100).
  { intros b Hb Hbc. destruct (Hf b Hb Hbc) as [H1 H2]. rewrite int64_floor by done. split.
    - rewrite <- (Qfloor_Z 0). by apply Qfloor_resp_le.
    - apply floor_le. exact H2. }
  destruct (Z.leb_spec c 0); cbn [orb]; [lia |].
  destruct (Z.leb_spec c a') as [Hca' | Hca']; destruct (Z.leb_spec c a) as [Hca | Hca]; try lia.
  - pose proof (Hz a ltac:(lia) ltac:(lia)). lia.
  - pose proof (Hz a' ltac:(lia) ltac:(lia)). pose proof (Hz a ltac:(lia) ltac:(lia)). split; [split |]; [lia | | lia].
    rewrite !int64_floor by (apply Hf; lia). apply Qfloor_resp_le.
    rewrite !i64_small by (unfold in_i64 in *; lia).
    apply percent_mono; [apply f64_nonneg; lia | apply f64_mono; lia | apply f64_pos; lia].
Qed.

Lemma scaled_score_range m s s' :
  0 <= s <= s' -> s' <= m -> m <= 100 ->
  0 <= scaled_score m s <= scaled_score m s' /\ scaled_score m s' <= 10 /\ (0 < m -> scaled_score m m = 10).
Proof.
  intros Hs Hm H100. unfold scaled_score. rewrite Z.gtb_ltb. destruct (Z.ltb_spec 0 m) as [Hpos | Hneg].
  2: { change (int64_of_f64 0) with 0. lia. }
  assert (Em : (f64_of_int m == inject_Z m)%Q) by (apply rnd_int; lia).
  assert (Hq : (0 < f64_of_int m)%Q) by (by apply f64_pos).
  assert (Hmul : forall q q', (0 <= q)%Q -> (q <= q')%Q -> (0 <= f64_mul (f64_of_int 10) q <= f64_mul (f64_of_int 10) q')%Q).
  { intros q q' H0 Hle. unfold f64_mul. change (f64_of_int 10) with 10%Q.
    split; [apply rnd_nonneg; lra | apply rnd_mono; lra]. }
  assert (Hdiv : forall x x', 0 <= x -> x <= x' ->
    (0 <= f64_div (f64_of_int x) (f64_of_int m) <= f64_div (f64_of_int x') (f64_of_int m))%Q).
  { intros x x' Hx Hxx. unfold f64_div. pose proof (f64_nonneg x Hx). pose proof (f64_mono x x' Hx Hxx).
    assert (Hd : (0 <= f64_of_int x / f64_of_int m)%Q) by (apply Qle_shift_div_l; lra).
    split; [by apply rnd_nonneg |]. apply rnd_mono; [done |].
    unfold Qdiv. apply Qmult_le_compat_r; [done |]. apply Qlt_le_weak, Qinv_lt_0_compat, Hq. }
  assert (Htop : (f64_mul (f64_of_int 10) (f64_div (f64_of_int m) (f64_of_int m)) == 10)%Q).
  { unfold f64_div. assert (E : (f64_of_int m / f64_of_int m == 1)%Q) by (field; lra).
    unfold f64_mul. rewrite E. by vm_compute. }
  destruct (Hdiv s s') as [Ha Hb]; [lia | lia |]. destruct (Hdiv s' m) as [_ Hc]; [lia | lia |].
  destruct (Hmul _ _ Ha Hb) as [H1 H2]. destruct (Hmul _ _ (Qle_trans _ _ _ Ha Hb) Hc) as [_ H3].
  rewrite !int64_floor by lra. split; [split |]; [| by apply Qfloor_resp_le | split].
  - rewrite <- (Qfloor_Z 0). by apply Qfloor_resp_le.
  - rewrite <- (Qfloor_Z 10). apply Qfloor_resp_le. rewrite Htop in H3. exact H3.
  - intros _. rewrite (Qfloor_comp _ _ Htop). done.
Qed.

Lemma max_score_spec l : forall acc, 
  let m := foldl (fun maxCount p => if hp_Score p >? maxCount then hp_Score p else maxCount) acc l in
  acc <= m /\ Forall (fun p => hp_Score p <= m) l /\ (m = acc \/ Exists (fun p => hp_Score p = m) l).
Proof.
  induction l as [|p l IH]; intros acc; cbn [foldl]; [split_and!; [lia | done | by left] |].
  rewrite Z.gtb_ltb.
  destruct (IH (if acc <? hp_Score p then hp_Score p else acc)) as (H1 & H2 & H3). cbv zeta in *.
  set (m := foldl _ _ l) in *. destruct (Z.ltb_spec acc (hp_Score p)).
  - split_and!; [lia | constructor; [lia | done] |]. destruct H3 as [H3 | H3]; right; [by left | by right].
  - split_and!; [lia | constructor; [lia | done] |]. destruct H3 as [H3 | H3]; [by left | by right; right].
Qed.

Lemma max_score_max l : Forall (fun p => hp_Score p <= max_score l) l /\ 0 <= max_score l /\
  (max_score l = 0 \/ Exists (fun p => hp_Score p = max_score l) l).
Proof. destruct (max_score_spec l 0) as (H1 & H2 & H3). by split_and!. Qed.

Lemma lookup_map {A B} (f : A -> B) (l : list A) (i : nat) : map f l !! i = f <$> l !! i.
Proof. revert i. induction l as [|a l IH]; intros [|i]; cbn; [done | done | done | apply IH]. Qed.

(** A node's report is sane: the capacity is an int64 and the allocated quota is not
    negative. *)
Definition sane_usage (node : CoreNode) : Prop :=
  let u := nd_diskUsage (ToHostPathNode node) in in_i64 (nu_Capacity u) /\ 0 <= nu_QuotaSize u.

(** C28: every node is scored, in order.  When all are host-path nodes with sane
    reports, every score is between 0 and 10; of two nodes with the same capacity the
    one with less allocated does not score lower; and unless all scores are 0 the
    best node scores 10.  When one is not, all score 100. *)
Theorem ScoreNodes_spec nodes :
  map hp_Host (ScoreNodes nodes) = map (fun n => om_Name (cn_meta n)) nodes /\
  (forallb IsHostPathNode nodes = false -> Forall (fun p => hp_Score p = 100) (ScoreNodes nodes)) /\
  (forallb IsHostPathNode nodes = true -> Forall sane_usage nodes ->
   Forall (fun p => 0 <= hp_Score p <= 10) (ScoreNodes nodes) /\
   (Forall (fun p => hp_Score p = 0) (ScoreNodes nodes) \/ Exists (fun p => hp_Score p = 10) (ScoreNodes nodes)) /\
   (forall (i j : nat) n1 n2 p1 p2, nodes !! i = Some n1 -> nodes !! j = Some n2 ->
    ScoreNodes nodes !! i = Some p1 -> ScoreNodes nodes !! j = Some p2 ->
    let u1 := nd_diskUsage (ToHostPathNode n1) in let u2 := nd_diskUsage (ToHostPathNode n2) in
    nu_Capacity u1 = nu_Capacity u2 -> nu_QuotaSize u1 <= nu_QuotaSize u2 -> hp_Score p2 <= hp_Score p1)).
Proof.
  unfold ScoreNodes, reduceScoringNode. split; [| split].
  - destruct (forallb _ _); cbn [negb]; rewrite !map_map; by apply map_ext.
  - intros ->. cbn [negb]. apply Forall_map, Forall_true. done.
  - intros -> Hsane. cbn [negb]. set (scores := map (mapScoringNode true) nodes). set (m := max_score scores).
    destruct (max_score_max scores) as (Hmax & Hm0 & Htop). fold m in Hmax, Hm0, Htop.
    assert (Hscore : forall (i : nat) n, nodes !! i = Some n -> scores !! i = Some (mapScoringNode true n)).
    { intros i n Hn. unfold scores. by rewrite lookup_map, Hn. }
    assert (Hrange : Forall (fun p => 0 <= hp_Score p <= 100) scores).
    { apply Forall_lookup. intros i p Hp. unfold scores in Hp. rewrite lookup_map in Hp.
      apply fmap_Some in Hp as (n & Hn & ->). destruct (Forall_lookup_1 _ _ _ _ Hsane Hn) as [Hc Hq].
      pose proof (usage_score_range _ _ _ Hc (conj Hq (Z.le_refl _))). cbn. lia. }
    assert (Hm : m <= 100).
    { destruct Htop as [-> | Hex]; [lia |]. apply Exists_exists in Hex as (p & Hp & <-).
      rewrite Forall_forall in Hrange. by apply Hrange. }
    assert (Hok : Forall (fun p => 0 <= hp_Score p <= m) scores).
    { apply Forall_forall. intros p Hp. rewrite Forall_forall in Hmax, Hrange.
      pose proof (Hmax p Hp). pose proof (Hrange p Hp). lia. }
    split; [| split].
    + apply Forall_map. eapply Forall_impl; [exact Hok |]. intros p [Hp1 Hp2]. cbn.
      pose proof (scaled_score_range m (hp_Score p) (hp_Score p)). lia.
    + destruct (decide (m = 0)) as [E | E].
      * left. apply Forall_map, Forall_true. intros p. by rewrite E.
      * right. destruct Htop as [| Hex]; [done |]. apply Exists_exists in Hex as (p & Hp & Hpm).
        apply Exists_exists. exists (mkHostPriority (hp_Host p) (scaled_score m (hp_Score p))). split.
        -- by apply (list_elem_of_fmap_2 (fun p => mkHostPriority (hp_Host p) (scaled_score m (hp_Score p)))).
        -- cbn. rewrite Hpm. destruct (scaled_score_range m m m) as (_ & _ & H10); [lia | lia | done |]. apply H10. lia.
    + intros i j n1 n2 p1 p2 Hn1 Hn2 Hp1 Hp2 Hcap Hquota.
      set (u1 := nd_diskUsage (ToHostPathNode n1)) in *. set (u2 := nd_diskUsage (ToHostPathNode n2)) in *.
      rewrite lookup_map, (Hscore i n1 Hn1) in Hp1. rewrite lookup_map, (Hscore j n2 Hn2) in Hp2.
      injection Hp1 as <-. injection Hp2 as <-. cbn [hp_Score].
      destruct (Forall_lookup_1 _ _ _ _ Hsane Hn1) as [Hc Hq]. fold u1 in Hc, Hq.
      pose proof (usage_score_range _ _ _ Hc (conj Hq Hquota)) as Hle. cbn [hp_Score mapScoringNode negb].
      fold u1 u2. rewrite <- Hcap.
      apply scaled_score_range; [lia | | done].
      pose proof (Forall_lookup_1 _ _ _ _ Hok (Hscore i n1 Hn1)) as Hm1. cbn in Hm1. fold u1 in Hm1. lia.
Qed.

Lemma ScoreNodes_spec_witness :
  Forall (fun p => 0 <= hp_Score p <= 10) (ScoreNodes [full_node; core_node "n2"]) /\
  (ScoreNodes [full_node; core_node "n2"] !! 0%nat = Some (mkHostPriority "n1" 10)).
Proof.
  split; [| by vm_compute].
  destruct (ScoreNodes_spec [full_node; core_node "n2"]) as (_ & _ & H).
  destruct H as [H _]; [by vm_compute | | exact H].
  repeat apply Forall_cons_2; try apply Forall_nil_2; (split; [split; by vm_compute | by vm_compute]).
Defined.
