(* ===== verification/Bind.v ===== *)
(** * Binding a pod: pkg/extender-scheduler/scheduler/bind/hostpathpv_bind.go

    Before the pod is bound to the node, each of its volumes that outlives the pod is
    bound to it, by an annotation.  The client is proved against the laws of
    [HostPathController], which the controller's implementation satisfies. *)

From S2P Require Import Prelude GoStrings VolId Os HostPathApi Base64 Json Annotations HostPathClient HostPathController.
Open Scope Z_scope.
Open Scope go_scope.

Section bind.
Context {W : Type} `{HostPathController W}.

(** The loop over the claims; [Some e] is a result with an error. *)
Fixpoint bind_volumes (namespace nodeName : string) (claims : list string) : M W (option string) :=
  match claims with
  | [] => ret None
  | claimName :: claims' =>
      let! pv := GetPersistentVolumeByClaim claimName namespace in
      match pv with
      | None => bind_volumes namespace nodeName claims'
      | Some pv =>
          if negb (pv_isHostPathPv pv) then bind_volumes namespace nodeName claims'
          else if pv_ephemeral pv then bind_volumes namespace nodeName claims'
          else if go_len (pv_bindNode pv) =? 0 then
            let! r := attempt (BindHostPathPV (pv_name pv) nodeName) in
            match r with
            | inr err => ret (Some (error_text err))
            | inl _ => bind_volumes namespace nodeName claims'
            end
          else if decide (pv_bindNode pv <> nodeName) then
            ret (Some ("pv " +:+ pv_name pv +:+ " has bind to node " +:+ pv_bindNode pv +:+ " conflict"))
          else bind_volumes namespace nodeName claims'
      end
  end.

(** The [Error] of the result. *)
Definition Bind (podName podNamespace nodeName : string) : M W string :=
  let! pod := GetPod podName podNamespace in
  match pod with
  | None => ret ("pod " +:+ podName +:+ "/" +:+ podNamespace +:+ " not found,perhaps it do not use hostpathpv")
  | Some pod =>
      let! failed := bind_volumes (pod_namespace pod) nodeName (pod_pvClaims pod) in
      match failed with
      | Some err => ret err
      | None =>
          let! r := attempt (BindPod pod nodeName) in
          match r with
          | inr err => ret ("failed bind pod " +:+ podNamespace +:+ "/" +:+ podName +:+ " to node " +:+ nodeName +:+
                            " . err: " +:+ error_text err)
          | inl _ => ret ""
          end
      end
  end.

(** [Bind.Handler] *)
Record ExtenderBindingArgs := mkBindingArgs { ba_PodName : string; ba_PodNamespace : string; ba_Node : string }.
Definition bind_Handler (args : ExtenderBindingArgs) : M W string :=
  Bind (ba_PodName args) (ba_PodNamespace args) (ba_Node args).
End bind.

(** ** What the controller promises *)

(** [bind_node]: the node that the server has for a volume.  Reads change nothing;
    binding a volume changes its node only, and neither write is seen by the caches,
    which only the watch changes. *)
Class HostPathControllerLaws (W : Type) `{HostPathController W} := {
  bind_node : string -> W -> string;
  GetPod_pure name ns w : exists r, GetPod name ns w = (Ok r, w);
  GetPV_pure claim ns w : exists r, GetPersistentVolumeByClaim claim ns w = (Ok r, w);
  BindPV_total pv node w : exists r w', BindHostPathPV pv node w = (r, w') /\ (forall y, r <> Panic y) /\
    (forall e, r = Fail e -> error_text e <> "") /\
    (forall claim ns, (GetPersistentVolumeByClaim claim ns w').1 = (GetPersistentVolumeByClaim claim ns w).1);
  BindPV_binds pv node w w' : plain node = true -> BindHostPathPV pv node w = (Ok tt, w') ->
    bind_node pv w' = node /\ forall other, other <> pv -> bind_node other w' = bind_node other w;
  BindPV_only pv node w r w' : plain node = true -> BindHostPathPV pv node w = (r, w') ->
    (bind_node pv w' = node \/ bind_node pv w' = bind_node pv w) /\
    forall other, other <> pv -> bind_node other w' = bind_node other w;
  BindPod_total pod node w y : (BindPod pod node w).1 <> Panic y;
  BindPod_keeps pod node w r w' : BindPod pod node w = (r, w') ->
    (forall pv, bind_node pv w' = bind_node pv w) /\
    (forall claim ns, (GetPersistentVolumeByClaim claim ns w').1 = (GetPersistentVolumeByClaim claim ns w).1)
}.

Section control_laws.
Context {W : Type} `{KubeApiLaws W}.

Definition api_bind_node (name : string) (s : HostPathControl * W) : string :=
  match pv_Get name s.2 with inl pv => getHostPathPVBindNode pv | inr _ => "" end.

(** The caches are all the lookups depend on, and [map_order] does not depend on the
    server: a lookup that finds several objects picks the same one as long as the caches
    are the same.  This matters for two cached volumes with one claim only, of which Go
    may pick either. *)
Context (Horder : forall ks (w w' : W), map_order ks w = map_order ks w').

Lemma applied_binds pv node c c' (w w' : W) :
  plain node = true -> pv_applied pv (annotation_patch HostPathPvBindInfoAnn node) w w' ->
  api_bind_node pv (c', w') = node /\ forall other, other <> pv -> api_bind_node other (c', w') = api_bind_node other (c, w).
Proof.
  intros Hplain (pv0 & anns & version & Hg & Happ & Hg' & Hother & _).
  apply apply_annotation_patch_inv in Happ as ->; [| done | done]. unfold api_bind_node. cbn [snd]. split.
  - rewrite Hg'. unfold getHostPathPVBindNode. cbn [cpv_meta].
    change (om_anns (with_annotations ?a version ?m)) with a. unfold annotation. by rewrite lookup_insert_eq.
  - intros other Hne. by rewrite Hother.
Qed.

Definition HostPathControl_laws : HostPathControllerLaws (HostPathControl * W).
Proof.
  refine {| bind_node := api_bind_node |}.
  - intros name ns w. by eexists.
  - intros claim ns w. by eexists.
  - intros pv node [c w]. cbn. unfold c_BindHostPathPV, on_api, zoom, sys_write. cbn.
    destruct (pv_Patch _ _ w) as [[e|] w'] eqn:Hp; eexists _, _; (split; [done |]); split_and!; try done.
    + intros e' [= <-]. by eapply pv_patch_error.
    + intros claim ns. cbn. unfold ByIndex. by rewrite (Horder _ w' w).
    + intros claim ns. cbn. unfold ByIndex. by rewrite (Horder _ w' w).
  - intros pv node [c w] [c' w'] Hplain Hb. cbn in Hb. unfold c_BindHostPathPV, on_api, zoom in Hb. cbn in Hb.
    destruct (sys_write _ w) as [[[]| |] w1] eqn:Hw; try done. injection Hb as <- <-.
    apply sys_write_Ok in Hw as Hp. unfold getHostPathPVBindNodePatchBytes in Hp.
    apply pv_patched in Hp; [| by apply annotation_patch_ok]. by apply (applied_binds pv node c c w w1).
  - intros pv node [c w] r [c' w'] Hplain Hb. cbn in Hb. unfold c_BindHostPathPV, on_api, zoom, sys_write in Hb. cbn in Hb.
    unfold getHostPathPVBindNodePatchBytes in Hb.
    assert (Hpatch := annotation_patch_ok HostPathPvBindInfoAnn node eq_refl Hplain).
    destruct (pv_Patch _ _ w) as [[e|] w1] eqn:Hp; injection Hb as _ <- <-.
    + apply pv_patch_failed in Hp as [Hsame | Hp]; [| | done].
      * unfold api_bind_node. cbn [snd]. split; [right; by rewrite Hsame | intros other _; by rewrite Hsame].
      * apply (applied_binds pv node c c w w1) in Hp as [H1 H2]; [| done]. split; [by left | done].
    + apply pv_patched in Hp; [| done]. apply (applied_binds pv node c c w w1) in Hp as [H1 H2]; [| done]. split; [by left | done].
  - intros pod node [c w] y. cbn. unfold c_BindPod, on_api, zoom, sys_write. cbn. by destruct (pod_Bind _ _ _ _ w) as [[]].
  - intros pod node [c w] r [c' w'] Hb. cbn in Hb. unfold c_BindPod, on_api, zoom, sys_write in Hb. cbn in Hb.
    destruct (pod_Bind _ _ _ _ w) as [o w1] eqn:Hp.
    assert (c' = c /\ w' = w1) as [-> ->] by (destruct o; by injection Hb as _ <- <-).
    split; [intros pv; unfold api_bind_node; cbn [snd]; by rewrite (pod_bound _ _ _ _ _ _ _ Hp) |].
    intros claim ns. cbn. unfold ByIndex. by rewrite (Horder _ w1 w).
Defined.
End control_laws.

(** ** What binding achieves *)

Section bind_proofs.
Context {W : Type} `{HostPathControllerLaws W}.

Definition volume_of (claim ns : string) (w : W) : option PersistentVolume :=
  match (GetPersistentVolumeByClaim claim ns w).1 with Ok pv => pv | _ => None end.

Lemma volume_of_read claim ns w : GetPersistentVolumeByClaim claim ns w = (Ok (volume_of claim ns w), w).
Proof. unfold volume_of. by destruct (GetPV_pure claim ns w) as [r ->]. Qed.

(** The volume is one that binding is about. *)
Definition outlives_pod (pv : PersistentVolume) : Prop := pv_isHostPathPv pv = true /\ pv_ephemeral pv = false.

(** The volume is on the node, or the server has it there now. *)
Definition bound_to (node : string) (pv : PersistentVolume) (w : W) : Prop :=
  (pv_bindNode pv = "" -> bind_node (pv_name pv) w = node) /\ (pv_bindNode pv <> "" -> pv_bindNode pv = node).

(** What a completed loop over [claims] has achieved, from [w] to [w']. *)
Definition all_bound (ns node : string) (claims : list string) (w w' : W) : Prop :=
  (forall claim ns, volume_of claim ns w' = volume_of claim ns w) /\
  (forall name, bind_node name w = node -> bind_node name w' = node) /\
  (forall claim pv, claim ∈ claims -> volume_of claim ns w = Some pv -> outlives_pod pv -> bound_to node pv w').

Lemma all_bound_cons ns node c claims w w1 w' :
  (forall claim ns, volume_of claim ns w1 = volume_of claim ns w) ->
  (forall name, bind_node name w = node -> bind_node name w1 = node) ->
  (forall pv, volume_of c ns w = Some pv -> outlives_pod pv -> bound_to node pv w1) ->
  all_bound ns node claims w1 w' -> all_bound ns node (c :: claims) w w'.
Proof.
  intros Hv Hb Hc (Hv' & Hb' & Hr). split_and!.
  - intros claim ns'. by rewrite Hv'.
  - intros name Hn. by apply Hb', Hb.
  - intros claim pv Hin Hpv Hout. apply elem_of_cons in Hin as [-> | Hin].
    + destruct (Hc pv Hpv Hout) as [H1 H2]. split; [intros E; by apply Hb', H1 | done].
    + apply (Hr claim); [done | by rewrite Hv | done].
Qed.

Lemma bind_volumes_binds ns node claims : forall w,
  plain node = true ->
  exists r w', bind_volumes ns node claims w = (Ok r, w') /\
    match r with Some e => e <> "" | None => all_bound ns node claims w w' end.
Proof.
  induction claims as [|c claims IH]; intros w Hplain; cbn [bind_volumes].
  { exists None, w. split; [done |]. split_and!; [done | done |]. intros claim pv Hc. set_solver. }
  unfold bind at 1. rewrite volume_of_read.
  assert (Hskip : (forall pv, volume_of c ns w = Some pv -> outlives_pod pv -> bound_to node pv w) ->
    exists r w', bind_volumes ns node claims w = (Ok r, w') /\
      match r with Some e => e <> "" | None => all_bound ns node (c :: claims) w w' end).
  { intros Hc. destruct (IH w Hplain) as ([e|] & w' & Hrun & Hr); eexists _, w'; (split; [exact Hrun |]); [done |].
    by apply all_bound_cons with (w1 := w). }
  destruct (volume_of c ns w) as [pv|] eqn:Hpv; [| by apply Hskip].
  destruct (pv_isHostPathPv pv) eqn:Hhp; cbn [negb].
  2: { apply Hskip. intros pv' [= <-] [Hh _]. congruence. }
  destruct (pv_ephemeral pv) eqn:He.
  1: { apply Hskip. intros pv' [= <-] [_ Hh]. congruence. }
  destruct (go_len (pv_bindNode pv) =? 0) eqn:Hlen.
  - assert (Hempty : pv_bindNode pv = "") by (by destruct (pv_bindNode pv)).
    unfold bind at 1, attempt.
    destruct (BindPV_total (pv_name pv) node w) as (rb & w1 & Hb & Hnp & Htext & Hlook). rewrite Hb.
    destruct rb as [[]|e|y]; [| | by destruct (Hnp y)].
    + destruct (BindPV_binds _ _ _ _ Hplain Hb) as [Hnode Hother].
      destruct (IH w1 Hplain) as ([e|] & w' & Hrun & Hr); eexists _, w'; (split; [exact Hrun |]); [done |].
      apply all_bound_cons with (w1 := w1); [| | | done].
      * intros claim ns'. unfold volume_of. by rewrite Hlook.
      * intros name Hn. destruct (decide (name = pv_name pv)) as [-> | Hne]; [done | by rewrite Hother].
      * rewrite Hpv. intros pv' [= <-] _. split; [done |]. intros Hne. by rewrite Hempty in Hne.
    + exists (Some (error_text e)), w1. split; [done | by apply Htext].
  - assert (Hne : pv_bindNode pv <> "") by (intros E; by rewrite E in Hlen).
    case_decide as Hd.
    + by eexists _, _.
    + apply Hskip. intros pv' [= <-] _. by split.
Qed.

(** C25: [Bind] always answers.  When it reports no error, the pod was known, every
    volume of its claims that outlives the pod was on the node already or had no
    node and has this one on the server now, and the pod is bound last. *)
Theorem Bind_spec podName podNamespace node w :
  plain node = true ->
  exists err w', Bind podName podNamespace node w = (Ok err, w') /\
  (err = "" -> exists pod w1,
     GetPod podName podNamespace w = (Ok (Some pod), w) /\ BindPod pod node w1 = (Ok tt, w') /\
     forall claim pv, claim ∈ pod_pvClaims pod -> volume_of claim (pod_namespace pod) w = Some pv ->
       outlives_pod pv -> bound_to node pv w').
Proof.
  intros Hplain. unfold Bind, bind at 1. destruct (GetPod_pure podName podNamespace w) as [pod Hpod]. rewrite Hpod.
  destruct pod as [pod|]; [| by eexists _, _].
  destruct (bind_volumes_binds (pod_namespace pod) node (pod_pvClaims pod) w Hplain) as (r & w1 & Hrun & Hr).
  unfold bind at 1. rewrite Hrun. destruct r as [e|]; [by eexists _, _ |].
  unfold bind, attempt. destruct (BindPod pod node w1) as [[[]|e|y] w'] eqn:Hb; [| by eexists _, _ | ].
  - exists "", w'. split; [done |]. intros _. exists pod, w1. split_and!; [done | done |].
    intros claim pv Hin Hpv Hout. destruct Hr as (_ & _ & Hr). destruct (Hr claim pv Hin Hpv Hout) as [H1 H2].
    split; [| done]. intros E. rewrite (proj1 (BindPod_keeps _ _ _ _ _ Hb)). by apply H1.
  - destruct (BindPod_total pod node w1 y). by rewrite Hb.
Qed.
End bind_proofs.

(** ** Witnesses *)

(** A pod with a volume that is not bound, and one that is bound to another node. *)
Definition durable_pv (name claim node : string) : PersistentVolume :=
  mkPersistentVolume "1" name "" (PersistentVolumeKey claim "default") ("0001-0000-0005-" +:+ name) true node false 1000 "" 0.
Definition two_volumes : HostPathControl * sim_cluster :=
  (mkHostPathControl {[ "default/p2" := mkPod "u2" "1" "p2" "default" ["c1"; "c2"] ]} ∅
     {[ "pvc-1" := durable_pv "pvc-1" "c1" ""; "pvc-2" := durable_pv "pvc-2" "c2" "n2" ]},
   mkSimCluster {[ "pvc-1" := core_pv "pvc-1" "c1" "" 1000; "pvc-2" := core_pv "pvc-2" "c2" "n2" 1000 ]}
     {[ "n1" := core_node "n1"; "n2" := core_node "n2" ]} ∅).

(** binding is not all or nothing: when a later volume of the pod is bound to
    another node, the call fails, but the volumes before it stay bound to the node
    that the pod does not go to. *)
Theorem Bind_partial :
  exists err s', Bind "p2" "default" "n1" two_volumes = (Ok err, s') /\ err <> "" /\
    api_bind_node "pvc-1" two_volumes = "" /\ api_bind_node "pvc-1" s' = "n1".
Proof. eexists _, _. split; [vm_compute; reflexivity |]. by vm_compute. Qed.

#[local] Instance sim_control_laws : HostPathControllerLaws (HostPathControl * sim_cluster).
Proof. apply HostPathControl_laws. done. Defined.

Definition bound_pod : HostPathControl * sim_cluster := (Bind "p2" "default" "n2" two_volumes).2.

Lemma Bind_spec_witness :
  exists err w', Bind "p2" "default" "n2" two_volumes = (Ok err, w') /\
  (err = "" -> exists pod w1,
     GetPod "p2" "default" two_volumes = (Ok (Some pod), two_volumes) /\ BindPod pod "n2" w1 = (Ok tt, w') /\
     forall claim pv, claim ∈ pod_pvClaims pod -> volume_of claim (pod_namespace pod) two_volumes = Some pv ->
       outlives_pod pv -> bound_to "n2" pv w').
Proof. apply (Bind_spec "p2" "default" "n2" two_volumes). by vm_compute. Defined.

Example bind_succeeds :
  (Bind "p2" "default" "n2" two_volumes).1 = Ok "" /\ api_bind_node "pvc-1" bound_pod = "n2" /\
  sc_bound bound_pod.2 !! "default/p2" = Some "n2".
Proof. by vm_compute. Qed.
