(* ===== verification/Scheduling.v ===== *)
(** * Pods stay with their volumes

    The extender binds a pod to a node together with the durable volumes it uses, by
    what its caches say of them.  The caches lag behind the server, several binds may
    be under way, and the nodes patch the same objects.  This file puts binds, watch
    and the nodes' reports into one system: when every bind sees the current state of
    the pod's volumes, no volume ever moves away from a pod that was bound with it; and
    what happens when it does not. *)

From S2P Require Import Prelude GoStrings VolId Os HostPathApi Base64 Json Annotations HostPathClient HostPathController Informers Bind.
Open Scope Z_scope.
Open Scope go_scope.

(** ** One bind *)

Section one_bind.
Context {W : Type} `{HostPathControllerLaws W}.

(** The caches have of the pod's durable volumes the node that the server has. *)
Definition fresh_for (ns : string) (claims : list string) (w : W) : Prop :=
  forall claim pv, claim ∈ claims -> volume_of claim ns w = Some pv -> outlives_pod pv ->
    pv_bindNode pv = bind_node (pv_name pv) w.

(** A volume that a bind of these claims may give a node. *)
Definition may_bind (ns : string) (claims : list string) (w : W) (name : string) : Prop :=
  exists claim pv, claim ∈ claims /\ volume_of claim ns w = Some pv /\ outlives_pod pv /\ pv_name pv = name /\ pv_bindNode pv = "".

(** The loop over the claims changes the node of such volumes only, and no cache. *)
Lemma bind_volumes_only ns node claims : forall w r w',
  plain node = true -> bind_volumes ns node claims w = (Ok r, w') ->
  (forall claim ns, volume_of claim ns w' = volume_of claim ns w) /\
  forall name, bind_node name w' = bind_node name w \/ (may_bind ns claims w name /\ bind_node name w' = node).
Proof.
  induction claims as [|c claims IH]; intros w r w' Hplain E; cbn [bind_volumes] in E.
  { injection E as <- <-. split; [done | by left]. }
  unfold bind at 1 in E. rewrite volume_of_read in E.
  assert (Hskip : forall w1, bind_volumes ns node claims w1 = (Ok r, w') ->
    (forall claim ns, volume_of claim ns w1 = volume_of claim ns w) ->
    (forall name, bind_node name w1 = bind_node name w \/ (may_bind ns (c :: claims) w name /\ bind_node name w1 = node)) ->
    (forall claim ns, volume_of claim ns w' = volume_of claim ns w) /\
    forall name, bind_node name w' = bind_node name w \/ (may_bind ns (c :: claims) w name /\ bind_node name w' = node)).
  { intros w1 E1 Hv Hn. destruct (IH w1 r w' Hplain E1) as [Hv' Hn']. split; [intros claim ns'; by rewrite Hv' |].
    intros name. destruct (Hn' name) as [-> | [(claim & pv & Hin & Hpv & Hout & Hname & Hempty) Hnode]]; [apply Hn |].
    right. split; [| done]. exists claim, pv. rewrite <- Hv. split_and!; [by right | done..]. }
  destruct (volume_of c ns w) as [pv|] eqn:Hpv; [| by eapply Hskip; [exact E | done | by left]].
  destruct (pv_isHostPathPv pv) eqn:Hhp; cbn [negb] in E; [| by eapply Hskip; [exact E | done | by left]].
  destruct (pv_ephemeral pv) eqn:He; [by eapply Hskip; [exact E | done | by left] |].
  destruct (go_len (pv_bindNode pv) =? 0) eqn:Hlen.
  - assert (Hempty : pv_bindNode pv = "") by (by destruct (pv_bindNode pv)).
    unfold bind at 1, attempt in E.
    destruct (BindPV_total (pv_name pv) node w) as (rb & w1 & Hb & Hnp & _ & Hlook). rewrite Hb in E.
    destruct (BindPV_only _ _ _ _ _ Hplain Hb) as [Hself Hother].
    assert (Hv1 : forall claim ns, volume_of claim ns w1 = volume_of claim ns w)
      by (intros claim ns'; unfold volume_of; by rewrite Hlook).
    assert (Hn1 : forall name, bind_node name w1 = bind_node name w \/ (may_bind ns (c :: claims) w name /\ bind_node name w1 = node)).
    { intros name. destruct (decide (name = pv_name pv)) as [-> | Hne]; [| left; by apply Hother].
      destruct Hself as [Hs | Hs]; [right | by left]. split; [| done]. exists c, pv. by split_and!; [left | ..]. }
    destruct rb as [[] | e | y]; [by eapply Hskip | injection E as <- <-; by split | by destruct (Hnp y)].
  - case_decide; [injection E as <- <-; split; [done | by left] |]. by eapply Hskip; [exact E | done | by left].
Qed.

(** A whole bind: it always answers, and moves no volume away from a node when it has
    seen the current state. *)
Lemma Bind_only p ns node w :
  plain node = true ->
  exists err w', Bind p ns node w = (Ok err, w') /\
  match (GetPod p ns w).1 with
  | Ok (Some pod) =>
      (forall claim ns, volume_of claim ns w' = volume_of claim ns w) /\
      (forall name, bind_node name w' = bind_node name w \/
         (may_bind (pod_namespace pod) (pod_pvClaims pod) w name /\ bind_node name w' = node)) /\
      (err = "" -> forall claim pv, claim ∈ pod_pvClaims pod -> volume_of claim (pod_namespace pod) w = Some pv ->
         outlives_pod pv -> bound_to node pv w')
  | _ => err <> "" /\ w' = w
  end.
Proof.
  intros Hplain. unfold Bind, bind at 1. destruct (GetPod_pure p ns w) as [pod Hpod]. rewrite Hpod. cbn [fst].
  destruct pod as [pod|]; [| by eexists _, _].
  destruct (bind_volumes_binds (pod_namespace pod) node (pod_pvClaims pod) w Hplain) as (r & w1 & Hrun & Hr).
  destruct (bind_volumes_only _ _ _ _ _ _ Hplain Hrun) as [Hv Hn].
  unfold bind at 1. rewrite Hrun. destruct r as [e|]; [exists e, w1; by split_and! |].
  unfold bind, attempt. destruct (BindPod pod node w1) as [rb w'] eqn:Hb.
  destruct (BindPod_keeps _ _ _ _ _ Hb) as [Hkeep Hlook].
  assert (Hv' : forall claim ns, volume_of claim ns w' = volume_of claim ns w)
    by (intros claim ns'; rewrite <- Hv; unfold volume_of; by rewrite Hlook).
  assert (Hn' : forall name, bind_node name w' = bind_node name w \/
     (may_bind (pod_namespace pod) (pod_pvClaims pod) w name /\ bind_node name w' = node))
    by (intros name; rewrite Hkeep; apply Hn).
  destruct rb as [[] | e | y]; [| | by destruct (BindPod_total pod node w1 y); rewrite Hb].
  - exists "", w'. split_and!; [done | done | done |]. intros _ claim pv Hin Hpv Hout.
    destruct Hr as (_ & _ & Hr). destruct (Hr claim pv Hin Hpv Hout) as [H1 H2].
    split; [| done]. intros Hempty. rewrite Hkeep. by apply H1.
  - eexists _, w'. split; [done |]. split_and!; [done | done |]. intros [=].
Qed.
End one_bind.

(** ** Two binds that have not seen each other *)

Section race.
Context {W : Type} `{KubeApiLaws W}.
Context (order_fixed : forall ks (w w' : W), map_order ks w = map_order ks w').
#[local] Instance race_laws : HostPathControllerLaws (HostPathControl * W) := HostPathControl_laws order_fixed.
Implicit Types (c : HostPathControl) (w : W).

(** A server that refuses nothing: it takes every patch that applies to the annotations
    of a volume it has, and binds pods. *)
Definition server_accepts : Prop :=
  (forall name patch pv w, pv_Get name w = inl pv -> is_Some (apply_patch patch (om_Annotations (cpv_meta pv))) ->
     (pv_Patch name patch w).1 = None) /\
  (forall ns name uid node w, (pod_Bind ns name uid node w).1 = None).
Context (accepts : server_accepts).

(** The server has the volume, with annotations. *)
Definition annotated (name : string) w : Prop := exists pv, pv_Get name w = inl pv /\ is_Some (om_Annotations (cpv_meta pv)).

(** By the caches, the claims' durable volumes are free or on the node. *)
Definition bindable (ns node : string) (claims : list string) c w : Prop :=
  forall claim pv, claim ∈ claims -> volume_of claim ns (c, w) = Some pv -> outlives_pod pv ->
    pv_bindNode pv = "" /\ annotated (pv_name pv) w \/ pv_bindNode pv = node.

Lemma volume_of_cached claim ns c w w' : volume_of claim ns (c, w') = volume_of claim ns (c, w).
Proof. unfold volume_of. cbn. unfold ByIndex. by rewrite (order_fixed _ w' w). Qed.

Lemma GetPod_cached p ns pod c w w' : GetPod p ns (c, w) = (Ok pod, (c, w)) -> GetPod p ns (c, w') = (Ok pod, (c, w')).
Proof.
  cbn. unfold c_GetPod, gets, ByIndex. cbn. rewrite (order_fixed _ w' w). by intros [= ->].
Qed.

Lemma bindable_later ns node claims c w w' :
  (forall name, annotated name w -> annotated name w') -> bindable ns node claims c w -> bindable ns node claims c w'.
Proof.
  intros Hann Hb claim pv Hin Hpv Hout. rewrite (volume_of_cached _ _ c w w') in Hpv.
  destruct (Hb claim pv Hin Hpv Hout) as [[He Ha] | Hn]; [left; split; [done | by apply Hann] | by right].
Qed.

Lemma BindPV_accepted name node c w :
  plain node = true -> annotated name w ->
  exists w', BindHostPathPV name node (c, w) = (Ok tt, (c, w')) /\ forall other, annotated other w -> annotated other w'.
Proof.
  intros Hplain (pv & Hget & [m Hm]). cbn. unfold c_BindHostPathPV, on_api, zoom, sys_write, getHostPathPVBindNodePatchBytes. cbn.
  destruct accepts as [Hacc _]. specialize (Hacc name (annotation_patch HostPathPvBindInfoAnn node) pv w Hget).
  rewrite Hm, apply_annotation_patch in Hacc by done. specialize (Hacc ltac:(by eexists)).
  destruct (pv_Patch _ _ w) as [o w'] eqn:Hp. cbn in Hacc. subst o. exists w'. split; [done |].
  apply pv_patched in Hp as (pv0 & anns & version & _ & _ & Hg' & Hother & _); [| by apply annotation_patch_ok].
  intros other Ha. destruct (decide (other = name)) as [-> | Hne].
  - eexists. split; [exact Hg' |]. by eexists.
  - unfold annotated. by rewrite Hother.
Qed.

Lemma bind_volumes_accepted ns node claims c : forall w,
  plain node = true -> node <> "" -> bindable ns node claims c w ->
  exists w', bind_volumes ns node claims (c, w) = (Ok None, (c, w')) /\ forall other, annotated other w -> annotated other w'.
Proof.
  induction claims as [|claim claims IH]; intros w Hplain Hne Hb; cbn [bind_volumes]; [by exists w |].
  assert (Hrest : forall w1, (forall other, annotated other w -> annotated other w1) -> bindable ns node claims c w1)
    by (intros w1 Hw1; apply (bindable_later _ _ _ c w w1 Hw1); intros cl pv Hin; apply Hb; by right).
  unfold bind at 1. rewrite volume_of_read. destruct (volume_of claim ns (c, w)) as [pv|] eqn:Hpv; [| by apply IH, Hrest].
  destruct (pv_isHostPathPv pv) eqn:Hhp; cbn [negb]; [| by apply IH, Hrest].
  destruct (pv_ephemeral pv) eqn:He; [by apply IH, Hrest |].
  destruct (Hb claim pv ltac:(by left) Hpv ltac:(by split)) as [[Hempty Ha] | Hnode].
  - rewrite Hempty. cbn [go_len]. change (go_len "" =? 0) with true. cbn match. unfold bind at 1, attempt.
    destruct (BindPV_accepted (pv_name pv) node c w Hplain Ha) as (w1 & -> & Hw1).
    destruct (IH w1 Hplain Hne (Hrest w1 Hw1)) as (w' & Hrun & Hw'). exists w'. split; [exact Hrun |]. auto.
  - rewrite Hnode. destruct (go_len node =? 0) eqn:Hl; [by destruct node |]. rewrite decide_False by (by intros Hd). by apply IH, Hrest.
Qed.

Lemma Bind_accepted p ns node pod c w :
  plain node = true -> node <> "" -> GetPod p ns (c, w) = (Ok (Some pod), (c, w)) ->
  bindable (pod_namespace pod) node (pod_pvClaims pod) c w ->
  exists w', Bind p ns node (c, w) = (Ok "", (c, w')) /\ forall other, annotated other w -> annotated other w'.
Proof.
  intros Hplain Hne Hpod Hb. unfold Bind, bind at 1. rewrite Hpod.
  destruct (bind_volumes_accepted _ _ _ c w Hplain Hne Hb) as (w1 & Hrun & Hw1). unfold bind at 1. rewrite Hrun.
  unfold bind, attempt. cbn. unfold c_BindPod, on_api, zoom, sys_write. cbn.
  destruct (pod_Bind _ _ _ _ w1) as [o w'] eqn:Hbind. pose proof (proj2 accepts (pod_namespace pod) (pod_name pod) (pod_UID pod) node w1) as Ho. rewrite Hbind in Ho. cbn in Ho. subst o.
 
  exists w'. split; [done |]. intros other Ha. unfold annotated. rewrite (pod_bound _ _ _ _ _ _ _ Hbind). by apply Hw1.
Qed.

(** C26: Binding relies on the caches: nothing in the patch that binds a volume checks
    that it is still unbound.  When the server refuses nothing and two pods share a
    durable volume which the caches show without a node, their other volumes being free
    or in place, then binding the first pod to one node and the second to another, before
    the watch, succeeds both times: the volume is moved from the first pod's node to the
    second's.  What the second call saw was then out of date. *)
Theorem stale_bind_moves p1 p2 ns1 ns2 n1 n2 pod1 pod2 name c w :
  plain n1 = true -> plain n2 = true -> n1 <> "" -> n2 <> "" -> n1 <> n2 ->
  GetPod p1 ns1 (c, w) = (Ok (Some pod1), (c, w)) -> GetPod p2 ns2 (c, w) = (Ok (Some pod2), (c, w)) ->
  bindable (pod_namespace pod1) n1 (pod_pvClaims pod1) c w -> bindable (pod_namespace pod2) n2 (pod_pvClaims pod2) c w ->
  may_bind (pod_namespace pod1) (pod_pvClaims pod1) (c, w) name ->
  may_bind (pod_namespace pod2) (pod_pvClaims pod2) (c, w) name ->
  exists w1 w2, Bind p1 ns1 n1 (c, w) = (Ok "", (c, w1)) /\ Bind p2 ns2 n2 (c, w1) = (Ok "", (c, w2)) /\
    api_bind_node name (c, w1) = n1 /\ api_bind_node name (c, w2) = n2 /\
    ~ fresh_for (pod_namespace pod2) (pod_pvClaims pod2) (c, w1).
Proof.
  intros Hp1 Hp2 Hn1 Hn2 Hne Hg1 Hg2 Hb1 Hb2 (c1 & pv1 & Hc1 & Hv1 & Ho1 & Hname1 & He1) (c2 & pv2 & Hc2 & Hv2 & Ho2 & Hname2 & He2).
  destruct (Bind_accepted p1 ns1 n1 pod1 c w Hp1 Hn1 Hg1 Hb1) as (w1 & E1 & Hw1).
  assert (Hg2' : GetPod p2 ns2 (c, w1) = (Ok (Some pod2), (c, w1))) by (by apply (GetPod_cached _ _ _ c w)).
  destruct (Bind_accepted p2 ns2 n2 pod2 c w1 Hp2 Hn2 Hg2' (bindable_later _ _ _ c w w1 Hw1 Hb2)) as (w2 & E2 & _).
  exists w1, w2. split_and!; [exact E1 | exact E2 | ..].
  all: destruct (Bind_only p1 ns1 n1 (c, w) Hp1) as (err1 & s1 & E1' & H1); rewrite E1 in E1'; injection E1' as <- <-;
    destruct (Bind_only p2 ns2 n2 (c, w1) Hp2) as (err2 & s2 & E2' & H2); rewrite E2 in E2'; injection E2' as <- <-;
    rewrite Hg1 in H1; rewrite Hg2' in H2; cbn [fst] in H1, H2; destruct H1 as (_ & _ & H1); destruct H2 as (_ & _ & H2);
    rewrite <- (volume_of_cached c2 _ c w w1) in Hv2.
  - rewrite <- Hname1. by apply (H1 eq_refl c1 pv1).
  - rewrite <- Hname2. by apply (H2 eq_refl c2 pv2).
  - intros Hfresh. apply Hn1. transitivity (api_bind_node name (c, w1)); [symmetry; rewrite <- Hname1; by apply (H1 eq_refl c1 pv1) |].
    rewrite <- Hname2, <- He2. symmetry. by apply (Hfresh c2).
Qed.
End race.

(** ** The system *)

(** A pod that was bound: the durable volumes it uses, and its node *)
Record placement := mkPlacement { pl_volumes : list string; pl_node : string }.

Record scheduler (W : Type) := mkScheduler {
  sch_caches : HostPathControl;
  sch_world : W;
  sch_placed : list placement
}.
Arguments mkScheduler {W}.
Arguments sch_caches {W}.
Arguments sch_world {W}.
Arguments sch_placed {W}.

Section system.
Context {W : Type} `{KubeApiLaws W}.
Context (order_fixed : forall ks (w w' : W), map_order ks w = map_order ks w').
#[local] Instance control_laws : HostPathControllerLaws (HostPathControl * W) := HostPathControl_laws order_fixed.
Implicit Types (c : HostPathControl) (w : W).

Definition durable_name (pv : PersistentVolume) : option string :=
  if pv_isHostPathPv pv && negb (pv_ephemeral pv) then Some (pv_name pv) else None.
Definition durable_names (ns : string) (claims : list string) (s : HostPathControl * W) : list string :=
  omap (fun claim => volume_of claim ns s ≫= durable_name) claims.

(** What is noted of a bind that answers [err]. *)
Definition note_bind (p ns node err : string) (s : HostPathControl * W) (l : list placement) : list placement :=
  match decide (err = ""), (GetPod p ns s).1 with
  | left _, Ok (Some pod) => mkPlacement (durable_names (pod_namespace pod) (pod_pvClaims pod) s) node :: l
  | _, _ => l
  end.

(** A bind, which has seen the current state of the pod's volumes; the watch, which
    changes the caches; pods that end; the reports of the nodes. *)
Inductive sched_step : scheduler W -> scheduler W -> Prop :=
  | sched_bind p ns node c w l err s' :
      plain node = true -> node <> "" ->
      (forall pod, (GetPod p ns (c, w)).1 = Ok (Some pod) -> fresh_for (pod_namespace pod) (pod_pvClaims pod) (c, w)) ->
      Bind p ns node (c, w) = (Ok err, s') ->
      sched_step (mkScheduler c w l) (mkScheduler s'.1 s'.2 (note_bind p ns node err (c, w) l))
  | sched_watch c' c w l : sched_step (mkScheduler c w l) (mkScheduler c' w l)
  | sched_leave l' c w l : l' ⊆ l -> sched_step (mkScheduler c w l) (mkScheduler c w l')
  | sched_report name hpv c w l r w' :
      hp_UpdateHostPathPVUsageInfo name hpv w = (r, w') -> sched_step (mkScheduler c w l) (mkScheduler c w' l)
  | sched_report_node name usage c w l r w' :
      hp_UpdateNodeHostPathPVUsageInfo name usage w = (r, w') -> sched_step (mkScheduler c w l) (mkScheduler c w' l)
  | sched_disable name disk state c w l r w' :
      hp_SetHostPathDiskDisableState name disk state w = (r, w') -> sched_step (mkScheduler c w l) (mkScheduler c w' l).

Definition placed_ok (s : scheduler W) : Prop :=
  forall pl, pl ∈ sch_placed s -> pl_node pl <> "" /\
    forall name, name ∈ pl_volumes pl -> api_bind_node name (sch_caches s, sch_world s) = pl_node pl.

Lemma placed_ok_world c w c' w' l :
  placed_ok (mkScheduler c w l) -> (forall name, api_bind_node name (c', w') = api_bind_node name (c, w)) ->
  placed_ok (mkScheduler c' w' l).
Proof.
  intros Hok Hsame pl Hpl. destruct (Hok pl Hpl) as [Hne Hv]. split; [done |]. intros name Hin. cbn.
  rewrite Hsame. by apply Hv.
Qed.

(** A report of the usage of a volume is another annotation. *)
Lemma report_keeps_bind name hpv c w r w' other :
  hp_UpdateHostPathPVUsageInfo name hpv w = (r, w') -> api_bind_node other (c, w') = api_bind_node other (c, w).
Proof.
  intros E. unfold hp_UpdateHostPathPVUsageInfo, sys_write, getHostPathPVUsageInfoPatchBytes in E.
  set (value := b64_encode _) in E.
  assert (Hpatch : patches_annotation (annotation_patch HostPathPVUsageInfoAnn value))
    by (apply annotation_patch_ok; [done | apply b64_encode_plain]).
  assert (Happ : pv_applied name (annotation_patch HostPathPVUsageInfoAnn value) w w' ->
    api_bind_node other (c, w') = api_bind_node other (c, w)).
  { intros (pv0 & anns & version & Hg & Ha & Hg' & Hother & _). unfold api_bind_node. cbn [snd].
    apply apply_annotation_patch_inv in Ha as ->; [| done | apply b64_encode_plain].
    destruct (decide (other = name)) as [-> | Hne]; [| by rewrite Hother].
    rewrite Hg, Hg'. unfold getHostPathPVBindNode. cbn [cpv_meta].
    change (om_anns (with_annotations ?a version ?m)) with a. unfold annotation. by rewrite lookup_insert_ne. }
  destruct (pv_Patch _ _ w) as [[e|] w1] eqn:Hp; injection E as _ <-.
  - apply pv_patch_failed in Hp as [Hsame | Hp]; [| by apply Happ | done]. unfold api_bind_node. cbn [snd]. by rewrite Hsame.
  - by apply Happ, pv_patched.
Qed.

Lemma node_patch_keeps_bind name patch c w r w' other :
  sys_write (node_Patch name patch) w = (r, w') -> api_bind_node other (c, w') = api_bind_node other (c, w).
Proof.
  unfold sys_write. destruct (node_Patch _ _ w) as [o w1] eqn:Hp. intros E.
  assert (w' = w1) as -> by (destruct o; by injection E as _ <-).
  unfold api_bind_node. cbn [snd]. by rewrite (node_patch_pvs _ _ _ _ _ Hp).
Qed.

Lemma disable_keeps_bind name disk state c w r w' other :
  hp_SetHostPathDiskDisableState name disk state w = (r, w') -> api_bind_node other (c, w') = api_bind_node other (c, w).
Proof.
  unfold hp_SetHostPathDiskDisableState, bind at 1, sys_read. destruct (node_Get name w) as [nd | e]; [| by intros [= _ <-]].
  unfold bind, gets. apply node_patch_keeps_bind.
Qed.

Lemma elem_of_durable ns claims s name :
  name ∈ durable_names ns claims s ->
  exists claim pv, claim ∈ claims /\ volume_of claim ns s = Some pv /\ outlives_pod pv /\ pv_name pv = name.
Proof.
  unfold durable_names. rewrite list_elem_of_omap. intros (claim & Hin & E). exists claim.
  destruct (volume_of claim ns s) as [pv|]; [| done]. exists pv. cbn in E. unfold durable_name in E. unfold outlives_pod.
  destruct (pv_isHostPathPv pv), (pv_ephemeral pv); cbn in E; by simplify_eq.
Qed.

(** The node of a volume on the server *)
Definition bound_node (name : string) (s : scheduler W) : string := api_bind_node name (sch_caches s, sch_world s).

(** A bind that has seen the current state moves no volume from a node. *)
Lemma Bind_stays p ns node c w r s' name n :
  plain node = true ->
  (forall pod, (GetPod p ns (c, w)).1 = Ok (Some pod) -> fresh_for (pod_namespace pod) (pod_pvClaims pod) (c, w)) ->
  Bind p ns node (c, w) = (r, s') -> n <> "" -> api_bind_node name (c, w) = n -> api_bind_node name s' = n.
Proof.
  intros Hplain Hfresh E Hn Hname. destruct (Bind_only p ns node (c, w) Hplain) as (err & s1 & E' & Hb).
  rewrite E in E'. injection E' as _ <-. destruct (GetPod p ns (c, w)).1 as [[pod|] | e | y]; [| by destruct Hb as [_ ->]..].
  destruct Hb as (_ & Honly & _). destruct (Honly name) as [Hs | [(claim & pv & Hin & Hpv & Hout & <- & Hempty) _]].
  - change (api_bind_node name s' = api_bind_node name (c, w)) in Hs. congruence.
  - pose proof (Hfresh pod eq_refl claim pv Hin Hpv Hout) as Hf.
    change (pv_bindNode pv = api_bind_node (pv_name pv) (c, w)) in Hf. congruence.
Qed.

(** No step moves a volume from a node. *)
Lemma sched_step_stays s s' name n : sched_step s s' -> n <> "" -> bound_node name s = n -> bound_node name s' = n.
Proof.
  intros Hs Hn Hname. destruct Hs as [p ns node c w l err [c' w'] Hplain Hne Hfresh E | c' c w l | l' c w l Hl | nm hpv c w l r w' E
    | nm usage c w l r w' E | nm disk state c w l r w' E]; unfold bound_node in *; cbn in *; [| done | done | ..].
  - exact (Bind_stays p ns node c w (Ok err) (c', w') name n Hplain Hfresh E Hn Hname).
  - by rewrite (report_keeps_bind _ _ c _ _ _ name E).
  - by rewrite (node_patch_keeps_bind _ _ c _ _ _ name E).
  - by rewrite (disable_keeps_bind _ _ _ c _ _ _ name E).
Qed.

Lemma sched_step_ok s s' : placed_ok s -> sched_step s s' -> placed_ok s'.
Proof.
  intros Hok Hs.
  assert (Hold : forall pl, pl ∈ sch_placed s -> pl_node pl <> "" /\
    forall name, name ∈ pl_volumes pl -> bound_node name s' = pl_node pl).
  { intros pl Hpl. destruct (Hok pl Hpl) as [Hn Hv]. split; [done |]. intros name Hin.
    apply (sched_step_stays s s' name (pl_node pl) Hs Hn), Hv, Hin. }
  destruct Hs as [p ns node c w l err [c' w'] Hplain Hne Hfresh E | c' c w l | l' c w l Hl | nm hpv c w l r w' E
    | nm usage c w l r w' E | nm disk state c w l r w' E]; [| exact Hold | | exact Hold..].
  2: { intros pl Hpl. by apply Hold, Hl. }
  destruct (Bind_only p ns node (c, w) Hplain) as (err' & s1 & E' & Hb). pose proof E as E0. rewrite E in E'. injection E' as <- <-.
  intros pl. cbn [fst snd sch_placed]. unfold note_bind. destruct (decide (err = "")) as [-> |]; [| apply Hold].
  destruct (GetPod p ns (c, w)).1 as [[pod|] | e | y] eqn:Hg; [| apply Hold..].
  intros [-> | Hpl]%elem_of_cons; [| by apply Hold]. cbn. split; [done |].
  intros name (claim & pv & Hin & Hpv & Hout & <-)%elem_of_durable.
  destruct Hb as (_ & _ & Hbound). destruct (Hbound eq_refl claim pv Hin Hpv Hout) as [H1 H2].
  destruct (decide (pv_bindNode pv = "")) as [Hempty | Hnempty]; [by apply H1 |].
  apply (Bind_stays p ns node c w (Ok "") (c', w') (pv_name pv) node Hplain
    (fun pod' Hp => Hfresh pod' (eq_trans (eq_sym Hg) Hp)) E0 Hne).
  rewrite <- (H2 Hnempty). symmetry. exact (Hfresh pod eq_refl claim pv Hin Hpv Hout).
Qed.

(** A volume cache that holds only conversions of what the server has now is current;
    it is what the volume informer's cache holds of the bound volumes when nothing
    waits in its queue and nothing has been patched since. *)
Definition cache_current (c : HostPathControl) (w : W) : Prop :=
  forall k pv, pvLister c !! k = Some pv -> exists core, pv_Get (pv_name pv) w = inl core /\ ToHostPathVolume core = Ok pv.

Lemma cache_current_fresh c w ns claims : cache_current c w -> fresh_for ns claims (c, w).
Proof.
  intros Hc claim pv _ Hpv [Hhp _].
  change (head (ByIndex (fun ks => map_order ks w) pvClaimNameNamespaceIndexFunc (PersistentVolumeKey claim ns) (pvLister c)) = Some pv) in Hpv.
  apply head_Some_elem_of in Hpv as Hin.
  apply elem_of_ByIndex in Hin as (k & Hk & _). destruct (Hc k pv Hk) as (core & Hg & Hcore).
  change (pv_bindNode pv = api_bind_node (pv_name pv) (c, w)). unfold api_bind_node. cbn [snd]. rewrite Hg.
  unfold ToHostPathVolume in Hcore. repeat case_match; simplify_eq; cbn in *; try done; by destruct Hhp.
Qed.

(** The volume informer provides it: once its queue is empty and the server has not
    moved on from what it reported, the cache is current. *)
Lemma synced_current order Fine t c w :
  (forall ks, order ks ≡ₚ elements ks) ->
  reachable (pv_informer_step order Fine) (informer_start NewPVInformer.1) t -> if_unsettled t = ∅ ->
  fifo_queue (in_fifo (if_informer t)) = [] -> pvLister c = in_indexer (if_informer t) ->
  (forall k pv, if_reported t !! k = Some (KPV pv) -> pv_Get (om_Name (cpv_meta pv)) w = inl pv) -> cache_current c w.
Proof.
  intros Hperm Hr HU Hq Hc Hw k hpv Hk. rewrite Hc in Hk.
  rewrite (informer_mirrors ToPV pv_key is_pv order ToPV_key Hperm _ k t Hr) in Hk;
    [| rewrite HU; apply not_elem_of_empty | rewrite Hq; apply not_elem_of_nil].
  destruct (if_reported t !! k) as [o|] eqn:Hm; [| done]. cbn in Hk. unfold converted in Hk.
  destruct (ToPV o) as [hpv' | |] eqn:E; [| done..]. injection Hk as ->.
  apply ToPV_Ok in E as (pv & -> & _ & E). pose proof (ToHostPathVolume_meta pv hpv E) as [Hn _].
  exists pv. split; [| done]. rewrite Hn. by eapply Hw.
Qed.

(** C10: Pods stay with their volumes: whatever binds, watch updates, usage reports and
    disk switches the system goes through, every durable volume of a pod that was bound
    with success is on the server at the pod's node, provided each bind has seen the
    current node of the pod's volumes. *)
Theorem pods_follow_volumes s0 s pl name :
  sch_placed s0 = [] -> reachable sched_step s0 s ->
  pl ∈ sch_placed s -> name ∈ pl_volumes pl -> api_bind_node name (sch_caches s, sch_world s) = pl_node pl.
Proof.
  intros Hinit Hr Hpl Hin. assert (Hok : placed_ok s).
  { revert Hr. apply reachable_invariant; [| apply sched_step_ok]. intros pl0 Hp0. rewrite Hinit in Hp0. by apply not_elem_of_nil in Hp0. }
  by apply Hok.
Qed.
End system.


(** ** Runs *)

Definition durable_core (name claim node : string) : CorePV :=
  mkCorePV (sim_meta name "" {[ HostPathPvBindInfoAnn := node ]}) (Some (mkObjectReference claim "default"))
    (Some (mkCSISource HostPathCsiDriverName ("0001-0000-0005-" +:+ name))) 1000 VolumeBound.

(** Two pods that share a volume, of which the caches know no node. *)
Definition shared_volume : HostPathControl * sim_cluster :=
  (mkHostPathControl {[ "default/p1" := mkPod "u1" "1" "p1" "default" ["c1"]; "default/p2" := mkPod "u2" "1" "p2" "default" ["c1"] ]} ∅
     {[ "pvc-1" := durable_pv "pvc-1" "c1" "" ]},
   mkSimCluster {[ "pvc-1" := durable_core "pvc-1" "c1" "" ]} {[ "n1" := core_node "n1"; "n2" := core_node "n2" ]} ∅).
Definition bound_first : HostPathControl * sim_cluster := (Bind "p1" "default" "n1" shared_volume).2.

Lemma same_order : forall ks (w w' : sim_cluster), map_order ks w = map_order ks w'.
Proof. done. Qed.

Lemma sim_accepts : server_accepts (W := sim_cluster).
Proof.
  split; [| done]. intros name patch pv w Hg [anns Ha]. cbn in *. unfold sim_pv_patch.
  destruct (sc_pvs w !! name) as [pv'|]; [| done]. injection Hg as ->. by rewrite Ha.
Qed.

Lemma shared_bindable node : bindable "default" node ["c1"] shared_volume.1 shared_volume.2.
Proof.
  intros claim pv ->%list_elem_of_singleton Hpv _. left. vm_compute in Hpv. injection Hpv as <-. split; [done |].
  exists (durable_core "pvc-1" "c1" ""). split; [by vm_compute | by eexists].
Qed.

Lemma shared_may_bind : may_bind "default" ["c1"] shared_volume "pvc-1".
Proof. by exists "c1", (durable_pv "pvc-1" "c1" ""); split_and!; [left | vm_compute..]. Qed.

Lemma stale_bind_moves_witness :
  exists w1 w2, Bind "p1" "default" "n1" shared_volume = (Ok "", (shared_volume.1, w1)) /\
    Bind "p2" "default" "n2" (shared_volume.1, w1) = (Ok "", (shared_volume.1, w2)) /\
    api_bind_node "pvc-1" (shared_volume.1, w2) = "n2".
Proof.
  destruct (stale_bind_moves same_order sim_accepts "p1" "p2" "default" "default" "n1" "n2"
    (mkPod "u1" "1" "p1" "default" ["c1"]) (mkPod "u2" "1" "p2" "default" ["c1"]) "pvc-1" shared_volume.1 shared_volume.2)
    as (w1 & w2 & E1 & E2 & _ & Hn & _);
    [by vm_compute | by vm_compute | discriminate.. | vm_compute; reflexivity | vm_compute; reflexivity
      | apply shared_bindable | apply shared_bindable | exact shared_may_bind | exact shared_may_bind |].
  exists w1, w2. split; [exact E1 | split; [exact E2 | exact Hn]].
Defined.

(** The first of them alone, through the system. *)
Definition sched_before : scheduler sim_cluster := mkScheduler shared_volume.1 shared_volume.2 [].
Definition sched_after : scheduler sim_cluster :=
  mkScheduler bound_first.1 bound_first.2 [mkPlacement ["pvc-1"] "n1"].

Lemma shared_volume_current : cache_current shared_volume.1 shared_volume.2.
Proof.
  intros k pv Hk. cbn in Hk. apply lookup_singleton_Some in Hk as [<- <-].
  exists (durable_core "pvc-1" "c1" ""). by vm_compute.
Qed.

Lemma first_bind : Bind "p1" "default" "n1" shared_volume = (Ok "", bound_first).
Proof. by vm_compute. Qed.
Lemma first_noted : note_bind "p1" "default" "n1" "" shared_volume [] = [mkPlacement ["pvc-1"] "n1"].
Proof. by vm_compute. Qed.

Lemma sched_bound : reachable (sched_step same_order) sched_before sched_after.
Proof.
  apply reachable_one. unfold sched_after. rewrite <- first_noted.
  apply (sched_bind same_order "p1" "default" "n1" shared_volume.1 shared_volume.2 [] "" bound_first).
  - by vm_compute.
  - done.
  - intros pod _. apply cache_current_fresh, shared_volume_current.
  - exact first_bind.
Qed.

Lemma pods_follow_volumes_witness : api_bind_node "pvc-1" bound_first = "n1".
Proof.
  apply (pods_follow_volumes same_order sched_before sched_after (mkPlacement ["pvc-1"] "n1") "pvc-1" eq_refl sched_bound); by left.
Defined.
