(* ===== verification/Fleet.v ===== *)
(** * Pods, nodes and disks as one system

    [Scheduling] follows the nodes that volumes are bound to, [Survival] the directories
    that the volumes of one node have.  Here they are put together: one controller and any
    number of nodes, each with its disks, its node server and its worker, next to the
    scheduler's extender.  A durable volume has its data on one node, the one that its
    pods are bound to, in one directory. *)

From S2P Require Import Prelude IdLocker GoStrings VolId Os SimOs Util FileSystem Allocator QuotaProvider QuotaManager HeldVolumes.
From S2P Require Import Recovery Tidy Restart Csi CsiCommon Locked MetaStore ControllerServer HostPathApi Base64 Json Annotations HostPathClient.
From S2P Require Import NodeServer SyncWorker LifeCycle Survival HostPathController Informers Bind Scheduling.
Open Scope Z_scope.
Open Scope go_scope.

(** The name of the PV is in the id: the provisioner asks for a volume with the name that
    it gives the PV, and [GetHostPathPVByVolumeId] looks the PV up under it. *)
Definition pv_of (v : string) : string :=
  match DecomposeCSIID v (mkCSIIdentifier 0 false "") with (Ok _, vi) => VolumeName vi | _ => "" end.

(** A node: its process and disks, and where its worker is *)
Record station (Q Wn : Type) := mkStation {
  st_node : NodeServer Q * Wn;
  st_retry : list string;
  st_phase : worker_phase
}.
Arguments mkStation {Q Wn}.
Arguments st_node {Q Wn}.
Arguments st_retry {Q Wn}.
Arguments st_phase {Q Wn}.

Record fleet (Q Wn Wm W : Type) := mkFleet {
  fl_controller : ControllerServer * Wm;
  fl_deleted : gset string;
  fl_nodes : gmap string (station Q Wn);
  fl_sched : scheduler W
}.
Arguments mkFleet {Q Wn Wm W}.
Arguments fl_controller {Q Wn Wm W}.
Arguments fl_deleted {Q Wn Wm W}.
Arguments fl_nodes {Q Wn Wm W}.
Arguments fl_sched {Q Wn Wm W}.

Section fleet.
Context {R Wn Wm W : Type} `{RandLaws R} `{LookupLaws Wn} `{MetaStoreLaws Wm} `{KubeApiLaws W}.
Context (order_fixed : forall ks (w w' : W), map_order ks w = map_order ks w').
Context (re : list string) (re_ne : re <> []) (re_normal : Forall normal_elem re).
Abbreviation Mgr := (XFSQuotaManager (QuotaVolumeProvider (ProjectIDAllocator R))).
Implicit Types f : fleet (XFSQuotaManager (QuotaVolumeProvider (ProjectIDAllocator R))) Wn Wm W.
Implicit Types x : station (XFSQuotaManager (QuotaVolumeProvider (ProjectIDAllocator R))) Wn.
Implicit Types s : system (XFSQuotaManager (QuotaVolumeProvider (ProjectIDAllocator R))) Wn Wm.

(** What a node and the controller are together: a system of [LifeCycle]. *)
Definition view f x : system Mgr Wn Wm :=
  mkSystem (fl_controller f) (st_node x) (st_retry x) (st_phase x) (fl_deleted f).
Definition viewed (name : string) s f : fleet Mgr Wn Wm W :=
  mkFleet (sys_controller s) (sys_deleted s)
    (<[ name := mkStation (sys_node s) (sys_retry s) (sys_phase s) ]> (fl_nodes f)) (fl_sched f).

Definition held_at x : gset string := held (W := Wn) (mgr (st_node x)).

(** A pod that was bound to the node uses the volume. *)
Definition used_at (name v : string) f : Prop :=
  exists pl, pl ∈ sch_placed (fl_sched f) /\ pl_node pl = name /\ pv_of v ∈ pl_volumes pl.

(** The node that a volume is bound to *)
Definition home (v : string) f : string := bound_node (pv_of v) (fl_sched f).

(** A call of the kubelet to publish a volume: the volume exists, its id is the name of a
    directory, and a durable one is of a pod of this node.  Any other call of the controller, of the node or of its worker,
    and starts of the processes; they place no volume ([others_place_nothing]).  The calls
    of the extender, the watch, pods that end and reports.  Changes of the cluster from
    outside: they leave the node of volumes that exist or are used. *)
Inductive fleet_step : fleet Mgr Wn Wm W -> fleet Mgr Wn Wm W -> Prop :=
  | fl_publish name x req r n' f :
      fl_nodes f !! name = Some x -> foreign re (np_TargetPath req) ->
      NodePublishVolume req (st_node x) = (r, n') ->
      (forall volume, publishes req (st_node x) volume ->
         no_char slash (pv_volId volume) /\ pv_volId volume ∈ existing (fl_controller f) /\
         (ephemeral_id (pv_volId volume) = false -> used_at name (pv_volId volume) f)) ->
      fleet_step f (viewed name (mkSystem (fl_controller f) n' (st_retry x) (st_phase x) (fl_deleted f)) f)
  | fl_call name x s' f :
      fl_nodes f !! name = Some x -> cluster_step re (view f x) s' ->
      held (W := Wn) (mgr (sys_node s')) ⊆ held_at x -> fleet_step f (viewed name s' f)
  | fl_schedule sch' f :
      sched_step order_fixed (fl_sched f) sch' ->
      fleet_step f (mkFleet (fl_controller f) (fl_deleted f) (fl_nodes f) sch')
  | fl_outside w' f :
      let sch' := mkScheduler (sch_caches (fl_sched f)) w' (sch_placed (fl_sched f)) in
      (forall v, v ∈ existing (fl_controller f) -> bound_node (pv_of v) sch' = home v f) ->
      (forall pl name, pl ∈ sch_placed (fl_sched f) -> name ∈ pl_volumes pl -> bound_node name sch' = bound_node name (fl_sched f)) ->
      fleet_step f (mkFleet (fl_controller f) (fl_deleted f) (fl_nodes f) sch').

(** ** A step of the fleet, seen from one node *)

(** What the controller does at one node, it does at all. *)
Lemma shared_step s s' n rt ph :
  cluster_step re s s' ->
  let o := mkSystem (sys_controller s) n rt ph (sys_deleted s) in
  let o' := mkSystem (sys_controller s') n rt ph (sys_deleted s') in
  o' = o \/ cluster_step re o o'.
Proof.
  intros Hs. destruct Hs as [s s' Hs _ | | | driver c n0 rt0 ph0 dl]; cbn; [| by left.. | right; apply cl_controller_start].
  destruct Hs; cbn; try (by left).
  - right. apply cl_call; [by eapply step_create | apply call_none].
  - right. apply cl_call; [by eapply step_delete | apply call_none].
  - left. match goal with E : ListMetaInfos _ = _ |- _ => apply List_same in E as [-> _] end. by destruct c.
  - left. match goal with E : ListMetaInfos _ = _ |- _ => apply List_same in E as [-> _] end. by destruct c.
Qed.

Lemma viewed_lookup name s f n x' :
  fl_nodes (viewed name s f) !! n = Some x' ->
  n = name /\ x' = mkStation (sys_node s) (sys_retry s) (sys_phase s) \/ n <> name /\ fl_nodes f !! n = Some x'.
Proof. cbn. rewrite lookup_insert_Some. naive_solver. Qed.

Lemma viewed_views name x s' f n x' :
  fl_nodes f !! name = Some x -> cluster_step re (view f x) s' -> fl_nodes (viewed name s' f) !! n = Some x' ->
  exists x0, fl_nodes f !! n = Some x0 /\ (view (viewed name s' f) x' = view f x0 \/ cluster_step re (view f x0) (view (viewed name s' f) x')).
Proof.
  intros Hx Hs [[-> ->] | [Hne Hx']]%viewed_lookup.
  - exists x. split; [done |]. right. by destruct s'.
  - exists x'. split; [done |]. exact (shared_step (view f x) s' (st_node x') (st_retry x') (st_phase x') Hs).
Qed.

(** Publishing is one of the calls of the node. *)
Lemma publish_step name x req r n' f :
  foreign re (np_TargetPath req) -> NodePublishVolume req (st_node x) = (r, n') ->
  (forall volume, publishes req (st_node x) volume ->
     no_char slash (pv_volId volume) /\ pv_volId volume ∈ existing (fl_controller f) /\
     (ephemeral_id (pv_volId volume) = false -> used_at name (pv_volId volume) f)) ->
  cluster_step re (view f x) (mkSystem (fl_controller f) n' (st_retry x) (st_phase x) (fl_deleted f)).
Proof.
  intros Hp E Hpub. apply cl_call.
  - eapply step_publish; [exact E |]. intros volume Hv. by apply Hpub.
  - cbn. replace n' with (NodePublishVolume req (st_node x)).2 by (by rewrite E). apply call_publish; [done |]. intros volume Hv. by apply Hpub.
Qed.

(** Every node sees a step of its system, or none. *)
Lemma fleet_step_views f f' n x' :
  fleet_step f f' -> fl_nodes f' !! n = Some x' ->
  exists x, fl_nodes f !! n = Some x /\ (view f' x' = view f x \/ cluster_step re (view f x) (view f' x')).
Proof.
  intros Hs. destruct Hs as [name x req r n' f Hx Hp E Hpub | name x s' f Hx Hs _ | sch' f _ | w' f sch' _ _].
  - apply (viewed_views name x _ f n x' Hx). by eapply publish_step.
  - by apply (viewed_views name x).
  - intros Hx'. exists x'. split; [done | by left].
  - intros Hx'. exists x'. split; [done | by left].
Qed.

(** No node is lost. *)
Lemma fleet_step_nodes f f' n x : fleet_step f f' -> fl_nodes f !! n = Some x -> is_Some (fl_nodes f' !! n).
Proof.
  intros Hs Hx. destruct Hs; [| | done | done]; cbn; (destruct (decide (n = name)) as [-> | Hne];
    [rewrite lookup_insert_eq; by eexists | rewrite lookup_insert_ne; [by exists x | congruence]]).
Qed.

(** ** What is placed, and for whom *)

(** Every call that is none of [NodePublishVolume] places no volume. *)
Lemma others_place_nothing vols s s' :
  sys_ok s -> at_node re vols (sys_node s) -> cluster_step re s s' ->
  (exists req r, NodePublishVolume req (sys_node s) = (r, sys_node s')) \/
  held (W := Wn) (mgr (sys_node s')) ⊆ held (W := Wn) (mgr (sys_node s)).
Proof.
  intros Hok Hn Hs. pose proof Hok as (Hids & _). destruct Hs as [s s' Hs _ | c n rt ph dl w' Hw | seed c n rt ph dl m' w' E | driver c n rt ph dl].
  2: { by right. }
  2: { right. cbn -[held]. by rewrite (proj1 (proj2 (start_at_node re re_ne re_normal vols n seed m' w' NewVolumeLocks Hn E))). }
  2: { by right. }
  destruct Hs as [| | | req c n rt ph dl r n' E | req c n rt ph dl r n' E | c n rt dl r n' E Hp | infos v todo failed failed' c n rt dl r n' E Hf
    | | | | v todo failed failed' c n rt dl r n' E Hf | | c n rt ph dl r n' E | mp d c n rt ph dl r n' E]; cbn [sys_node] in *; try (by right).
  - left. by eexists _, _.
  - right. destruct (unpublish_calls _ _ _ _ E) as [-> | (_ & w1 & rr & w2 & Er)]; [done |].
    apply release_law in Er as [_ ->]; [| done]. destruct rr as [[] | |]; set_solver.
  - right. destruct (expand_calls _ _ _ _ E) as [-> | (cap & w1 & rr & w2 & Er)]; [done |].
    apply expand_law in Er as [_ ->]; done.
  - right. apply srv_manager_run in E as [E _]. by apply list_law in E as (_ & -> & _).
  - right. apply (release_abstract v) in E as [_ ->]; [| done]. destruct r as [[] | |]; set_solver.
  - right. apply (release_abstract v) in E as [_ ->]; [| done]. destruct r as [[] | |]; set_solver.
  - right. apply srv_manager_run in E as [E _]. by apply disks_law in E as [_ ->].
  - right. apply srv_manager_run in E as [E _]. by apply disable_law in E as [_ ->].
Qed.

(** Publishing places at most the volume that it has found. *)
Lemma publish_places req x r n' v :
  ids_ok (W := Wn) (mgr (st_node x)) -> NodePublishVolume req (st_node x) = (r, n') ->
  v ∈ held (W := Wn) (mgr n') -> v ∈ held_at x \/ exists volume, publishes req (st_node x) volume /\ pv_volId volume = v.
Proof.
  intros Hids E Hv. destruct (publish_calls _ _ _ _ E) as [Hm | (volume & w1 & rr & w2 & Hp & Hg)].
  - left. unfold held_at. by rewrite <- Hm.
  - apply place_law in Hg as [_ Hh]; [| done]. rewrite Hh in Hv. destruct rr; [| by left..].
    apply elem_of_union in Hv as [->%elem_of_singleton | Hv]; [right; by exists volume | by left].
Qed.

(** A durable volume that exists is only on the node that it is bound to. *)
Definition homes f : Prop := forall name x v,
  fl_nodes f !! name = Some x -> v ∈ held_at x -> ephemeral_id v = false -> v ∈ existing (fl_controller f) ->
  home v f = name /\ name <> "".

Definition fleet_ok f : Prop :=
  (forall name x, fl_nodes f !! name = Some x -> cluster_ok re (view f x)) /\ placed_ok (fl_sched f) /\ homes f.

(** What exists on a node after a step, without being placed by it, existed before. *)
Lemma existed s s' v :
  cluster_ok re s -> cluster_ok re s' -> cluster_step re s s' ->
  v ∈ held (W := Wn) (mgr (sys_node s)) -> v ∈ existing (sys_controller s') -> v ∈ existing (sys_controller s).
Proof.
  intros [Hok [vols Hn]] [(_ & [Hd' _] & _) _] Hs Hh Hx.
  destruct (cluster_step_ok re re_ne re_normal vols s s' Hok Hn Hs) as (Hv & _). apply vol_step_mono in Hv as [Hg _].
  destruct Hok as (_ & [_ Hp] & _). assert (Hin : v ∈ live (abstraction s) ∪ gone (abstraction s)) by by apply Hp.
  apply elem_of_union in Hin as [Hin | Hin]; [done |]. exfalso. exact (Hd' v Hx (Hg v Hin)).
Qed.

(** The nodes stay well-formed. *)
Lemma fleet_nodes_ok f f' name x' :
  fleet_ok f -> fleet_step f f' -> fl_nodes f' !! name = Some x' -> cluster_ok re (view f' x').
Proof.
  intros (Hok & _) Hs Hx'. destruct (fleet_step_views f f' name x' Hs Hx') as (x & Hx & [-> | Hc]); [by eapply Hok |].
  destruct (Hok name x Hx) as [Hsys [vols Hn]].
  destruct (cluster_step_ok re re_ne re_normal vols _ _ Hsys Hn Hc) as (_ & Hsys' & vols' & Hn' & _). split; [done | by exists vols'].
Qed.

(** Volumes that were on a node before stay at home. *)
Lemma homes_old f f' name x x' v :
  fleet_ok f -> fleet_step f f' -> fl_sched f' = fl_sched f -> fl_nodes f !! name = Some x -> fl_nodes f' !! name = Some x' ->
  view f' x' = view f x \/ cluster_step re (view f x) (view f' x') ->
  v ∈ held_at x -> ephemeral_id v = false -> v ∈ existing (fl_controller f') -> home v f' = name /\ name <> "".
Proof.
  intros Hf Hs Hsch Hx Hx' Hview Hv He Hex. unfold home. rewrite Hsch. destruct Hf as (Hok & Hpl & Hhome).
  apply (Hhome name x v Hx Hv He). destruct Hview as [E | Hc]; [apply (f_equal sys_controller) in E; cbn in E; by rewrite <- E |].
  apply (existed (view f x) (view f' x') v); [by eapply Hok | | done..]. by apply (fleet_nodes_ok f f' name).
Qed.

Lemma fleet_step_homes f f' : fleet_ok f -> fleet_step f f' -> homes f'.
Proof.
  intros Hf Hs name0 x' v Hx' Hv He Hex.
  destruct (fleet_step_views f f' name0 x' Hs Hx') as (x0 & Hx0 & Hview).
  assert (Hold : fl_sched f' = fl_sched f -> v ∈ held_at x0 -> home v f' = name0 /\ name0 <> "")
    by (intros Hsch Hv0; by apply (homes_old f f' name0 x0 x')).
  pose proof Hf as (Hok & Hpl & Hhome).
  destruct Hs as [name x req r n' f Hx Hp E Hpub | name x s' f Hx Hs Hsub | sch' f Hs | w' f sch' Hkeep _].
  - apply viewed_lookup in Hx' as Hcase. destruct Hcase as [[-> ->] | [Hne Hx1]]; [| apply Hold; [done |]; congruence].
    assert (x0 = x) as -> by congruence.
    destruct (publish_places req x r n' v) as [Hh | (volume & Hvol & <-)]; [apply (Hok _ _ Hx) | done | done | by apply Hold |].
    destruct (Hpub volume Hvol) as (_ & _ & Hused). destruct (Hused He) as (pl & Hin & <- & Hname).
    destruct (Hpl pl Hin) as [Hne Hb]. split; [| done]. by apply Hb.
  - apply viewed_lookup in Hx' as Hcase. destruct Hcase as [[-> ->] | [Hne Hx1]]; [| apply Hold; [done |]; congruence].
    assert (x0 = x) as -> by congruence. apply Hold; [done |]. by apply Hsub.
  - destruct (Hhome name0 x' v Hx' Hv He Hex) as [Hh Hne]. split; [| done].
    exact (sched_step_stays order_fixed (fl_sched f) sch' (pv_of v) name0 Hs Hne Hh).
  - destruct (Hhome name0 x' v Hx' Hv He Hex) as [Hh Hne]. split; [| done]. rewrite <- Hh. by apply Hkeep.
Qed.

Lemma fleet_step_ok f f' : fleet_ok f -> fleet_step f f' -> fleet_ok f'.
Proof.
  intros Hf Hs. split_and!; [intros name x'; by apply (fleet_nodes_ok f f') | | by eapply fleet_step_homes].
  destruct Hf as (_ & Hpl & _). destruct Hs as [| | sch' f Hs | w' f sch' _ Hkeep]; [exact Hpl | exact Hpl | by eapply sched_step_ok |].
  intros pl Hin. destruct (Hpl pl Hin) as [Hne Hb]. split; [done |]. intros name Hn.
  change (bound_node name sch' = pl_node pl). rewrite (Hkeep pl name Hin Hn). by apply Hb.
Qed.

(** The fleet at its start: every node has been started on disks that hold volumes only,
    no pod is bound, and the durable volumes on the nodes are bound to them. *)
Definition fleet_init f : Prop :=
  (forall name x, fl_nodes f !! name = Some x -> sys_init (view f x) /\ exists seed w vols,
     CheckDirExists (abs_path re) w = true /\ tidy re w vols /\ clearable re w /\
     NewXfsQuotaManager seed (abs_path re) w = (Ok (inl (mgr (st_node x))), (st_node x).2)) /\
  sch_placed (fl_sched f) = [] /\ homes f.

Lemma fleet_reaches f0 f : fleet_init f0 -> reachable fleet_step f0 f -> fleet_ok f.
Proof.
  intros (Hnodes & Hpl & Hhome). apply reachable_invariant; [| apply fleet_step_ok]. split_and!; [| | done].
  - intros name x Hx. destruct (Hnodes name x Hx) as (Hi & seed & w & vols & Hroot & Ht & Hc & E).
    by apply (cluster_start re re_ne re_normal seed w vols).
  - intros pl Hin. rewrite Hpl in Hin. by apply not_elem_of_nil in Hin.
Qed.

(** C1: A durable volume has one home: whatever the servers, the workers, the extender,
    the watch and the users do - calls that fail and new starts included - as long as
    binds see current caches and kubelets publish the volumes of pods of their node, a
    durable volume that exists and has a directory on a node is used only by pods that
    were bound to this node, has no directory on any other node, is given to the next pod
    in the very directory, and keeps it, on the same device, in the next step. *)
Theorem data_has_one_home f0 f name x v :
  fleet_init f0 -> reachable fleet_step f0 f -> fl_nodes f !! name = Some x ->
  v ∈ held_at x -> ephemeral_id v = false -> v ∈ existing (fl_controller f) ->
  (forall pl, pl ∈ sch_placed (fl_sched f) -> pv_of v ∈ pl_volumes pl -> pl_node pl = name) /\
  (forall name' x', fl_nodes f !! name' = Some x' -> v ∈ held_at x' -> name' = name) /\
  exists path device, whereabouts (mgr (st_node x)) !! v = Some (path, device) /\
    (forall capacity w, GetVolumeQuotaPath v capacity (mgr (st_node x), w) = (Ok path, (mgr (st_node x), w))) /\
    (forall f', fleet_step f f' -> exists x', fl_nodes f' !! name = Some x' /\
       whereabouts (mgr (st_node x')) !! v = Some (path, device)).
Proof.
  intros Hinit Hr Hx Hv He Hex. pose proof (fleet_reaches f0 f Hinit Hr) as (Hok & Hpl & Hhome).
  destruct (Hhome name x v Hx Hv He Hex) as [Hh Hne]. split_and!.
  - intros pl Hin Hn. destruct (Hpl pl Hin) as [_ Hb]. rewrite <- Hh. symmetry. by apply Hb.
  - intros name' x' Hx' Hv'. destruct (Hhome name' x' v Hx' Hv' He Hex) as [Hh' _]. congruence.
  - pose proof Hv as Hq. change (v ∈ dom (quotas (mgr (st_node x)))) in Hq. apply elem_of_dom in Hq as [q Hq].
    exists (path_Path q), (path_DeviceName q). assert (Hw : whereabouts (mgr (st_node x)) !! v = Some (path_Path q, path_DeviceName q))
      by (unfold whereabouts; by rewrite lookup_fmap, Hq).
    split_and!; [done | intros capacity w; exact (GetVolumeQuotaPath_known (mgr (st_node x), w) v capacity q Hq) |].
    intros f' Hs. destruct (fleet_step_nodes f f' name x Hs Hx) as [x' Hx']. exists x'. split; [done |].
    destruct (fleet_step_views f f' name x' Hs Hx') as (x0 & Hx0 & Hview). assert (x0 = x) as -> by congruence.
    destruct Hview as [E | Hc]; [apply (f_equal sys_node) in E; cbn in E; by rewrite E |].
    destruct (Hok name x Hx) as [Hsys [vols Hn]].
    exact (eq_trans (proj2 (stays_put re re_ne re_normal vols _ _ v Hsys Hn Hc He Hex Hv)) Hw).
Qed.
End fleet.

(** ** Two nodes, a volume and a pod *)

#[local] Existing Instance run_client.
#[local] Existing Instance run_meta.
#[local] Existing Instance run_meta_laws.
#[local] Existing Instance run_lookup.

Abbreviation sim_fleet := (fleet manager sim sim_api sim_cluster).
Abbreviation fleet_run := (fleet_step same_order the_root).

(** A pod that uses the volume of [run_create], in the caches and on the server *)
Definition one_pod : HostPathControl * sim_cluster :=
  (mkHostPathControl {[ "default/p1" := mkPod "u1" "1" "p1" "default" ["c1"] ]} ∅ {[ "pvc-2" := durable_pv "pvc-2" "c1" "" ]},
   mkSimCluster {[ "pvc-2" := durable_core "pvc-2" "c1" "" ]} {[ "n1" := core_node "n1"; "n2" := core_node "n2" ]} ∅).
Definition pod_bound : HostPathControl * sim_cluster := (Bind "p1" "default" "n1" one_pod).2.
Definition sched_unbound : scheduler sim_cluster := mkScheduler one_pod.1 one_pod.2 [].
Definition sched_with_pod : scheduler sim_cluster := mkScheduler pod_bound.1 pod_bound.2 [mkPlacement ["pvc-2"] "n1"].

Definition idle : station manager sim := mkStation (sys_node run0) [] Resting.
Definition fleet0 : sim_fleet := mkFleet (sys_controller run0) ∅ {[ "n1" := idle; "n2" := idle ]} sched_unbound.
Definition fleet1 : sim_fleet := viewed "n1" run1 fleet0.
Definition fleet2 : sim_fleet := mkFleet (fl_controller fleet1) ∅ (fl_nodes fleet1) sched_with_pod.
Definition created : station manager sim := mkStation (sys_node run1) (sys_retry run1) (sys_phase run1).
Definition fleet3 : sim_fleet :=
  viewed "n1" (mkSystem (fl_controller fleet2) (sys_node run2) (st_retry created) (st_phase created) (fl_deleted fleet2)) fleet2.
Definition serving : station manager sim := mkStation (sys_node run2) (st_retry created) (st_phase created).

Lemma fleet0_nodes name x : fl_nodes fleet0 !! name = Some x -> x = idle.
Proof. cbn. rewrite lookup_insert_Some, lookup_singleton_Some. naive_solver. Qed.

Lemma idle_view : view fleet0 idle = run0.
Proof. reflexivity. Qed.

Lemma idle_starts : NewXfsQuotaManager 7 (abs_path the_root) sim_empty = (Ok (inl (mgr (st_node idle))), (st_node idle).2).
Proof. exact started_eq. Qed.

Lemma idle_empty v : v ∈ held_at idle -> False.
Proof.
  change (held_at idle) with (dom (quotas started.1)). rewrite started_quotas, dom_empty_L. apply not_elem_of_empty.
Qed.

Lemma fleet0_starts : fleet_init the_root fleet0.
Proof.
  split_and!; [| done |].
  - intros name x ->%fleet0_nodes. rewrite idle_view. split; [exact run_starts |]. exists 7, sim_empty, ∅.
    split_and!; [done | exact empty_tidy | exact empty_clearable | exact idle_starts].
  - intros name x v ->%fleet0_nodes Hv. by destruct (idle_empty v).
Qed.

Lemma nothing_placed : held (mgr (sys_node run1)) ⊆ held_at idle.
Proof. unfold held_at, idle, run1. cbn [sys_node st_node]. apply reflexivity. Qed.

Lemma fleet_creates : fleet_run fleet0 fleet1.
Proof.
  apply (fl_call same_order the_root "n1" idle run1 fleet0); [reflexivity | | exact nothing_placed].
  rewrite idle_view. apply cl_call; [exact run_step1 | apply call_none].
Qed.

Lemma one_pod_current : cache_current one_pod.1 one_pod.2.
Proof.
  intros k pv Hk. cbn in Hk. apply lookup_singleton_Some in Hk as [<- <-].
  exists (durable_core "pvc-2" "c1" ""). by vm_compute.
Qed.
Lemma pod_bind : Bind "p1" "default" "n1" one_pod = (Ok "", pod_bound).
Proof. by vm_compute. Qed.
Lemma pod_noted : note_bind "p1" "default" "n1" "" one_pod [] = [mkPlacement ["pvc-2"] "n1"].
Proof. by vm_compute. Qed.

Lemma pod_binds : sched_step same_order sched_unbound sched_with_pod.
Proof.
  unfold sched_with_pod. rewrite <- pod_noted.
  apply (sched_bind same_order "p1" "default" "n1" one_pod.1 one_pod.2 [] "" pod_bound);
    [by vm_compute | done | intros pod _; apply cache_current_fresh, one_pod_current | exact pod_bind].
Qed.

Lemma fleet_schedules : fleet_run fleet1 fleet2.
Proof. exact (fl_schedule same_order the_root sched_with_pod fleet1 pod_binds). Qed.

Lemma fleet_publishes : fleet_run fleet2 fleet3.
Proof.
  eapply (fl_publish same_order the_root "n1" created run_publish _ (sys_node run2) fleet2); [reflexivity | exact pods_foreign | apply surjective_pairing |].
  intros volume (s1 & s2 & _ & E). unfold srv_world, zoom in E. cbn in E. injection E as <- _.
  split; [by vm_compute |]. split; [by vm_compute |]. intros _. exists (mkPlacement ["pvc-2"] "n1"). split_and!; [by left | done | by left].
Qed.

Lemma fleet3_reached : reachable fleet_run fleet0 fleet3.
Proof.
  eapply reachable_next; [eapply reachable_next; [apply reachable_one, fleet_creates | exact fleet_schedules] | exact fleet_publishes].
Qed.

Lemma node_serves : fl_nodes fleet3 !! "n1" = Some serving.
Proof. unfold fleet3, serving, viewed. cbn [fl_nodes sys_node sys_retry sys_phase]. apply lookup_insert_eq. Qed.

Lemma data_has_one_home_witness :
  durable_id ∈ held_at serving /\
  (forall name' x', fl_nodes fleet3 !! name' = Some x' -> durable_id ∈ held_at x' -> name' = "n1") /\
  (forall pl, pl ∈ sch_placed sched_with_pod -> "pvc-2" ∈ pl_volumes pl -> pl_node pl = "n1").
Proof.
  assert (Hv : durable_id ∈ held_at serving) by by vm_compute. split; [exact Hv |].
  destruct (data_has_one_home same_order the_root ltac:(done) root_normal fleet0 fleet3 "n1" serving durable_id
    fleet0_starts fleet3_reached node_serves Hv ltac:(by vm_compute) ltac:(by vm_compute)) as (Hpods & Hnodes & _).
  split; [exact Hnodes | exact Hpods].
Defined.
