(* ===== verification/Admission.v ===== *)
(** * What the scheduler promises and the node does

    The sync worker of a node reports its disks; the extender filters the node by the
    report; the node places the volumes of the pod, one by one, when the kubelet
    publishes them.  This file follows the room of the disks through all three: for one
    new volume the extender's answer is the node's, for two it may not be. *)

From S2P Require Import Prelude GoStrings VolId Os SimOs Util Allocator QuotaProvider QuotaManager.
From S2P Require Import HostPathApi Base64 Json Annotations HostPathClient MetaStore NodeServer SyncWorker HostPathController Predicate.
Open Scope Z_scope.
Open Scope go_scope.

(** ** What a list of the disks says of their room *)

Section rooms.
Context {P W : Type} `{LinuxVolumeQuotaProvider P W} `{OS W}.
Implicit Types s : XFSQuotaManager P * W.

(** What the extender gets to know of a disk *)
Definition room (d : DiskQuotaInfo) : string * Z * bool := (disk_MountPoint d, disk_AllocatableSize d, disk_Disabled d).
Definition rooms s : gmap string (string * Z * bool) := room <$> diskQuotaInfos s.1.

Lemma on_os_disks {A} (c : M W A) s r s' : on_os (P := P) c s = (r, s') -> rooms s' = rooms s.
Proof. unfold on_os, zoom. destruct s as [m w]. cbn. destruct (c w) as [r1 w1]. by intros [= _ <-]. Qed.

Lemma on_provider_disks {A} (c : M (P * W) A) s r s' : on_provider c s = (r, s') -> rooms s' = rooms s.
Proof. unfold on_provider, zoom. destruct s as [m w]. cbn. destruct (c _) as [r1 [p w1]]. by intros [= _ <-]. Qed.

Lemma rooms_lookup s n d : diskQuotaInfos s.1 !! n = Some d -> rooms s !! n = Some (room d).
Proof. intros Hd. unfold rooms. by rewrite lookup_fmap, Hd. Qed.

(** One round of the loop: the entry, with its room as it is *)
Lemma list_disk_rooms name s l s' :
  list_disk name s = (Ok l, s') -> rooms s' = rooms s /\ map room l = option_list (rooms s !! name).
Proof.
  unfold list_disk. intros E. apply bind_Ok in E as (o & s0 & E0 & E). injection E0 as <- <-.
  destruct (diskQuotaInfos s.1 !! name) as [d|] eqn:Hd.
  2: { injection E as <- <-. split; [done |]. unfold rooms. by rewrite lookup_fmap, Hd. }
  rewrite (rooms_lookup s name d Hd).
  apply bind_Ok in E as (now & s1 & E1 & E). apply on_os_disks in E1. apply bind_Ok in E as (max & s2 & E2 & E). injection E2 as _ <-.
  destruct (_ >? _); [| injection E as <- <-; by split].
  apply bind_Ok in E as (quota & s3 & E3 & E). apply on_provider_disks in E3.
  apply bind_Ok in E as (now' & s4 & E4 & E). apply on_os_disks in E4.
  apply bind_Ok in E as ([] & s5 & E5 & E). injection E5 as <-. injection E as <- <-. split; [| done].
  transitivity (rooms s4); [| congruence]. unfold rooms. cbn. rewrite fmap_insert.
  apply insert_id. change (rooms s4 !! name = Some (room d)). rewrite E4, E3, E1. by apply rooms_lookup.
Qed.

Lemma list_disks_rooms names : forall s ll s',
  collect names list_disk s = (Ok ll, s') -> rooms s' = rooms s /\ map room (concat ll) = omap (fun n => rooms s !! n) names.
Proof.
  induction names as [|n names IH]; intros s ll s' E; cbn [collect] in E; [by injection E as <- <- |].
  apply bind_Ok in E as (l & s1 & E1 & E). apply bind_Ok in E as (rest & s2 & E2 & E). injection E as <- <-.
  apply list_disk_rooms in E1 as [H1 Hl]. apply IH in E2 as [H2 Hr]. split; [congruence |].
  cbn [concat omap list_omap]. rewrite map_app, Hl, Hr, H1. by destruct (rooms s !! n).
Qed.

(** The list has every disk, with its room as it stays. *)
Lemma ListQuotaDiskInfos_rooms `{!OSLaws W} s infos s' :
  xfs_ListQuotaDiskInfos s = (Ok infos, s') ->
  rooms s' = rooms s /\ map room infos ≡ₚ omap (fun n => rooms s !! n) (elements (dom (rooms s))).
Proof.
  unfold xfs_ListQuotaDiskInfos, range_disks. intros E. apply bind_Ok in E as (names & s1 & E1 & E).
  apply bind_Ok in E1 as (ds & s0 & E0 & E1). injection E0 as <- <-.
  apply bind_Ok in E as (ll & s2 & E2 & E). injection E as <- <-.
  pose proof (on_os_disks _ _ _ _ E1) as H1. apply list_disks_rooms in E2 as [H2 Hl]. split; [congruence |].
  assert (Hp : names ≡ₚ elements (dom (diskQuotaInfos s.1))).
  { pose proof (range_order_perm (dom (diskQuotaInfos s.1)) s.2) as Hp. revert E1. unfold on_os, zoom, sys_value.
    destruct (range_order _ s.2). by intros [= <- _]. }
  rewrite Hl, H1. assert (Ed : dom (rooms s) = dom (diskQuotaInfos s.1)) by (unfold rooms; apply dom_fmap_L). by rewrite Ed, Hp.
Qed.

Lemma elem_of_rooms `{!OSLaws W} s infos s' x :
  xfs_ListQuotaDiskInfos s = (Ok infos, s') -> x ∈ map room infos <-> exists n, rooms s' !! n = Some x.
Proof.
  intros [Hs Hp]%ListQuotaDiskInfos_rooms. rewrite Hp, Hs, list_elem_of_omap.
  split; [intros (n & _ & Hn); by exists n |]. intros [n Hn]. exists n. split; [| done].
  apply elem_of_elements. by eapply elem_of_dom_2.
Qed.
End rooms.

(** ** The report *)

Definition reported (d : DiskQuotaInfo) : DiskInfo :=
  mkDiskInfo (disk_MountPoint d) (i64 (disk_Capacity d)) (i64 (disk_QuotaSize d)) (i64 (disk_Used d))
    (i64 (disk_AllocatableSize d)) (disk_Disabled d).

Lemma add_disks_status infos : forall n, nu_DiskStatus (foldl add_disk n infos) = nu_DiskStatus n ++ map reported infos.
Proof.
  induction infos as [|d infos IH]; intros n; cbn [foldl map]; [by rewrite app_nil_r |]. rewrite IH. cbn. by rewrite <- app_assoc.
Qed.

Lemma add_disks_sums infos : forall n,
  in_i64 (nu_Capacity n) -> in_i64 (nu_QuotaSize n) -> in_i64 (nu_Used n) -> in_i64 (nu_Allocatable n) ->
  let n' := foldl add_disk n infos in
  in_i64 (nu_Capacity n') /\ in_i64 (nu_QuotaSize n') /\ in_i64 (nu_Used n') /\ in_i64 (nu_Allocatable n').
Proof.
  induction infos as [|d infos IH]; intros n H1 H2 H3 H4; cbn [foldl]; [by split_and! |].
  apply IH; cbn; apply i64_range.
Qed.

Lemma report_disks infos : nu_DiskStatus (node_usage infos) ≡ₚ map reported infos.
Proof. unfold node_usage. cbn. by rewrite sort_by_perm, add_disks_status. Qed.

(** Every report can be written and read back. *)
Lemma report_ok infos : node_usage_ok (node_usage infos).
Proof.
  destruct (add_disks_sums infos empty_usage) as (H1 & H2 & H3 & H4); [done..|].
  unfold node_usage_ok. split_and!; cbn [nu_Capacity nu_QuotaSize nu_Used nu_AvailableSize nu_Allocatable node_usage]; try done; [apply i64_range |].
  rewrite report_disks. apply Forall_map, Forall_forall. intros d _. unfold disk_ok. split_and!; apply i64_range.
Qed.

Lemma report_range infos : Forall disk_range (nu_DiskStatus (node_usage infos)).
Proof. rewrite report_disks. apply Forall_map, Forall_forall. intros d _. unfold disk_range. apply i64_range. Qed.

(** ** Why a volume gets no directory *)

Section refusal.
Context {P W : Type} `{LinuxVolumeQuotaProvider P W} `{OSLaws W}.
Implicit Types s : XFSQuotaManager P * W.

(** What [GetVolumeQuotaPath] says when no disk has the room *)
Definition no_room (capacity : Z) : error :=
  Errorf ("failed allocate quotaPath, err " +:+ error_text (no_disk_error (u64 capacity))).

(** A new volume is refused for want of room exactly when no enabled disk has it. *)
Lemma refused_iff s v capacity :
  quotas s.1 !! v = None ->
  (xfs_GetVolumeQuotaPath v capacity s).1 = Fail (no_room capacity) <->
  forall n d, diskQuotaInfos s.1 !! n = Some d -> ~ eligible (u64 capacity) d.
Proof.
  intros Hv. unfold xfs_GetVolumeQuotaPath. unfold bind at 1, gets. rewrite Hv. unfold bind at 1, map_error.
  pose proof (hoare_allocateNewQuotaDir (P := P) (diskQuotaInfos s.1) (quotas s.1) v (u64 capacity) s (conj eq_refl eq_refl)) as Ha.
  destruct (allocateNewQuotaDir v (u64 capacity) s) as [[[dev path] | e | y] s1].
  - destruct Ha as [_ (n & d & Hd & _ & Hel & _)]. split; [| intros Hno; by destruct (Hno n d Hd)].
    unfold bind at 1. destruct (diskQuotaInfos s1.1 !! dev); [| done]. unfold bind at 1, attempt.
    destruct (on_provider _ s1) as [[u | err | y] s2]; [| | done].
    + unfold bind at 1. destruct (on_os _ s2) as [[now | e | y] s3] eqn:E3; [done | | done].
      unfold on_os, zoom, sys_value in E3. by destruct (time_Now _).
    + unfold bind, fail. by destruct (on_os _ s2) as [[] ?].
  - destruct Ha as [_ (e' & [= <-] & [[-> Hno] | (dev & path & cause & (n & d & Hd & _ & Hel & _) & ->)])].
    + split; [intros _; by apply Hno | done].
    + split; [done |]. intros Hno. by destruct (Hno n d Hd).
  - by destruct Ha as [_ (e & [=] & _)].
Qed.
End refusal.

(** ** From the node's disks to the extender *)

Section admission.
Context {P W K C : Type} `{LinuxVolumeQuotaProvider P W} `{OSLaws W} `{KubeApiLaws K} `{HostPathController C}.
Implicit Types s : XFSQuotaManager P * W.

(** All disks are enabled, and their room is a number that can be reported. *)
Definition all_enabled s : Prop :=
  forall n d, diskQuotaInfos s.1 !! n = Some d -> disk_Disabled d = false /\ 0 <= disk_AllocatableSize d < 2 ^ 63.

(** What is known of the node when the pod is filtered: the report of its disks was
    written to it. *)
Definition reported_by (host : string) (infos : list DiskQuotaInfo) (node : CoreNode) : Prop :=
  exists k k1 node0, hp_UpdateNodeHostPathPVUsageInfo (W := K) host (node_usage infos) k = (Ok tt, k1) /\
    node_Get host k = inl node0 /\ IsHostPathNode node0 = true /\ node_Get host k1 = inl node.

Lemma reported_usage host infos node : reported_by host infos node -> nd_diskUsage (ToHostPathNode node) = node_usage infos.
Proof.
  intros (k & k1 & node0 & Hup & Hget & Hhost & Hnode).
  destruct (node_usage_stored host (node_usage infos) k k1 node0 Hup (report_ok infos) Hget Hhost) as (node' & version & Hn & E).
  rewrite Hnode in Hn. injection Hn as <-. by rewrite E.
Qed.

(** Some reported disk has the room exactly when some disk of the manager has. *)
Lemma report_room s infos s1 capacity :
  xfs_ListQuotaDiskInfos s = (Ok infos, s1) -> all_enabled s1 -> 0 < capacity < 2 ^ 63 ->
  Exists (fun d => capacity <= di_Allocatable d) (nu_DiskStatus (node_usage infos)) <->
  exists n d, diskQuotaInfos s1.1 !! n = Some d /\ eligible (u64 capacity) d.
Proof.
  intros El Hen Hcap. assert (Hrooms := fun x => elem_of_rooms s infos s1 x El).
  assert (Hu : u64 capacity = capacity) by (apply u64_small; unfold in_u64; lia).
  rewrite report_disks, Exists_exists, Hu. split.
  - intros (d' & (d & -> & Hd)%list_elem_of_fmap & Hle). cbn in Hle.
    destruct (proj1 (Hrooms (room d)) (list_elem_of_fmap_2 room infos d Hd)) as [n Hn].
    unfold rooms in Hn. rewrite lookup_fmap in Hn. destruct (diskQuotaInfos s1.1 !! n) as [d1|] eqn:Hd1; [| done].
    injection Hn as _ Ha _. destruct (Hen n d1 Hd1) as [Hdis Hr]. exists n, d1. split; [done |]. split; [done |].
    rewrite <- Ha in Hle. rewrite i64_small in Hle by (unfold in_i64; lia). done.
  - intros (n & d & Hd & Hdis & Hle). destruct (Hen n d Hd) as [_ Hr].
    pose proof (proj2 (Hrooms (room d)) (ex_intro _ n (rooms_lookup s1 n d Hd))) as Hin.
    apply list_elem_of_fmap in Hin as (d0 & Hroom & Hin). injection Hroom as _ Ha _.
    exists (reported d0). split; [by apply list_elem_of_fmap_2 |]. cbn. rewrite <- Ha, i64_small; [done |]. unfold in_i64. lia.
Qed.

(** C5: The extender's answer is the node's, for one new volume: when the node's last
    report lists the disks as they still are, none of them switched off, [FilterNode]
    accepts the node for a pod whose volumes are usable there and one of which is new
    exactly when [GetVolumeQuotaPath] on the node does not refuse that volume for want of
    room - through the report with its 64-bit conversions, the sorting, JSON, base64, the
    patch, and the match. *)
Theorem admitted_volume_has_room s infos s1 host node c namespace volume_of pod pvs v capacity :
  xfs_ListQuotaDiskInfos s = (Ok infos, s1) -> reported_by host infos node -> all_enabled s1 ->
  (forall claim, GetPersistentVolumeByClaim claim namespace c = (Ok (volume_of claim), c)) ->
  om_Namespace (cpod_meta pod) = namespace ->
  Forall2 (fun claim pv => volume_of claim = Some pv) (omap id (cpod_claims pod)) pvs ->
  Forall (usable_on (ToHostPathNode node)) pvs -> new_requests pvs = [capacity] -> 0 < capacity < 2 ^ 63 ->
  quotas s1.1 !! v = None ->
  exists b, FilterNode pod node c = (Ok b, c) /\
    (b = true <-> (xfs_GetVolumeQuotaPath v capacity s1).1 <> Fail (no_room capacity)).
Proof.
  intros El Hrep Hen Hvol Hns Hf Hus Hreq Hcap Hv.
  destruct (FilterNode_suitable c namespace volume_of Hvol pod node Hns) as (b & Eb & Hb). exists b. split; [done |].
  assert (Hmatch : b = true <-> canNodeMatch [capacity] (nu_DiskStatus (node_usage infos)) = true).
  { rewrite Hb, <- (reported_usage host infos node Hrep). split.
    - intros (pvs' & Hf' & _ & Hor). rewrite <- (same_volumes _ _ _ _ Hf Hf'), Hreq in Hor. destruct Hor as [Hz | Hm]; [| done].
      unfold request_size in Hz. cbn in Hz. rewrite i64_small in Hz by (unfold in_i64; lia). lia.
    - intros Hm. exists pvs. split_and!; [done | done |]. right. by rewrite Hreq. }
  rewrite Hmatch, refused_iff by done.
  rewrite (proj2 (canNodeMatch_spec [capacity] _ ltac:(constructor; [lia | constructor]) (report_range infos)) capacity eq_refl).
  rewrite (report_room s infos s1 capacity El Hen Hcap). split.
  - intros (n & d & Hd & Hel) Hno. by destruct (Hno n d Hd).
  - intros Hno. destruct (decide (Exists (fun d => capacity <= di_Allocatable d) (nu_DiskStatus (node_usage infos)))) as [Hex | Hex].
    + by apply (report_room s infos s1 capacity El Hen Hcap).
    + destruct Hno. intros n d Hd Hel. apply Hex. apply (report_room s infos s1 capacity El Hen Hcap). by exists n, d.
Qed.
End admission.

(** ** Two volumes *)

(** The match of two requests with two disks of exactly their sizes *)
Lemma match_exact a b x y :
  0 < b < a -> a < 2 ^ 63 -> di_Allocatable x = a -> di_Allocatable y = b -> canNodeMatch [a; b] [x; y] = true.
Proof.
  intros Hb Ha Hx Hy. unfold canNodeMatch, sort_by, match_fuel. cbn [foldl sort_insert].
  rewrite Z.gtb_ltb. destruct (Z.ltb_spec a b); [lia |]. cbn [length plus match_loop lookup list_lookup].
  rewrite Hx, Z.leb_refl. cbn [insert list_insert lookup list_lookup with_allocatable di_Allocatable].
  rewrite Z.sub_diag. destruct (Z.leb_spec b (i64 0)) as [Hle |]; [change (i64 0) with 0 in Hle; lia |].
  cbn [lookup list_lookup]. rewrite Hy, Z.leb_refl. done.
Qed.

(** The report of two disks is sorted by their room. *)
Lemma two_disks_sorted a b (l : list DiskInfo) :
  b < a -> map di_Allocatable l ≡ₚ [a; b] ->
  exists x y, sort_by DiskInfo_Less l = [x; y] /\ di_Allocatable x = a /\ di_Allocatable y = b.
Proof.
  intros Hab Hp. pose proof (Permutation_length Hp) as Hlen. destruct l as [|x [|y [|z l]]]; try done. cbn [map] in Hp.
  unfold sort_by. cbn [foldl sort_insert]. unfold DiskInfo_Less.
  apply Permutation_length_2 in Hp as [[Hx Hy] | [Hx Hy]]; rewrite Hx, Hy, Z.gtb_ltb.
  - rewrite (proj2 (Z.eqb_neq b a)) by lia. cbn [negb]. destruct (Z.ltb_spec a b); [lia |]. by exists x, y.
  - rewrite (proj2 (Z.eqb_neq a b)) by lia. cbn [negb]. destruct (Z.ltb_spec b a); [| lia]. by exists y, x.
Qed.

Section stranded.
Context {P W K C : Type} `{LinuxVolumeQuotaProvider P W} `{OSLaws W} `{KubeApiLaws K} `{HostPathController C}.
Implicit Types s : XFSQuotaManager P * W.

(** A node with two disks, one with more room than the other *)
Record two_disks (n1 n2 : string) (d1 d2 : DiskQuotaInfo) s : Prop := {
  tw_books : booked books s;
  tw_disks : diskQuotaInfos s.1 = {[ n1 := d1; n2 := d2 ]};
  tw_ne : n1 <> n2;
  tw_enabled : disk_Disabled d1 = false /\ disk_Disabled d2 = false;
  tw_room : 0 < disk_AllocatableSize d2 < disk_AllocatableSize d1;
  tw_range : disk_AllocatableSize d1 < 2 ^ 63
}.

Lemma two_disks_reported n1 n2 d1 d2 s infos s1 :
  xfs_ListQuotaDiskInfos s = (Ok infos, s1) -> two_disks n1 n2 d1 d2 s1 ->
  exists x y, nu_DiskStatus (node_usage infos) = [x; y] /\
    di_Allocatable x = disk_AllocatableSize d1 /\ di_Allocatable y = disk_AllocatableSize d2.
Proof.
  intros El [_ Hds Hne _ Hroom Hrange]. apply ListQuotaDiskInfos_rooms in El as [Hs Hp]. rewrite <- Hs in Hp.
  assert (Hr : rooms s1 = {[ n1 := room d1; n2 := room d2 ]})
    by (unfold rooms; by rewrite Hds, fmap_insert, map_fmap_singleton).
  assert (Hel : elements (dom (rooms s1)) ≡ₚ [n1; n2]).
  { rewrite Hr, dom_insert_L, dom_singleton_L, elements_disj_union, !elements_singleton by set_solver. done. }
  assert (Hrooms : map room infos ≡ₚ [room d1; room d2]).
  { rewrite Hp, Hel. cbn [omap list_omap]. rewrite Hr, lookup_insert_eq, lookup_insert_ne, lookup_singleton_eq by done. done. }
  unfold node_usage. cbn [nu_DiskStatus]. rewrite add_disks_status. cbn [nu_DiskStatus empty_usage app].
  apply (two_disks_sorted (disk_AllocatableSize d1) (disk_AllocatableSize d2)); [lia |].
  apply (Permutation_map (fun x => i64 x.1.2)) in Hrooms. rewrite map_map in Hrooms. cbn in Hrooms.
  rewrite !i64_small in Hrooms by (unfold in_i64; lia). rewrite map_map. exact Hrooms.
Qed.

(** The small volume goes where the large one would have to go. *)
Lemma small_takes_large n1 n2 d1 d2 s v1 v2 path s2 :
  two_disks n1 n2 d1 d2 s -> quotas s.1 !! v1 = None -> quotas s.1 !! v2 = None -> v1 <> v2 ->
  xfs_GetVolumeQuotaPath v2 (disk_AllocatableSize d2) s = (Ok path, s2) ->
  (xfs_GetVolumeQuotaPath v1 (disk_AllocatableSize d1) s2).1 = Fail (no_room (disk_AllocatableSize d1)).
Proof.
  intros [Hb Hds Hne [He1 He2] Hroom Hrange] Hv1 Hv2 Hv E.
  destruct (GetVolumeQuotaPath_enters s v2 (disk_AllocatableSize d2) path s2 Hv2 E) as (dev & d & now & Hpl & Hd & Hds2 & Hqs2).
  assert (Hu : u64 (disk_AllocatableSize d2) = disk_AllocatableSize d2) by (apply u64_small; unfold in_u64; lia). rewrite Hu in *.
  assert (L1 : diskQuotaInfos s.1 !! n1 = Some d1) by (rewrite Hds; apply lookup_insert_eq).
  assert (L2 : diskQuotaInfos s.1 !! n2 = Some d2) by (rewrite Hds, lookup_insert_ne by done; apply lookup_singleton_eq).
  pose proof (books_disk _ _ Hb _ _ L1) as [Hname1 Hcap1].
  assert (Hdev : dev = n1 /\ d = d1).
  { destruct Hpl as (n & d' & Hn & -> & [_ Hle] & _ & Hmax). rewrite Hds in Hn.
    apply lookup_insert_Some in Hn as [[<- <-] | [_ [<- <-]%lookup_singleton_Some]].
    - rewrite Hname1 in *. split; [done | congruence].
    - assert (Hel1 : eligible (disk_AllocatableSize d2) d1) by (split; [done | lia]). specialize (Hmax _ n1 d1 L1 Hel1). lia. }
  destruct Hdev as [-> ->]. apply refused_iff.
  { rewrite Hqs2. by rewrite lookup_insert_ne. }
  rewrite u64_small by (unfold in_u64; lia). intros n d Hn [_ Hle]. rewrite Hds2 in Hn.
  apply lookup_insert_Some in Hn as [[<- <-] | [Hn1 Hn]].
  - cbn in Hle. pose proof (books_sum _ _ Hb _ _ L1) as Hsum. pose proof (books_rest _ _ Hb _ _ L1) as Hrest.
    pose proof (allocated_nonneg n1 _ _ Hb) as Hnn. unfold in_u64 in Hcap1.
    rewrite (u64_small (_ + _)) in Hle by (unfold in_u64; lia). rewrite u64_small in Hle by (unfold in_u64; lia). lia.
  - rewrite Hds, lookup_insert_ne in Hn by done. apply lookup_singleton_Some in Hn as [_ <-]. lia.
Qed.

(** C27: For two volumes the extender promises more than the node keeps: it packs the
    requests in its own order, while the node puts each volume, in the order in which
    they are published, on the disk with the most room.  On a node with two disks of
    different room, a pod with a new volume of the size of either is accepted, by a
    report that is up to date; but once the smaller volume has been published first, the
    larger one is refused for want of room. *)
Theorem admitted_pod_strands s infos s1 host node c namespace volume_of pod pvs n1 n2 d1 d2 :
  xfs_ListQuotaDiskInfos s = (Ok infos, s1) -> two_disks n1 n2 d1 d2 s1 -> reported_by (K := K) host infos node ->
  (forall claim, GetPersistentVolumeByClaim claim namespace c = (Ok (volume_of claim), c)) ->
  om_Namespace (cpod_meta pod) = namespace ->
  Forall2 (fun claim pv => volume_of claim = Some pv) (omap id (cpod_claims pod)) pvs ->
  Forall (usable_on (ToHostPathNode node)) pvs -> new_requests pvs = [disk_AllocatableSize d1; disk_AllocatableSize d2] ->
  FilterNode pod node c = (Ok true, c) /\
  forall v1 v2 path s2, quotas s1.1 !! v1 = None -> quotas s1.1 !! v2 = None -> v1 <> v2 ->
    xfs_GetVolumeQuotaPath v2 (disk_AllocatableSize d2) s1 = (Ok path, s2) ->
    (xfs_GetVolumeQuotaPath v1 (disk_AllocatableSize d1) s2).1 = Fail (no_room (disk_AllocatableSize d1)).
Proof.
  intros El Htwo Hrep Hvol Hns Hf Hus Hreq. split; [| intros v1 v2 path s2; by apply small_takes_large with (n1 := n1) (n2 := n2)].
  destruct (FilterNode_suitable c namespace volume_of Hvol pod node Hns) as (b & Eb & Hb). rewrite Eb.
  replace b with true; [done |]. symmetry. apply Hb. exists pvs. split_and!; [done | done |]. right.
  rewrite Hreq, (reported_usage (K := K) host infos node Hrep).
  destruct (two_disks_reported _ _ _ _ _ _ _ El Htwo) as (x & y & -> & Hx & Hy). destruct Htwo.
  by apply (match_exact (disk_AllocatableSize d1) (disk_AllocatableSize d2)).
Qed.
End stranded.

(** ** A node with two disks *)

Lemma books_fresh (ds : gmap string DiskQuotaInfo) :
  (forall n d, ds !! n = Some d -> disk_DeviceName d = n /\ in_u64 (disk_Capacity d) /\ disk_QuotaSize d = 0 /\
     disk_AllocatableSize d = disk_Capacity d) -> books ds ∅.
Proof.
  intros Hds. assert (Hz : forall k, allocated_on k ∅ = 0) by (intros k; apply map_sum_empty).
  split; [| by intros v q Hv | ..]; intros n d (Hn & Hc & Hq & Hr)%Hds; rewrite ?Hz; unfold in_u64 in *; [done | lia..].
Qed.

Definition sim_two : sim :=
  mkSim ["/dev/vdb"; "/dev/vdc"; "/pool"; "/pool/d1"; "/pool/d2"] ∅ ∅ [("/pool/d1", "/dev/vdb"); ("/pool/d2", "/dev/vdc")]
    ["36 35 0:1 / /pool/d1 rw - xfs /dev/vdb rw"; "37 35 0:1 / /pool/d2 rw - xfs /dev/vdc rw"]
    {[ "/pool/d1" := mkStatfs LinuxXfsMagic 1000 1000 4096; "/pool/d2" := mkStatfs LinuxXfsMagic 500 500 4096 ]} ∅ 0 [].
Definition two_started : manager * sim := start sim_two.
Definition two_listed := xfs_ListQuotaDiskInfos two_started.
Definition two_infos : list DiskQuotaInfo := match two_listed.1 with Ok infos => infos | _ => [] end.
Definition large_disk : DiskQuotaInfo := mkDiskQuotaInfo "/dev/vdb" "/pool/d1" 4096000 0 0 4096000 false 1.
Definition small_disk : DiskQuotaInfo := mkDiskQuotaInfo "/dev/vdc" "/pool/d2" 2048000 0 0 2048000 false 0.

Lemma two_listed_eq : xfs_ListQuotaDiskInfos two_started = (Ok two_infos, two_listed.2).
Proof. vm_compute. reflexivity. Qed.
Lemma two_listed_disks : diskQuotaInfos two_listed.2.1 = {[ "/dev/vdb" := large_disk; "/dev/vdc" := small_disk ]}.
Proof. vm_compute. reflexivity. Qed.
Lemma two_listed_quotas : quotas two_listed.2.1 = ∅.
Proof. vm_compute. reflexivity. Qed.

Lemma two_on_disks n d :
  diskQuotaInfos two_listed.2.1 !! n = Some d -> n = "/dev/vdb" /\ d = large_disk \/ n = "/dev/vdc" /\ d = small_disk.
Proof. rewrite two_listed_disks, lookup_insert_Some, lookup_singleton_Some. naive_solver. Qed.

Lemma two_are_enabled : all_enabled two_listed.2.
Proof. intros n d [[-> ->] | [-> ->]]%two_on_disks; cbn; (split; [done | lia]). Qed.

Lemma two_are_two : two_disks "/dev/vdb" "/dev/vdc" large_disk small_disk two_listed.2.
Proof.
  split; [| exact two_listed_disks | done | done | cbn; lia | cbn; lia].
  unfold booked. rewrite two_listed_quotas. apply books_fresh.
  intros n d [[-> ->] | [-> ->]]%two_on_disks; unfold in_u64; cbn; (split_and!; [done | lia.. | done | done]).
Qed.

(** The node carries the report. *)
Definition reported_cluster : sim_cluster := (hp_UpdateNodeHostPathPVUsageInfo "n1" (node_usage two_infos) cluster).2.
Definition reported_node : CoreNode := match node_Get "n1" reported_cluster with inl node => node | inr _ => core_node "n1" end.

Lemma two_reported : reported_by (K := sim_cluster) "n1" two_infos reported_node.
Proof.
  exists cluster, reported_cluster, (core_node "n1").
  split; [vm_compute; reflexivity |]. split; [reflexivity |]. split; [reflexivity | vm_compute; reflexivity].
Qed.

(** Two new volumes, of the sizes of the disks, and a pod that uses both, or the large one *)
Definition new_volume (name claim : string) (capacity : Z) : PersistentVolume :=
  mkPersistentVolume "1" name "" ("default/" +:+ claim) ("0001-0000-0005-" +:+ name) true "" false capacity "" 0.
Definition two_volumes : HostPathControl * sim_cluster :=
  (mkHostPathControl ∅ ∅ {[ "pv-a" := new_volume "pv-a" "a" 4096000; "pv-b" := new_volume "pv-b" "b" 2048000 ]}, reported_cluster).
Definition two_found (claim : string) : option PersistentVolume :=
  match (GetPersistentVolumeByClaim claim "default" two_volumes).1 with Ok pv => pv | _ => None end.
Definition pod_of (claims : list string) : CorePod := mkCorePod (sim_meta "p1" "default" ∅) (map Some claims).

Lemma two_lookups claim : GetPersistentVolumeByClaim claim "default" two_volumes = (Ok (two_found claim), two_volumes).
Proof. reflexivity. Qed.
Lemma found_a : two_found "a" = Some (new_volume "pv-a" "a" 4096000).
Proof. vm_compute. reflexivity. Qed.
Lemma found_b : two_found "b" = Some (new_volume "pv-b" "b" 2048000).
Proof. vm_compute. reflexivity. Qed.
Lemma usable_new name claim capacity : usable_on (ToHostPathNode reported_node) (new_volume name claim capacity).
Proof. intros _. split; [vm_compute; reflexivity | by left]. Qed.

Lemma admitted_volume_has_room_witness :
  exists b, FilterNode (pod_of ["a"]) reported_node two_volumes = (Ok b, two_volumes) /\
    (b = true <-> (xfs_GetVolumeQuotaPath "pv-a" 4096000 two_listed.2).1 <> Fail (no_room 4096000)).
Proof.
  apply (admitted_volume_has_room two_started two_infos two_listed.2 "n1" reported_node two_volumes "default" two_found
    (pod_of ["a"]) [new_volume "pv-a" "a" 4096000] "pv-a" 4096000 two_listed_eq two_reported two_are_enabled two_lookups);
    [reflexivity | | | reflexivity | lia | by rewrite two_listed_quotas].
  - constructor; [exact found_a | constructor].
  - constructor; [apply usable_new | constructor].
Defined.

(** The small volume first *)
Definition small_placed := xfs_GetVolumeQuotaPath "pv-b" 2048000 two_listed.2.

Lemma small_placed_eq : xfs_GetVolumeQuotaPath "pv-b" 2048000 two_listed.2 = (Ok "/pool/d1/k8squota_pv-b", small_placed.2).
Proof. vm_compute. reflexivity. Qed.

Lemma admitted_pod_strands_witness :
  FilterNode (pod_of ["a"; "b"]) reported_node two_volumes = (Ok true, two_volumes) /\
  (xfs_GetVolumeQuotaPath "pv-a" 4096000 small_placed.2).1 = Fail (no_room 4096000).
Proof.
  destruct (admitted_pod_strands two_started two_infos two_listed.2 "n1" reported_node two_volumes "default" two_found
    (pod_of ["a"; "b"]) [new_volume "pv-a" "a" 4096000; new_volume "pv-b" "b" 2048000] "/dev/vdb" "/dev/vdc" large_disk small_disk
    two_listed_eq two_are_two two_reported two_lookups) as [Hf Hr]; [reflexivity | | | reflexivity |].
  - constructor; [exact found_a | constructor; [exact found_b | constructor]].
  - constructor; [apply usable_new | constructor; [apply usable_new | constructor]].
  - split; [exact Hf |]. apply (Hr "pv-a" "pv-b" "/pool/d1/k8squota_pv-b" small_placed.2);
      [by rewrite two_listed_quotas | by rewrite two_listed_quotas | done | exact small_placed_eq].
Defined.
