(* ===== verification/Extender.v ===== *)
(** * The scheduler extender: registries and HTTP routes

    pkg/extender-scheduler/scheduler/{predicate/predicate,prioritize/prioritize,bind/bind}.go

    Each of the three packages keeps a list of registered plugins with distinct
    names, initialises them with the controller, and answers a POST per plugin.  The
    JSON of requests and results is that of the vendored API types: decoding and
    encoding are parameters. *)

From S2P Require Import Prelude GoStrings HostPathClient HostPathController Predicate Prioritize Bind.
Open Scope Z_scope.
Open Scope go_scope.

(** ** Registries *)

Section registry.
Context {P : Type} (Name : P -> string).

(** [Register]: [empty] and [taken] are the errors of the package. *)
Definition register (empty : error) (taken : string -> error) (p : P) (l : list P) : option error * list P :=
  if decide (Name p = "") then (Some empty, l)
  else if existsb (fun q => String.eqb (Name q) (Name p)) l then (Some (taken (Name p)), l)
  else (None, l ++ [p]).

Definition route_paths (apiPrefix : string) (l : list P) : list string :=
  map (fun p => apiPrefix +:+ "/" +:+ Name p) l.
End registry.

(** [Predicate.Register] formats the method value [p.Name], not the name. *)
Definition predicate_Register {P} (Name : P -> string) : P -> list P -> option error * list P :=
  register Name (Errorf "predicate name should not be empty")
    (fun _ => Errorf "Predicate %!s(func() string=0x0) is registed").
Definition prioritize_Register {P} (Name : P -> string) : P -> list P -> option error * list P :=
  register Name (Errorf "Prioritize name should not be empty")
    (fun n => Errorf ("prioritize " +:+ n +:+ " is registed")).
Definition bind_Register {P} (Name : P -> string) : P -> list P -> option error * list P :=
  register Name (Errorf "Prioritize name should not be empty")
    (fun n => Errorf ("prioritize " +:+ n +:+ " is registed")).

(** [Init]: the plugins one after the other, up to the first that fails. *)
Section init.
Context {S P : Type} (Name : P -> string) (init_plugin : P -> M S unit).

Definition init_all (what : string) (l : list P) : M S unit :=
  for_each l (fun p =>
    map_error (fun err => Errorf ("init " +:+ what +:+ " " +:+ Name p +:+ " error:" +:+ error_text err)) (init_plugin p)).
Definition predicate_Init : list P -> M S unit := init_all "predicate".
Definition prioritize_Init : list P -> M S unit := init_all "prioritize".
Definition bind_Init : list P -> M S unit := init_all "prioritize".
End init.

(** ** Routes *)

(** An answer: the status and the body; [None] is no request body. *)
Record Response := mkResponse { rs_Status : Z; rs_Body : string }.
Definition no_body : Response := mkResponse 400 "Please send a request body".
Definition quote1 (s : string) : string := "{'error':'" +:+ s +:+ "'}".

Section routes.
Context {W : Type}.
(** [json.NewDecoder(body).Decode]: the value as far as it was decoded, and the
    error; and [json.Marshal]. *)
Context (decode_args : string -> ExtenderArgs * option error) (decode_binding : string -> ExtenderBindingArgs * option error).
Context (marshal_filter : ExtenderFilterResult -> string + error).
Context (marshal_priorities : list HostPriority -> string + error).
Context (marshal_binding : string -> string + error).

Definition respond (marshalled : string + error) (status : Z) : Response :=
  match marshalled with
  | inr err => mkResponse 500 (quote1 (error_text err))
  | inl body => mkResponse status body
  end.

Definition predicateRoute (handler : ExtenderArgs -> M W ExtenderFilterResult) (body : option string) : M W Response :=
  match body with
  | None => ret no_body
  | Some body =>
      let '(extenderArgs, err) := decode_args body in
      let! result := match err with
                     | Some err => ret (mkFilterResult None None (error_text err))
                     | None => handler extenderArgs
                     end in
      ret (respond (marshal_filter result) 200)
  end.

(** The handler is called also when decoding has failed, with what was decoded. *)
Definition prioritiesRoute (handler : ExtenderArgs -> outcome (list HostPriority)) (body : option string) : M W Response :=
  match body with
  | None => ret no_body
  | Some body =>
      let '(extenderArgs, err) := decode_args body in
      let! r := attempt (lift (handler extenderArgs)) in
      let hostPriorityList := match r with inl l => l | inr _ => [] end in
      ret (respond (marshal_priorities hostPriorityList) 200)
  end.

Definition bindsRoute (handler : ExtenderBindingArgs -> M W string) (body : option string) : M W Response :=
  match body with
  | None => ret no_body
  | Some body =>
      let '(args, err) := decode_binding body in
      let! result := match err with
                     | Some err => ret (error_text err)
                     | None => handler args
                     end in
      let failed := bool_decide (is_Some err) || (go_len result >? 0) in
      ret (respond (marshal_binding result) (if failed then 500 else 200))
  end.
End routes.

(** ** Properties *)

Section registry_proofs.
Context {P : Type} (Name : P -> string).

(** The names of a registry are distinct and not empty. *)
Definition registry_ok (l : list P) : Prop := NoDup (map Name l) /\ ~ ("" ∈ map Name l).

(** registering keeps the names distinct and not empty, adds the plugin at the
    end exactly when its name is new, and leaves the list as it is otherwise; so the
    routes of a package have distinct paths. *)
Theorem register_spec empty taken p l apiPrefix :
  registry_ok l ->
  let '(err, l') := register Name empty taken p l in
  registry_ok l' /\ NoDup (route_paths Name apiPrefix l') /\
  match err with
  | None => l' = l ++ [p] /\ Name p <> "" /\ ~ (Name p ∈ map Name l)
  | Some _ => l' = l /\ (Name p = "" \/ Name p ∈ map Name l)
  end.
Proof.
  intros [Hnd Hne].
  assert (Hpaths : forall l : list P, registry_ok l -> NoDup (route_paths Name apiPrefix l)).
  { intros l' [H _]. unfold route_paths.
    rewrite <- (map_map Name (fun n => apiPrefix +:+ "/" +:+ n)).
    assert (Inj (=) (=) (fun n => apiPrefix +:+ "/" +:+ n))
      by (intros x y E; by apply (inj (String.append _)), (inj (String.append _)) in E).
    by apply (NoDup_fmap_2 (fun n => apiPrefix +:+ "/" +:+ n)). }
  assert (Hex : existsb (fun q => String.eqb (Name q) (Name p)) l = true <-> Name p ∈ map Name l).
  { rewrite existsb_exists, list_elem_of_In, in_map_iff. split.
    - intros (q & Hq & E%String.eqb_eq). by exists q.
    - intros (q & E & Hq). exists q. split; [done | by apply String.eqb_eq]. }
  unfold register. case_decide as Hp.
  { assert (registry_ok l) by done. split_and!; [done | by apply Hpaths | done | by left]. }
  destruct (existsb _ l) eqn:E.
  { assert (registry_ok l) by done. split_and!; [done | by apply Hpaths | done | right; by apply Hex]. }
  assert (Hnot : ~ (Name p ∈ map Name l)) by (intros Hin; apply Hex in Hin; congruence).
  assert (Hok : registry_ok (l ++ [p])).
  { unfold registry_ok. rewrite map_app. cbn [map]. split.
    - apply NoDup_app. split_and!; [done | | by apply NoDup_singleton]. intros n Hn. set_solver.
    - rewrite elem_of_app. set_solver. }
  split_and!; [done | by apply Hpaths | done | done | done].
Qed.
End registry_proofs.

Section route_proofs.
Context {W : Type} (decode_args : string -> ExtenderArgs * option error)
  (decode_binding : string -> ExtenderBindingArgs * option error).
Context (marshal_filter : ExtenderFilterResult -> string + error) (marshal_priorities : list HostPriority -> string + error)
  (marshal_binding : string -> string + error).

(** what a request whose body cannot be decoded gets: the filter and the bind
    route answer with the text of the error, without calling their handler; the
    scoring route calls it with what was decoded, and panics when that has no
    nodes. *)
Theorem undecodable_body body args bargs e (filter : ExtenderArgs -> M W ExtenderFilterResult)
    (bind : ExtenderBindingArgs -> M W string) w :
  decode_args body = (args, Some e) -> decode_binding body = (bargs, Some e) -> ea_Nodes args = None ->
  predicateRoute decode_args marshal_filter filter (Some body) w =
    (Ok (respond (marshal_filter (mkFilterResult None None (error_text e))) 200), w) /\
  bindsRoute decode_binding marshal_binding bind (Some body) w = (Ok (respond (marshal_binding (error_text e)) 500), w) /\
  prioritiesRoute decode_args marshal_priorities prioritize_Handler (Some body) w = (Panic nil_pointer, w).
Proof.
  intros Ha Hb Hn. unfold predicateRoute, bindsRoute, prioritiesRoute. rewrite Ha, Hb. split_and!; [done | done |].
  unfold prioritize_Handler. by rewrite Hn.
Qed.
End route_proofs.

(** ** Witnesses *)

Lemma register_spec_witness :
  let '(err, l') := register id (Errorf "empty") (fun n => Errorf n) "b" ["a"] in
  registry_ok id l' /\ NoDup (route_paths id "/api" l') /\
  match err with
  | None => l' = ["a"] ++ ["b"] /\ id "b" <> "" /\ ~ (id "b" ∈ map id ["a"])
  | Some _ => l' = ["a"] /\ (id "b" = "" \/ id "b" ∈ map id ["a"])
  end.
Proof.
  apply (register_spec id (Errorf "empty") (fun n => Errorf n) "b" ["a"] "/api").
  split; [by apply NoDup_singleton | set_solver].
Defined.

Lemma undecodable_body_witness :
  prioritiesRoute (fun _ => (mkExtenderArgs None None, Some (Errorf "EOF"))) (fun _ => inl "[]") prioritize_Handler (Some "") tt =
  (Panic nil_pointer, tt).
Proof.
  apply (undecodable_body (fun _ => (mkExtenderArgs None None, Some (Errorf "EOF")))
    (fun _ => (mkBindingArgs "" "" "", Some (Errorf "EOF"))) (fun _ => inl "{}") (fun _ => inl "[]") (fun _ => inl "{}")
    "" (mkExtenderArgs None None) (mkBindingArgs "" "" "") (Errorf "EOF")
    (fun _ => ret (mkFilterResult None None "")) (fun _ => ret "") tt); reflexivity.
Defined.
