(* ===== verification/Scheduler.v ===== *)
(** * The process of the scheduler extender: cmd/extender-scheduler/main.go

    The process makes its client, waits until the caches of its controller have synced,
    gives the controller to the plugins that the three packages have registered, and
    serves a route per plugin.  The HTTP router and the client are third-party: the
    routes are what the router is told, and a request is answered by the route with its
    method and path. *)

From S2P Require Import Prelude GoStrings HostPathApi HostPathClient HostPathController Predicate Prioritize Bind Extender.
Open Scope Z_scope.
Open Scope go_scope.

Definition versionPath : string := "/version".
Definition apiPrefix : string := "/scheduler".
Definition bindsPath : string := apiPrefix +:+ "/bind".
Definition preemptionPath : string := apiPrefix +:+ "/preemption".
Definition predicatesPath : string := apiPrefix +:+ "/predicates".
Definition prioritiesPath : string := apiPrefix +:+ "/priorities".
(** [fmt.Sprint(version)] *)
Definition version_text : string := "0.1".

(** ** The client *)

(** A [util.FatalLogMsg] ends the process: a [Fail]. *)
Definition getK8sClient {Cfg Client} (BuildConfigFromFlags : string -> string -> Cfg + error)
    (InClusterConfig : Cfg + error) (NewForConfig : Cfg -> Client + error) (kubeConfig : string) : outcome Client :=
  let cfg := if decide (kubeConfig <> "") then BuildConfigFromFlags "" kubeConfig else InClusterConfig in
  match cfg with
  | inr err => Fail (Errorf ("Failed to get cluster config with error: " +:+ error_text err +:+ String "010" ""))
  | inl cfg =>
      match NewForConfig cfg with
      | inr err => Fail (Errorf ("Failed to create client with error: " +:+ error_text err +:+ String "010" ""))
      | inl client => Ok client
      end
  end.

(** ** The plugins *)

(** The plugins that the packages register when they are loaded, by their names *)
Definition HostPathPVDiskPressure : string := "hostpathpvdiskpressure".
Definition HostPathPVDiskUse : string := "hostpathpvdiskuse".
Definition HostPathPVBind : string := "hostpathpvbind".

Definition predicateList : list string := (predicate_Register id HostPathPVDiskPressure []).2.
Definition prioritizeList : list string := (prioritize_Register id HostPathPVDiskUse []).2.
Definition bindList : list string := (bind_Register id HostPathPVBind []).2.

(** The plugins whose field [k8sControl] is set; a plugin's [Init] sets it. *)
Definition plugin_Init (p : string) : M (gset string) unit := modify (union {[p]}).

Definition initAll : M (gset string) unit :=
  predicate_Init id plugin_Init predicateList ;;
  prioritize_Init id plugin_Init prioritizeList ;;
  bind_Init id plugin_Init bindList.

(** ** The routes *)

Inductive Handle := VersionHandle | PredicateHandle (p : string) | PrioritiesHandle (p : string) | BindHandle (p : string).
Record Route := mkRoute { rt_Method : string; rt_Path : string; rt_Handle : Handle }.

Definition AddRoute (handle : string -> Handle) (apiPrefix : string) (l : list string) : list Route :=
  zip_with (mkRoute "POST") (route_paths id apiPrefix l) (map handle l).

Definition routes : list Route :=
  [mkRoute "GET" versionPath VersionHandle] ++
  AddRoute PredicateHandle predicatesPath predicateList ++
  AddRoute PrioritiesHandle prioritiesPath prioritizeList ++
  AddRoute BindHandle bindsPath bindList.

(** ** main *)

Record serving := mkServing { sv_initialised : gset string; sv_routes : list Route }.

(** [HostPathControl.Run]: the three controllers are started and waited for. *)
Definition control_Run (events : list WaitEvent) : option (outcome unit) := waitForResourceSynced events.

(** [main] up to [http.ListenAndServe], over the events its wait sees; [None]: it is
    still waiting. *)
Definition main {Client} (client : outcome Client) (events : list WaitEvent) : option (outcome serving) :=
  match client with
  | Fail e => Some (Fail e)
  | Panic y => Some (Panic y)
  | Ok _ =>
      match control_Run events with
      | None => None
      | Some (Fail e) => Some (Fail e)
      | Some (Panic y) => Some (Panic y)
      | Some (Ok _) =>
          match initAll ∅ with
          | (Ok _, initialised) => Some (Ok (mkServing initialised routes))
          | (Fail e, _) => Some (Fail e)
          | (Panic y, _) => Some (Panic y)
          end
      end
  end.

(** ** Requests *)

Section requests.
Context {W : Type} `{HostPathController W}.
Context (decode_args : string -> ExtenderArgs * option error) (decode_binding : string -> ExtenderBindingArgs * option error).
Context (marshal_filter : ExtenderFilterResult -> string + error).
Context (marshal_priorities : list HostPriority -> string + error).
Context (marshal_binding : string -> string + error).

(** A plugin before its [Init]: the interface [k8sControl] is nil. *)
Definition nil_control : HostPathController W := {|
  GetPod _ _ := panic nil_pointer;
  GetNode _ := panic nil_pointer;
  GetPersistentVolumeByClaim _ _ := panic nil_pointer;
  BindHostPathPV _ _ := panic nil_pointer;
  BindPod _ _ := panic nil_pointer
|}.
Definition control_of (s : serving) (p : string) : HostPathController W :=
  if decide (p ∈ sv_initialised s) then H else nil_control.

Definition handle (s : serving) (h : Handle) (body : option string) : M W Response :=
  match h with
  | VersionHandle => ret (mkResponse 200 version_text)
  | PredicateHandle p => predicateRoute decode_args marshal_filter (predicate_Handler (H := control_of s p)) body
  | PrioritiesHandle p => prioritiesRoute decode_args marshal_priorities prioritize_Handler body
  | BindHandle p => bindsRoute decode_binding marshal_binding (bind_Handler (H := control_of s p)) body
  end.

(** [None]: the router answers that there is no such route. *)
Definition answer_request (s : serving) (method path : string) (body : option string) : option (M W Response) :=
  (fun r => handle s (rt_Handle r) body) <$>
  List.find (fun r => String.eqb (rt_Method r) method && String.eqb (rt_Path r) path) (sv_routes s).

(** ** What the process does *)

Lemma waitForResourceSynced_Ok events :
  waitForResourceSynced events = Some (Ok tt) ->
  exists before after, events = before ++ Tick true true true :: after /\
    Forall (fun e => e <> Timeout /\ e <> Tick true true true) before.
Proof.
  induction events as [|[| pods nodes pvs] events IH]; cbn; [done | done |].
  destruct (pods && nodes && pvs) eqn:E.
  - apply andb_prop in E as [[-> ->]%andb_prop ->]. intros _. by exists [], events.
  - intros Hw. destruct (IH Hw) as (before & after & -> & Hb). exists (Tick pods nodes pvs :: before), after.
    split; [done |]. constructor; [| done]. split; [done |]. intros [= -> -> ->]. done.
Qed.

Lemma waitForResourceSynced_total events :
  Timeout ∈ events \/ Tick true true true ∈ events -> is_Some (waitForResourceSynced events).
Proof.
  induction events as [|[| pods nodes pvs] events IH]; cbn; [set_solver | done |].
  destruct (pods && nodes && pvs) eqn:E; [done |]. intros Hin. apply IH.
  destruct Hin as [[? | ?]%elem_of_cons | [Heq | ?]%elem_of_cons]; [done | by left | | by right].
  injection Heq as <- <- <-. done.
Qed.

Lemma waitForResourceSynced_before before after :
  Forall (fun e => e <> Timeout /\ e <> Tick true true true) before ->
  waitForResourceSynced (before ++ Tick true true true :: after) = Some (Ok tt).
Proof.
  induction 1 as [|e before [Ht Hs] _ IH]; [done |]. cbn. destruct e as [| pods nodes pvs]; [done |].
  by destruct pods, nodes, pvs.
Qed.

Definition synced_in_time (events : list WaitEvent) : Prop :=
  exists before after, events = before ++ Tick true true true :: after /\
    Forall (fun e => e <> Timeout /\ e <> Tick true true true) before.

Lemma main_serving {Client} (client : outcome Client) events s :
  main client events = Some (Ok s) <-> (exists c, client = Ok c) /\ synced_in_time events /\ s = mkServing (initAll ∅).2 routes.
Proof.
  assert (Hinit : initAll ∅ = (Ok tt, (initAll ∅).2)) by (vm_compute; reflexivity).
  unfold main, control_Run. rewrite Hinit. split.
  - destruct client as [c | e | y]; [| done..]. destruct (waitForResourceSynced events) as [[[] | e | y] |] eqn:Ew; [| done..].
    intros [= <-]. split; [by eexists |]. split; [by apply waitForResourceSynced_Ok | done].
  - intros ([c ->] & (before & after & -> & Hb) & ->). by rewrite waitForResourceSynced_before.
Qed.

(** C33: The extender answers requests only once it can answer them: [main] gets to
    serving exactly when its client was made and a tick saw all three caches synced
    before the timeout; its wait ends at a synced tick or at the timeout, and then it
    serves or the process exits.  When it serves, every plugin whose route is served
    has been given the controller, no two routes collide, and the request of each route
    runs that plugin's handler on the controller. *)
Theorem extender_serves_synced {Client} (client : outcome Client) events :
  ((exists s, main client events = Some (Ok s)) <-> (exists c, client = Ok c) /\ synced_in_time events) /\
  (Timeout ∈ events \/ Tick true true true ∈ events -> is_Some (main client events)) /\
  forall s, main client events = Some (Ok s) ->
    NoDup (map (fun r => (rt_Method r, rt_Path r)) (sv_routes s)) /\
    forall body,
      answer_request s "GET" "/version" body = Some (ret (mkResponse 200 "0.1")) /\
      answer_request s "POST" "/scheduler/predicates/hostpathpvdiskpressure" body =
        Some (predicateRoute decode_args marshal_filter predicate_Handler body) /\
      answer_request s "POST" "/scheduler/priorities/hostpathpvdiskuse" body =
        Some (prioritiesRoute decode_args marshal_priorities prioritize_Handler body) /\
      answer_request s "POST" "/scheduler/bind/hostpathpvbind" body =
        Some (bindsRoute decode_binding marshal_binding bind_Handler body) /\
      answer_request s "POST" preemptionPath body = None.
Proof.
  split; [setoid_rewrite main_serving; naive_solver |]. split.
  { intros Hin. apply waitForResourceSynced_total in Hin as [r Er]. unfold main, control_Run. rewrite Er.
    destruct client; [| done..]. destruct r; [| done..]. by destruct (initAll ∅) as [[] ?]. }
  intros s E. apply main_serving in E as (_ & _ & ->).
  assert (Hin : forall p, p ∈ [HostPathPVDiskPressure; HostPathPVBind] ->
                  control_of (mkServing (initAll ∅).2 routes) p = H).
  { intros p Hp. unfold control_of. rewrite decide_True; [done |]. cbn [sv_initialised].
    apply list_elem_of_In in Hp as [<- | [<- | []]]; apply (bool_decide_unpack _); vm_compute; reflexivity. }
  split.
  - apply (bool_decide_unpack (NoDup _)). vm_compute. reflexivity.
  - intros body. unfold answer_request. cbn [sv_routes]. split_and!.
    + reflexivity.
    + change (Some (predicateRoute decode_args marshal_filter
        (predicate_Handler (H := control_of (mkServing (initAll ∅).2 routes) HostPathPVDiskPressure)) body) =
        Some (predicateRoute decode_args marshal_filter predicate_Handler body)).
      by rewrite Hin by (by left).
    + reflexivity.
    + change (Some (bindsRoute decode_binding marshal_binding
        (bind_Handler (H := control_of (mkServing (initAll ∅).2 routes) HostPathPVBind)) body) =
        Some (bindsRoute decode_binding marshal_binding bind_Handler body)).
      by rewrite Hin by (by right; left).
    + reflexivity.
Qed.
End requests.

Example serves_after_two_ticks :
  main (Ok tt) [Tick true false true; Tick true true true] = Some (Ok (mkServing (initAll ∅).2 routes)) /\
  main (Ok tt) [Tick true false true; Timeout] = Some (Fail (Errorf "timeout waiting for initialization")).
Proof. by vm_compute. Qed.
