(* ===== verification/Pprof.v ===== *)
(** * The profiling routes: pkg/extender-scheduler/routes/pprof.go

    [AddPProf] gives a router ten routes to the handlers of net/http/pprof; the handlers
    are that package's.  No process calls [AddPProf]. *)

From S2P Require Import Prelude GoStrings HostPathApi HostPathController Extender Scheduler.
Open Scope Z_scope.
Open Scope go_scope.

(** What a handler calls: a function of net/http/pprof, or [pprof.Handler] of the named
    profile. *)
Inductive Profiling := Index | Cmdline | Profile | Symbol | Trace | Handler (name : string).

#[global] Instance Profiling_eq_dec : EqDecision Profiling.
Proof. solve_decision. Defined.

Definition index : Profiling := Index.
Definition cmdline : Profiling := Cmdline.
Definition profile : Profiling := Profile.
Definition symbol : Profiling := Symbol.
Definition trace : Profiling := Trace.
Definition heap : Profiling := Handler "heap".
Definition goroutine : Profiling := Handler "goroutine".
Definition block : Profiling := Handler "block".
Definition threadcreate : Profiling := Handler "threadcreate".
Definition mutex : Profiling := Handler "mutex".

(** A router is told of a path and its handler, all with [GET]. *)
Definition AddPProf (r : list (string * Profiling)) : list (string * Profiling) :=
  r ++ [("/debug/pprof/", index); ("/debug/pprof/cmdline/", cmdline); ("/debug/pprof/profile/", profile);
        ("/debug/pprof/symbol/", symbol); ("/debug/pprof/trace/", trace);
        ("/debug/pprof/heap/", heap); ("/debug/pprof/goroutine/", goroutine); ("/debug/pprof/block/", block);
        ("/debug/pprof/threadcreate/", threadcreate); ("/debug/pprof/mutex/", mutex)].

(** Every profile is served under its own name, and no two routes collide. *)
Lemma profiles_named :
  NoDup (map fst (AddPProf [])) /\
  forall path name, (path, Handler name) ∈ AddPProf [] -> path = "/debug/pprof/" +:+ name +:+ "/".
Proof.
  split; [apply (bool_decide_unpack (NoDup _)); vm_compute; reflexivity |].
  intros path name Hin%list_elem_of_In. cbv in Hin.
  destruct_or?; try done; by injection Hin as <- <-.
Qed.

(** The extender serves none of them: its router has the routes of its plugins only, and
    the import of net/http/pprof in main registers with a mux that is not served. *)
Lemma profiling_not_served {W : Type} `{HostPathController W} decode_args decode_binding marshal_filter marshal_priorities marshal_binding
    {Client} (client : outcome Client) events s path call body :
  Scheduler.main client events = Some (Ok s) -> (path, call) ∈ AddPProf [] ->
  answer_request (W := W) decode_args decode_binding marshal_filter marshal_priorities marshal_binding s "GET" path body = None.
Proof.
  intros (_ & _ & ->)%main_serving Hin.
  assert (Hno : Forall (fun p => List.find (fun r => String.eqb (rt_Method r) "GET" && String.eqb (rt_Path r) p) routes = None)
    (map fst (AddPProf []))) by (repeat constructor).
  unfold answer_request. cbn [sv_routes]. rewrite Forall_forall in Hno.
  by rewrite (Hno path (list_elem_of_fmap_2 fst _ (path, call) Hin)).
Qed.
