(* ===== verification/Display.v ===== *)
(** * The tables of the kubectl plugin: pkg/kubectl-plugin/{common,display}.go

    A displayer collects rows of text and prints them in columns that are as wide
    as their longest cell; sizes are printed in units of powers of 1024 with two
    decimals.  What is printed is the state of the computations here. *)

From S2P Require Import Prelude GoStrings GoFloat Json.
From stdpp Require Import pretty.
Open Scope Z_scope.
Open Scope go_scope.

(** ** common.go *)

Definition maxint (a b : Z) : Z := if a >? b then a else b.

(** display.go: [getNumSpace] *)
Fixpoint repeat_string (n : nat) (s : string) : string :=
  match n with O => "" | S n' => s +:+ repeat_string n' s end.
Definition getNumSpace (num : Z) (space : string) : string := repeat_string (Z.to_nat num) space.

Definition getPercentStr (used capacity : Z) : string :=
  if capacity <=? 0 then "(00.00%)"
  else "(" +:+ fixed2 (f64_mul (f64_div (f64_of_int used) (f64_of_int capacity)) 100) +:+ "%)".

(** [size] in units of [1024^k] *)
Definition in_unit (size k : Z) (unit_ : string) : string :=
  fixed2 (f64_div (f64_of_int size) (inject_Z (1024 ^ k))) +:+ unit_.

Definition convertIntToString (size : Z) : string :=
  let ret :=
    if size <? 1024 then pretty size +:+ " B"
    else if size <? 1024 ^ 2 then in_unit size 1 "KB"
    else if size <? 1024 ^ 3 then in_unit size 2 "MB"
    else if size <? 1024 ^ 4 then in_unit size 3 "GB"
    else if size <? 1024 ^ 5 then in_unit size 4 "TB"
    else in_unit size 5 "PB" in
  if go_len ret <? 9 then getNumSpace (9 - go_len ret) " " +:+ ret else ret.

(** ** display.go *)

Record Displayer := mkDisplayer {
  titles : list string;
  content : list (list string);
  space : string;
  prefix : string;
  maxColumeLen : list Z
}.

Definition NewDisplayer (space_ prefix_ : string) (titles_ : list string) : Displayer :=
  mkDisplayer titles_ [] space_ prefix_ (map go_len titles_).

Definition set_content (c : list (list string)) (d : Displayer) : Displayer :=
  mkDisplayer (titles d) c (space d) (prefix d) (maxColumeLen d).
Definition set_maxColumeLen (m : list Z) (d : Displayer) : Displayer :=
  mkDisplayer (titles d) (content d) (space d) (prefix d) m.

(** The loop over the cells of a new row, the first of which has index [i]. *)
Fixpoint widen (i : nat) (strs : list string) : M Displayer unit :=
  match strs with
  | [] => ret tt
  | c :: strs' =>
      let! m := gets (fun d => maxColumeLen d !! i) in
      match m with
      | None => panic "index out of range"
      | Some m =>
          modify (fun d => if go_len c >? m then set_maxColumeLen (<[i := go_len c]> (maxColumeLen d)) d else d) ;;
          widen (S i) strs'
      end
  end.

Definition AddLine (strs : list string) : M Displayer unit :=
  let! ts := gets titles in
  if decide (length strs <> length ts) then fail (Errorf "content len err")
  else
    modify (fun d => set_content (content d ++ [strs]) d) ;;
    widen 0 strs.

Definition AddCutOffLine (str : string) : M Displayer unit :=
  let! ts := gets titles in
  let! _ := attempt (AddLine (map (fun title => getNumSpace (go_len title) str) ts)) in
  ret tt.

(** [syncMaxColumeLen[c]] after the inner loop, and whether a displayer has a column [c]. *)
Definition column_max (c : nat) (displayers : list Displayer) : Z * bool :=
  foldl (fun '(m, found) d =>
           match maxColumeLen d !! c with
           | Some l => (maxint m l, true)
           | None => (m, found)
           end) (0, false) displayers.

(** The outer loop from column [c] on, with [n] columns to go up to 100: the maxima
    and [columeNum]. *)
Fixpoint sync_columns (n c : nat) (displayers : list Displayer) : list Z * nat :=
  match n with
  | O => ([], 0%nat)
  | S n' =>
      let '(m, found) := column_max c displayers in
      if found then let '(ms, num) := sync_columns n' (S c) displayers in (m :: ms, num)
      else ([], c)
  end.

Definition SyncDisplayersColumeLen (displayers : list Displayer) : list Displayer :=
  let '(ms, columeNum) := sync_columns 100 0 displayers in
  map (fun d => set_maxColumeLen
         (imap (fun c l => if decide (c < columeNum)%nat then default l (ms !! c) else l) (maxColumeLen d)) d) displayers.

(** *** Print: the state is the text on the standard output. *)

Definition newline : string := String "010"%char "".
Definition Printf (s : string) : M string unit := modify (fun out => out +:+ s).

(** [%s%s%s%s] of prefix, cell, padding and space, and the loop over the cells of a
    row from index [i] on. *)
Fixpoint print_cells (d : Displayer) (i : nat) (cells : list string) : M string unit :=
  match cells with
  | [] => ret tt
  | c :: cells' =>
      match maxColumeLen d !! i with
      | None => panic "index out of range"
      | Some m =>
          Printf (prefix d +:+ c +:+ getNumSpace (m - go_len c) " " +:+ space d) ;;
          print_cells d (S i) cells'
      end
  end.

Fixpoint print_underline (d : Displayer) (i : nat) (ts : list string) : M string unit :=
  match ts with
  | [] => ret tt
  | _ :: ts' =>
      match maxColumeLen d !! i with
      | None => panic "index out of range"
      | Some m => Printf (prefix d +:+ getNumSpace m "-" +:+ space d) ;; print_underline d (S i) ts'
      end
  end.

Definition print_line (d : Displayer) (line : list string) : M string unit :=
  print_cells d 0 line ;; Printf newline.

Definition Print (needUnderLine : bool) (d : Displayer) : M string unit :=
  print_line d (titles d) ;;
  (if needUnderLine then print_underline d 0 (titles d) ;; Printf newline else ret tt) ;;
  for_each (content d) (print_line d).

(** ** The text of a size *)

Lemma length_repeat_space n : String.length (repeat_string n " ") = n.
Proof. induction n as [|n IH]; [done |]. cbn [repeat_string]. by rewrite length_string_app, IH. Qed.

Lemma go_len_spaces z : 0 <= z -> go_len (getNumSpace z " ") = z.
Proof. intros Hz. unfold go_len, getNumSpace. rewrite length_repeat_space. lia. Qed.

Lemma pretty_N_go_length k : forall n s,
  (n < 10 ^ N.of_nat k)%N -> (String.length (pretty_N_go n s) <= k + String.length s)%nat.
Proof.
  induction k as [|k IH]; intros n s Hn.
  - assert (n = 0%N) as -> by (simpl in Hn; lia). by rewrite pretty_N_go_0.
  - destruct (decide (n = 0%N)) as [-> | Hn0]; [rewrite pretty_N_go_0; lia |].
    rewrite pretty_N_go_step by lia. etransitivity; [apply IH |].
    + rewrite Nat2N.inj_succ, N.pow_succ_r' in Hn. by apply N.Div0.div_lt_upper_bound.
    + cbn [String.length]. lia.
Qed.

(** A number below [10^k] has at most [k] digits. *)
Lemma pretty_length z k : (0 < k)%nat -> 0 <= z < 10 ^ Z.of_nat k -> go_len (pretty z) <= Z.of_nat k.
Proof.
  intros Hk Hz. destruct z as [|p|p]; [change (go_len (pretty 0)) with 1; lia | | lia]. unfold go_len.
  change (pretty (Zpos p)) with (pretty (Npos p)). unfold pretty, pretty_N. rewrite decide_False by done.
  pose proof (pretty_N_go_length k (Npos p) "") as H. cbn [String.length] in H. 
  assert (N.pos p < 10 ^ N.of_nat k)%N; [| lia].
  apply N2Z.inj_lt. rewrite N2Z.inj_pow. rewrite nat_N_Z. lia.
Qed.

Lemma fixed2_text_length h k : (0 < k)%nat -> 0 <= h < 100 * 10 ^ Z.of_nat k -> go_len (fixed2_text h) <= Z.of_nat k + 3.
Proof.
  intros Hk Hh. unfold fixed2_text. rewrite !go_len_app. change (go_len ".") with 1.
  pose proof (pretty_length (h / 100) k Hk) as H1. pose proof (pretty_length (h mod 100 / 10) 1 ltac:(lia)) as H2.
  pose proof (pretty_length (h mod 10) 1 ltac:(lia)) as H3.
  assert (0 <= h / 100 < 10 ^ Z.of_nat k) by (split; [apply Z.div_pos | apply Z.div_lt_upper_bound]; lia).
  assert (0 <= h mod 100 / 10 < 10).
  { pose proof (Z.mod_pos_bound h 100). split; [apply Z.div_pos | apply Z.div_lt_upper_bound]; lia. }
  pose proof (Z.mod_pos_bound h 10). change (10 ^ Z.of_nat 1) with 10 in *. lia.
Qed.

(** The units, by the power of 1024. *)
Definition size_units : list (Z * string) := [(1, "KB"); (2, "MB"); (3, "GB"); (4, "TB"); (5, "PB")].

Lemma in_unit_text size k u j :
  0 < k -> 0 <= j <= 13 -> go_len u = 2 -> 0 <= size <= 2 ^ (j + 10 * k) ->
  exists h, in_unit size k u = fixed2_text h +:+ u /\ go_len (in_unit size k u) <= 9 /\
    (size < 2 ^ 53 -> 2 * Z.abs (h * 1024 ^ k - 100 * size) <= 1024 ^ k).
Proof.
  intros Hk Hj Hu Hs. unfold in_unit.
  assert (E : 1024 ^ k = 2 ^ (10 * k)) by (rewrite Z.pow_mul_r by lia; done). rewrite E.
  destruct (hundredths_range size (10 * k) j) as (H0 & Hr); [lia.. |].
  exists (hundredths (f64_div (f64_of_int size) (inject_Z (2 ^ (10 * k))))). unfold fixed2.
  rewrite (proj2 (Qle_bool_iff _ _) H0). change ("" +:+ ?s) with s. split; [done |]. split.
  - rewrite go_len_app, Hu. pose proof (Z.pow_le_mono_r 2 j 13).
    pose proof (fixed2_text_length (hundredths (f64_div (f64_of_int size) (inject_Z (2 ^ (10 * k))))) 4) as Hlen.
    change (2 ^ 13) with 8192 in *. change (10 ^ Z.of_nat 4) with 10000 in Hlen. lia.
  - intros Hs53. apply hundredths_div; lia.
Qed.

Lemma convert_unit size :
  1024 <= size < 2 ^ 63 ->
  exists k u j, (k, u) ∈ size_units /\ 0 < k /\ 0 <= j <= 13 /\ go_len u = 2 /\ 1024 ^ k <= size <= 2 ^ (j + 10 * k) /\
    (size < 2 ^ 53 -> size < 1024 ^ (k + 1)) /\
    convertIntToString size =
      (if go_len (in_unit size k u) <? 9 then getNumSpace (9 - go_len (in_unit size k u)) " " +:+ in_unit size k u
       else in_unit size k u).
Proof.
  intros Hs. unfold convertIntToString. rewrite (proj2 (Z.ltb_ge size 1024)) by lia.
  destruct (Z.ltb_spec size (1024 ^ 2)).
  { exists 1, "KB", 10. split_and!; try lia; [set_solver | done..]. }
  destruct (Z.ltb_spec size (1024 ^ 3)).
  { exists 2, "MB", 10. split_and!; try lia; [set_solver | done..]. }
  destruct (Z.ltb_spec size (1024 ^ 4)).
  { exists 3, "GB", 10. split_and!; try lia; [set_solver | done..]. }
  destruct (Z.ltb_spec size (1024 ^ 5)).
  { exists 4, "TB", 10. split_and!; try lia; [set_solver | done..]. }
  exists 5, "PB", 13. split_and!; try lia; [set_solver | done..].
Qed.

(** A size is printed in exactly nine characters, padded on the left, so that the
    columns of sizes line up; below 1 KiB it is printed in bytes, and from there on
    (up to 8 PiB) in the greatest unit that is not above it, with the two decimals
    nearest to the exact quotient: the number of hundredths is off by at most one
    half. *)
Theorem convertIntToString_spec size :
  0 <= size < 2 ^ 63 ->
  go_len (convertIntToString size) = 9 /\
  (size < 1024 -> exists pad, convertIntToString size = getNumSpace pad " " +:+ pretty size +:+ " B") /\
  (1024 <= size < 2 ^ 53 -> exists pad k u h, (k, u) ∈ size_units /\ 1024 ^ k <= size < 1024 ^ (k + 1) /\
     convertIntToString size = getNumSpace pad " " +:+ fixed2_text h +:+ u /\
     2 * Z.abs (h * 1024 ^ k - 100 * size) <= 1024 ^ k).
Proof.
  intros Hs. destruct (Z.ltb_spec size 1024) as [Hlt | Hge].
  - unfold convertIntToString. rewrite (proj2 (Z.ltb_lt size 1024)) by done.
    pose proof (pretty_length size 4 ltac:(lia) ltac:(lia)) as Hl.
    assert (Hb : go_len (pretty size +:+ " B") < 9) by (rewrite go_len_app; change (go_len " B") with 2; lia).
    rewrite (proj2 (Z.ltb_lt _ 9) Hb). split_and!; [| eauto | lia].
    rewrite go_len_app, go_len_spaces; lia.
  - destruct (convert_unit size ltac:(lia)) as (k & u & j & Hku & Hk & Hj & Hu & Hsz & Hup & E).
    destruct (in_unit_text size k u j Hk Hj Hu ltac:(lia)) as (h & Eh & Hlen & Hh).
    split_and!; [| lia |].
    + rewrite E. destruct (Z.ltb_spec (go_len (in_unit size k u)) 9); [| lia].
      rewrite go_len_app, go_len_spaces; lia.
    + intros [_ H53]. exists (9 - go_len (in_unit size k u)), k, u, h. split_and!; [done | lia | auto | | auto].
      rewrite E, <- Eh. destruct (Z.ltb_spec (go_len (in_unit size k u)) 9); [done |].
      replace (9 - _) with 0 by lia. done.
Qed.

Lemma convertIntToString_spec_witness :
  convertIntToString 5000000000 = "   4.66GB" /\ go_len (convertIntToString 5000000000) = 9.
Proof. split; [by vm_compute |]. apply (convertIntToString_spec 5000000000). by vm_compute. Defined.

(** ** Tables *)

(** What the loop of [AddLine] does to the widths. *)
Fixpoint widened (i : nat) (strs : list string) (ms : list Z) : list Z :=
  match strs with
  | [] => ms
  | c :: strs' => widened (S i) strs' (alter (fun m => Z.max m (go_len c)) i ms)
  end.

Lemma set_same_width (d : Displayer) : set_maxColumeLen (maxColumeLen d) d = d.
Proof. by destruct d. Qed.

Lemma widen_Ok strs : forall i d, (i + length strs <= length (maxColumeLen d))%nat ->
  widen i strs d = (Ok tt, set_maxColumeLen (widened i strs (maxColumeLen d)) d).
Proof.
  induction strs as [|c strs IH]; intros i d Hlen; [by cbn; rewrite set_same_width |].
  cbn [length] in Hlen. destruct (lookup_lt_is_Some_2 (maxColumeLen d) i) as [m Hm]; [lia |].
  cbn [widen widened]. unfold bind, gets, modify. rewrite Hm.
  assert (E : (if go_len c >? m then set_maxColumeLen (<[i := go_len c]> (maxColumeLen d)) d else d) =
              set_maxColumeLen (alter (fun m => Z.max m (go_len c)) i (maxColumeLen d)) d).
  { destruct d as [ts co sp pf ms]; cbn in *. unfold set_maxColumeLen; cbn.
    destruct (Z.gtb_spec (go_len c) m); f_equal; apply list_eq; intros j;
      (destruct (decide (i = j)) as [<- | Hij]; [| by rewrite ?list_lookup_insert_ne, list_lookup_alter_ne]).
    - rewrite list_lookup_insert_eq, list_lookup_alter_eq, Hm by lia. cbn. f_equal. lia.
    - rewrite list_lookup_alter_eq, Hm. cbn. f_equal. lia. }
  rewrite E, IH; [done |]. cbn. rewrite length_alter. lia.
Qed.

Lemma widened_length strs : forall i ms, length (widened i strs ms) = length ms.
Proof. induction strs as [|c strs IH]; intros i ms; [done |]. cbn [widened]. by rewrite IH, length_alter. Qed.

Lemma widened_before strs : forall i j ms, (j < i)%nat -> widened i strs ms !! j = ms !! j.
Proof.
  induction strs as [|c strs IH]; intros i j ms Hj; [done |]. cbn [widened].
  rewrite IH by lia. apply list_lookup_alter_ne. lia.
Qed.

Lemma widened_lookup strs : forall i j c m ms,
  strs !! j = Some c -> ms !! (i + j)%nat = Some m -> widened i strs ms !! (i + j)%nat = Some (Z.max m (go_len c)).
Proof.
  induction strs as [|c0 strs IH]; intros i j c m ms Hc Hm; [done |]. cbn [widened].
  destruct j as [|j]; cbn in Hc.
  - injection Hc as ->. rewrite Nat.add_0_r in *. rewrite widened_before by lia. by rewrite list_lookup_alter_eq, Hm.
  - rewrite <- Nat.add_succ_comm in *. apply IH; [done |]. rewrite list_lookup_alter_ne by lia. done.
Qed.

(** A row is as long as the titles, and its cells fit the columns. *)
Definition row_fits (ms : list Z) (row : list string) : Prop := Forall2 (fun c m => go_len c <= m) row ms.

(** Titles and rows fit, and no column is wider than its longest cell. *)
Definition roomy (d : Displayer) : Prop :=
  row_fits (maxColumeLen d) (titles d) /\ Forall (row_fits (maxColumeLen d)) (content d).
Definition tight (d : Displayer) : Prop :=
  forall i m, maxColumeLen d !! i = Some m ->
    exists row c, (row = titles d \/ row ∈ content d) /\ row !! i = Some c /\ go_len c = m.

Lemma row_fits_mono ms ms' row : Forall2 Z.le ms ms' -> row_fits ms row -> row_fits ms' row.
Proof.
  intros Hms Hrow. revert ms' Hms. induction Hrow as [|c m row ms Hc Hrow IH]; intros ms' Hms.
  - inversion Hms. constructor.
  - inversion Hms; subst. constructor; [lia | by apply IH].
Qed.

Lemma widened_grows row ms : length row = length ms -> Forall2 Z.le ms (widened 0 row ms) /\ row_fits (widened 0 row ms) row.
Proof.
  intros Hlen. split.
  - apply Forall2_same_length_lookup_2; [by rewrite widened_length |]. intros i m m' Hm Hm'.
    destruct (lookup_lt_is_Some_2 row i) as [c Hc]; [rewrite Hlen; by eapply lookup_lt_Some |].
    pose proof (widened_lookup row 0 i c m ms Hc Hm) as E. cbn in E. rewrite E in Hm'. injection Hm' as <-. lia.
  - apply Forall2_same_length_lookup_2; [by rewrite widened_length |]. intros i c m' Hc Hm'.
    destruct (lookup_lt_is_Some_2 ms i) as [m Hm]; [rewrite <- Hlen; by eapply lookup_lt_Some |].
    pose proof (widened_lookup row 0 i c m ms Hc Hm) as E. cbn in E. rewrite E in Hm'. injection Hm' as <-. lia.
Qed.

(** [AddLine] of a row of the right length, and of any other. *)
Lemma AddLine_Ok d row : length row = length (titles d) -> length (maxColumeLen d) = length (titles d) ->
  AddLine row d = (Ok tt, mkDisplayer (titles d) (content d ++ [row]) (space d) (prefix d) (widened 0 row (maxColumeLen d))).
Proof.
  intros Hr Hm. unfold AddLine, bind at 1, gets. rewrite decide_False by (rewrite Hr; auto).
  unfold bind, modify. rewrite widen_Ok; [done |]. cbn. lia.
Qed.

Lemma AddLine_Fail d row : length row <> length (titles d) -> AddLine row d = (Fail (Errorf "content len err"), d).
Proof. intros Hr. unfold AddLine, bind, gets. by rewrite decide_True. Qed.

Lemma roomy_length d : roomy d -> length (maxColumeLen d) = length (titles d).
Proof. intros [Ht _]. symmetry. by eapply Forall2_length. Qed.

Lemma AddLine_roomy row : preserves (fun d => roomy d /\ tight d) (AddLine row).
Proof.
  intros d [Hroomy Htight]. pose proof (roomy_length d Hroomy) as Hm.
  destruct (decide (length row = length (titles d))) as [Hr | Hr]; [| by rewrite AddLine_Fail].
  rewrite AddLine_Ok by done. cbn [snd]. destruct (widened_grows row (maxColumeLen d)) as [Hle Hfit]; [lia |].
  destruct Hroomy as [Ht Hc]. split; [split; cbn |].
  - by eapply row_fits_mono.
  - apply Forall_app_2; [| by apply Forall_singleton].
    eapply Forall_impl; [exact Hc |]. intros r. by apply row_fits_mono.
  - intros i m. cbn. intros Hi.
    assert (i < length (maxColumeLen d))%nat as Hlt by (apply lookup_lt_Some in Hi; by rewrite widened_length in Hi).
    destruct (lookup_lt_is_Some_2 _ _ Hlt) as [m0 Hm0]. rewrite Hm, <- Hr in Hlt.
    destruct (lookup_lt_is_Some_2 _ _ Hlt) as [c Hci].
    pose proof (widened_lookup row 0 i c m0 _ Hci Hm0) as E. cbn in E. rewrite E in Hi. injection Hi as <-.
    destruct (Z.max_spec m0 (go_len c)) as [[_ ->] | [_ ->]].
    + exists row, c. split_and!; [| done..]. right. set_solver.
    + destruct (Htight i m0 Hm0) as (r & c' & Hin & Hc' & Hl). exists r, c'. split_and!; [| done..]. set_solver.
Qed.

Lemma NewDisplayer_roomy sp pf ts : roomy (NewDisplayer sp pf ts) /\ tight (NewDisplayer sp pf ts).
Proof.
  split; [split; [| constructor] |].
  - unfold row_fits. cbn. apply Forall2_fmap_r, Forall_Forall2_diag, Forall_true. intros. cbn. lia.
  - intros i m Hi. cbn in Hi. apply list_lookup_fmap_Some in Hi as (c & -> & Hc).
    exists ts, c. auto.
Qed.

Definition cat_all (l : list string) : string := foldr String.append "" l.
Definition pad_cell (d : Displayer) (c : string) (m : Z) : string :=
  prefix d +:+ c +:+ getNumSpace (m - go_len c) " " +:+ space d.
Definition row_text (d : Displayer) (row : list string) : string :=
  cat_all (zip_with (pad_cell d) row (maxColumeLen d)).
Definition underline_text (d : Displayer) : string :=
  cat_all (map (fun m => prefix d +:+ getNumSpace m "-" +:+ space d) (maxColumeLen d)).
Definition unlines (lines : list string) : string := cat_all (map (fun l => l +:+ newline) lines).

(** The lines of a table, and their length. *)
Definition table_lines (needUnderLine : bool) (d : Displayer) : list string :=
  row_text d (titles d) :: (if needUnderLine then [underline_text d] else []) ++ map (row_text d) (content d).
Definition table_width (d : Displayer) : Z :=
  foldr (fun m acc => go_len (prefix d) + m + go_len (space d) + acc) 0 (maxColumeLen d).

Lemma unlines_app l l' : unlines (l ++ l') = unlines l +:+ unlines l'.
Proof.
  induction l as [|x l IH]; [done |]. 
  change (unlines ((x :: l) ++ l')) with ((x +:+ newline) +:+ unlines (l ++ l')).
  change (unlines (x :: l)) with ((x +:+ newline) +:+ unlines l). by rewrite IH, <- app_assoc_string.
Qed.

Lemma unlines_cons x l : unlines (x :: l) = unlines [x] +:+ unlines l.
Proof. apply (unlines_app [x] l). Qed.

Lemma unlines_one x : unlines [x] = x +:+ newline.
Proof. unfold unlines. cbn [map cat_all foldr]. apply app_empty_r. Qed.

Lemma print_cells_Ok d cells : forall i out, (i + length cells <= length (maxColumeLen d))%nat ->
  print_cells d i cells out = (Ok tt, out +:+ cat_all (zip_with (pad_cell d) cells (drop i (maxColumeLen d)))).
Proof.
  induction cells as [|c cells IH]; intros i out Hlen.
  - cbn. by rewrite app_empty_r.
  - cbn [length] in Hlen. destruct (lookup_lt_is_Some_2 (maxColumeLen d) i) as [m Hm]; [lia |].
    cbn [print_cells]. rewrite Hm, (drop_S _ _ _ Hm). unfold Printf, bind, modify. rewrite IH by lia.
    cbn [zip_with cat_all foldr]. by rewrite app_assoc_string.
Qed.

Lemma print_underline_Ok d ts : forall i out, (i + length ts = length (maxColumeLen d))%nat ->
  print_underline d i ts out =
    (Ok tt, out +:+ cat_all (map (fun m => prefix d +:+ getNumSpace m "-" +:+ space d) (drop i (maxColumeLen d)))).
Proof.
  induction ts as [|t ts IH]; intros i out Hlen.
  - cbn [length] in Hlen. rewrite drop_ge by lia. cbn. by rewrite app_empty_r.
  - cbn [length] in Hlen. destruct (lookup_lt_is_Some_2 (maxColumeLen d) i) as [m Hm]; [lia |].
    cbn [print_underline]. rewrite Hm, (drop_S _ _ _ Hm). unfold Printf, bind, modify. rewrite IH by lia.
    cbn [map cat_all foldr]. by rewrite app_assoc_string.
Qed.

Lemma print_line_Ok d row out : row_fits (maxColumeLen d) row ->
  print_line d row out = (Ok tt, out +:+ unlines [row_text d row]).
Proof.
  intros Hrow. unfold print_line, bind. rewrite print_cells_Ok by (apply Forall2_length in Hrow; lia).
  unfold Printf, modify. rewrite drop_0. unfold unlines. cbn [map cat_all foldr]. by rewrite app_empty_r, app_assoc_string.
Qed.

Lemma print_lines_Ok d rows : forall out, Forall (row_fits (maxColumeLen d)) rows ->
  for_each rows (print_line d) out = (Ok tt, out +:+ unlines (map (row_text d) rows)).
Proof.
  induction rows as [|row rows IH]; intros out Hrows.
  - cbn. by rewrite app_empty_r.
  - apply Forall_cons in Hrows as [Hrow Hrows]. cbn [for_each map]. unfold bind.
    rewrite print_line_Ok by done. rewrite IH by done.
    by rewrite (unlines_cons (row_text d row) (map _ _)), app_assoc_string.
Qed.

(** [Print] does not panic on a displayer whose rows fit, and prints its lines. *)
Lemma Print_Ok under d out : roomy d -> Print under d out = (Ok tt, out +:+ unlines (table_lines under d)).
Proof.
  intros [Ht Hc]. unfold Print, table_lines, bind at 1. rewrite print_line_Ok by done.
  rewrite (unlines_cons (row_text d (titles d)) (_ ++ _)), unlines_app. unfold bind at 1. destruct under.
  - unfold bind. rewrite print_underline_Ok by (apply Forall2_length in Ht; done).
    unfold Printf, modify. rewrite print_lines_Ok by done. rewrite drop_0. fold (underline_text d).
    by rewrite (unlines_one (underline_text d)), !app_assoc_string.
  - unfold ret. rewrite print_lines_Ok by done. by rewrite !app_assoc_string.
Qed.

Lemma go_len_cat_all_cons s l : go_len (cat_all (s :: l)) = go_len s + go_len (cat_all l).
Proof. apply go_len_app. Qed.

Lemma row_text_width d row : row_fits (maxColumeLen d) row -> go_len (row_text d row) = table_width d.
Proof.
  unfold row_text, table_width. intros Hrow. induction Hrow as [|c m row ms Hc Hrow IH]; [done |].
  cbn [zip_with foldr]. rewrite go_len_cat_all_cons, IH. unfold pad_cell. rewrite !go_len_app, go_len_spaces by lia. lia.
Qed.

Lemma go_len_dashes m : 0 <= m -> go_len (getNumSpace m "-") = m.
Proof.
  intros Hm. unfold getNumSpace. rewrite <- (Z2Nat.id m Hm) at 2.
  induction (Z.to_nat m) as [|n IH]; [done |]. cbn [repeat_string]. rewrite go_len_app, IH. change (go_len "-") with 1. lia.
Qed.

Lemma underline_width d : Forall (Z.le 0) (maxColumeLen d) -> go_len (underline_text d) = table_width d.
Proof.
  unfold underline_text, table_width. induction 1 as [|m ms Hm Hms IH]; [done |].
  cbn [map foldr]. rewrite go_len_cat_all_cons, IH, !go_len_app, go_len_dashes by done. lia.
Qed.

Lemma row_fits_nonneg ms row : row_fits ms row -> Forall (Z.le 0) ms.
Proof.
  induction 1 as [|c m row ms Hc Hrow IH]; constructor; [| done]. pose proof (go_len_nonneg c). lia.
Qed.

Lemma table_lines_width under d : roomy d -> Forall (fun l => go_len l = table_width d) (table_lines under d).
Proof.
  intros [Ht Hc]. unfold table_lines. constructor; [by apply row_text_width |]. apply Forall_app_2.
  - destruct under; constructor; [| done]. by eapply underline_width, row_fits_nonneg.
  - rewrite Forall_fmap. eapply Forall_impl; [exact Hc |]. intros row. apply row_text_width.
Qed.

Lemma filter_keeps {A} (P : A -> Prop) `{forall x, Decision (P x)} l : Forall P l -> filter P l = l.
Proof. induction 1 as [|x l Hx Hl IH]; [done |]. by rewrite filter_cons_True, IH. Qed.

(** The rows that [AddLine] is given one after the other, its errors ignored. *)
Definition add_lines (rows : list (list string)) : M Displayer unit :=
  for_each rows (fun row => attempt (AddLine row) ;; ret tt).

Lemma add_lines_roomy rows : preserves (fun d => roomy d /\ tight d) (add_lines rows).
Proof.
  apply preserves_for_each. intros row _. apply preserves_bind; [| intros _; apply preserves_ret].
  apply preserves_attempt, AddLine_roomy.
Qed.

Lemma add_lines_content rows : forall d, roomy d /\ tight d ->
  exists d', add_lines rows d = (Ok tt, d') /\ titles d' = titles d /\ prefix d' = prefix d /\ space d' = space d /\
    content d' = content d ++ filter (fun row => length row = length (titles d)) rows.
Proof.
  induction rows as [|row rows IH]; intros d Hd.
  - exists d. cbn. rewrite app_nil_r. done.
  - pose proof (AddLine_roomy row d Hd) as Hd1. unfold add_lines. cbn [for_each]. fold (add_lines rows).
    unfold bind, attempt. pose proof (roomy_length d (proj1 Hd)) as Hm.
    destruct (decide (length row = length (titles d))) as [Hr | Hr].
    + rewrite AddLine_Ok in Hd1 |- * by done. cbn [snd ret] in *. unfold ret.
      destruct (IH _ Hd1) as (d' & -> & E1 & E2 & E3 & E4). exists d'. rewrite E1, E2, E3, E4.
      cbn [content titles prefix space]. rewrite filter_cons_True by done. by rewrite <- app_assoc.
    + rewrite AddLine_Fail in Hd1 |- * by done. cbn [snd ret] in *. unfold ret.
      destruct (IH _ Hd1) as (d' & -> & E1 & E2 & E3 & E4). exists d'. rewrite E1, E2, E3, E4.
      by rewrite filter_cons_False.
Qed.

(** Whatever rows a table is given, it keeps those that have as many cells as it
    has titles and refuses the others; every column is exactly as wide as its longest
    cell; and [Print] does not fail: it prints the titles, the rule if asked for, and
    the rows in order, on lines that all have the same length. *)
Theorem table_aligned sp pf ts rows under d :
  add_lines rows (NewDisplayer sp pf ts) = (Ok tt, d) ->
  content d = filter (fun row => length row = length ts) rows /\ roomy d /\ tight d /\
  Print under d "" = (Ok tt, unlines (table_lines under d)) /\
  Forall (fun l => go_len l = table_width d) (table_lines under d).
Proof.
  intros Hrun. pose proof (NewDisplayer_roomy sp pf ts) as H0.
  destruct (add_lines_content rows _ H0) as (d' & Hd' & _ & _ & _ & Hc). rewrite Hd' in Hrun. injection Hrun as ->.
  pose proof (add_lines_roomy rows _ H0) as [Hroomy Htight]; rewrite Hd' in Hroomy, Htight; cbn [snd] in *.
  split_and!; [done.. | by rewrite Print_Ok | by apply table_lines_width].
Qed.

Definition sample_rows : list (list string) := [["n1"; "Ready"]; ["short"]; ["node-2"; ""]].
Lemma table_aligned_witness :
  Print true (add_lines sample_rows (NewDisplayer "  " "" ["Name"; "Status"])).2 "" =
    (Ok tt, unlines ["Name    Status  "; "------  ------  "; "n1      Ready   "; "node-2          "]) /\
  content (add_lines sample_rows (NewDisplayer "  " "" ["Name"; "Status"])).2 = [["n1"; "Ready"]; ["node-2"; ""]].
Proof.
  split; [by vm_compute |].
  apply (table_aligned "  " "" ["Name"; "Status"] sample_rows true). by vm_compute.
Defined.

(** ** Several tables with the same columns *)

Definition has_column (c : nat) (d : Displayer) : Prop := (c < length (maxColumeLen d))%nat.
#[local] Instance has_column_dec c d : Decision (has_column c d).
Proof. unfold has_column. apply _. Defined.

(** [m] is the greatest width of column [c] among the displayers, or 0. *)
Definition is_column_max (ds : list Displayer) (c : nat) (m : Z) : Prop :=
  (forall d l, d ∈ ds -> maxColumeLen d !! c = Some l -> l <= m) /\
  (m = 0 \/ exists d, d ∈ ds /\ maxColumeLen d !! c = Some m).

Lemma column_max_fold c ds : forall a f dn,
  is_column_max dn c a -> f = bool_decide (Exists (has_column c) dn) ->
  exists m, foldl (fun '(m, found) d =>
             match maxColumeLen d !! c with Some l => (maxint m l, true) | None => (m, found) end) (a, f) ds =
      (m, bool_decide (Exists (has_column c) (dn ++ ds))) /\ is_column_max (dn ++ ds) c m.
Proof.
  induction ds as [|d ds IH]; intros a f dn Ha Hf.
  - exists a. rewrite app_nil_r. by subst f.
  - cbn [foldl]. replace (dn ++ d :: ds) with ((dn ++ [d]) ++ ds) by (by rewrite <- app_assoc).
    destruct (maxColumeLen d !! c) as [l|] eqn:Hl; apply IH.
    + destruct Ha as [Hle Hex]. unfold maxint. split.
      * intros e l' He Hl'. apply elem_of_app in He as [He | He%list_elem_of_singleton].
        -- pose proof (Hle e l' He Hl'). destruct (Z.gtb_spec a l); lia.
        -- subst e. rewrite Hl in Hl'. injection Hl' as <-. destruct (Z.gtb_spec a l); lia.
      * destruct (Z.gtb_spec a l).
        -- destruct Hex as [-> | (e & He & Hm)]; [by left | right; exists e; split; [set_solver | done]].
        -- right. exists d. split; [set_solver | done].
    + symmetry. apply bool_decide_eq_true. apply Exists_app. right. apply Exists_cons. left.
      by eapply lookup_lt_Some.
    + destruct Ha as [Hle Hex]. split.
      * intros e l' He Hl'. apply elem_of_app in He as [He | He%list_elem_of_singleton]; [by eapply Hle | congruence].
      * destruct Hex as [-> | (e & He & Hm)]; [by left | right; exists e; split; [set_solver | done]].
    + subst f. apply bool_decide_ext. rewrite Exists_app. split; [by left | intros [H | H]; [done |]].
      apply Exists_cons in H as [H | H]; [| by apply Exists_nil in H].
      apply lookup_ge_None_1 in Hl. unfold has_column in H. lia.
Qed.

Lemma column_max_spec c ds : exists m,
  column_max c ds = (m, bool_decide (Exists (has_column c) ds)) /\ is_column_max ds c m.
Proof.
  apply (column_max_fold c ds 0 false []); [| done]. split; [intros d l Hd; set_solver | by left].
Qed.

Lemma sync_columns_stop ds k : forall n c, (k < n)%nat ->
  (forall j, (j < k)%nat -> Exists (has_column (c + j)) ds) -> ~ Exists (has_column (c + k)) ds ->
  sync_columns n c ds = (map (fun i => (column_max i ds).1) (seq c k), (c + k)%nat).
Proof.
  induction k as [|k IH]; intros n c Hn Hin Hout; (destruct n as [|n]; [lia |]); cbn [sync_columns].
  - destruct (column_max_spec c ds) as (m & -> & _). rewrite Nat.add_0_r in *. by rewrite bool_decide_false.
  - destruct (column_max_spec c ds) as (m & E & _). rewrite E.
    specialize (Hin 0%nat ltac:(lia)) as H0. rewrite Nat.add_0_r in H0. rewrite bool_decide_true by done.
    rewrite (IH n (S c)).
    + cbn [seq map]. rewrite E. by rewrite <- Nat.add_succ_comm.
    + lia.
    + intros j Hj. rewrite Nat.add_succ_comm. apply Hin. lia.
    + by rewrite Nat.add_succ_comm.
Qed.

Lemma sync_columns_all ds : forall n c,
  (forall j, (j < n)%nat -> Exists (has_column (c + j)) ds) -> (sync_columns n c ds).2 = 0%nat.
Proof.
  induction n as [|n IH]; intros c Hin; [done |]. cbn [sync_columns].
  destruct (column_max_spec c ds) as (m & -> & _). specialize (Hin 0%nat ltac:(lia)) as H0.
  rewrite Nat.add_0_r in H0. rewrite bool_decide_true by done.
  specialize (IH (S c)). destruct (sync_columns n (S c) ds) as [ms num]. cbn [snd] in *. apply IH.
  intros j Hj. rewrite Nat.add_succ_comm. apply Hin. lia.
Qed.

(** The number of columns of the widest displayer. *)
Definition most_columns (ds : list Displayer) : nat := max_list (map (fun d => length (maxColumeLen d)) ds).

Lemma has_column_iff ds c : Exists (has_column c) ds <-> (c < most_columns ds)%nat.
Proof.
  unfold most_columns. induction ds as [|d ds IH]; [cbn; rewrite Exists_nil; lia |].
  rewrite Exists_cons, IH. unfold has_column. cbn [map max_list_with]. unfold id. lia.
Qed.

(** [SyncDisplayersColumeLen] on displayers of fewer than 100 columns leaves their
    rows alone and makes every column of every displayer as wide as the widest one of
    that column among all of them, so that cells still fit; but when one displayer has
    100 columns or more, nothing is changed at all: the loop that looks for the number
    of columns ends without setting it. *)
Theorem SyncDisplayersColumeLen_spec ds :
  Forall (fun d => Forall (Z.le 0) (maxColumeLen d)) ds ->
  ((most_columns ds < 100)%nat ->
     length (SyncDisplayersColumeLen ds) = length ds /\
     forall i d, ds !! i = Some d -> exists ms, SyncDisplayersColumeLen ds !! i = Some (set_maxColumeLen ms d) /\
       length ms = length (maxColumeLen d) /\ (roomy d -> roomy (set_maxColumeLen ms d)) /\
       forall c m, ms !! c = Some m ->
         (forall e l, e ∈ ds -> maxColumeLen e !! c = Some l -> l <= m) /\
         (exists e, e ∈ ds /\ maxColumeLen e !! c = Some m)) /\
  ((100 <= most_columns ds)%nat -> SyncDisplayersColumeLen ds = ds).
Proof.
  intros Hnn. unfold SyncDisplayersColumeLen. split; intros Hcols.
  - rewrite (sync_columns_stop ds (most_columns ds)); [| done | intros j Hj; by apply has_column_iff |].
    2:{ rewrite has_column_iff. lia. }
    cbn [Nat.add]. rewrite length_map. split; [done |]. intros i d Hi.
    rewrite list_lookup_fmap, Hi. cbn [fmap option_fmap option_map]. eexists. split; [done |].
    assert (Hd : d ∈ ds) by by eapply list_elem_of_lookup_2.
    set (ms := imap _ _).
    assert (Hms : forall c m, ms !! c = Some m -> exists l, maxColumeLen d !! c = Some l /\ is_column_max ds c m).
    { intros c m Hm. unfold ms in Hm. rewrite list_lookup_imap in Hm.
      destruct (maxColumeLen d !! c) as [l|] eqn:Hl; [| done]. cbn in Hm. exists l. split; [done |].
      assert (c < most_columns ds)%nat as Hc.
      { apply has_column_iff, Exists_exists. exists d. split; [done | by eapply lookup_lt_Some]. }
      rewrite decide_True in Hm by done. rewrite list_lookup_fmap, lookup_seq_lt in Hm by done. cbn in Hm.
      destruct (column_max_spec c ds) as (m' & E & Hmax). rewrite E in Hm. cbn in Hm. by injection Hm as <-. }
    assert (Hlen : length ms = length (maxColumeLen d)) by (unfold ms; by rewrite length_imap).
    split; [done |]. split.
    + assert (Hle : Forall2 Z.le (maxColumeLen d) ms).
      { apply Forall2_same_length_lookup_2; [done |]. intros c l m Hl Hm.
        destruct (Hms c m Hm) as (l' & _ & [Hsup _]). by apply (Hsup d l). }
      intros [Ht Hc]. split; cbn; [by eapply row_fits_mono |].
      eapply Forall_impl; [exact Hc |]. intros r. by apply row_fits_mono.
    + intros c m Hm. destruct (Hms c m Hm) as (l & Hl & [Hsup Hex]). split; [done |].
      destruct Hex as [-> | Hex]; [| done]. exists d. split; [done |].
      rewrite Forall_forall in Hnn. specialize (Hnn d Hd). rewrite Forall_lookup in Hnn.
      specialize (Hnn c l Hl). cbv beta in Hnn. specialize (Hsup d l Hd Hl). rewrite Hl. f_equal. lia.
  - pose proof (sync_columns_all ds 100 0) as Hall. destruct (sync_columns 100 0 ds) as [ms num]. cbn [snd] in Hall.
    rewrite Hall; [| intros j Hj; apply has_column_iff; lia].
    rewrite <- (map_id ds) at 2. apply map_ext. intros d.
    transitivity (set_maxColumeLen (maxColumeLen d) d); [| apply set_same_width]. f_equal.
    rewrite <- (list_fmap_id (maxColumeLen d)) at 2. rewrite <- imap_const. apply imap_ext. intros c l _.
    by rewrite decide_False by lia.
Qed.

Definition two_tables : list Displayer :=
  [NewDisplayer " " "" ["Name"; "X"]; NewDisplayer " " "" ["N"; "Status"; "Y"]].
Definition wide_tables : list Displayer :=
  [NewDisplayer " " "" (replicate 100 "title"); NewDisplayer " " "" ["N"]].

Lemma SyncDisplayersColumeLen_spec_witness :
  map maxColumeLen (SyncDisplayersColumeLen two_tables) = [[4; 6]; [4; 6; 1]] /\
  length (SyncDisplayersColumeLen two_tables) = length two_tables /\
  SyncDisplayersColumeLen wide_tables = wide_tables.
Proof.
  split; [by vm_compute |]. split.
  - apply (SyncDisplayersColumeLen_spec two_tables); [repeat constructor; by vm_compute | cbn; lia].
  - apply (SyncDisplayersColumeLen_spec wide_tables); [| cbn; lia].
    repeat constructor; by vm_compute.
Defined.
