(* ===== verification/KubectlPlugin.v ===== *)
(** * kubectl hostpathpv get: pkg/kubectl-plugin/{hostpathpv,hostpathpv_get}.go

    The command that lists nodes and volumes with their quotas.  It reads the API
    server through two list calls ([KubeList]) and prints tables ([Display]).
    cobra's command object and the flags of the cluster connection are arguments:
    the path of the command, the flag and the client that they yield. *)

From S2P Require Import Prelude GoStrings GoFloat Os HostPathApi Json Annotations HostPathClient Display.
From stdpp Require Import pretty.
Open Scope Z_scope.
Open Scope go_scope.

(** The list calls of the API server, and that they list what a get returns. *)
Class KubeList (W : Type) := {
  pv_List : W -> list CorePV + error;
  node_List : W -> list CoreNode + error
}.
Class KubeListLaws (W : Type) `{KubeApi W} `{KubeList W} := {
  nodes_listed w nodes : node_List w = inl nodes ->
    (forall node, node ∈ nodes <-> node_Get (om_Name (cn_meta node)) w = inl node) /\ NoDup (map (fun n => om_Name (cn_meta n)) nodes)
}.

(** ** The command line *)

Record GetOptions := mkGetOptions { resource : string; resourceName : string; o_filter : bool; o_client : bool }.
Definition NewGetOptions : GetOptions := mkGetOptions "" "" false false.

Definition support_type : list string := ["node"; "nodes"; "pv"; "pvs"].

Section command.
(** [fmt.Sprintf] of a format without operands, and [cmd.CommandPath()] *)
Context (Sprintf0 : string -> string) (CommandPath : string).

Definition usageError (format : string) : error :=
  Errorf (Sprintf0 format +:+ newline +:+ "See '" +:+ CommandPath +:+ " -h' for help and examples.").

(** The text of an error that may be nil, as [%v] prints it. *)
Definition noClientError (err : option error) : error :=
  Errorf ("faild get init client,please check kube config file. " +:+ match err with Some e => error_text e | None => "<nil>" end).

Definition Validate (args : list string) : outcome unit :=
  match args with
  | [] => Fail (usageError "Required resource not specified.")
  | a :: _ =>
      if negb (existsb (fun t => String.eqb t a) support_type)
      then Fail (usageError ("Resource type " +:+ a +:+ " not support."))
      else if Z.of_nat (length args) >? 2 then Fail (usageError "Only one or two argument can be passed.")
      else Ok tt
  end.

(** [GetBool]: the flag or an error; [ClientSet]: the error of [KubernetesClientSet],
    and whether there is a client. *)
Context (CommandName : string) (GetBool : bool + error) (ClientSet : option error * bool).

Definition Complete (args : list string) : M GetOptions unit :=
  match GetBool with
  | inr e => fail (Errorf ("error accessing flag filter for command " +:+ CommandName +:+ ": " +:+ error_text e))
  | inl b =>
      modify (fun o => mkGetOptions (resource o) (resourceName o) b (o_client o)) ;;
      match ClientSet with
      | (Some e, _) => fail (noClientError (Some e))
      | (None, false) => fail (noClientError None)
      | (None, true) =>
          modify (fun o => mkGetOptions (resource o) (resourceName o) (o_filter o) true) ;;
          match args with
          | [] => panic "index out of range"
          | a :: args' =>
              modify (fun o => mkGetOptions a (resourceName o) (o_filter o) (o_client o)) ;;
              match args' with
              | [name] => modify (fun o => mkGetOptions (resource o) name (o_filter o) (o_client o))
              | _ => ret tt
              end
          end
      end
  end.
End command.

(** ** Nodes *)

Record totals := mkTotals {
  allCapacity : Z;
  allQuota : Z;
  allUsed : Z;
  allPersistent : Z;
  allEphemeral : Z
}.

Definition node_titles : list string :=
  ["Name"; "Status"; "DiskNum"; "Capacity"; "Quota"; "Used"; "Persistent"; "Ephemeral"].

(** A size with its share of the capacity. *)
Definition share (used capacity : Z) : string := convertIntToString used +:+ getPercentStr used capacity.

Definition node_row (hpNode : Node) : list string :=
  let q := nd_diskUsage hpNode in
  let disks := Z.of_nat (length (nu_DiskStatus q)) in
  [nd_name hpNode; nd_ready hpNode;
   "(" +:+ pretty (disks - Z.of_nat (size (nd_disabledDisk hpNode))) +:+ "/" +:+ pretty disks +:+ ")";
   convertIntToString (nu_Capacity q);
   share (nu_QuotaSize q) (nu_Capacity q);
   share (nu_Used q) (nu_Capacity q);
   share (nu_QuotaSize q) (nu_Capacity q);
   share (nu_QuotaSize q) (nu_Capacity q)].

Definition add_totals (q : NodeUsageInfo) (t : totals) : totals :=
  mkTotals (i64 (allCapacity t + nu_Capacity q)) (i64 (allQuota t + nu_QuotaSize q)) (i64 (allUsed t + nu_Used q))
    (i64 (allPersistent t + nu_QuotaSize q)) (i64 (allEphemeral t + nu_QuotaSize q)).

Definition totals_text (t : totals) : string :=
  "AllCapacity: " +:+ convertIntToString (allCapacity t) +:+ ", AllQuota: " +:+ share (allQuota t) (allCapacity t) +:+
  ", AllUsed: " +:+ share (allUsed t) (allCapacity t) +:+ ", AllPersistent: " +:+ share (allPersistent t) (allCapacity t) +:+
  ", AllEphemeral: " +:+ share (allEphemeral t) (allCapacity t) +:+ newline +:+ newline.

Definition on_fst {A B C} (m : M A C) : M (A * B) C := zoom fst (fun a s => (a, s.2)) m.

(** The body of the loop over the nodes. *)
Definition add_node (nodeName : string) (filter_ : bool) (node : CoreNode) : M (Displayer * totals) unit :=
  if bool_decide (nodeName <> "") && bool_decide (nodeName <> om_Name (cn_meta node)) then ret tt
  else
    let hpNode := ToHostPathNode node in
    let quotaInfo := nd_diskUsage hpNode in
    if filter_ && (negb (nd_hostPathNode hpNode) || (Z.of_nat (length (nu_DiskStatus quotaInfo)) =? 0)) then ret tt
    else
      let! _ := attempt (on_fst (AddLine (node_row hpNode))) in
      modify (fun s => (s.1, add_totals quotaInfo s.2)).

(** ** Volumes *)

Definition phase_text (p : PersistentVolumePhase) : string :=
  match p with
  | VolumePending => "Pending" | VolumeAvailable => "Available" | VolumeBound => "Bound"
  | VolumeReleased => "Released" | VolumeFailed => "Failed"
  end.

Definition pv_titles : list string := ["Name"; "Status"; "BindNode"; "Capacity"; "Ephemeral"; "Quota"; "Used"].

Definition pv_row (pv : CorePV) (hpv : PersistentVolume) : list string :=
  [om_Name (cpv_meta pv); phase_text (cpv_Phase pv); pv_bindNode hpv; convertIntToString (pv_capacity hpv);
   FormatBool (pv_ephemeral hpv); convertIntToString (i64 (GetHardQuota hpv)); convertIntToString (i64 (GetUsage hpv))].

(** The body of the loop over the volumes. *)
Definition add_pv (pvName : string) (pv : CorePV) : M Displayer unit :=
  if bool_decide (pvName <> "") && bool_decide (pvName <> om_Name (cpv_meta pv)) then ret tt
  else
    let! hpv := lift (ToHostPathVolume pv) in
    if negb (pv_isHostPathPv hpv) then ret tt
    else let! _ := attempt (AddLine (pv_row pv hpv)) in ret tt.

Section get.
Context {W : Type} `{KubeList W}.

(** The output of the command is the state; [w] is the cluster, which is only read. *)
Definition getNodes (w : W) (nodeName : string) (filter_ : bool) : M string unit :=
  match node_List w with
  | inr e => fail e
  | inl [] => ret tt
  | inl nodes =>
      let '(r, (displayer, t)) :=
        for_each nodes (add_node nodeName filter_) (NewDisplayer "   " "" node_titles, mkTotals 0 0 0 0 0) in
      lift r ;; Print true displayer ;; Printf (totals_text t)
  end.

Definition getPVs (w : W) (pvName : string) : M string unit :=
  match pv_List w with
  | inr e => fail e
  | inl pvs =>
      let '(r, displayer) := for_each pvs (add_pv pvName) (NewDisplayer "   " "" pv_titles) in
      lift r ;; Print true displayer
  end.

Definition Run (w : W) (o : GetOptions) : M string unit :=
  if String.eqb (resource o) "nodes" || String.eqb (resource o) "node" then getNodes w (resourceName o) (o_filter o)
  else if String.eqb (resource o) "pvs" || String.eqb (resource o) "pv" then getPVs w (resourceName o)
  else ret tt.

(** The command: [CheckErr] ends the process at the first error. *)
Definition get_command (Sprintf0 : string -> string) (CommandPath CommandName : string) (GetBool : bool + error)
    (ClientSet : option error * bool) (args : list string) (w : W) : M string unit :=
  lift (Validate Sprintf0 CommandPath args) ;;
  let '(r, o) := Complete CommandName GetBool ClientSet args NewGetOptions in
  lift r ;; Run w o.
End get.

(** ** What is listed *)

Lemma i64_add_l a b : i64 (i64 a + b) = i64 (a + b).
Proof.
  unfold i64. f_equal. replace ((a + 2 ^ 63) mod 2 ^ 64 - 2 ^ 63 + b + 2 ^ 63) with ((a + 2 ^ 63) mod 2 ^ 64 + b) by lia.
  rewrite Z.add_mod_idemp_l by lia. f_equal. lia.
Qed.

(** The sum of one field over the nodes, as the loop computes it in int64. *)
Definition sum_of (f : NodeUsageInfo -> Z) (qs : list NodeUsageInfo) : Z := foldr (fun q acc => f q + acc) 0 qs.

Lemma foldl_totals qs : forall t,
  foldl (fun t q => add_totals q t) t qs =
  match qs with
  | [] => t
  | _ => mkTotals (i64 (allCapacity t + sum_of nu_Capacity qs)) (i64 (allQuota t + sum_of nu_QuotaSize qs))
           (i64 (allUsed t + sum_of nu_Used qs)) (i64 (allPersistent t + sum_of nu_QuotaSize qs))
           (i64 (allEphemeral t + sum_of nu_QuotaSize qs))
  end.
Proof.
  induction qs as [|q qs IH]; intros t; [done |]. cbn [foldl]. rewrite IH.
  destruct qs as [|q' qs]; unfold add_totals; cbn [allCapacity allQuota allUsed allPersistent allEphemeral].
  - unfold sum_of. cbn [foldr]. by rewrite !Z.add_0_r.
  - rewrite !i64_add_l. unfold sum_of. cbn [foldr]. f_equal; f_equal; lia.
Qed.

(** The totals of the nodes shown. *)
Definition totals_of (qs : list NodeUsageInfo) : totals :=
  mkTotals (i64 (sum_of nu_Capacity qs)) (i64 (sum_of nu_QuotaSize qs)) (i64 (sum_of nu_Used qs))
    (i64 (sum_of nu_QuotaSize qs)) (i64 (sum_of nu_QuotaSize qs)).

Lemma foldl_totals_zero qs : foldl (fun t q => add_totals q t) (mkTotals 0 0 0 0 0) qs = totals_of qs.
Proof. rewrite foldl_totals. by destruct qs. Qed.

(** Asked for by name, or no name was given. *)
Definition chosen (name objectName : string) : Prop := name = "" \/ name = objectName.

Lemma chosen_test name n : (bool_decide (name <> "") && bool_decide (name <> n)) = negb (bool_decide (chosen name n)).
Proof.
  unfold chosen. repeat case_bool_decide; try done; tauto.
Qed.

(** A node that is shown: with the filter, only plugin nodes that have reported disks. *)
Definition shows (nodeName : string) (filter_ : bool) (node : CoreNode) : Prop :=
  chosen nodeName (om_Name (cn_meta node)) /\
  (filter_ = true -> IsHostPathNode node = true /\ nu_DiskStatus (nd_diskUsage (ToHostPathNode node)) <> []).

#[export] Instance shows_dec nodeName filter_ node : Decision (shows nodeName filter_ node).
Proof.
  unfold shows, chosen.
  refine (and_dec _ (impl_dec _ _)).
Defined.

Lemma nd_hostPathNode_conv node : nd_hostPathNode (ToHostPathNode node) = IsHostPathNode node.
Proof. unfold ToHostPathNode, node_with_ready. by destruct (IsHostPathNode node). Qed.

Lemma nd_name_conv node : nd_name (ToHostPathNode node) = om_Name (cn_meta node).
Proof. unfold ToHostPathNode, node_with_ready. by destruct (IsHostPathNode node). Qed.

Lemma add_node_cases nodeName filter_ node d t : length (maxColumeLen d) = length (titles d) ->
  add_node nodeName filter_ node (d, t) =
  if decide (shows nodeName filter_ node) then
    (Ok tt, ((attempt (AddLine (node_row (ToHostPathNode node))) d).2, add_totals (nd_diskUsage (ToHostPathNode node)) t))
  else (Ok tt, (d, t)).
Proof.
  intros Hm. unfold add_node. rewrite chosen_test, nd_hostPathNode_conv.
  destruct (decide (shows nodeName filter_ node)) as [[Hc Hf] | Hno].
  - rewrite bool_decide_true by done. cbn [negb].
    assert (E : filter_ && (negb (IsHostPathNode node) ||
              (Z.of_nat (length (nu_DiskStatus (nd_diskUsage (ToHostPathNode node)))) =? 0)) = false).
    { destruct filter_; [| done]. destruct (Hf eq_refl) as [-> Hne]. cbn.
      destruct (nu_DiskStatus _); [done |]. apply Z.eqb_neq. cbn. lia. }
    rewrite E. unfold bind, attempt, on_fst, zoom, modify. cbn [fst snd].
    destruct (decide (length (node_row (ToHostPathNode node)) = length (titles d))) as [Hl | Hl].
    + by rewrite AddLine_Ok.
    + rewrite AddLine_Fail by done. done.
  - destruct (bool_decide (chosen nodeName _)) eqn:Hc; cbn [negb]; [| done].
    apply bool_decide_eq_true in Hc.
    destruct filter_; [| by exfalso; apply Hno; split].
    destruct (IsHostPathNode node) eqn:Hh; cbn; [| done].
    destruct (nu_DiskStatus _) eqn:Hd; cbn; [done |].
    exfalso. apply Hno. split; [done |]. intros _. by rewrite Hh, Hd.
Qed.

(** The loop over the nodes is [AddLine] of the rows shown, and the sums. *)
Lemma add_nodes_run nodeName filter_ nodes : forall d t, roomy d /\ tight d ->
  let shown := map ToHostPathNode (filter (shows nodeName filter_) nodes) in
  exists d', for_each nodes (add_node nodeName filter_) (d, t) =
      (Ok tt, (d', foldl (fun t q => add_totals q t) t (map nd_diskUsage shown))) /\
    add_lines (map node_row shown) d = (Ok tt, d').
Proof.
  induction nodes as [|node nodes IH]; intros d t Hd shown; [by exists d |].
  cbn [for_each]. unfold bind. rewrite add_node_cases by apply roomy_length, Hd.
  unfold shown. clear shown.
  destruct (decide (shows nodeName filter_ node)) as [Hs | Hs].
  - rewrite filter_cons_True by done. cbn [map foldl]. unfold add_lines. cbn [for_each]. 
    pose proof (AddLine_roomy (node_row (ToHostPathNode node)) d Hd) as Hd1.
    set (d1 := (attempt (AddLine _) d).2).
    assert (E : (attempt (AddLine (node_row (ToHostPathNode node)));; ret ()) d = (Ok tt, d1)).
    { unfold d1, bind, attempt. pose proof (roomy_length d (proj1 Hd)) as Hm.
      destruct (decide (length (node_row (ToHostPathNode node)) = length (titles d))).
      - by rewrite AddLine_Ok.
      - by rewrite AddLine_Fail. }
    assert (Ed : d1 = (AddLine (node_row (ToHostPathNode node)) d).2).
    { unfold d1, attempt. by destruct (AddLine _ d) as [[] ?]. }
    unfold bind at 1. rewrite E. apply IH. by rewrite Ed.
  - rewrite filter_cons_False by done. by apply IH.
Qed.

(** [getNodes] prints one row per node that is asked for - with the filter, per
    plugin node that has reported disks - in the order of the list, in an aligned
    table, and then the totals of these nodes, which are the exact sums as far as they
    fit an int64; it fails only when the list call fails.  (The persistent and the
    ephemeral column and totals repeat the quota.) *)
Theorem getNodes_spec {W} `{KubeList W} (w : W) nodeName filter_ nodes out :
  node_List w = inl nodes -> nodes <> [] ->
  let shown := map ToHostPathNode (filter (shows nodeName filter_) nodes) in
  exists d, getNodes w nodeName filter_ out =
      (Ok tt, (out +:+ unlines (table_lines true d)) +:+ totals_text (totals_of (map nd_diskUsage shown))) /\
    titles d = node_titles /\ content d = map node_row shown /\ roomy d /\ tight d.
Proof.
  intros Hl Hne shown. unfold getNodes. rewrite Hl. destruct nodes as [|n0 nodes0]; [done |].
  set (nodes := n0 :: nodes0) in *.
  pose proof (NewDisplayer_roomy "   " "" node_titles) as H0.
  destruct (add_nodes_run nodeName filter_ nodes _ (mkTotals 0 0 0 0 0) H0) as (d & -> & Hadd).
  fold shown in Hadd |- *. rewrite foldl_totals_zero.
  pose proof (add_lines_roomy (map node_row shown) _ H0) as Hd; rewrite Hadd in Hd; cbn [snd] in Hd.
  destruct (add_lines_content (map node_row shown) _ H0) as (d' & Hd' & Ht & _ & _ & Hc).
  rewrite Hadd in Hd'. injection Hd' as <-. exists d. split.
  - unfold lift, bind. rewrite Print_Ok by apply Hd. done.
  - split; [done |]. split; [| done]. rewrite Hc. cbn [content titles NewDisplayer app].
    by apply filter_keeps, Forall_fmap, Forall_true.
Qed.

(** The row of the volumes that are asked for and belong to the plugin. *)
Definition shown_pv (pvName : string) (pv : CorePV) : option (list string) :=
  if decide (chosen pvName (om_Name (cpv_meta pv))) then
    match ToHostPathVolume pv with
    | Ok hpv => if pv_isHostPathPv hpv then Some (pv_row pv hpv) else None
    | _ => None
    end
  else None.

(** A volume that is asked for and has no claim or no CSI source: any volume of another
    kind, or one that is not claimed. *)
Definition unconvertible (pvName : string) (pv : CorePV) : Prop :=
  chosen pvName (om_Name (cpv_meta pv)) /\ (cpv_ClaimRef pv = None \/ cpv_CSI pv = None).

Lemma ToHostPathVolume_panics pv :
  match ToHostPathVolume pv with
  | Ok _ => cpv_ClaimRef pv <> None /\ cpv_CSI pv <> None
  | Fail _ => False
  | Panic _ => cpv_ClaimRef pv = None \/ cpv_CSI pv = None
  end.
Proof.
  unfold ToHostPathVolume. destruct (cpv_ClaimRef pv); [| by left]. destruct (cpv_CSI pv); [| by right].
  destruct (isHostPathPV pv); [| done].
  by destruct (match getHostPathPVUsageInfo _ with Ok _ => _ | _ => _ end).
Qed.

Lemma add_pvs_run pvName pvs : forall d, roomy d /\ tight d ->
  (Forall (fun pv => ~ unconvertible pvName pv) pvs /\
     for_each pvs (add_pv pvName) d = add_lines (omap (shown_pv pvName) pvs) d) \/
  (Exists (unconvertible pvName) pvs /\ exists why d', for_each pvs (add_pv pvName) d = (Panic why, d')).
Proof.
  induction pvs as [|pv pvs IH]; intros d Hd; [left; by split |].
  cbn [for_each]. unfold add_pv at 1 3. rewrite chosen_test.
  destruct (decide (chosen pvName (om_Name (cpv_meta pv)))) as [Hc | Hc].
  2:{ rewrite bool_decide_false by done. cbn [negb]. unfold bind, ret at 1 2.
      assert (Hu : ~ unconvertible pvName pv) by (by intros [? _]).
      cbn [omap list_omap]. unfold shown_pv at 1. rewrite decide_False by done.
      destruct (IH d Hd) as [[Hf E] | [He E]]; [left; split; [by constructor | done] | right].
      split; [by right | done]. }
  rewrite bool_decide_true by done. cbn [negb]. pose proof (ToHostPathVolume_panics pv) as Hpv.
  cbn [omap list_omap]. unfold shown_pv at 1. rewrite decide_True by done. unfold bind at 1 2 4 5, lift.
  destruct (ToHostPathVolume pv) as [hpv | e | why]; [| done |].
  2:{ right. split; [by left | by eauto]. }
  assert (Hu : ~ unconvertible pvName pv) by (intros [_ [? | ?]]; tauto).
  assert (Hskip : forall d1, roomy d1 /\ tight d1 -> forall rows,
     (Forall (fun pv => ~ unconvertible pvName pv) pvs /\ for_each pvs (add_pv pvName) d1 = rows) \/
     (Exists (unconvertible pvName) pvs /\ exists why d', for_each pvs (add_pv pvName) d1 = (Panic why, d')) ->
     (Forall (fun pv => ~ unconvertible pvName pv) (pv :: pvs) /\ for_each pvs (add_pv pvName) d1 = rows) \/
     (Exists (unconvertible pvName) (pv :: pvs) /\ exists why d', for_each pvs (add_pv pvName) d1 = (Panic why, d'))).
  { intros d1 _ rows [[Hf E] | [He E]]; [left; split; [by constructor | done] | right; split; [by right | done]]. }
  destruct (pv_isHostPathPv hpv); cbn [negb].
  - pose proof (AddLine_roomy (pv_row pv hpv) d Hd) as Hd1. unfold add_lines. cbn [for_each]. fold (add_lines (omap (shown_pv pvName) pvs)).
    unfold bind, attempt, ret at 1 2 3. pose proof (roomy_length d (proj1 Hd)) as Hm.
    destruct (decide (length (pv_row pv hpv) = length (titles d))).
    + rewrite AddLine_Ok in Hd1 |- * by done. cbn [snd] in Hd1. by apply Hskip, IH.
    + rewrite AddLine_Fail in Hd1 |- * by done. cbn [snd] in Hd1. by apply Hskip, IH.
  - unfold ret at 1 2. by apply Hskip, IH.
Qed.

(** [getPVs] lists the plugin's volumes that are asked for, one row each in an
    aligned table - but only when every volume asked for, of whatever kind, has a
    claim and a CSI source; otherwise, for example when the cluster has one unclaimed
    or one NFS volume, it panics before it prints anything. *)
Theorem getPVs_spec {W} `{KubeList W} (w : W) pvName pvs out :
  pv_List w = inl pvs ->
  (Forall (fun pv => ~ unconvertible pvName pv) pvs ->
     exists d, getPVs w pvName out = (Ok tt, out +:+ unlines (table_lines true d)) /\
       titles d = pv_titles /\ content d = omap (shown_pv pvName) pvs /\ roomy d /\ tight d) /\
  (Exists (unconvertible pvName) pvs -> exists why, getPVs w pvName out = (Panic why, out)).
Proof.
  intros Hl. unfold getPVs. rewrite Hl. pose proof (NewDisplayer_roomy "   " "" pv_titles) as H0.
  assert (Hrows : Forall (fun row => length row = length pv_titles) (omap (shown_pv pvName) pvs)).
  { apply Forall_forall. intros row Hrow. apply list_elem_of_omap in Hrow as (pv & _ & Hs). revert Hs.
    unfold shown_pv. repeat case_match; intros; simplify_eq. done. }
  split; intros Hpvs.
  - destruct (add_pvs_run pvName pvs _ H0) as [[_ E] | [He _]].
    2:{ exfalso. apply Exists_exists in He as (pv & Hin & Hu). rewrite Forall_forall in Hpvs. by apply (Hpvs pv). }
    rewrite E.
    pose proof (add_lines_roomy (omap (shown_pv pvName) pvs) _ H0) as Hd.
    destruct (add_lines_content (omap (shown_pv pvName) pvs) _ H0) as (d & Ed & Ht & _ & _ & Hc).
    rewrite Ed in Hd |- *. cbn [snd] in Hd. exists d. unfold lift, bind. rewrite Print_Ok by apply Hd.
    split_and!; [done | done | | apply Hd..]. rewrite Hc. cbn [content titles NewDisplayer app]. by apply filter_keeps.
  - destruct (add_pvs_run pvName pvs _ H0) as [[Hf _] | [_ (why & d & ->)]].
    + exfalso. apply Exists_exists in Hpvs as (pv & Hin & Hu). rewrite Forall_forall in Hf. by apply (Hf pv).
    + by exists why.
Qed.

(** ** From the sync worker to the table *)

Lemma filter_by_name name nodes node :
  name <> "" -> NoDup (map (fun n => om_Name (cn_meta n)) nodes) -> node ∈ nodes -> om_Name (cn_meta node) = name ->
  (true = true -> IsHostPathNode node = true /\ nu_DiskStatus (nd_diskUsage (ToHostPathNode node)) <> []) ->
  filter (shows name true) nodes = [node].
Proof.
  intros Hne Hnd Hin Hname Hshow.
  assert (Hmiss : forall l, ~ name ∈ map (fun n => om_Name (cn_meta n)) l -> filter (shows name true) l = []).
  { induction l as [|x l IH]; intros Hl; [done |]. cbn [map] in Hl. apply not_elem_of_cons in Hl as [Hx Hl].
    rewrite filter_cons_False; [by apply IH |]. intros [[? | ?] _]; congruence. }
  induction nodes as [|x nodes IH]; [by apply not_elem_of_nil in Hin |].
  cbn [map] in Hnd. apply NoDup_cons in Hnd as [Hx Hnd]. apply elem_of_cons in Hin as [-> | Hin].
  - rewrite filter_cons_True; [| split; [by right | done]]. f_equal. apply Hmiss. by rewrite <- Hname.
  - rewrite filter_cons_False; [by apply IH |]. intros [[? | Hxn] _]; [done |]. apply Hx. rewrite <- Hxn, <- Hname.
    apply (list_elem_of_fmap_2 (fun n => om_Name (cn_meta n))), Hin.
Qed.

(** C22: What the sync worker reports is what the command shows: after the patch of the
    usage of a node is accepted, [kubectl hostpathpv get node <name>] prints one row,
    with the reported sizes, shares and number of disks, and the totals of just this
    report - through the JSON text, base64, the patch, and the conversion back. *)
Theorem reported_usage_displayed {W} `{KubeListLaws W} `{!KubeApiLaws W} name n (w w' : W) node nodes :
  hp_UpdateNodeHostPathPVUsageInfo name n w = (Ok tt, w') ->
  node_usage_ok n -> node_Get name w = inl node -> IsHostPathNode node = true ->
  om_Name (cn_meta node) = name -> name <> "" -> nu_DiskStatus n <> [] ->
  node_List w' = inl nodes ->
  exists d version, getNodes w' name true "" =
      (Ok tt, unlines (table_lines true d) +:+ totals_text (totals_of [n])) /\
    titles d = node_titles /\ roomy d /\
    content d = [node_row (mkNode version name (om_Namespace (cn_meta node)) true n
                             (nd_disabledDisk (ToHostPathNode node)) (getNodeReadyStatus (cn_Conditions node)))].
Proof.
  intros Hup Hn Hget Hhost Hname Hne Hdisks Hlist.
  destruct (node_usage_stored _ _ _ _ _ Hup Hn Hget Hhost) as (node' & version & Hget' & E).
  destruct (nodes_listed _ _ Hlist) as [Hin Hnd].
  assert (Hname' : om_Name (cn_meta node') = name) by (by rewrite <- nd_name_conv, E).
  assert (Hf : filter (shows name true) nodes = [node']).
  { apply filter_by_name; [done | done | apply Hin; by rewrite Hname' | done |]. intros _.
    rewrite <- nd_hostPathNode_conv, E. done. }
  assert (Hnn : nodes <> []) by (intros ->; done).
  destruct (getNodes_spec w' name true nodes "" Hlist Hnn) as (d & Hrun & Ht & Hc & Hroomy & _).
  rewrite Hf in Hrun, Hc. cbn [map] in Hrun, Hc. rewrite E, Hname in Hrun, Hc.
  exists d, version. split_and!; [| done..]. exact Hrun.
Qed.

(** ** The command line *)

(** [Validate] accepts one or two words, the first of which is a kind of resource. *)
Lemma Validate_Ok Sprintf0 path args :
  Validate Sprintf0 path args = Ok tt <->
  exists a rest, args = a :: rest /\ a ∈ support_type /\ (length rest <= 1)%nat.
Proof.
  unfold Validate. destruct args as [|a rest]; [by split; [| intros (? & ? & ? & _)] |].
  assert (Ha : existsb (fun t => String.eqb t a) support_type = true <-> a ∈ support_type).
  { rewrite existsb_exists. split.
    - intros (t & Ht & E%String.eqb_eq). apply list_elem_of_In in Ht. by subst t.
    - intros Hin. exists a. split; [by apply list_elem_of_In | by apply String.eqb_eq]. }
  destruct (existsb _ _); cbn [negb].
  - destruct (Z.gtb_spec (Z.of_nat (length (a :: rest))) 2) as [Hl | Hl]; cbn [length] in Hl.
    + split; [done |]. intros (? & ? & [= <- <-] & _ & Hr). lia.
    + split; [intros _ | done]. exists a, rest. split_and!; [done | by apply Ha | lia].
  - split; [done |]. intros (? & ? & [= <- <-] & Hin & _). by apply Ha in Hin.
Qed.

(** The command either reports a usage error, an error of the flag or of the
    client, or runs the listing that its first word names, with the second word as
    the name; words that [Validate] accepts never make [Complete] read an argument
    that is not there, nor [Run] do nothing. *)
Theorem get_command_spec {W} `{KubeList W} Sprintf0 path cname getbool clientset args (w : W) out :
  get_command Sprintf0 path cname getbool clientset args w out =
  match Validate Sprintf0 path args with
  | Ok _ =>
      match getbool, clientset with
      | inr e, _ => (Fail (Errorf ("error accessing flag filter for command " +:+ cname +:+ ": " +:+ error_text e)), out)
      | inl _, (Some e, _) => (Fail (noClientError (Some e)), out)
      | inl _, (None, false) => (Fail (noClientError None), out)
      | inl b, (None, true) =>
          let name := default "" (args !! 1%nat) in
          if bool_decide (args !! 0%nat = Some "node" \/ args !! 0%nat = Some "nodes") then getNodes w name b out
          else getPVs w name out
      end
  | Fail e => (Fail e, out)
  | Panic _ => (Panic "", out)
  end /\ (forall why, Validate Sprintf0 path args <> Panic why).
Proof.
  assert (Hnp : forall why, Validate Sprintf0 path args <> Panic why).
  { intros why. unfold Validate. by repeat case_match. }
  split; [| done]. unfold get_command, bind at 1, lift at 1.
  destruct (Validate Sprintf0 path args) as [[] | e | why] eqn:HV; [| done | by destruct (Hnp why)].
  destruct (proj1 (Validate_Ok _ _ _) HV) as (a & rest & -> & Ha & Hrest).
  unfold Complete. destruct getbool as [b | e]; [| done].
  destruct clientset as [[e|] []]; try done.
  unfold bind, modify. destruct rest as [|name [|]]; [| | cbn in Hrest; lia];
    cbn [fst snd ret lift resource resourceName o_filter o_client]; unfold ret, lift; cbn [lookup list_lookup default];
    (assert (Ha' : a = "node" \/ a = "nodes" \/ a = "pv" \/ a = "pvs") by (unfold support_type in Ha; set_solver));
    destruct Ha' as [-> | [-> | [-> | ->]]]; done.
Qed.

(** ** Examples *)

#[export] Instance sim_list : KubeList sim_cluster := {
  pv_List w := inl (map snd (map_to_list (sc_pvs w)));
  node_List w := inl (map snd (List.filter (fun kn => String.eqb (om_Name (cn_meta kn.2)) kn.1) (map_to_list (sc_nodes w))))
}.

#[export] Program Instance sim_list_laws : KubeListLaws sim_cluster.
Next Obligation.
  intros w nodes [= <-]. cbn [node_Get sim_kube].
  set (kept := List.filter _ _).
  assert (Hkept : forall k n, (k, n) ∈ kept <-> sc_nodes w !! k = Some n /\ om_Name (cn_meta n) = k).
  { intros k n. unfold kept. rewrite list_elem_of_In, filter_In, <- list_elem_of_In, elem_of_map_to_list. cbn.
    by rewrite String.eqb_eq. }
  split.
  - intros node. split.
    + intros ((k & n) & -> & Hin)%list_elem_of_fmap. apply Hkept in Hin as [Hk Hn]. cbn. by rewrite Hn, Hk.
    + destruct (sc_nodes w !! om_Name (cn_meta node)) as [n|] eqn:Hn; [| done]. intros [= ->].
      apply (list_elem_of_fmap_2' snd kept (om_Name (cn_meta node), node)); [| done]. by apply Hkept.
  - assert (E : map (fun n => om_Name (cn_meta n)) (map snd kept) = map fst kept).
    { rewrite map_map. apply map_ext_in. intros [k n] Hin. apply list_elem_of_In, Hkept in Hin as [_ Hin]. done. }
    rewrite E. unfold kept. generalize (NoDup_fst_map_to_list (sc_nodes w)).
    generalize (map_to_list (sc_nodes w)). intros l. induction l as [|[k n] l IH]; intros Hnd; [constructor |].
    cbn [fmap list_fmap fst] in Hnd. apply NoDup_cons in Hnd as [Hk Hnd]. cbn [List.filter snd fst].
    destruct (String.eqb _ _); cbn [map fst]; [| by apply IH]. apply NoDup_cons. split; [| by apply IH].
    intros Hin. apply Hk. apply list_elem_of_fmap in Hin as ((k' & n') & Ek & Hin). cbn in Ek. subst k'.
    apply list_elem_of_In, filter_In, proj1, list_elem_of_In in Hin.
    by apply (list_elem_of_fmap_2' fst l (k, n')).
Qed.

Definition listed_nodes : list CoreNode :=
  match node_List after_node_report with inl l => l | inr _ => [] end.

Lemma reported_usage_displayed_witness :
  exists d version, getNodes after_node_report "n1" true "" =
      (Ok tt, unlines (table_lines true d) +:+ totals_text (totals_of [reported_usage])) /\
    titles d = node_titles /\ roomy d /\
    content d = [node_row (mkNode version "n1" "" true reported_usage (nd_disabledDisk (ToHostPathNode (core_node "n1"))) "Ready")].
Proof.
  apply (reported_usage_displayed "n1" reported_usage cluster after_node_report (core_node "n1") listed_nodes).
  - by vm_compute.
  - apply reported_usage_ok.
  - by vm_compute.
  - by vm_compute.
  - done.
  - done.
  - done.
  - by vm_compute.
Defined.

(** A cluster with an unclaimed volume of another driver. *)
Definition nfs_pv : CorePV := mkCorePV (sim_meta "nfs-1" "" ∅) None None 5 VolumeAvailable.
Definition mixed_cluster : sim_cluster := mkSimCluster (<["nfs-1" := nfs_pv]> (sc_pvs cluster)) ∅ ∅.

Definition listed_pvs (w : sim_cluster) : list CorePV := map snd (map_to_list (sc_pvs w)).

Lemma cluster_pvs : listed_pvs cluster = [core_pv "pvc-1" "c1" "" 1000].
Proof. unfold listed_pvs, cluster. cbn [sc_pvs]. by rewrite map_to_list_singleton. Qed.

Lemma nfs_listed : nfs_pv ∈ listed_pvs mixed_cluster.
Proof.
  apply (list_elem_of_fmap_2' snd _ ("nfs-1", nfs_pv)); [| done]. apply elem_of_map_to_list, lookup_insert_eq.
Qed.

Lemma getPVs_spec_witness :
  (exists d, getPVs cluster "" "" = (Ok tt, unlines (table_lines true d)) /\
     titles d = pv_titles /\ content d = omap (shown_pv "") (listed_pvs cluster) /\ roomy d /\ tight d) /\
  (exists why, getPVs mixed_cluster "" "" = (Panic why, "")).
Proof.
  split.
  - apply (getPVs_spec cluster "" (listed_pvs cluster) ""); [done |]. rewrite cluster_pvs.
    constructor; [| constructor]. intros [_ [E | E]]; inversion E.
  - apply (getPVs_spec mixed_cluster "" (listed_pvs mixed_cluster) ""); [done |].
    apply Exists_exists. exists nfs_pv. split; [apply nfs_listed |]. split; left; done.
Defined.

Example get_pv_output :
  (getPVs cluster "pvc-1" "").2 =
  unlines ["Name    Status   BindNode   Capacity    Ephemeral   Quota       Used        ";
           "-----   ------   --------   ---------   ---------   ---------   ---------   ";
           "pvc-1   Bound                  1000 B   true           1000 B         0 B   "].
Proof. by vm_compute. Qed.
